(* ===== verification/_CoqProject ===== *)
-Q . S2P
Prelude.v
GoErrors.v
GoTime.v
GoText.v
GoStrings.v
Float64.v
GoParse.v
GoFlag.v
FormatFloat.v
Json.v
JsonEncode.v
JsonDecode.v
Mime.v
JsonTheorems.v
JsonValid.v
JsonIndent.v
Delivery.v
Schema.v
Tx.v
Invariant.v
TxLogic.v
Queue.v
QueueSafety.v
QueueSpec.v
QueueRuns.v
Eventing.v
StoreEvents.v
StoreDeliveries.v
StoreEndpoints.v
Minting.v
StoreSafety.v
Frame.v
System.v
Demo.v
Sha256.v
Signature.v
Secure.v
Netip.v
Url.v
UrlTheorems.v
UrlHost.v
Mux.v
MuxTheorems.v
Dialer.v
Dispatcher.v
HttpClient.v
WebhookClient.v
Worker.v
Progress.v
SystemTheorems.v
QueueTheorems.v
WorkerTheorems.v
StoreTheorems.v
Services.v
ServiceTheorems.v
EndpointService.v
TargetTheorems.v
WebhookTheorems.v
EndpointTheorems.v
Bench.v
Config.v
BuildInfo.v
Database.v
Main.v
Process.v
ConfigTheorems.v
ReadOnly.v
Api.v
ApiServices.v
ApiServer.v
Routes.v
ApiDemo.v
ApiTheorems.v
ApiDecode.v
ApiAnswers.v
ApiStore.v
Metrics.v
BenchClient.v
BenchBody.v
BenchClientTheorems.v
