(* ===== verification/Prelude.v ===== *)
(** * RelayForge: a verification development (root file)

    RelayForge accepts events over HTTP, stores them with one delivery each in
    PostgreSQL and has workers deliver them as signed webhooks, with retries,
    leases and a circuit breaker per endpoint. This library models its Go code,
    the statements it sends to the database and the schema behind them, and
    proves the properties that make it correct.

    ** How the program is put together

    A request goes through the API (src/internal/api), a service
    (src/internal/eventing, endpoint, delivery/management.go) and the store
    (src/internal/store). The worker pool (src/internal/worker) claims
    deliveries from the store, hands them to the dispatcher
    (src/internal/webhook) and reports the outcome to the store. All parts meet
    in the database only: the model follows this. An operation of the store is a
    computation in the monad [Tx.M] over one connection: a durable database, the
    working copy of the open transaction, a list of faults (each call of the
    database may fail; a commit may fail before or after it took effect) and a
    supply of uuids. [System.step] runs one whole operation, with any
    parameters, clock, locked rows and faults; [System.reachable] states are
    those of any sequence of steps, so that the interleavings of workers and
    requests are the sequences of their transactions.

    ** Files and the code they model

    - Prelude, GoErrors, GoTime, GoText, GoStrings, GoParse, GoFlag, Float64,
      FormatFloat, Mime: the Go language and its standard library as far as the
      code uses it (integers at their width, errors and wrapping, durations and
      monotonic clocks, UTF-8, base64, strconv and time parsers, package flag,
      IEEE-754 binary64 with its rounding and its shortest decimal form, media
      types).
    - Json, JsonEncode, JsonDecode: encoding/json (the scanner with its error
      texts, the printer, the streaming decoder with DisallowUnknownFields).
      JsonTheorems, JsonValid: strings read back, a streamed body against
      unmarshalling, every printed value is valid. JsonIndent: indented output.
    - Delivery: delivery/model.go and policy.go. Schema: migrations/001_init
      (tables as finite maps, every CHECK, unique and foreign key). Tx, TxLogic:
      pgx transactions and a program logic for them.
    - Queue, Eventing, StoreEvents, StoreDeliveries, StoreEndpoints: the store,
      one definition per SQL statement and per method. Invariant: the database
      invariant [db_ok]. QueueSafety, QueueSpec, QueueRuns, Minting, StoreSafety,
      Frame, ReadOnly: each operation preserves it, the rows it may change, the
      uuids it draws, the operations that only read. System: the transition
      system. Progress: a delivery that is due is claimed.
    - Netip (net/netip), Url (net/url), HttpClient (net/http's client and
      transport: requests, redirects, dialed and reused connections), Mux
      (net/http's ServeMux), as far as the code uses them. UrlTheorems, UrlHost:
      what is printed parses back. MuxTheorems: what a registered pattern
      matches, and that cleaning a clean path does nothing.
    - Sha256, Signature (webhook/signature.go), Secure (secure/box.go), Dialer
      (webhook/dialer.go), Dispatcher (webhook/dispatcher.go: one attempt),
      WebhookClient (the same file: the dispatcher's construction, its client and
      the connections of a delivery), Worker (worker/pool.go).
    - Services (eventing/service.go, delivery/management.go), EndpointService
      (endpoint/service.go), Api, ApiServer, ApiServices (api), Metrics
      (observability/metrics.go), BuildInfo (buildinfo), Config
      (config/config.go), Database (database/database.go), Main
      (cmd/relayforge: building the parts, releasing them, the exit), Process
      (cmd/relayforge and worker/pool.go: the goroutines, channels and the
      shutdown), Bench, BenchClient (cmd/relaybench).
    - Routes: the reference for the two multiplexers of api/server.go, a table of
      resources with the methods each one offers.
    - Demo: a concrete execution, on the concrete environment of Tx; ApiDemo: a
      concrete HTTP environment. The witnesses evaluate on them.
    - SystemTheorems, QueueTheorems, StoreTheorems, WorkerTheorems,
      TargetTheorems, WebhookTheorems, ServiceTheorems, EndpointTheorems,
      ApiTheorems, ApiDecode, ApiAnswers, ApiStore, ConfigTheorems, BenchBody,
      BenchClientTheorems: the theorems. Those on one file's functions alone
      stand in that file.

    ** What the theorems show

    - The queue: the invariant of every reachable database; a lease excludes
      other workers until it expires; no delivery is stuck; every attempt is
      recorded once; events and attempts are never lost and deliveries only move
      along permitted transitions, each operation making its own change and no
      other ([Frame], over the row relations of [QueueSpec]); the exact effect of
      [ClaimDelivery] with its recovery, [FinishAttempt] (also for a stale lease)
      and of every branch of [EnqueueEvent], [ReplayDelivery] and [GetDelivery],
      stated column by column; the circuit breaker as [updateCircuit] drives it;
      idempotency across whole executions; an operation that fails changes
      nothing.
    - The workers: a turn on a healthy connection, with a sound result, completes
      and is recorded as this delivery's attempt; the loop only takes steps of the system; its reports pass the store's checks.
    - The webhooks: a delivery, from the stored target through the client, its
      pool and the transport, dials and speaks to checked addresses only,
      whatever the resolver answers, with the blocked ranges given in numbers; the
      target an endpoint was stored with is never refused by the dispatcher;
      results are well formed; a sealed secret opens only under its own context; a
      signature determines its message; back-off is the capped exponential, its
      jitter stays within bounds despite rounding.
    - The services and the API: which bodies are decoded, that every answer is
      one response with one valid JSON text of what the service returned, what
      each outcome is answered; what is created or published can be read back;
      the secret shown once is the one webhooks are signed with; nothing under
      /v1/ happens without the key, and without it only the readiness check and
      the metrics reach the database; the
      routes are those of a table of resources, with the
      status and the Allow header of what is not in it; GET changes nothing; the
      access log is truthful.
    - The process: a configuration that loads is refused by no part [run] builds
      but the database it opens; [run] releases all it acquired; every shutdown
      ends within a number of steps linear in the requests and workers, whatever
      the parts left running still do, with the result its history determines.
    - Metrics, load generator: a scrape never fails, is described in advance and
      gives each gauge its own count;
      observers give the labels their collectors were declared with; the pipeline
      terminates drained, the results closed after the last worker is done; what it prints is one valid JSON text that accounts for
      every request, with figures that parse to the numbers they were printed
      from; the flags read back the command line that spells a configuration.

    ** Parameters

    Classes stand for code outside the repository, with laws that state its
    documented behaviour where a proof needs it: [Postgres] (what the column
    types accept, scan order), [Uuids] and [UuidParser] (github.com/google/uuid),
    [AEAD] (AES-GCM), [UnicodeTables] and [UnicodeText] (Unicode's tables),
    [HttpOutput] (what net/http's server makes of a write, and how long a
    request takes), [Zone] (the
    process's time zone), [MapOrder] (Go's order of a range over a map),
    [GoTarget] (fused multiplication and out-of-range conversions). [WorkerQueue],
    [EventRepository], [DeliveryRepository], [EndpointRepository],
    [ApiEndpoints], [ApiEvents], [ApiDeliveries] and [StatsProvider] are the
    program's own interfaces; the store and the services are their instances.
    Clocks, random bytes, the resolver, the dialer, the proxy of the environment,
    the form of a host in ASCII (golang.org/x/net/idna), the functions of pgxpool
    and the default buckets of the Prometheus client are arguments. What a server
    answers on a connection is left open: the exchange is a relation.

    ** Bounds and fuel

    Loops of the code are structural recursions on the data they visit.
    [Delivery.backoff_loop] has one unit of fuel per attempt before the current
    one, as the loop has; [GoParse.duration_items] has one per byte, and every
    turn consumes a byte ([duration_items_fuel]), and so has [Mime.media_params]
    ([media_params_fuel]); [FormatFloat.shortest] has one per decimal place from
    the first to the last the value has ([shortest_from_spec]); a worker's loop is
    given as the list of its turns. The load generator's pipeline is a relation,
    with a measure that every move decreases; so is the running process, with
    [Process.left_to_do] for the moves of a shutdown. Percentiles are proved for
    up to [2^46] samples, which the limit of 1000000 requests is below.

    ** Not modelled

    - Logging other than the access log's line, and the handler that serves a
      scrape (promhttp).
    - The JSON package is the default one of the toolchain (not the jsonv2
      experiment).
    - TLS and the bytes on a connection. The reason netip gives inside the
      error of a host that does not parse. What ServeMux does on registering
      patterns that conflict: it panics, and those of the API do not conflict.
    - Connections of the pool that handlers still hold when the process has
      given up waiting for them.
    - Cancellation inside a database call beyond the error it makes the call
      return; deadlines, which are part of what the calls answer.
    - Isolation of concurrent transactions below the level of whole
      transactions: row locks are held to the commit, and the rows skipped by
      SKIP LOCKED are an argument of the claim. *)

From Stdlib Require Export ZArith Lia.
From Stdlib Require Export Strings.String Strings.Byte.
From stdpp Require Export base gmap sets list strings sorting pretty.

#[global] Open Scope Z_scope.

(** ** Machine integers *)

(** Go's [int], [int64] and [time.Duration] are 64-bit two's complement on the
    supported targets; SQL [integer] is 32-bit and [smallint] 16-bit. *)
Definition MaxInt16 : Z := 32767.
Definition MaxInt32 : Z := 2147483647.
Definition MinInt32 : Z := -2147483648.
Definition MaxInt64 : Z := 9223372036854775807.
Definition MinInt64 : Z := -9223372036854775808.

(** Two's complement wrap-around of an exact result to 64 (32) bits. *)
Definition wrap64 (z : Z) : Z := (z + 2 ^ 63) mod 2 ^ 64 - 2 ^ 63.
Definition wrap32 (z : Z) : Z := (z + 2 ^ 31) mod 2 ^ 32 - 2 ^ 31.

Definition in_int64 (z : Z) : Prop := MinInt64 <= z <= MaxInt64.
Definition in_int32 (z : Z) : Prop := MinInt32 <= z <= MaxInt32.

(** ** Results of fallible Go calls: a value or an error *)

Inductive result (E A : Type) : Type :=
  | Ok (a : A)
  | Err (e : E).
Arguments Ok {E A} a.
Arguments Err {E A} e.

Definition is_ok {E A} (r : result E A) : bool := match r with Ok _ => true | Err _ => false end.

(** ** Automation *)

Create HintDb relay.
Create Rewrite HintDb relay.

(** Split conjunctions, unpack existentials and injective equations. *)
Ltac crush :=
  repeat match goal with
         | H : _ ∧ _ |- _ => destruct H
         | H : ∃ _, _ |- _ => destruct H
         | H : Some _ = Some _ |- _ => injection H as H; subst
         | H : Ok _ = Ok _ |- _ => injection H as H; subst
         | H : Err _ = Err _ |- _ => injection H as H; subst
         | H : Ok _ = Err _ |- _ => discriminate H
         | H : Err _ = Ok _ |- _ => discriminate H
         | H : Some _ = None |- _ => discriminate H
         | H : None = Some _ |- _ => discriminate H
         | H : true = false |- _ => discriminate H
         | H : false = true |- _ => discriminate H
         | H : (_, _) = (_, _) |- _ => injection H as H; subst
         end.

(** Turn boolean comparisons in the context into propositions on [Z]. *)
Ltac zbool :=
  repeat match goal with
         | H : (_ && _)%bool = true |- _ => apply andb_true_iff in H; destruct H
         | H : (_ && _)%bool = false |- _ => apply andb_false_iff in H
         | H : (_ || _)%bool = false |- _ => apply orb_false_iff in H; destruct H
         | H : (_ || _)%bool = true |- _ => apply orb_true_iff in H
         | H : negb _ = true |- _ => apply negb_true_iff in H
         | H : negb _ = false |- _ => apply negb_false_iff in H
         | H : (_ <? _) = true |- _ => apply Z.ltb_lt in H
         | H : (_ <? _) = false |- _ => apply Z.ltb_ge in H
         | H : (_ <=? _) = true |- _ => apply Z.leb_le in H
         | H : (_ <=? _) = false |- _ => apply Z.leb_gt in H
         | H : (_ =? _) = true |- _ => apply Z.eqb_eq in H
         | H : (_ =? _) = false |- _ => apply Z.eqb_neq in H
         | H : bool_decide _ = true |- _ => apply bool_decide_eq_true in H
         | H : bool_decide _ = false |- _ => apply bool_decide_eq_false in H
         end.

(** ** Lemmas on machine integers *)

Lemma wrap64_id (z : Z) : in_int64 z → wrap64 z = z.
Proof.
  unfold in_int64, wrap64, MinInt64, MaxInt64. intros H.
  rewrite Z.mod_small; lia.
Qed.

Lemma wrap64_range (z : Z) : in_int64 (wrap64 z).
Proof.
  unfold in_int64, wrap64, MinInt64, MaxInt64.
  pose proof (Z.mod_pos_bound (z + 2 ^ 63) (2 ^ 64)). lia.
Qed.

Lemma wrap32_id (z : Z) : in_int32 z → wrap32 z = z.
Proof.
  unfold in_int32, wrap32, MinInt32, MaxInt32. intros H.
  rewrite Z.mod_small; lia.
Qed.

#[export] Hint Resolve wrap64_range : relay.

(** Filtering keeps the keys of an association list distinct. *)
Lemma NoDup_keys_filter {A B} (p : A * B → bool) (l : list (A * B)) :
  NoDup (map fst l) → NoDup (map fst (List.filter p l)).
Proof.
  induction l as [|x l IH]; cbn; intros Hl; [constructor|].
  apply NoDup_cons in Hl as [Hx Hl]. destruct (p x); cbn; [|by apply IH].
  constructor; [|by apply IH]. intros Hin%list_elem_of_fmap. destruct Hin as (y & E & Hy).
  apply Hx. rewrite E. apply list_elem_of_fmap. exists y. split; [done|].
  apply list_elem_of_In in Hy. apply filter_In in Hy as [Hy _]. by apply list_elem_of_In.
Qed.

(** ** Searching a table

    A unique-key lookup by a predicate on rows: the first entry, in the order
    of the map's own enumeration, that satisfies it. *)

Definition map_find {A} (P : string → A → bool) (m : gmap string A) : option (string * A) :=
  head (List.filter (λ kv, P kv.1 kv.2) (map_to_list m)).

Lemma map_find_Some {A} (P : string → A → bool) (m : gmap string A) k x :
  map_find P m = Some (k, x) → m !! k = Some x ∧ P k x = true.
Proof.
  unfold map_find. intros H.
  destruct (List.filter _ _) as [|[k' x'] l] eqn:E; simpl in H; [done|].
  crush.
  assert (In (k, x) (List.filter (λ kv, P kv.1 kv.2) (map_to_list m))) as Hin
    by (rewrite E; left; done).
  apply filter_In in Hin as [Hin HP]. split; [|done].
  apply elem_of_map_to_list, list_elem_of_In, Hin.
Qed.

Lemma map_find_None {A} (P : string → A → bool) (m : gmap string A) k x :
  map_find P m = None → m !! k = Some x → P k x = false.
Proof.
  unfold map_find. intros H Hk.
  destruct (List.filter _ _) as [|kv l] eqn:E; simpl in H; [|done].
  destruct (P k x) eqn:HP; [|done]. exfalso.
  assert (In (k, x) (List.filter (λ kv, P kv.1 kv.2) (map_to_list m))) as Hin.
  { apply filter_In. split; [|done]. apply list_elem_of_In, elem_of_map_to_list, Hk. }
  rewrite E in Hin. destruct Hin.
Qed.

(** When at most one entry satisfies the predicate, the search finds it. *)
Lemma map_find_unique {A} (P : string → A → bool) (m : gmap string A) k x :
  (∀ k' x', m !! k' = Some x' → P k' x' = true → k' = k) →
  m !! k = Some x → P k x = true → map_find P m = Some (k, x).
Proof.
  intros Huniq Hk HP. destruct (map_find P m) as [[k' x']|] eqn:E.
  - apply map_find_Some in E as [Hk' HP'].
    assert (k' = k) as -> by eauto. congruence.
  - rewrite (map_find_None _ _ _ _ E Hk) in HP. done.
Qed.
