(* ===== verification/GoErrors.v ===== *)
(** * Go error values

    Errors as the repository builds them: package sentinels created once with
    [errors.New] and compared by identity, errors created inside a function
    body (never identical to a sentinel), wrapping with [fmt.Errorf] and [%w],
    and [errors.Join]. [errors_is] is [errors.Is]; [error_text] is [Error()]. *)

From S2P Require Import Prelude.

(** A sentinel's identity is the qualified name of its variable. *)
Inductive error : Type :=
  | Sentinel (name text : string)
  | New (text : string)
  | Wrap (prefix : string) (e : error) (suffix : string)
  | Join (es : list error).

Definition newline : string := string_of_list_byte [x0a].

Fixpoint error_text (e : error) : string :=
  match e with
  | Sentinel _ text => text
  | New text => text
  | Wrap p e' s => p +:+ error_text e' +:+ s
  | Join es => String.concat newline (map error_text es)
  end.

(** [errors.Is(e, target)] for a sentinel target. *)
Fixpoint errors_is (e target : error) : bool :=
  match e with
  | Sentinel n _ => match target with Sentinel n' _ => bool_decide (n = n') | _ => false end
  | New _ => false
  | Wrap _ e' _ => errors_is e' target
  | Join es => existsb (λ e', errors_is e' target) es
  end.

(** [fmt.Errorf("msg: %w", err)]. *)
Definition wrapf (msg : string) (e : error) : error := Wrap (msg +:+ ": ") e "".

(** [fmt.Errorf("%w: msg", err)]. *)
Definition wrap_with (e : error) (msg : string) : error := Wrap "" e (": " +:+ msg).

Abbreviation res A := (result error A).

Definition map_err {A} (f : error → error) (r : res A) : res A :=
  match r with Ok a => Ok a | Err e => Err (f e) end.

#[export] Instance res_ret : MRet (result error) := λ A a, Ok a.
#[export] Instance res_bind : MBind (result error) := λ A B f r,
  match r with Ok a => f a | Err e => Err e end.

Lemma res_bind_Ok {A B} (r : res A) (f : A → res B) (b : B) :
  (r ≫= f) = Ok b → ∃ a, r = Ok a ∧ f a = Ok b.
Proof. destruct r as [a|e]; cbn; [eauto|done]. Qed.

Lemma errors_is_wrapf msg e t : errors_is (wrapf msg e) t = errors_is e t.
Proof. done. Qed.

Lemma errors_is_wrap_with msg e t : errors_is (wrap_with e msg) t = errors_is e t.
Proof. done. Qed.

#[export] Hint Rewrite errors_is_wrapf errors_is_wrap_with : relay.
