(* ===== verification/GoTime.v ===== *)
(** * time.Duration and time.Time

    A [Duration] is an [int64] count of nanoseconds. A [Time] carries a wall
    clock reading (nanoseconds since the Unix epoch, exact) and, when it comes
    from [time.Now], a monotonic reading: [Sub], [Before] and [After] compare
    the monotonic readings when both values have one, and the wall readings
    otherwise, which is what the package documents. *)

From S2P Require Import Prelude.

Abbreviation Duration := Z.

Definition Nanosecond : Duration := 1.
Definition Microsecond : Duration := 1000.
Definition Millisecond : Duration := 1000000.
Definition Second : Duration := 1000000000.
Definition Minute : Duration := 60 * Second.
Definition Hour : Duration := 60 * Minute.

(** [d.Milliseconds()]: [int64(d) / 1e6], which truncates toward zero. *)
Definition Milliseconds (d : Duration) : Z := Z.quot d Millisecond.

Record Time : Type := mkTime { wall : Z; mono : option Z }.

#[export] Instance Time_eq_dec : EqDecision Time.
Proof. solve_decision. Defined.

(** The zero [Time] is January 1, year 1, 00:00:00 UTC. *)
Definition zero_wall : Z := -62135596800 * Second.
Definition zero_time : Time := mkTime zero_wall None.

Definition IsZero (t : Time) : bool := wall t =? zero_wall.

(** The reading the comparison of two times uses. *)
Definition readings (t u : Time) : Z * Z :=
  match mono t, mono u with
  | Some a, Some b => (a, b)
  | _, _ => (wall t, wall u)
  end.

Definition Before (t u : Time) : bool := let '(a, b) := readings t u in a <? b.
Definition After (t u : Time) : bool := let '(a, b) := readings t u in b <? a.

(** [t.Sub(u)] saturates at the extreme durations. *)
Definition Sub (t u : Time) : Duration :=
  let '(a, b) := readings t u in Z.max MinInt64 (Z.min MaxInt64 (a - b)).

Definition Add (t : Time) (d : Duration) : Time :=
  mkTime (wall t + d) (option_map (λ m, m + d) (mono t)).

(** [t.UTC()], which strips the monotonic reading. *)
Definition UTC (t : Time) : Time := mkTime (wall t) None.

(** [t.Unix()]: whole seconds, rounded down. *)
Definition Unix (t : Time) : Z := wall t / Second.

Lemma After_Add (t : Time) (d : Duration) : After (Add t d) t = (0 <? d).
Proof.
  destruct t as [w [m|]]; unfold After, Add, readings; simpl;
    destruct (Z.ltb_spec 0 d); [apply Z.ltb_lt|apply Z.ltb_ge|apply Z.ltb_lt|apply Z.ltb_ge]; lia.
Qed.

Lemma Sub_nonneg (t u : Time) : Before t u = false → 0 <= Sub t u.
Proof.
  unfold Before, Sub. destruct (readings t u) as [a b]. unfold MinInt64, MaxInt64.
  intros H%Z.ltb_ge. lia.
Qed.

Lemma Milliseconds_nonneg (d : Duration) : 0 <= d → 0 <= Milliseconds d.
Proof. intros. apply Z.quot_pos; unfold Millisecond; lia. Qed.

Lemma Milliseconds_pos (d : Duration) : Millisecond <= d → 1 <= Milliseconds d.
Proof. intros. apply Z.quot_le_lower_bound; unfold Millisecond in *; lia. Qed.

#[export] Hint Resolve Sub_nonneg Milliseconds_nonneg Milliseconds_pos : relay.
