(* ===== verification/GoText.v ===== *)
(** * Text: UTF-8, strings and encodings of the Go standard library

    [string] is a Go string and [bytes] a [[]byte]; both are byte sequences.
    A byte sequence is decoded into chunks, each a well-formed rune with its
    encoding or one ill-formed byte, exactly as [utf8.DecodeRune] consumes it;
    the functions of [strings], [unicode/utf8] and [encoding/hex] the
    repository calls are defined on that decoding. *)

From S2P Require Import Prelude.

Abbreviation bytes := (list byte).

Definition bytes_of (s : string) : bytes := list_byte_of_string s.
Definition string_of (b : bytes) : string := string_of_list_byte b.

#[export] Instance byte_eq_dec : EqDecision byte := Byte.byte_eq_dec.

Definition zb (b : byte) : Z := Z.of_N (Byte.to_N b).

(** [len] of a string or a slice. *)
Definition len (b : bytes) : Z := Z.of_nat (length b).
Definition strlen (s : string) : Z := Z.of_nat (String.length s).

(** ** UTF-8 *)

Inductive chunk : Type :=
  | Rune (r : Z) (enc : bytes)
  | Bad (b : byte).

Definition chunk_bytes (c : chunk) : bytes :=
  match c with Rune _ enc => enc | Bad b => [b] end.

(** The rune a [range] loop or [DecodeRune] yields: U+FFFD for a bad byte. *)
Definition RuneError : Z := 65533.
Definition chunk_rune (c : chunk) : Z :=
  match c with Rune r _ => r | Bad _ => RuneError end.

Definition is_rune (c : chunk) : bool := match c with Rune _ _ => true | Bad _ => false end.

Definition between (lo hi : Z) (b : byte) : bool := (lo <=? zb b) && (zb b <=? hi).
Definition cont (b : byte) : bool := between 128 191 b.

(** The range of a legal second byte for each lead byte (the accept ranges of
    package utf8: overlong forms, surrogates and values above U+10FFFF are
    refused). *)
Definition second3 (b0 b1 : byte) : bool :=
  if zb b0 =? 224 then between 160 191 b1
  else if zb b0 =? 237 then between 128 159 b1
  else cont b1.
Definition second4 (b0 b1 : byte) : bool :=
  if zb b0 =? 240 then between 144 191 b1
  else if zb b0 =? 244 then between 128 143 b1
  else cont b1.

Definition lead2 (b : byte) : bool := between 194 223 b.
Definition lead3 (b : byte) : bool := between 224 239 b.
Definition lead4 (b : byte) : bool := between 240 244 b.

Definition rune2 (b0 b1 : byte) : Z := (zb b0 - 192) * 64 + (zb b1 - 128).
Definition rune3 (b0 b1 b2 : byte) : Z :=
  (zb b0 - 224) * 4096 + (zb b1 - 128) * 64 + (zb b2 - 128).
Definition rune4 (b0 b1 b2 b3 : byte) : Z :=
  (zb b0 - 240) * 262144 + (zb b1 - 128) * 4096 + (zb b2 - 128) * 64 + (zb b3 - 128).

Fixpoint decode (l : bytes) : list chunk :=
  match l with
  | [] => []
  | b0 :: l0 =>
      if zb b0 <? 128 then Rune (zb b0) [b0] :: decode l0
      else match l0 with
           | [] => [Bad b0]
           | b1 :: l1 =>
               if lead2 b0 && cont b1 then Rune (rune2 b0 b1) [b0; b1] :: decode l1
               else match l1 with
                    | [] => Bad b0 :: decode l0
                    | b2 :: l2 =>
                        if lead3 b0 && second3 b0 b1 && cont b2
                        then Rune (rune3 b0 b1 b2) [b0; b1; b2] :: decode l2
                        else match l2 with
                             | [] => Bad b0 :: decode l0
                             | b3 :: l3 =>
                                 if lead4 b0 && second4 b0 b1 && cont b2 && cont b3
                                 then Rune (rune4 b0 b1 b2 b3) [b0; b1; b2; b3] :: decode l3
                                 else Bad b0 :: decode l0
                             end
                    end
           end
  end.

Definition encode (cs : list chunk) : bytes := concat (map chunk_bytes cs).

Definition Valid (b : bytes) : bool := forallb is_rune (decode b).
Definition ValidString (s : string) : bool := Valid (bytes_of s).
Definition RuneCountInString (s : string) : Z := Z.of_nat (length (decode (bytes_of s))).

(** The runes a [for _, r := range s] loop visits. *)
Definition range_runes (s : string) : list Z := map chunk_rune (decode (bytes_of s)).

(** [strings.ToValidUTF8(s, repl)]: every maximal run of bad bytes becomes one
    copy of [repl]. *)
Fixpoint replace_runs (repl : bytes) (in_run : bool) (cs : list chunk) : bytes :=
  match cs with
  | [] => []
  | Rune _ enc :: cs' => enc ++ replace_runs repl false cs'
  | Bad _ :: cs' => (if in_run then [] else repl) ++ replace_runs repl true cs'
  end.
Definition ToValidUTF8 (s : bytes) (repl : bytes) : bytes := replace_runs repl false (decode s).

(** ** strings.TrimSpace *)

(** [unicode.IsSpace]: the White_Space property. *)
Definition IsSpace (r : Z) : bool :=
  ((9 <=? r) && (r <=? 13)) || (r =? 32) || (r =? 133) || (r =? 160) || (r =? 5760)
  || ((8192 <=? r) && (r <=? 8202)) || (r =? 8232) || (r =? 8233) || (r =? 8239)
  || (r =? 8287) || (r =? 12288).

Definition space_chunk (c : chunk) : bool := is_rune c && IsSpace (chunk_rune c).

Fixpoint drop_while {A} (p : A → bool) (l : list A) : list A :=
  match l with
  | [] => []
  | x :: l' => if p x then drop_while p l' else l
  end.

Definition trim_chunks (cs : list chunk) : list chunk :=
  rev (drop_while space_chunk (rev (drop_while space_chunk cs))).

Definition TrimSpace (s : string) : string := string_of (encode (trim_chunks (decode (bytes_of s)))).

(** ** encoding/hex and strconv *)

Definition hex_digit (z : Z) : byte :=
  match Byte.of_N (Z.to_N (if z <? 10 then 48 + z else 87 + z)) with Some b => b | None => x30 end.

Definition EncodeToString (b : bytes) : string :=
  string_of (concat (map (λ x, [hex_digit (zb x / 16); hex_digit (zb x mod 16)]) b)).

(** [strconv.FormatInt(i, 10)], [strconv.Itoa] and [%d]: decimal digits, with a
    leading minus sign for a negative number. *)
Definition FormatInt (z : Z) : string := pretty z.

#[global] Arguments zb : simpl never.
#[global] Arguments between : simpl never.
#[global] Arguments lead2 : simpl never.
#[global] Arguments lead3 : simpl never.
#[global] Arguments lead4 : simpl never.
#[global] Arguments second3 : simpl never.
#[global] Arguments second4 : simpl never.
#[global] Arguments cont : simpl never.
#[global] Arguments rune2 : simpl never.
#[global] Arguments rune3 : simpl never.
#[global] Arguments rune4 : simpl never.

(** ** Lemmas *)

Lemma zb_range (b : byte) : 0 <= zb b < 256.
Proof. unfold zb. pose proof (Byte.to_N_bounded b). lia. Qed.

Lemma zb_inj a b : zb a = zb b → a = b.
Proof.
  unfold zb. intros H%N2Z.inj. apply (f_equal Byte.of_N) in H. rewrite !Byte.of_to_N in H. by injection H.
Qed.

Lemma bytes_of_string_of (b : bytes) : bytes_of (string_of b) = b.
Proof. apply list_byte_of_string_of_list_byte. Qed.

Lemma string_of_bytes_of (s : string) : string_of (bytes_of s) = s.
Proof. apply string_of_list_byte_of_string. Qed.

Lemma length_bytes_of (s : string) : length (bytes_of s) = String.length s.
Proof.
  unfold bytes_of, list_byte_of_string. rewrite length_map.
  induction s as [|c s IH]; simpl; [done|]. by rewrite IH.
Qed.

Lemma bytes_of_app (s t : string) : bytes_of (s +:+ t) = bytes_of s ++ bytes_of t.
Proof.
  unfold bytes_of, list_byte_of_string. induction s as [|c s IH]; simpl; [done|].
  unfold String.append in *. simpl. by rewrite IH.
Qed.

Lemma bytes_of_inj (s t : string) : bytes_of s = bytes_of t → s = t.
Proof. intros H. by rewrite <- (string_of_bytes_of s), H, string_of_bytes_of. Qed.

(** Splits every condition of the decoder that the hypothesis [H] looks at. *)
Ltac split_decode H :=
  repeat match type of H with
    | context [if ?c then _ else _] => destruct c eqn:?
    end.

(** A well-formed rune decodes to itself in front of anything. *)
Lemma decode_rune_app (r : Z) (enc l : bytes) :
  decode enc = [Rune r enc] → decode (enc ++ l) = Rune r enc :: decode l.
Proof.
  intros H. destruct enc as [|b0 [|b1 [|b2 [|b3 [|b4 enc]]]]]; [done|..]; cbn [decode app] in *;
    split_decode H; simplify_eq; done.
Qed.

(** One step of the decoder at a time: the induction every lemma about
    [decode] uses. *)
Lemma decode_ind (P : bytes → list chunk → Prop) :
  P [] [] →
  (∀ b l, 128 <= zb b → P l (decode l) → P (b :: l) (Bad b :: decode l)) →
  (∀ r enc l, decode enc = [Rune r enc] → P l (decode l) →
     P (enc ++ l) (Rune r enc :: decode l)) →
  ∀ l, P l (decode l).
Proof.
  intros Hnil Hbad Hrune l.
  induction l as [l IH] using (well_founded_induction (Wf_nat.well_founded_ltof _ (@length byte))).
  unfold Wf_nat.ltof in IH.
  assert (rune : ∀ r enc l', l = enc ++ l' → decode enc = [Rune r enc] → P l (decode l)).
  { intros r enc l' -> E. rewrite (decode_rune_app _ _ _ E). apply Hrune; [done|]. apply IH.
    rewrite length_app. destruct enc; [done|cbn; lia]. }
  destruct l as [|b0 l0]; [done|].
  destruct (zb b0 <? 128) eqn:E0.
  { apply (rune (zb b0) [b0] l0); [done|]. cbn [decode]. by rewrite E0. }
  assert (bad : decode (b0 :: l0) = Bad b0 :: decode l0 → P (b0 :: l0) (decode (b0 :: l0))).
  { intros ->. apply Hbad, IH; [by apply Z.ltb_ge|cbn; lia]. }
  destruct l0 as [|b1 l1].
  { apply bad. cbn [decode]. by rewrite E0. }
  destruct (lead2 b0 && cont b1) eqn:E1.
  { eapply (rune _ [b0; b1] l1); [done|]. cbn [decode]. by rewrite E0, E1. }
  destruct l1 as [|b2 l2].
  { apply bad. cbn [decode]. by rewrite E0, E1. }
  destruct (lead3 b0 && second3 b0 b1 && cont b2) eqn:E2.
  { eapply (rune _ [b0; b1; b2] l2); [done|]. cbn [decode]. by rewrite E0, E1, E2. }
  destruct l2 as [|b3 l3].
  { apply bad. cbn [decode]. by rewrite E0, E1, E2. }
  destruct (lead4 b0 && second4 b0 b1 && cont b2 && cont b3) eqn:E3.
  { eapply (rune _ [b0; b1; b2; b3] l3); [done|]. cbn [decode]. by rewrite E0, E1, E2, E3. }
  apply bad. cbn [decode]. by rewrite E0, E1, E2, E3.
Qed.

(** Decoding loses nothing. *)
Lemma encode_decode (l : bytes) : encode (decode l) = l.
Proof.
  apply (decode_ind (λ l cs, encode cs = l)); unfold encode; cbn; intros; by f_equal.
Qed.

Definition good_chunk (c : chunk) : Prop :=
  match c with Rune r enc => decode enc = [Rune r enc] | Bad _ => True end.

Lemma decode_good (l : bytes) : Forall good_chunk (decode l).
Proof.
  apply (decode_ind (λ _ cs, Forall good_chunk cs)); intros; by constructor.
Qed.

(** A well-formed rune is one ASCII byte, or bytes outside ASCII. *)
Lemma good_rune_bytes r enc :
  good_chunk (Rune r enc) →
  (∃ b, enc = [b] ∧ r = zb b ∧ zb b < 128) ∨ (forallb (λ b, 128 <=? zb b) enc = true ∧ (2 <= length enc)%nat).
Proof.
  cbn. destruct enc as [|b0 [|b1 [|b2 [|b3 [|b4 enc]]]]]; cbn [decode]; intros H; [done|..];
    split_decode H; simplify_eq; zbool; try (left; eexists; split_and!; [done|done|lia]);
    right; (split; [|cbn; lia]); cbn [forallb];
    unfold lead2, lead3, lead4, second3, second4, cont, between in *;
    repeat match goal with H : context [if ?c then _ else _] |- _ => destruct c end; zbool;
    rewrite !andb_true_iff, !Z.leb_le; lia.
Qed.

Lemma good_rune_high r enc : good_chunk (Rune r enc) → (2 <= length enc)%nat → 128 <= r.
Proof.
  cbn. destruct enc as [|b0 [|b1 [|b2 [|b3 [|b4 enc]]]]]; cbn [decode]; intros H Hl; [done|cbn in Hl; lia|..];
    split_decode H; simplify_eq; zbool;
    unfold lead2, lead3, lead4, second3, second4, cont, rune2, rune3, rune4, between in *;
    repeat match goal with H : context [if ?c then _ else _] |- _ => destruct c eqn:? end; zbool; try lia.
Qed.

Lemma good_rune_range r enc : good_chunk (Rune r enc) → 0 <= r <= 1114111.
Proof.
  cbn. pose proof zb_range as Hz. destruct enc as [|b0 [|b1 [|b2 [|b3 [|b4 enc]]]]]; cbn [decode]; intros H; [done|..];
    split_decode H; simplify_eq; zbool;
    unfold lead2, lead3, lead4, second3, second4, cont, rune2, rune3, rune4, between in *;
    repeat match goal with H : context [if ?c then _ else _] |- _ => destruct c eqn:? end; zbool;
    pose proof (Hz b0); lia.
Qed.

(** A byte that belongs to no rune is beyond ASCII. *)
Lemma decode_bad (l : bytes) : Forall (λ c, match c with Bad b => 128 <= zb b | Rune _ _ => True end) (decode l).
Proof. apply (decode_ind (λ _ cs, Forall _ cs)); intros; by constructor. Qed.

(** Encoding a list of well-formed runes and decoding it gives it back. *)
Lemma decode_encode (cs : list chunk) :
  Forall good_chunk cs → forallb is_rune cs = true → decode (encode cs) = cs.
Proof.
  induction 1 as [|c cs Hc _ IH]; [done|]. cbn [forallb]. intros [Hr Hcs]%andb_true_iff.
  destruct c as [r enc|b]; [|done]. unfold encode. cbn [map concat chunk_bytes].
  rewrite (decode_rune_app _ _ _ Hc). f_equal. by apply IH.
Qed.

(** ** ToValidUTF8 *)

Lemma Valid_app_chunks (cs : list chunk) :
  Forall good_chunk cs → forallb is_rune cs = true → Valid (encode cs) = true.
Proof. intros Hg Hr. unfold Valid. by rewrite decode_encode. Qed.

Lemma Valid_app (a b : bytes) : Valid a = true → Valid b = true → Valid (a ++ b) = true.
Proof.
  intros Ha Hb. rewrite <- (encode_decode a), <- (encode_decode b).
  unfold encode. rewrite <- concat_app, <- map_app. apply Valid_app_chunks.
  - apply Forall_app. split; apply decode_good.
  - unfold Valid in *. by rewrite forallb_app, Ha, Hb.
Qed.

Lemma Valid_printable (b : bytes) : forallb (between 32 126) b = true → Valid b = true.
Proof.
  unfold Valid. induction b as [|x b IH]; [done|]. cbn [forallb decode]. intros [Hx Hb]%andb_true_iff.
  unfold between in Hx. zbool. destruct (Z.ltb_spec (zb x) 128); [|lia]. by apply IH.
Qed.

Lemma Valid_good_chunk (r : Z) (enc : bytes) : good_chunk (Rune r enc) → Valid enc = true.
Proof. cbn. unfold Valid. by intros ->. Qed.

Lemma replace_runs_valid (repl : bytes) (b : bool) (cs : list chunk) :
  Valid repl = true → Forall good_chunk cs → Valid (replace_runs repl b cs) = true.
Proof.
  intros Hrepl H. revert b. induction H as [|c cs Hc _ IH]; intros b; [done|].
  destruct c as [r enc|x]; cbn [replace_runs].
  - apply Valid_app; [by eapply Valid_good_chunk|done].
  - apply Valid_app; [by destruct b|done].
Qed.

Lemma ToValidUTF8_valid (s repl : bytes) : Valid repl = true → Valid (ToValidUTF8 s repl) = true.
Proof. intros. apply replace_runs_valid; [done|apply decode_good]. Qed.

Lemma replace_runs_runes (repl : bytes) (b : bool) (cs : list chunk) :
  forallb is_rune cs = true → replace_runs repl b cs = encode cs.
Proof.
  revert b. induction cs as [|[r enc|x] cs IH]; intros b; cbn; [done| |done].
  intros H. unfold encode in *. cbn. f_equal. by apply IH.
Qed.

Lemma ToValidUTF8_id (s repl : bytes) : Valid s = true → ToValidUTF8 s repl = s.
Proof. intros. unfold ToValidUTF8. rewrite replace_runs_runes; [apply encode_decode|done]. Qed.

Lemma replace_runs_length (repl : bytes) (b : bool) (cs : list chunk) :
  (length repl ≥ 1)%nat →
  (length (replace_runs repl b cs) ≤ length repl * length (encode cs))%nat.
Proof.
  intros Hr. revert b. induction cs as [|[r enc|x] cs IH]; intros b;
    unfold encode in *; cbn [replace_runs map chunk_bytes concat]; [cbn; lia|..].
  - rewrite !length_app. specialize (IH false). nia.
  - rewrite !length_app. specialize (IH true). destruct b; cbn; nia.
Qed.

Lemma ToValidUTF8_length (s repl : bytes) :
  (length repl ≥ 1)%nat → (length (ToValidUTF8 s repl) ≤ length repl * length s)%nat.
Proof.
  intros H. unfold ToValidUTF8. rewrite <- (encode_decode s) at 2. by apply replace_runs_length.
Qed.

(** ** TrimSpace on the strings the components build *)

Lemma drop_while_head {A} (p : A → bool) (x : A) (l : list A) :
  p x = false → drop_while p (x :: l) = x :: l.
Proof. cbn. by intros ->. Qed.

(** A string is blank when trimming it leaves nothing. *)
Definition blank (s : string) : bool := bool_decide (TrimSpace s = ""%string).

Lemma drop_while_suffix {A} (p : A → bool) (l : list A) : ∃ l0, l = l0 ++ drop_while p l.
Proof.
  induction l as [|x l [l0 IH]]; cbn; [by exists []|].
  destruct (p x); [exists (x :: l0); cbn; by f_equal|by exists []].
Qed.

Lemma drop_while_nil {A} (p : A → bool) (l : list A) : drop_while p l = [] → forallb p l = true.
Proof. induction l as [|x l IH]; cbn; [done|]. destruct (p x); [done|discriminate]. Qed.

Lemma drop_while_snoc_ne {A} (p : A → bool) (x : A) (l : list A) :
  p x = false → drop_while p (l ++ [x]) ≠ [].
Proof.
  intros Hx. induction l as [|y l IH]; cbn; [by rewrite Hx|].
  destruct (p y); [done|by destruct l].
Qed.

(** A string that starts with a printable ASCII character is not blank. *)
Lemma not_blank_first (b : byte) (l : bytes) :
  (zb b <? 128) = true → IsSpace (zb b) = false → blank (string_of (b :: l)) = false.
Proof.
  intros Hb Hs. unfold blank, TrimSpace. apply bool_decide_eq_false. intros E.
  rewrite bytes_of_string_of in E. cbn [decode] in E. rewrite Hb in E.
  unfold trim_chunks in E. rewrite drop_while_head in E by (unfold space_chunk; cbn; done).
  cbn [rev] in E. set (dw := drop_while _ _) in E.
  assert (dw ≠ []) as Hne by (apply drop_while_snoc_ne; unfold space_chunk; cbn; done).
  assert (Hc : Forall (λ c, chunk_bytes c ≠ []) (rev dw)).
  { apply Forall_rev. destruct (drop_while_suffix space_chunk (rev (decode l) ++ [Rune (zb b) [b]])) as [l0 E0].
    fold dw in E0. assert (Forall (λ c, chunk_bytes c ≠ []) (rev (decode l) ++ [Rune (zb b) [b]])) as HF.
    { apply Forall_app. split; [|by repeat constructor].
      apply Forall_rev. eapply Forall_impl; [apply decode_good|].
      intros [r [|x enc]|x]; cbn; [intros ?; discriminate|done|done]. }
    rewrite E0 in HF. by apply Forall_app in HF as [_ HF]. }
  destruct (rev dw) as [|c cs] eqn:Er; [by apply (f_equal (@rev chunk)) in Er; rewrite rev_involutive in Er|].
  apply Forall_cons in Hc as [Hc _]. unfold encode in E. cbn [map concat] in E.
  destruct (chunk_bytes c); [done|]. discriminate E.
Qed.
