(* ===== verification/GoStrings.v ===== *)
(** * strings and encoding/base64

    The functions of package strings the services and the API call, on byte
    sequences, and the two base64 encodings the repository uses. *)

From S2P Require Import Prelude GoErrors GoText.

(** ** strings *)

Definition prefix_of (p s : bytes) : bool := bool_decide (take (length p) s = p).
Definition HasPrefix (s p : string) : bool := prefix_of (bytes_of p) (bytes_of s).
Definition HasSuffix (s p : string) : bool := prefix_of (rev (bytes_of p)) (rev (bytes_of s)).

Definition TrimPrefix (s p : string) : string :=
  if HasPrefix s p then string_of (drop (String.length p) (bytes_of s)) else s.
Definition TrimSuffix (s p : string) : string :=
  if HasSuffix s p then string_of (take (String.length s - String.length p) (bytes_of s)) else s.

(** [strings.Contains] for a one-byte substring. *)
Definition ContainsByte (s : string) (c : byte) : bool := existsb (λ b, bool_decide (b = c)) (bytes_of s).

(** [strings.Cut] at a one-byte separator. *)
Fixpoint cut_bytes (sep : byte) (s : bytes) : option (bytes * bytes) :=
  match s with
  | [] => None
  | b :: s' => if bool_decide (b = sep) then Some ([], s')
               else '(before, after) ← cut_bytes sep s'; Some (b :: before, after)
  end.
Definition Cut (s : string) (sep : byte) : string * string * bool :=
  match cut_bytes sep (bytes_of s) with
  | Some (before, after) => (string_of before, string_of after, true)
  | None => (s, ""%string, false)
  end.

Lemma cut_bytes_spec sep (s a b : bytes) : cut_bytes sep s = Some (a, b) ↔ s = a ++ sep :: b ∧ sep ∉ a.
Proof.
  revert a. induction s as [|x s IH]; intros a; cbn [cut_bytes].
  - split; [done|]. intros [H _]. by destruct a.
  - destruct (bool_decide_reflect (x = sep)) as [->|Hx].
    + split.
      * intros [= <- <-]. split; [done|apply not_elem_of_nil].
      * intros [E Ha]. destruct a as [|y a]; [by injection E as ->|]. injection E as <- _. exfalso. apply Ha. left.
    + destruct (cut_bytes sep s) as [[a' b']|] eqn:E; cbn.
      * split.
        -- intros [= <- <-]. destruct (proj1 (IH a') eq_refl) as [-> Ha]. split; [done|].
           by intros [?|?]%elem_of_cons.
        -- intros [Hs Ha]. destruct a as [|y a]; [by injection Hs as ->|]. injection Hs as <- ->.
           apply not_elem_of_cons in Ha as [_ Ha]. pose proof (proj2 (IH a) (conj eq_refl Ha)) as [= -> ->]. done.
      * split; [done|]. intros [Hs Ha]. destruct a as [|y a]; [by injection Hs as ->|]. injection Hs as <- ->.
        apply not_elem_of_cons in Ha as [_ Ha]. by pose proof (proj2 (IH a) (conj eq_refl Ha)).
Qed.

Lemma cut_bytes_None sep (s : bytes) : cut_bytes sep s = None ↔ sep ∉ s.
Proof.
  induction s as [|x s IH]; cbn [cut_bytes]; [split; [intros _; apply not_elem_of_nil|done]|].
  rewrite not_elem_of_cons, <- IH. destruct (bool_decide_reflect (x = sep)) as [->|Hx]; [naive_solver|].
  destruct (cut_bytes sep s) as [[a b]|]; cbn; naive_solver.
Qed.

(** [utf8.AppendRune] of a valid code point. *)
Definition byte_of (z : Z) : byte := default x00 (Byte.of_N (Z.to_N (z mod 256))).
Definition encode_rune (r : Z) : bytes :=
  if r <? 128 then [byte_of r]
  else if r <? 2048 then [byte_of (192 + r / 64); byte_of (128 + r mod 64)]
  else if r <? 65536 then [byte_of (224 + r / 4096); byte_of (128 + (r / 64) mod 64); byte_of (128 + r mod 64)]
  else [byte_of (240 + r / 262144); byte_of (128 + (r / 4096) mod 64); byte_of (128 + (r / 64) mod 64);
        byte_of (128 + r mod 64)].

(** [strings.ToLower]: the mapping of Unicode's tables is [unicode_ToLower]; a
    text that is not valid UTF-8 has its bad bytes replaced by U+FFFD. *)
Class UnicodeTables := { unicode_ToLower : Z → Z }.

Class UnicodeLaws `{UnicodeTables} : Prop := {
  ToLower_ascii : ∀ r, 0 <= r < 128 → unicode_ToLower r = if (65 <=? r) && (r <=? 90) then r + 32 else r;
  (** U+0130 and U+212A have small letters in ASCII. *)
  ToLower_beyond : ∀ r, 128 <= r <= 1114111 → 97 <= unicode_ToLower r <= 122 ∨ 128 <= unicode_ToLower r <= 1114111;
}.

Definition lower_ascii (b : byte) : byte := if between 65 90 b then byte_of (zb b + 32) else b.

Definition ToLower `{UnicodeTables} (s : string) : string :=
  let b := bytes_of s in
  if forallb (λ x, zb x <? 128) b then string_of (map lower_ascii b)
  else string_of (concat (map (λ c, encode_rune (unicode_ToLower (chunk_rune c))) (decode b))).

(** ** base64 *)

(** The 64 digits; the last two differ between the alphabets. *)
Definition base64_digit (d62 d63 : byte) (z : Z) : byte :=
  if z <? 26 then byte_of (65 + z)
  else if z <? 52 then byte_of (71 + z)
  else if z <? 62 then byte_of (z - 4)
  else if z =? 62 then d62 else d63.

Definition base64_value (d62 d63 : byte) (b : byte) : option Z :=
  if between 65 90 b then Some (zb b - 65)
  else if between 97 122 b then Some (zb b - 71)
  else if between 48 57 b then Some (zb b + 4)
  else if bool_decide (b = d62) then Some 62
  else if bool_decide (b = d63) then Some 63
  else None.

(** [base64.RawURLEncoding.EncodeToString]. *)
Fixpoint base64_raw_url (l : bytes) : bytes :=
  let d := base64_digit x2d x5f in
  match l with
  | a :: b :: c :: l' =>
      let n := zb a * 65536 + zb b * 256 + zb c in
      d (n / 262144) :: d ((n / 4096) mod 64) :: d ((n / 64) mod 64) :: d (n mod 64) :: base64_raw_url l'
  | [a; b] => let n := zb a * 65536 + zb b * 256 in [d (n / 262144); d ((n / 4096) mod 64); d ((n / 64) mod 64)]
  | [a] => let n := zb a * 65536 in [d (n / 262144); d ((n / 4096) mod 64)]
  | [] => []
  end.

Definition CorruptInput (offset : Z) : error :=
  New ("illegal base64 data at input byte " +:+ FormatInt offset).

Definition line_break (b : byte) : bool := bool_decide (b ∈ [x0a; x0d]).

(** The padding that ends the input after two ([2]) or three digits; [si] is
    the offset of the first byte of [s]. *)
Fixpoint skip_breaks (s : bytes) (si : Z) : bytes * Z :=
  match s with
  | b :: s' => if line_break b then skip_breaks s' (si + 1) else (s, si)
  | [] => ([], si)
  end.

Definition padding (digits : nat) (s : bytes) (si : Z) : res unit :=
  let at_end '(s, si) := match s with [] => Ok tt | _ => Err (CorruptInput si) end in
  match digits with
  | 2%nat =>
      let '(s, si) := skip_breaks s si in
      match s with
      | [] => Err (CorruptInput si)
      | b :: s' => if bool_decide (b = x3d) then at_end (skip_breaks s' (si + 1)) else Err (CorruptInput (si - 1))
      end
  | _ => at_end (skip_breaks s si)
  end.

(** The bytes of a group of two, three or four digits. *)
Definition group_bytes (ds : list Z) : bytes :=
  match ds with
  | [a; b; c; d] => let n := a * 262144 + b * 4096 + c * 64 + d in
                    [byte_of (n / 65536); byte_of (n / 256); byte_of n]
  | [a; b; c] => let n := a * 262144 + b * 4096 + c * 64 in [byte_of (n / 65536); byte_of (n / 256)]
  | [a; b] => let n := a * 262144 + b * 4096 in [byte_of (n / 65536)]
  | _ => []
  end.

(** [base64.StdEncoding.DecodeString]: groups of four digits, line breaks
    ignored, the last group padded; [ds] are the digits of the current group. *)
Fixpoint base64_std_decode (s : bytes) (si : Z) (ds : list Z) (out : bytes) : res bytes :=
  match s with
  | [] => match ds with [] => Ok out | _ => Err (CorruptInput (si - Z.of_nat (length ds))) end
  | b :: s' =>
      match base64_value x2b x2f b with
      | Some v =>
          let ds' := ds ++ [v] in
          if (length ds' =? 4)%nat then base64_std_decode s' (si + 1) [] (out ++ group_bytes ds')
          else base64_std_decode s' (si + 1) ds' out
      | None =>
          if line_break b then base64_std_decode s' (si + 1) ds out
          else if negb (bool_decide (b = x3d)) then Err (CorruptInput si)
          else if (length ds <? 2)%nat then Err (CorruptInput si)
          else _ ← padding (length ds) s' (si + 1); Ok (out ++ group_bytes ds)
      end
  end.

Definition StdEncoding_DecodeString (s : string) : res bytes := base64_std_decode (bytes_of s) 0 [] [].

Example base64_tests :
  (string_of (base64_raw_url (bytes_of "any carnal pleas?>")),
   map (λ s, match StdEncoding_DecodeString s with Ok b => Some (string_of b) | Err _ => None end)
     ["TWFu"; "TWE="; "TQ=="; ""; "TW
Fu"; "TWF"; "TQ="; "TWE=x"; "T==="; "TW-u"])%string
  = ("YW55IGNhcm5hbCBwbGVhcz8-",
     [Some "Man"; Some "Ma"; Some "M"; Some ""; Some "Man"; None; None; None; None; None])%string.
Proof. vm_compute. reflexivity. Qed.
