(* ===== verification/Float64.v ===== *)
(** * float64 arithmetic

    IEEE-754 binary64 with round-to-nearest-even, as the Go specification
    gives it to [float64]: a finite value is [m * 2^e] (the sign of a zero is
    not represented: no comparison observes it, and no figure the repository
    prints is a negative zero), every
    operation computes the exact result and rounds it to 53 significant bits,
    to a multiple of 2^-1074 below the normal range, and to an infinity
    beyond the largest finite value. *)

From S2P Require Import Prelude.

Inductive float64 : Type :=
  | Fin (m e : Z)
  | Inf (negative : bool)
  | NaN.

(** [n / 2^k] to the nearest integer, ties to even. *)
Definition rne (n k : Z) : Z :=
  let q := n / 2 ^ k in
  let r := n mod 2 ^ k in
  if 2 * r <? 2 ^ k then q
  else if 2 ^ k <? 2 * r then q + 1
  else if Z.even q then q else q + 1.

Definition finite_or_inf (m e : Z) : float64 :=
  if (negb (m =? 0)) && (1024 <=? Z.log2 (Z.abs m) + e) then Inf (m <? 0) else Fin m e.

(** Round the exact value [m * 2^e]. *)
Definition round64 (m e : Z) : float64 :=
  let k := Z.max (Z.log2 (Z.abs m) + 1 - 53) (-1074 - e) in
  if k <=? 0 then finite_or_inf m e else finite_or_inf (rne m k) (e + k).

Definition of_int (z : Z) : float64 := round64 z 0.

Definition fmul (a b : float64) : float64 :=
  match a, b with
  | Fin m1 e1, Fin m2 e2 => round64 (m1 * m2) (e1 + e2)
  | Inf s, Fin m _ | Fin m _, Inf s => if m =? 0 then NaN else Inf (xorb s (m <? 0))
  | Inf s, Inf t => Inf (xorb s t)
  | NaN, _ | _, NaN => NaN
  end.

(** Exact sum of two finite values, as a pair mantissa and exponent. *)
Definition exact_add (m1 e1 m2 e2 : Z) : Z * Z :=
  let e := Z.min e1 e2 in (m1 * 2 ^ (e1 - e) + m2 * 2 ^ (e2 - e), e).

Definition fadd (a b : float64) : float64 :=
  match a, b with
  | Fin m1 e1, Fin m2 e2 => let '(m, e) := exact_add m1 e1 m2 e2 in round64 m e
  | Inf s, Fin _ _ | Fin _ _, Inf s => Inf s
  | Inf s, Inf t => if eqb s t then Inf s else NaN
  | NaN, _ | _, NaN => NaN
  end.

Definition fopp (a : float64) : float64 :=
  match a with Fin m e => Fin (- m) e | Inf s => Inf (negb s) | NaN => NaN end.

Definition fsub (a b : float64) : float64 := fadd a (fopp b).

(** [x*y + z] rounded once: the form a compiler may choose for [x*y + z]. *)
Definition fma (x y z : float64) : float64 :=
  match x, y with
  | Fin m1 e1, Fin m2 e2 => fadd (Fin (m1 * m2) (e1 + e2)) z
  | _, _ => fadd (fmul x y) z
  end.

(** The quotient of two finite values: 56 or more bits of it, and a last bit
    for what is left, so that rounding sees the exact value. *)
Definition fdiv_fin (m1 e1 m2 e2 : Z) : float64 :=
  let s := Z.max 0 (56 + Z.log2 (Z.abs m2) - Z.log2 (Z.abs m1)) in
  let n := Z.abs m1 * 2 ^ s in
  let q := 2 * (n / Z.abs m2) + (if n mod Z.abs m2 =? 0 then 0 else 1) in
  round64 (Z.sgn m1 * Z.sgn m2 * q) (e1 - e2 - s - 1).

Definition fdiv (a b : float64) : float64 :=
  match a, b with
  | Fin m1 e1, Fin m2 e2 =>
      if m2 =? 0 then if m1 =? 0 then NaN else Inf (m1 <? 0)
      else if m1 =? 0 then Fin 0 0 else fdiv_fin m1 e1 m2 e2
  | Inf s, Fin m _ => Inf (xorb s (m <? 0))
  | Fin _ _, Inf _ => Fin 0 0
  | Inf _, Inf _ => NaN
  | NaN, _ | _, NaN => NaN
  end.

Definition flt (a b : float64) : bool :=
  match a, b with
  | Fin m1 e1, Fin m2 e2 =>
      let e := Z.min e1 e2 in m1 * 2 ^ (e1 - e) <? m2 * 2 ^ (e2 - e)
  | Inf s, Inf t => s && negb t
  | Inf s, Fin _ _ => s
  | Fin _ _, Inf s => negb s
  | NaN, _ | _, NaN => false
  end.

(** Truncation of a finite value toward zero. *)
Definition ftrunc (m e : Z) : Z :=
  if 0 <=? e then m * 2 ^ e else Z.quot m (2 ^ (- e)).

(** [int64(f)]: the specification leaves the result to the implementation when
    the value does not fit, so that case is the argument [arch]. *)
Definition to_int64 (arch : float64 → Z) (f : float64) : Z :=
  match f with
  | Fin m e =>
      let t := ftrunc m e in
      if (MinInt64 <=? t) && (t <=? MaxInt64) then t else arch f
  | _ => arch f
  end.

(** What amd64's CVTTSD2SQ gives outside the range. *)
Definition amd64 (_ : float64) : Z := MinInt64.

Definition f_one : float64 := Fin 1 0.
Definition f_two : float64 := Fin 2 0.
Definition f_zero : float64 := Fin 0 0.

Example fdiv_tests :
  (fdiv (of_int 1) (of_int 3), fdiv (of_int (-10)) (of_int 4), fdiv (of_int 1500000) (of_int 1000000))
  = (Fin 6004799503160661 (-54), Fin (-5629499534213120) (-51), Fin 6755399441055744 (-52)).
Proof. vm_compute. reflexivity. Qed.

(** ** Bounds by powers of two

    [|m * 2^e| <= 2^p] and [2^p <= m * 2^e] without fractions: a power with a
    negative exponent is 0 on [Z]. *)

Definition abs_le (p m e : Z) : Prop := Z.abs m <= 2 ^ (p - e).
Definition ge_pow (p m e : Z) : Prop := 1 <= m ∧ 2 ^ (p - e) <= m.

Lemma pow_pos (k : Z) : 0 <= k → 1 <= 2 ^ k.
Proof. intros. pose proof (Z.pow_pos_nonneg 2 k). lia. Qed.

Lemma rne_le (n k c : Z) : 0 <= k → n <= c * 2 ^ k → rne n k <= c.
Proof.
  intros Hk Hn. unfold rne. pose proof (pow_pos k Hk).
  pose proof (Z.div_mod n (2 ^ k)). pose proof (Z.mod_pos_bound n (2 ^ k)).
  repeat case_match; zbool; nia.
Qed.

Lemma rne_ge (n k c : Z) : 0 <= k → c * 2 ^ k <= n → c <= rne n k.
Proof.
  intros Hk Hn. unfold rne. pose proof (pow_pos k Hk).
  pose proof (Z.div_mod n (2 ^ k)). pose proof (Z.mod_pos_bound n (2 ^ k)).
  assert (c <= n / 2 ^ k) by nia.
  repeat case_match; zbool; nia.
Qed.

(** A bounded value is far from overflow. *)
Lemma finite_or_inf_le (p m e : Z) : p < 1024 → abs_le p m e → finite_or_inf m e = Fin m e.
Proof.
  unfold abs_le, finite_or_inf. intros Hp H.
  destruct (Z.eqb_spec m 0) as [->|Hm]; [done|]. cbn [negb andb].
  destruct (Z.leb_spec 1024 (Z.log2 (Z.abs m) + e)) as [Hb|]; [|done]. exfalso.
  assert (0 <= p - e) as Hpe.
  { destruct (Z_lt_le_dec (p - e) 0); [|done]. rewrite Z.pow_neg_r in H by done. lia. }
  apply Z.log2_le_mono in H. rewrite Z.log2_pow2 in H by done. lia.
Qed.

(** The exponent the rounding keeps is at most the bound's. *)
Lemma round_exponent (p m e : Z) :
  -1074 <= p → m ≠ 0 → Z.abs m <= 2 ^ (p - e) →
  let k := Z.max (Z.log2 (Z.abs m) + 1 - 53) (-1074 - e) in 0 <= k → e + k <= p.
Proof.
  intros Hp Hm H k Hk.
  assert (0 <= p - e) as Hpe.
  { destruct (Z_lt_le_dec (p - e) 0); [|done]. rewrite Z.pow_neg_r in H by done. lia. }
  apply Z.log2_le_mono in H. rewrite Z.log2_pow2 in H by done. lia.
Qed.

Lemma rne_0 (k : Z) : 0 <= k → rne 0 k = 0.
Proof.
  intros Hk. apply Z.le_antisymm; [apply rne_le|apply rne_ge]; lia.
Qed.

Lemma pow_split (p e k : Z) : 0 <= k → e + k <= p → 2 ^ (p - e) = 2 ^ (p - (e + k)) * 2 ^ k.
Proof. intros. rewrite <- Z.pow_add_r by lia. f_equal. lia. Qed.

(** Rounding never crosses a power of two, and never changes the sign. *)
Lemma round64_abs_le (p m e : Z) :
  -1074 <= p < 1024 → abs_le p m e →
  ∃ m' e', round64 m e = Fin m' e' ∧ abs_le p m' e' ∧ (0 <= m → 0 <= m').
Proof.
  intros Hp H. unfold round64. set (k := Z.max _ _).
  destruct (Z.leb_spec k 0) as [Hk|Hk].
  { exists m, e. split; [by apply (finite_or_inf_le p); [lia|]|done]. }
  destruct (Z.eq_dec m 0) as [->|Hm].
  { rewrite rne_0 by lia. exists 0, (e + k). split; [done|]. split; [|lia].
    unfold abs_le. change (Z.abs 0) with 0. apply Z.pow_nonneg. lia. }
  assert (e + k <= p) as Hek by (apply (round_exponent p m); [lia|done|done|fold k; lia]).
  unfold abs_le in H. rewrite (pow_split p e k) in H by lia.
  assert (Z.abs (rne m k) <= 2 ^ (p - (e + k))) as Hb.
  { apply Z.abs_le. split; [apply rne_ge|apply rne_le]; nia. }
  exists (rne m k), (e + k). split; [|split; [done|]].
  - apply (finite_or_inf_le p); [lia|done].
  - intros. apply rne_ge; lia.
Qed.

Lemma round64_ge (p q m e m' e' : Z) :
  -1074 <= p → -1074 <= q < 1024 → abs_le q m e →
  ge_pow p m e → round64 m e = Fin m' e' → ge_pow p m' e'.
Proof.
  intros Hp Hq Hle [Hm H]. unfold round64. set (k := Z.max _ _).
  destruct (Z.leb_spec k 0) as [Hk|Hk].
  { rewrite (finite_or_inf_le q) by (lia || done). intros [= <- <-]. done. }
  assert (e + k <= q) as Hek by (apply (round_exponent q m); [lia|lia|done|fold k; lia]).
  intros E. assert (Fin (rne m k) (e + k) = Fin m' e') as [= <- <-].
  { rewrite <- E. symmetry. apply (finite_or_inf_le q); [lia|].
    unfold abs_le in *. rewrite (pow_split q e k) in Hle by lia.
    apply Z.abs_le. split; [apply rne_ge|apply rne_le]; nia. }
  assert (1 <= rne m k) as H1.
  { destruct (Z_le_gt_dec (2 ^ k) m) as [Hmk|Hmk]; [apply rne_ge; lia|].
    assert (k = -1074 - e) as Hke.
    { destruct (Z_lt_le_dec (Z.log2 (Z.abs m) + 1 - 53) k) as [|Hlog]; [lia|].
      pose proof (Z.log2_spec (Z.abs m)) as [Hl _]; [lia|].
      assert (2 ^ k <= 2 ^ Z.log2 (Z.abs m)) by (apply Z.pow_le_mono_r; lia). lia. }
    assert (2 ^ k <= 2 ^ (p - e)) by (apply Z.pow_le_mono_r; lia). lia. }
  split; [done|].
  destruct (Z_lt_le_dec p (e + k)) as [Hlt|Hpe].
  { rewrite Z.pow_neg_r by lia. lia. }
  rewrite (pow_split p e k) in H by lia. apply rne_ge; lia.
Qed.

(** ** Bounds of the operations *)

Lemma pow_mul (a b : Z) : 0 <= a → 0 <= b → 2 ^ a * 2 ^ b = 2 ^ (a + b).
Proof. intros. symmetry. by apply Z.pow_add_r. Qed.

Lemma abs_le_zero (p m e : Z) : p < e → abs_le p m e → m = 0.
Proof. unfold abs_le. intros. rewrite Z.pow_neg_r in * by lia. lia. Qed.

Lemma abs_le_mul (p q m1 e1 m2 e2 : Z) :
  abs_le p m1 e1 → abs_le q m2 e2 → abs_le (p + q) (m1 * m2) (e1 + e2).
Proof.
  intros H1 H2.
  destruct (Z_lt_le_dec p e1) as [Hp|Hp].
  { rewrite (abs_le_zero _ _ _ Hp H1). unfold abs_le. cbn. apply Z.pow_nonneg. lia. }
  destruct (Z_lt_le_dec q e2) as [Hq|Hq].
  { rewrite (abs_le_zero _ _ _ Hq H2), Z.mul_0_r. unfold abs_le. cbn. apply Z.pow_nonneg. lia. }
  unfold abs_le in *. replace (p + q - (e1 + e2)) with ((p - e1) + (q - e2)) by lia.
  rewrite <- pow_mul by lia. rewrite Z.abs_mul. nia.
Qed.

Lemma ge_pow_mul (p q m1 e1 m2 e2 : Z) :
  ge_pow p m1 e1 → ge_pow q m2 e2 → ge_pow (p + q) (m1 * m2) (e1 + e2).
Proof.
  intros [H1 P1] [H2 P2]. split; [nia|].
  destruct (Z_lt_le_dec (p + q) (e1 + e2)) as [Hlt|Hge].
  { rewrite Z.pow_neg_r by lia. nia. }
  destruct (Z_lt_le_dec p e1) as [Hp|Hp].
  { assert (2 ^ (p + q - (e1 + e2)) <= 2 ^ (q - e2)) by (apply Z.pow_le_mono_r; lia). nia. }
  destruct (Z_lt_le_dec q e2) as [Hq|Hq].
  { assert (2 ^ (p + q - (e1 + e2)) <= 2 ^ (p - e1)) by (apply Z.pow_le_mono_r; lia). nia. }
  replace (p + q - (e1 + e2)) with ((p - e1) + (q - e2)) by lia.
  rewrite <- pow_mul by lia. nia.
Qed.

Lemma fmul_abs_le (p q m1 e1 m2 e2 : Z) :
  -1074 <= p + q < 1024 → abs_le p m1 e1 → abs_le q m2 e2 →
  ∃ m e, fmul (Fin m1 e1) (Fin m2 e2) = Fin m e ∧ abs_le (p + q) m e ∧
         (0 <= m1 * m2 → 0 <= m).
Proof. intros. cbn [fmul]. apply round64_abs_le; [done|]. by apply abs_le_mul. Qed.

(** [1 + x] for [|x| <= 2^-d], [d] 0 or 1: between [1 - 2^-d] and 2. *)
Lemma exact_add_one (d mx ex : Z) :
  0 <= d → abs_le (- d) mx ex →
  let '(m, e) := exact_add 1 0 mx ex in
  0 <= m ∧ abs_le 1 m e ∧ (1 <= d → ge_pow (-1) m e).
Proof.
  intros Hd H. unfold exact_add.
  destruct (Z_lt_le_dec (- d) ex) as [Hp|Hp].
  { rewrite (abs_le_zero _ _ _ Hp H). unfold abs_le, ge_pow. cbn -[Z.pow Z.min].
    rewrite !Z.mul_1_l, Z.add_0_r.
    pose proof (pow_pos (0 - Z.min 0 ex)).
    assert (2 ^ (1 - Z.min 0 ex) = 2 * 2 ^ (0 - Z.min 0 ex)) as ->.
    { replace (1 - Z.min 0 ex) with (1 + (0 - Z.min 0 ex)) by lia. rewrite Z.pow_add_r; lia. }
    split; [lia|]. split; [lia|]. intros _. split; [lia|].
    apply Z.pow_le_mono_r; lia. }
  unfold abs_le in *. rewrite Z.min_r by lia. rewrite Z.sub_diag, Z.mul_1_l, Z.mul_1_r.
  assert (2 ^ (- d - ex) <= 2 ^ (0 - ex)) by (apply Z.pow_le_mono_r; lia).
  assert (2 ^ (1 - ex) = 2 * 2 ^ (0 - ex)) as ->.
  { replace (1 - ex) with (1 + (0 - ex)) by lia. rewrite Z.pow_add_r; lia. }
  split; [lia|]. split; [lia|]. intros Hd1.
  assert (2 ^ (0 - ex) = 2 * 2 ^ (-1 - ex)) as E.
  { replace (0 - ex) with (1 + (-1 - ex)) by lia. rewrite Z.pow_add_r; lia. }
  assert (2 ^ (- d - ex) <= 2 ^ (-1 - ex)) by (apply Z.pow_le_mono_r; lia).
  pose proof (pow_pos (-1 - ex)). unfold ge_pow. lia.
Qed.

(** Truncation of a bounded value. *)
Lemma ftrunc_bounds (p m e : Z) : 0 <= p → 0 <= m → abs_le p m e → 0 <= ftrunc m e <= 2 ^ p.
Proof.
  intros Hp Hm H. unfold ftrunc, abs_le in *. rewrite Z.abs_eq in H by done.
  destruct (Z.leb_spec 0 e) as [He|He].
  - pose proof (pow_pos e He). split; [nia|].
    destruct (Z_lt_le_dec (p - e) 0) as [Hn|Hn].
    + rewrite Z.pow_neg_r in H by done. assert (m = 0) by lia. subst.
      pose proof (Z.pow_nonneg 2 p). lia.
    + replace (2 ^ p) with (2 ^ (p - e) * 2 ^ e) by (rewrite pow_mul by lia; f_equal; lia). nia.
  - pose proof (pow_pos (- e)). split; [apply Z.quot_pos; lia|].
    apply Z.quot_le_upper_bound; [lia|].
    replace (2 ^ (- e) * 2 ^ p) with (2 ^ (p - e)); [done|].
    rewrite pow_mul by lia. f_equal. lia.
Qed.

Lemma ftrunc_ge_one (m e : Z) : ge_pow 0 m e → 1 <= ftrunc m e.
Proof.
  intros [Hm H]. unfold ftrunc. destruct (Z.leb_spec 0 e) as [He|He].
  - pose proof (pow_pos e He). nia.
  - pose proof (pow_pos (- e)). apply Z.quot_le_lower_bound; [lia|].
    replace (0 - e) with (- e) in H by lia. lia.
Qed.

(** A quotient of values that are not negative. *)
Lemma fdiv_abs_le (p q m1 e1 m2 e2 : Z) :
  -1074 <= p - q + 1 < 1024 → 0 <= m1 → abs_le p m1 e1 → ge_pow q m2 e2 →
  ∃ m e, fdiv (Fin m1 e1) (Fin m2 e2) = Fin m e ∧ abs_le (p - q + 1) m e ∧ 0 <= m.
Proof.
  intros Hpq Hm1 H1 [Hm2 H2]. cbn [fdiv]. replace (m2 =? 0) with false by lia. destruct (Z.eqb_spec m1 0) as [|Hne].
  { exists 0, 0. split; [done|]. split; [|done]. unfold abs_le. change (Z.abs 0) with 0. apply Z.pow_nonneg. lia. }
  unfold fdiv_fin. rewrite (Z.abs_eq m1), (Z.abs_eq m2), !Z.sgn_pos by lia. set (s := Z.max 0 _). unfold abs_le in H1. rewrite Z.abs_eq in H1 by done.
  assert (Hp : 0 <= p - e1) by (destruct (Z_lt_le_dec (p - e1) 0); [rewrite Z.pow_neg_r in H1 by done; lia|done]).
  assert (Hlog : Z.log2 m1 <= p - e1) by (rewrite <- (Z.log2_pow2 _ Hp); by apply Z.log2_le_mono).
  set (X := p - e1 + s - (q - e2)). set (n := m1 * 2 ^ s).
  assert (Hn : n <= 2 ^ (p - e1 + s)) by (unfold n; rewrite Z.pow_add_r by lia; pose proof (pow_pos s ltac:(lia)); nia).
  assert (0 <= X ∧ n / m2 <= 2 ^ X) as [HX0 HX].
  { destruct (Z_lt_le_dec (q - e2) 0) as [Hq|Hq].
    - split; [lia|]. transitivity n; [apply Z.div_le_upper_bound; [lia|]; pose proof (pow_pos s ltac:(lia)); unfold n; nia|].
      etransitivity; [exact Hn|]. apply Z.pow_le_mono_r; lia.
    - assert (q - e2 <= Z.log2 m2) by (rewrite <- (Z.log2_pow2 _ Hq); by apply Z.log2_le_mono).
      split; [lia|]. apply Z.div_le_upper_bound; [lia|]. etransitivity; [exact Hn|].
      replace (p - e1 + s) with ((q - e2) + X) by lia. rewrite Z.pow_add_r by lia. apply Z.mul_le_mono_nonneg_r; [apply Z.pow_nonneg; lia|done]. }
  pose proof (Z.div_pos n m2 ltac:(unfold n; apply Z.mul_nonneg_nonneg; [lia|apply Z.pow_nonneg; lia]) ltac:(lia)) as Hq0.
  set (Q := 2 * (n / m2) + _). assert (HQ : 0 <= Q <= 2 * 2 ^ X + 1) by (unfold Q; destruct (_ =? 0); lia).
  destruct (round64_abs_le (p - q + 1) (1 * 1 * Q) (e1 - e2 - s - 1)) as (m & e & H & Hle & Hpos); [lia| |exists m, e; split; [done|]; split; [done|lia]].
  unfold abs_le. rewrite Z.abs_eq by lia. replace (p - q + 1 - (e1 - e2 - s - 1)) with (2 + X) by lia. rewrite Z.pow_add_r by lia.
  pose proof (pow_pos X HX0). change (2 ^ 2) with 4. lia.
Qed.

Lemma shift_abs_le (p m e k : Z) : k <= e → abs_le p m e → Z.abs (m * 2 ^ (e - k)) <= 2 ^ (p - k).
Proof.
  intros Hk H. rewrite Z.abs_mul, (Z.abs_eq (2 ^ _)) by (apply Z.pow_nonneg; lia). destruct (Z_lt_le_dec p e) as [Hp|Hp].
  { rewrite (abs_le_zero _ _ _ Hp H). change (Z.abs 0) with 0. rewrite Z.mul_0_l. apply Z.pow_nonneg. lia. }
  unfold abs_le in H. replace (p - k) with ((p - e) + (e - k)) by lia. rewrite Z.pow_add_r by lia.
  apply Z.mul_le_mono_nonneg_r; [apply Z.pow_nonneg; lia|done].
Qed.

Lemma fadd_abs_le (p m1 e1 m2 e2 : Z) :
  -1074 <= p + 1 < 1024 → abs_le p m1 e1 → abs_le p m2 e2 → 0 <= m1 → 0 <= m2 →
  ∃ m e, fadd (Fin m1 e1) (Fin m2 e2) = Fin m e ∧ abs_le (p + 1) m e ∧ 0 <= m ∧ (∀ q, -1074 <= q → ge_pow q m1 e1 ∨ ge_pow q m2 e2 → ge_pow q m e).
Proof.
  intros Hp H1 H2 Hm1 Hm2. cbn [fadd exact_add]. set (k := Z.min e1 e2).
  pose proof (shift_abs_le p m1 e1 k ltac:(lia) H1) as A1. pose proof (shift_abs_le p m2 e2 k ltac:(lia) H2) as A2.
  pose proof (pow_pos (e1 - k) ltac:(lia)) as P1. pose proof (pow_pos (e2 - k) ltac:(lia)) as P2.
  assert (Hle : abs_le (p + 1) (m1 * 2 ^ (e1 - k) + m2 * 2 ^ (e2 - k)) k).
  { unfold abs_le. destruct (Z_lt_le_dec p k) as [Hk|Hk].
    - rewrite (Z.pow_neg_r 2 (p - k)) in A1, A2 by lia. assert (m1 = 0 ∧ m2 = 0) as [-> ->] by nia.
      rewrite !Z.mul_0_l. change (Z.abs (0 + 0)) with 0. apply Z.pow_nonneg. lia.
    - replace (p + 1 - k) with (1 + (p - k)) by lia. rewrite Z.pow_add_r by lia. change (2 ^ 1) with 2. lia. }
  destruct (round64_abs_le (p + 1) _ k Hp Hle) as (m & e & H & Hme & Hpos).
  exists m, e. split; [exact H|]. split; [done|]. split; [nia|]. intros q Hq Hge. apply (round64_ge q (p + 1) _ k m e Hq Hp Hle); [|exact H].
  assert (Hsh : ∀ x ex, k <= ex → ge_pow q x ex → 1 <= x * 2 ^ (ex - k) ∧ 2 ^ (q - k) <= x * 2 ^ (ex - k)).
  { intros x ex Hex [Hx1 Hx2]. pose proof (pow_pos (ex - k) ltac:(lia)). split; [nia|]. destruct (Z_lt_le_dec q ex) as [Hqx|Hqx].
    - assert (2 ^ (q - k) <= 2 ^ (ex - k)) by (apply Z.pow_le_mono_r; lia). nia.
    - replace (q - k) with ((q - ex) + (ex - k)) by lia. rewrite Z.pow_add_r by lia.
      apply Z.mul_le_mono_nonneg_r; [lia|done]. }
  unfold ge_pow. destruct Hge as [Hge|Hge]; [pose proof (Hsh m1 e1 ltac:(lia) Hge)|pose proof (Hsh m2 e2 ltac:(lia) Hge)]; nia.
Qed.

(** Integers of up to 53 bits are exact. *)
Lemma of_int_small z : Z.abs z < 2 ^ 53 → of_int z = Fin z 0.
Proof.
  intros Hz. unfold of_int, round64. assert (Z.log2 (Z.abs z) <= 52).
  { destruct (Z.eq_dec z 0) as [->|]; [done|]. apply Z.lt_succ_r, Z.log2_lt_pow2; lia. }
  replace (_ <=? 0) with true by lia. unfold finite_or_inf. replace (1024 <=? Z.log2 (Z.abs z) + 0) with false by lia. by rewrite andb_false_r.
Qed.

Lemma of_int_abs_le z p : 0 <= p < 1024 → 0 <= z <= 2 ^ p → ∃ m e, of_int z = Fin m e ∧ abs_le p m e ∧ 0 <= m.
Proof.
  intros Hp Hz. destruct (round64_abs_le p z 0) as (m & e & H & Hle & Hpos); [lia| |exists m, e; split; [done|]; split; [done|lia]].
  unfold abs_le. rewrite Z.abs_eq, Z.sub_0_r by lia. lia.
Qed.
