(* ===== verification/GoParse.v ===== *)
(** * Parsing of settings

    The parsers of packages strconv, time and log/slog the configuration
    calls: decimal integers, booleans, floating-point numbers (every form
    [strconv.ParseFloat] accepts), durations and log levels. *)

From S2P Require Import Prelude GoErrors GoTime GoText GoStrings Float64.

(** [strconv.Quote] and the upper-case mapping depend on Unicode's tables. *)
Class UnicodeText := {
  Quote : string → string;
  unicode_ToUpper : Z → Z;
}.

(** [lower(c)] of package strconv. *)
Definition lower (b : byte) : Z := Z.lor (zb b) 32.
Definition is_digit (b : byte) : bool := between 48 57 b.

(** *** Reading printed numbers *)

Lemma bytes_of_cons a s : bytes_of (String a s) = Ascii.byte_of_ascii a :: bytes_of s.
Proof. reflexivity. Qed.

Lemma pretty_char_digit (d : N) : (d < 10)%N →
  is_digit (Ascii.byte_of_ascii (pretty_N_char d)) = true ∧ zb (Ascii.byte_of_ascii (pretty_N_char d)) - 48 = Z.of_N d.
Proof.
  intros Hd. assert (d = 0 ∨ d = 1 ∨ d = 2 ∨ d = 3 ∨ d = 4 ∨ d = 5 ∨ d = 6 ∨ d = 7 ∨ d = 8 ∨ d = 9)%N as H by lia.
  by repeat destruct H as [-> |H]; [..|subst d].
Qed.

(** Whatever reads decimal digits from the left, one at a time and up to a
    bound, reads the number [FormatInt] printed. *)
Lemma read_digits {A} (F : Z → bytes → A) (bound : Z) :
  (∀ n c s, is_digit c = true → 0 <= n → n * 10 + (zb c - 48) <= bound → F n (c :: s) = F (n * 10 + (zb c - 48)) s) →
  ∀ n s, 0 < n <= bound → F 0 (bytes_of (FormatInt n) ++ s) = F n s.
Proof.
  intros HF n s Hn. destruct n as [|p|p]; try lia. change (FormatInt (Z.pos p)) with (pretty_N_go (N.pos p) "").
  change (Z.pos p) with (Z.of_N (N.pos p)) in *. set (x := N.pos p) in *. clearbody x.
  assert (H : ∀ w, F 0 (bytes_of (pretty_N_go x w) ++ s) = F (Z.of_N x) (bytes_of w ++ s)); [|by rewrite H].
  induction x as [x IH] using (well_founded_induction N.lt_wf_0). intros w.
  destruct (decide (x = 0%N)) as [->|Hx]; [by rewrite pretty_N_go_0|]. rewrite pretty_N_go_step by lia.
  assert (Hd : (x `mod` 10 < 10)%N) by (by apply N.mod_lt). destruct (pretty_char_digit _ Hd) as [H1 H2].
  assert (E : Z.of_N x = Z.of_N (x `div` 10) * 10 + Z.of_N (x `mod` 10)) by (pose proof (N.div_mod' x 10); lia).
  assert (Hq : (x `div` 10 < x)%N) by (apply N.div_lt; lia).
  assert (Hstep : ∀ y, 0 <= Z.of_N y → F (Z.of_N (x `div` 10)) (bytes_of (String (pretty_N_char (x `mod` 10)) w) ++ s) = F (Z.of_N x) (bytes_of w ++ s)).
  { intros _ _. rewrite bytes_of_cons. cbn [app]. rewrite HF, H2, <- E by (done || lia). done. }
  destruct (decide (x `div` 10 = 0)%N) as [E0|Hne].
  - rewrite E0, pretty_N_go_0. specialize (Hstep 0%N ltac:(lia)). rewrite E0 in Hstep. exact Hstep.
  - rewrite IH; [by apply (Hstep 0%N)|done|lia].
Qed.

(** The decimal digits of a positive number. *)
Lemma FormatInt_digits n :
  0 < n → ∃ d ds, bytes_of (FormatInt n) = d :: ds ∧ between 49 57 d = true ∧ forallb is_digit ds = true.
Proof.
  intros Hn. destruct n as [|p|p]; try lia. change (FormatInt (Z.pos p)) with (pretty_N_go (N.pos p) "").
  assert (H : ∀ x s, (0 < x)%N → ∃ d ds, bytes_of (pretty_N_go x s) = d :: ds ++ bytes_of s
    ∧ between 49 57 d = true ∧ forallb is_digit ds = true).
  { intros x. induction x as [x IH] using (well_founded_induction N.lt_wf_0). intros s Hx. rewrite pretty_N_go_step by done.
    assert (Hd : ∀ k, (k < 10)%N → ∃ b, bytes_of (String (pretty_N_char k) s) = b :: bytes_of s ∧ is_digit b = true
                      ∧ (k ≠ 0%N → between 49 57 b = true)).
    { intros k Hk. eexists. split; [reflexivity|].
      destruct k as [|[[[[]|[]|]|[[]|[]|]|]|[[[]|[]|]|[[]|[]|]|]|]]; try lia; vm_compute; done. }
    destruct (Hd (x `mod` 10)%N ltac:(apply N.mod_lt; lia)) as (b & Hb & Hdig & Hnz).
    destruct (decide (x `div` 10 = 0)%N) as [E|E].
    - rewrite E, pretty_N_go_0. exists b, []. split_and!; [done| |done]. apply Hnz.
      pose proof (N.div_mod x 10 ltac:(done)). lia.
    - destruct (IH (x `div` 10)%N ltac:(apply N.div_lt; lia) (String (pretty_N_char (x `mod` 10)) s) (proj1 (N.neq_0_lt_0 _) E))
        as (d & ds & Hgo & H1 & H2).
      exists d, (ds ++ [b]). rewrite Hgo, Hb, <- app_assoc, forallb_app, H2. cbn. by rewrite Hdig. }
  destruct (H (N.pos p) ""%string ltac:(lia)) as (d & ds & E & H1 & H2). exists d, ds. by rewrite E, app_nil_r.
Qed.

Definition ErrSyntax : error := Sentinel "strconv.ErrSyntax" "invalid syntax".
Definition ErrRange : error := Sentinel "strconv.ErrRange" "value out of range".

(** The longest prefix of bytes with a property, and the rest. *)
Fixpoint span (p : byte → bool) (s : bytes) : bytes * bytes :=
  match s with
  | b :: s' => if p b then let '(l, r) := span p s' in (b :: l, r) else ([], s)
  | [] => ([], [])
  end.

Definition strip_sign (s : bytes) : bool * bytes :=
  match s with
  | b :: s' => if bool_decide (b = x2d) then (true, s') else if bool_decide (b = x2b) then (false, s') else (false, s)
  | [] => (false, [])
  end.

(** [underscoreOK]: underscores only between digits, or after a base prefix.
    [prev] is the class of the previous byte. *)
Fixpoint underscores_ok (hex : bool) (prev : byte) (s : bytes) : bool :=
  match s with
  | [] => negb (bool_decide (prev = x5f))
  | b :: s' =>
      if is_digit b || (hex && (97 <=? lower b) && (lower b <=? 102)) then underscores_ok hex x30 s'
      else if bool_decide (b = x5f) then bool_decide (prev = x30) && underscores_ok hex x5f s'
      else negb (bool_decide (prev = x5f)) && underscores_ok hex x21 s'
  end.

Definition underscoreOK (s : bytes) : bool :=
  let s := (strip_sign s).2 in
  match s with
  | z :: c :: s' =>
      if bool_decide (z = x30) && bool_decide (lower c ∈ [98; 111; 120])
      then underscores_ok (lower c =? 120) x30 s'
      else underscores_ok false x5e s
  | _ => underscores_ok false x5e s
  end.

(** ** Integers *)

Definition digit_value (b : byte) : option Z :=
  if is_digit b then Some (zb b - 48)
  else if (97 <=? lower b) && (lower b <=? 122) then Some (lower b - 87)
  else None.

(** The loop of [strconv.ParseUint]: the number so far and whether an underscore
    was seen; the first byte that is not a digit or that overflows ends it. *)
Fixpoint uint_digits (base0 : bool) (base : Z) (n : Z) (underscores : bool) (s : bytes) : res (Z * bool) :=
  match s with
  | [] => Ok (n, underscores)
  | c :: s' =>
      if base0 && bool_decide (c = x5f) then uint_digits base0 base n true s'
      else match digit_value c with
      | None => Err ErrSyntax
      | Some d =>
          if base <=? d then Err ErrSyntax
          else if 2 ^ 64 - 1 <? n * base + d then Err ErrRange
          else uint_digits base0 base (n * base + d) underscores s'
      end
  end.

(** The base a prefix asks for, and the digits after it. *)
Definition base_prefix (s : bytes) : Z * bytes :=
  match s with
  | z :: r =>
      if negb (bool_decide (z = x30)) then (10, s)
      else match r with
      | c :: ((_ :: _) as r') =>
          if lower c =? 98 then (2, r') else if lower c =? 111 then (8, r') else if lower c =? 120 then (16, r')
          else (8, r)
      | _ => (8, r)
      end
  | [] => (10, s)
  end.

(** [strconv.ParseUint] for 64 bits. *)
Definition parse_uint (base : Z) (s : bytes) : res Z :=
  if bool_decide (s = []) then Err ErrSyntax
  else
    let '(b, digits) := if base =? 0 then base_prefix s else (base, s) in
    '(n, underscores) ← uint_digits (base =? 0) b 0 false digits;
    if underscores && negb (underscoreOK s) then Err ErrSyntax else Ok n.

Definition parse_int (base : Z) (s : bytes) : res Z :=
  let '(neg, digits) := strip_sign s in
  un ← parse_uint base digits;
  if negb neg && (2 ^ 63 <=? un) then Err ErrRange
  else if neg && (2 ^ 63 <? un) then Err ErrRange
  else Ok (if neg then - un else un).

Section Strconv.
Context `{UX : UnicodeText}.

(** [*strconv.NumError]. *)
Definition NumError (func num : string) (err : error) : error :=
  Wrap ("strconv." +:+ func +:+ ": parsing " +:+ Quote num +:+ ": ") err "".

(** [strconv.ParseInt] for 64 bits. *)
Definition ParseInt (s : string) (base : Z) : res Z :=
  map_err (NumError "ParseInt" s) (parse_int base (bytes_of s)).

Definition Atoi (s : string) : res Z := map_err (NumError "Atoi" s) (parse_int 10 (bytes_of s)).

Definition ParseBool (s : string) : res bool :=
  if bool_decide (s ∈ ["1"; "t"; "T"; "true"; "TRUE"; "True"]%string) then Ok true
  else if bool_decide (s ∈ ["0"; "f"; "F"; "false"; "FALSE"; "False"]%string) then Ok false
  else Err (NumError "ParseBool" s ErrSyntax).
End Strconv.

(** ** Floating-point numbers *)

Definition float_digit (hex : bool) (b : byte) : option Z :=
  if is_digit b then Some (zb b - 48)
  else if hex && (97 <=? lower b) && (lower b <=? 102) then Some (lower b - 87)
  else None.

(** The mantissa: its digits, those after the dot counted in [frac], whether a
    digit was seen, and the rest. *)
Fixpoint mantissa (hex sawdot sawdigits : bool) (m frac : Z) (s : bytes) : Z * Z * bool * bytes :=
  match s with
  | [] => (m, frac, sawdigits, [])
  | b :: s' =>
      if bool_decide (b = x5f) then mantissa hex sawdot sawdigits m frac s'
      else if bool_decide (b = x2e)
      then if sawdot then (m, frac, sawdigits, s) else mantissa hex true sawdigits m frac s'
      else match float_digit hex b with
      | Some d => mantissa hex sawdot true (m * (if hex then 16 else 10) + d) (if sawdot then frac + 1 else frac) s'
      | None => (m, frac, sawdigits, s)
      end
  end.

(** The exponent's digits: it stops growing at 10000. *)
Fixpoint exponent (e : Z) (s : bytes) : Z * bytes :=
  match s with
  | b :: s' =>
      if bool_decide (b = x5f) then exponent e s'
      else if is_digit b then exponent (if e <? 10000 then e * 10 + (zb b - 48) else e) s'
      else (e, s)
  | [] => (e, [])
  end.

Definition exponent_part (hex : bool) (s : bytes) : option (Z * bytes) :=
  match s with
  | c :: s' =>
      if lower c =? (if hex then 112 else 101) then
        let '(neg, s') := strip_sign s' in
        match s' with
        | d :: _ => if is_digit d then let '(e, r) := exponent 0 s' in Some (if neg then - e else e, r) else None
        | [] => None
        end
      else if hex then None else Some (0, s)
  | [] => if hex then None else Some (0, [])
  end.

(** [m * 10^e], rounded once. *)
Definition decimal_float (m e : Z) : float64 :=
  if m =? 0 then Fin 0 0
  else if 0 <=? e then round64 (m * 10 ^ e) 0
  else fdiv_fin m 0 (10 ^ (- e)) 0.

(** [readFloat] and the conversion, for a text without special names. *)
Definition read_float (s : bytes) : option float64 :=
  let '(neg, r) := strip_sign s in
  let '(hex, r) :=
    match r with
    | z :: x :: ((_ :: _) as r') => if bool_decide (z = x30) && (lower x =? 120) then (true, r') else (false, r)
    | _ => (false, r)
    end in
  let '(m, frac, sawdigits, r) := mantissa hex false false 0 0 r in
  if negb sawdigits then None
  else match exponent_part hex r with
  | Some (e, []) =>
      if bool_decide (x5f ∈ s) && negb (underscoreOK s) then None
      else
        let m := if neg then - m else m in
        Some (if hex then round64 m (e - 4 * frac) else decimal_float m (e - frac))
  | _ => None
  end.

(** [special]: infinities and NaN, in any case. *)
Definition special (s : bytes) : option float64 :=
  let '(neg, r) := strip_sign s in
  let w := map lower r in
  let letters := forallb (λ b, between 65 90 b || between 97 122 b) r in
  if letters && (bool_decide (w = map zb (bytes_of "inf")) || bool_decide (w = map zb (bytes_of "infinity")))
  then Some (Inf neg)
  else if letters && bool_decide (r = s) && bool_decide (w = map zb (bytes_of "nan")) then Some NaN
  else None.

Definition ParseFloat `{UnicodeText} (s : string) : res float64 :=
  match special (bytes_of s) with
  | Some f => Ok f
  | None =>
      match read_float (bytes_of s) with
      | Some (Inf neg) => Err (NumError "ParseFloat" s ErrRange)
      | Some f => Ok f
      | None => Err (NumError "ParseFloat" s ErrSyntax)
      end
  end.

(** ** Durations *)

Definition hexbyte (b : byte) : bytes := [hex_digit (zb b / 16); hex_digit (zb b mod 16)].

(** [quote] of package time. *)
Definition time_quote (s : string) : string :=
  let esc b := if (128 <=? zb b) || (zb b <? 32) then [x5c; x78] ++ hexbyte b
               else if bool_decide (b = x22) || bool_decide (b = x5c) then [x5c; b] else [b] in
  string_of ([x22] ++ concat (map esc (bytes_of s)) ++ [x22]).

(** [leadingInt]: none when the number exceeds [1 << 63]. *)
Fixpoint leading_int (x : Z) (s : bytes) : option (Z * bytes) :=
  match s with
  | b :: s' =>
      if is_digit b then
        if 2 ^ 63 / 10 <? x then None
        else let x := x * 10 + (zb b - 48) in
             if 2 ^ 63 <? x then None else leading_int x s'
      else Some (x, s)
  | [] => Some (x, [])
  end.

(** [leadingFraction]: the digits that fit, and their scale. *)
Fixpoint leading_fraction (overflow : bool) (x : Z) (scale : float64) (s : bytes) : Z * float64 * bytes :=
  match s with
  | b :: s' =>
      if is_digit b then
        if overflow || ((2 ^ 63 - 1) / 10 <? x) then leading_fraction true x scale s'
        else let y := x * 10 + (zb b - 48) in
             if 2 ^ 63 <? y then leading_fraction true x scale s'
             else leading_fraction false y (fmul scale (of_int 10)) s'
      else (x, scale, s)
  | [] => (x, scale, [])
  end.

Definition unitMap (u : bytes) : option Z :=
  if bool_decide (u = bytes_of "ns") then Some Nanosecond
  else if bool_decide (u ∈ [bytes_of "us"; [xc2; xb5; x73]; [xce; xbc; x73]]) then Some Microsecond
  else if bool_decide (u = bytes_of "ms") then Some Millisecond
  else if bool_decide (u = bytes_of "s") then Some Second
  else if bool_decide (u = bytes_of "m") then Some Minute
  else if bool_decide (u = bytes_of "h") then Some Hour
  else None.

(** [uint64(float64(f) * (float64(unit) / scale))], which is below the unit. *)
Definition fraction (f : Z) (scale : float64) (unit : Z) : Z :=
  match fmul (of_int f) (fdiv (of_int unit) scale) with Fin m e => ftrunc m e | _ => 0 end.

(** One number with its unit; [uint64] additions wrap. *)
Definition duration_item (orig : string) (s : bytes) (d : Z) : res (Z * bytes) :=
  let invalid {A} : res A := Err (New ("time: invalid duration " +:+ time_quote orig)) in
  match s with
  | [] => Ok (d, [])
  | c :: _ =>
      if negb (bool_decide (c = x2e) || is_digit c) then invalid
      else match leading_int 0 s with
      | None => invalid
      | Some (v, r) =>
          let pre := negb (Nat.eqb (length r) (length s)) in
          let '(f, scale, r, post) :=
            match r with
            | dot :: r' =>
                if bool_decide (dot = x2e) then
                  let '(f, scale, r'') := leading_fraction false 0 f_one r' in
                  (f, scale, r'', negb (Nat.eqb (length r'') (length r')))
                else (0, f_one, r, false)
            | [] => (0, f_one, [], false)
            end in
          if negb pre && negb post then invalid
          else
            let '(u, r) := span (λ b, negb (bool_decide (b = x2e) || is_digit b)) r in
            if bool_decide (u = []) then Err (New ("time: missing unit in duration " +:+ time_quote orig))
            else match unitMap u with
            | None => Err (New ("time: unknown unit " +:+ time_quote (string_of u) +:+ " in duration " +:+ time_quote orig))
            | Some unit =>
                if 2 ^ 63 / unit <? v then invalid
                else
                  let v := v * unit in
                  let v := if 0 <? f then (v + fraction f scale unit) mod 2 ^ 64 else v in
                  let d := (d + v) mod 2 ^ 64 in
                  if (2 ^ 63 <? v) || (2 ^ 63 <? d) then invalid else Ok (d, r)
            end
      end
  end.

(** The loop: every turn consumes at least one byte, so that as many turns as
    there are bytes are enough. *)
Fixpoint duration_items (fuel : nat) (orig : string) (s : bytes) (d : Z) : res Z :=
  match s, fuel with
  | [], _ | _, O => Ok d
  | _, S fuel' => '(d, s) ← duration_item orig s d; duration_items fuel' orig s d
  end.

Lemma leading_int_length x s v r : leading_int x s = Some (v, r) → (length r <= length s)%nat.
Proof.
  revert x. induction s as [|b s IH]; intros x; cbn [leading_int]; [by intros [= <- <-]|].
  destruct (is_digit b); [|by intros [= <- <-]]. destruct (_ <? x); [done|]. cbv zeta. destruct (_ <? _); [done|].
  intros H%IH. cbn. lia.
Qed.

Lemma leading_fraction_length o x scale s : (length (leading_fraction o x scale s).2 <= length s)%nat.
Proof.
  revert o x scale. induction s as [|b s IH]; intros o x scale; cbn [leading_fraction]; [done|]. destruct (is_digit b); [|done].
  cbn [length]. destruct (_ || _); [etrans; [apply IH|lia]|]. cbv zeta. destruct (_ <? _); (etrans; [apply IH|lia]).
Qed.

Lemma span_split p s : (span p s).1 ++ (span p s).2 = s.
Proof. induction s as [|b s IH]; [done|]. cbn. destruct (p b); [|done]. destruct (span p s). cbn in *. by rewrite IH. Qed.

Lemma duration_item_shorter orig s d d' r : s ≠ [] → duration_item orig s d = Ok (d', r) → (length r < length s)%nat.
Proof.
  intros Hs. unfold duration_item. destruct s as [|c s]; [done|]. destruct (negb _) in |- *; [done|].
  destruct (leading_int 0 (c :: s)) as [[v r1]|] eqn:E1; [|done]. apply leading_int_length in E1. cbv zeta.
  set (frac := match r1 with [] => _ | dot :: r' => _ end).
  assert (Hf : (length frac.1.2 <= length r1)%nat).
  { subst frac. destruct r1 as [|dot r']; [done|]. destruct (bool_decide _); [|done].
    pose proof (leading_fraction_length false 0 f_one r') as H. destruct (leading_fraction _ _ _ r') as [[f scale] r'']. cbn in *. lia. }
  destruct frac as [[[f scale] r2] post]. cbn [fst snd] in Hf. destruct (_ && _); [done|].
  pose proof (span_split (λ b, negb (bool_decide (b = x2e) || is_digit b)) r2) as Hsp. destruct (span _ r2) as [u r3].
  cbn [fst snd] in Hsp. destruct (bool_decide_reflect (u = [])); [done|]. destruct (unitMap u); [|done].
  destruct (_ <? v); [done|]. destruct (_ || _); [done|]. intros [= _ <-].
  assert (length r2 = (length u + length r3)%nat) by (by rewrite <- Hsp, length_app).
  assert (1 <= length u)%nat by (destruct u; [done|cbn; lia]). lia.
Qed.

(** Any more turns give the same answer. *)
Lemma duration_items_fuel n m orig s d :
  (length s <= n)%nat → (length s <= m)%nat → duration_items n orig s d = duration_items m orig s d.
Proof.
  revert m s d. induction n as [|n IH]; intros m s d Hn Hm.
  { destruct s; [|cbn in Hn; lia]. by destruct m. }
  destruct s as [|b s]; [by destruct m|]. destruct m as [|m]; [cbn in Hm; lia|]. cbn [duration_items].
  destruct (duration_item orig (b :: s) d) as [[d' r]|e] eqn:E; [|done]. cbn [mbind res_bind].
  apply duration_item_shorter in E; [|done]. apply IH; lia.
Qed.

Definition ParseDuration (s : string) : res Duration :=
  let '(neg, r) := strip_sign (bytes_of s) in
  let invalid {A} : res A := Err (New ("time: invalid duration " +:+ time_quote s)) in
  if bool_decide (r = [x30]) then Ok 0
  else if bool_decide (r = []) then invalid
  else
    d ← duration_items (length r) s r 0;
    if neg then Ok (wrap64 (- d))
    else if 2 ^ 63 - 1 <? d then invalid
    else Ok d.

(** [d.String()], for the durations that are not negative. *)
Fixpoint pad_left (n : nat) (s : bytes) : bytes := if (length s <? n)%nat then match n with O => s | S n' => x30 :: pad_left n' s end else s.
Fixpoint trim_zeros (rev_digits : bytes) : bytes :=
  match rev_digits with b :: l => if bool_decide (b = x30) then trim_zeros l else rev_digits | [] => [] end.

(** [v / 10^prec] with the fraction's trailing zeros dropped. *)
Definition fmtFrac (v : Z) (prec : nat) : string :=
  let p := 10 ^ Z.of_nat prec in
  let frac := rev (trim_zeros (rev (pad_left prec (bytes_of (FormatInt (v mod p)))))) in
  if bool_decide (frac = []) || (v mod p =? 0) then FormatInt (v / p)
  else FormatInt (v / p) +:+ "." +:+ string_of frac.

Definition Duration_String (d : Duration) : string :=
  if d <? Second then
    if d =? 0 then "0s"
    else if d <? Microsecond then fmtFrac d 0 +:+ "ns"
    else if d <? Millisecond then fmtFrac d 3 +:+ string_of [xc2; xb5; x73]
    else fmtFrac d 6 +:+ "ms"
  else
    let s := d / Second in
    let seconds := fmtFrac (d mod Minute) 9 +:+ "s" in
    if s / 60 =? 0 then seconds
    else if s / 3600 =? 0 then FormatInt (s / 60) +:+ "m" +:+ seconds
    else FormatInt (s / 3600) +:+ "h" +:+ FormatInt ((s / 60) mod 60) +:+ "m" +:+ seconds.

(** ** Log levels *)

(** [strings.ToUpper]. *)
Definition ToUpper `{UnicodeText} (s : bytes) : bytes :=
  if forallb (λ x, zb x <? 128) s
  then map (λ b, if between 97 122 b then byte_of (zb b - 32) else b) s
  else concat (map (λ c, encode_rune (unicode_ToUpper (chunk_rune c))) (decode s)).

Definition LevelDebug : Z := -4.
Definition LevelInfo : Z := 0.
Definition LevelWarn : Z := 4.
Definition LevelError : Z := 8.

(** [UnmarshalText] of [slog.Level]: a name and an optional offset. *)
Definition level_parse `{UnicodeText} (s : string) : res Z :=
  let fail {A} (err : error) : res A := Err (Wrap ("slog: level string " +:+ Quote s +:+ ": ") err "") in
  let '(name, suffix) := span (λ b, negb (bool_decide (b = x2b) || bool_decide (b = x2d))) (bytes_of s) in
  match (if bool_decide (suffix = []) then Ok 0 else Atoi (string_of suffix)) with
  | Err err => fail err
  | Ok offset =>
      let name := string_of (ToUpper name) in
      if bool_decide (name = "DEBUG"%string) then Ok (wrap64 (LevelDebug + offset))
      else if bool_decide (name = "INFO"%string) then Ok (wrap64 (LevelInfo + offset))
      else if bool_decide (name = "WARN"%string) then Ok (wrap64 (LevelWarn + offset))
      else if bool_decide (name = "ERROR"%string) then Ok (wrap64 (LevelError + offset))
      else fail (New "unknown name")
  end.

Example ParseDuration_tests :
  (map ParseDuration ["5s"; "250ms"; "5m0s"; "1h30m"; "1.5h"; "-1.5s"; "0"; "2us"; ".5s"; "9223372036.854775807s"],
   map (λ s, is_ok (ParseDuration s)) ["5"; ""; "s"; "1x"; "-"; "9223372036.854775808s"; "1s "; "3000000h"])%string
  = ([Ok (5 * Second); Ok (250 * Millisecond); Ok (5 * Minute); Ok (90 * Minute); Ok (90 * Minute);
      Ok (-1500 * Millisecond); Ok 0; Ok 2000; Ok (500 * Millisecond); Ok (2 ^ 63 - 1)],
     repeat false 8).
Proof. vm_compute. reflexivity. Qed.

Example Duration_String_tests :
  map Duration_String [5 * Second; 10 * Second; 250 * Millisecond; 5 * Minute; 90 * Minute; 1500 * Millisecond; 1; 0; 1050]
  = ["5s"; "10s"; "250ms"; "5m0s"; "1h30m0s"; "1.5s"; "1ns"; "0s"; string_of (bytes_of "1.05" ++ [xc2; xb5; x73])]%string.
Proof. vm_compute. reflexivity. Qed.

#[local] Instance plain_text : UnicodeText := {| Quote := λ s, s; unicode_ToUpper := λ r, r |}.

Example ParseFloat_tests :
  (map ParseFloat ["0.2"; "1"; "1e2"; "-0.5"; "0x1p-2"; "nan"; "Inf"; "-infinity"; "1_0.5"; ".5"; "1e-400"],
   map (λ s, is_ok (ParseFloat s)) [""; "."; "1e"; "1e400"; "0x1"; "infi"; "+nan"; "1__0"; "_1"; "1 "])%string
  = ([Ok (Fin 7205759403792794 (-55)); Ok f_one; Ok (Fin 100 0); Ok (Fin (-4503599627370496) (-53)); Ok (Fin 1 (-2)); Ok NaN; Ok (Inf false);
      Ok (Inf true); Ok (Fin 5910974510923776 (-49)); Ok (Fin 4503599627370496 (-53)); Ok (Fin 0 (-1074))], repeat false 10).
Proof. vm_compute. reflexivity. Qed.

Example level_tests :
  (map level_parse ["info"; "Debug"; "WARN+2"; "error-8"], map (λ s, is_ok (level_parse s)) [""; "info+"; "trace"; "info 1"])%string
  = ([Ok 0; Ok (-4); Ok 6; Ok 0], repeat false 4).
Proof. vm_compute. reflexivity. Qed.

Example integer_tests :
  (map Atoi ["0"; "-5"; "+7"; "9223372036854775807"; "-9223372036854775808"],
   map (λ s, ParseInt s 0) ["0x_1F"; "017"; "0b101"; "0o17"; "1_000"; "0"],
   map Atoi [""; "1_0"; "9223372036854775808"; "a"; "-"; "99999999999999999999a"],
   map (λ s, is_ok (ParseInt s 0)) ["0x"; "09"; "_1"; "1__0"; "0b2"],
   map ParseBool ["true"; "0"; "T"], is_ok (ParseBool "yes"))%string
  = ([Ok 0; Ok (-5); Ok 7; Ok (2 ^ 63 - 1); Ok (- 2 ^ 63)],
     [Ok 31; Ok 15; Ok 5; Ok 15; Ok 1000; Ok 0],
     [Err (NumError "Atoi" "" ErrSyntax); Err (NumError "Atoi" "1_0" ErrSyntax);
      Err (NumError "Atoi" "9223372036854775808" ErrRange); Err (NumError "Atoi" "a" ErrSyntax);
      Err (NumError "Atoi" "-" ErrSyntax); Err (NumError "Atoi" "99999999999999999999a" ErrRange)],
     repeat false 5, [Ok true; Ok false; Ok true], false).
Proof. vm_compute. reflexivity. Qed.
