(* ===== verification/GoFlag.v ===== *)
(** * Package flag

    What the load generator uses of package flag: a set of flags that take a
    value (text, integer or duration) and the parsing of the arguments with
    [ContinueOnError]. The usage text goes to [io.Discard]. *)

From S2P Require Import Prelude GoErrors GoTime GoText GoStrings GoParse.

Definition ErrHelp : error := Sentinel "flag.ErrHelp" "flag: help requested".

(** [errParse] and [errRange] in the place of what strconv and time report. *)
Definition numError (err : error) : string :=
  match err with
  | Wrap _ (Sentinel name _) _ => if bool_decide (name = "strconv.ErrRange"%string) then "value out of range" else "parse error"
  | _ => "parse error"
  end.

(** ** Arguments *)

(** What [parseOne] makes of an argument before it knows the flags. *)
Inductive argument : Type :=
  | Positional
  | Terminator
  | BadSyntax
  | Named (name : string) (value : option string).

(** The name and what follows the first equals sign; the name is not empty. *)
Fixpoint split_equals (s : bytes) : bytes * option bytes :=
  match s with
  | [] => ([], None)
  | b :: s' => if bool_decide (b = x3d) then ([], Some s') else let '(n, v) := split_equals s' in (b :: n, v)
  end.

Definition named (name : bytes) : argument :=
  match name with
  | b :: _ =>
      if bool_decide (b = x2d) || bool_decide (b = x3d) then BadSyntax
      else let '(n, v) := split_equals name in Named (string_of n) (string_of <$> v)
  | [] => BadSyntax
  end.

Definition classify (s : string) : argument :=
  match bytes_of s with
  | d :: ((e :: rest) as name) =>
      if negb (bool_decide (d = x2d)) then Positional
      else if bool_decide (e = x2d) then match rest with [] => Terminator | _ => named rest end
      else named name
  | _ => Positional
  end.

Section FlagSet.
Context {S : Type} `{UX : UnicodeText}.

(** A flag and what [Set] does with a text: an error is the text [failf] ends
    with. *)
Record Flag : Type := mkFlag {
  Flag_Name : string;
  Flag_Set : string → S → string + S;
}.

(** [StringVar], [IntVar] and [DurationVar] over the variable a function updates. *)
Definition StringVar (name : string) (set : string → S → S) : Flag := mkFlag name (λ v s, inr (set v s)).

Definition IntVar (name : string) (set : Z → S → S) : Flag :=
  mkFlag name (λ v s, match ParseInt v 0 with Ok n => inr (set n s) | Err err => inl (numError err) end).

Definition DurationVar (name : string) (set : Duration → S → S) : Flag :=
  mkFlag name (λ v s, match ParseDuration v with Ok d => inr (set d s) | Err _ => inl "parse error"%string end).

Variable formal : list Flag.

Definition lookup_flag (name : string) : option Flag := List.find (λ f, bool_decide (Flag_Name f = name)) formal.

Definition set_flag (f : Flag) (name value : string) (s : S) : res S :=
  match Flag_Set f value s with
  | inr s' => Ok s'
  | inl reason => Err (New ("invalid value " +:+ Quote value +:+ " for flag -" +:+ name +:+ ": " +:+ reason))
  end.

Definition find_flag (name : string) : res Flag :=
  match lookup_flag name with
  | Some f => Ok f
  | None =>
      if bool_decide (name ∈ ["help"; "h"]%string) then Err ErrHelp
      else Err (New ("flag provided but not defined: -" +:+ name))
  end.

(** [Parse] with the loop over [parseOne]: the variables and the arguments left. *)
Fixpoint Parse (args : list string) (s : S) : res (S * list string) :=
  match args with
  | [] => Ok (s, [])
  | arg :: rest =>
      match classify arg with
      | Positional => Ok (s, args)
      | Terminator => Ok (s, rest)
      | BadSyntax => Err (New ("bad flag syntax: " +:+ arg))
      | Named name (Some value) => f ← find_flag name; s' ← set_flag f name value s; Parse rest s'
      | Named name None =>
          f ← find_flag name;
          match rest with
          | value :: rest' => s' ← set_flag f name value s; Parse rest' s'
          | [] => Err (New ("flag needs an argument: -" +:+ name))
          end
      end
  end.

(** ** The grammar of command lines *)

(** The assignments a command line spells, in order, and what it leaves. *)
Inductive command_line : list string → list (string * string) → list string → Prop :=
  | cl_end : command_line [] [] []
  | cl_positional arg rest : classify arg = Positional → command_line (arg :: rest) [] (arg :: rest)
  | cl_terminator arg rest : classify arg = Terminator → command_line (arg :: rest) [] rest
  | cl_inline arg rest name value l left :
      classify arg = Named name (Some value) → command_line rest l left → command_line (arg :: rest) ((name, value) :: l) left
  | cl_next arg value rest name l left :
      classify arg = Named name None → command_line rest l left → command_line (arg :: value :: rest) ((name, value) :: l) left.

Fixpoint assign (l : list (string * string)) (s : S) : res S :=
  match l with
  | [] => Ok s
  | (name, value) :: l' => f ← find_flag name; s' ← set_flag f name value s; assign l' s'
  end.

Lemma assign_cons name value l f s s' :
  find_flag name = Ok f → Flag_Set f value s = inr s' → assign ((name, value) :: l) s = assign l s'.
Proof. intros Hf Hs. cbn. rewrite Hf. cbn. unfold set_flag. by rewrite Hs. Qed.

(** A parse succeeds exactly on the command lines of the grammar whose
    assignments all succeed; each flag has the value of its last assignment. *)
Lemma Parse_grammar args s s' left :
  Parse args s = Ok (s', left) ↔ ∃ l, command_line args l left ∧ assign l s = Ok s'.
Proof.
  split.
  - remember (length args) as n eqn:Hn. revert args s Hn. induction n as [n IH] using lt_wf_ind. intros args s ->.
    destruct args as [|arg rest]; [intros [= <- <-]; exists []; split; [constructor|done]|]. cbn [Parse].
    destruct (classify arg) as [| | |name [value|]] eqn:Ec; [intros [= <- <-]..|done| |].
    + exists []. split; [by constructor|done].
    + exists []. split; [by constructor|done].
    + intros (f & Hf & (s1 & Hs & H)%res_bind_Ok)%res_bind_Ok.
      apply (IH (length rest)) in H as (l & Hl & Ha); [|cbn; lia|done].
      exists ((name, value) :: l). split; [by eapply cl_inline|]. cbn. by rewrite Hf; cbn; rewrite Hs.
    + intros (f & Hf & H)%res_bind_Ok. destruct rest as [|value rest]; [done|].
      apply res_bind_Ok in H as (s1 & Hs & H). apply (IH (length rest)) in H as (l & Hl & Ha); [|cbn; lia|done].
      exists ((name, value) :: l). split; [by eapply cl_next|]. cbn. by rewrite Hf; cbn; rewrite Hs.
  - intros (l & Hl & Ha). revert s Ha. induction Hl as [|arg rest E|arg rest E|arg rest name value l left E _ IH|arg value rest name l left E _ IH];
      intros s; cbn [Parse assign]; rewrite ?E; try (by intros [= <-]).
    all: intros (f & Hf & (s1 & Hs & H)%res_bind_Ok)%res_bind_Ok; rewrite Hf; cbn [mbind res_bind];
      rewrite Hs; by apply IH.
Qed.
End FlagSet.
Arguments Flag : clear implicits.

(** ** Spelling an assignment *)

(** A name one can put on a command line. *)
Definition flag_name (name : string) : bool :=
  match bytes_of name with
  | b :: _ => negb (bool_decide (b = x2d)) && negb (bool_decide (x3d ∈ bytes_of name))
  | [] => false
  end.

Definition spell (name value : string) : string := "-" +:+ name +:+ "=" +:+ value.

Lemma split_equals_spec n v : x3d ∉ n → split_equals (n ++ x3d :: v) = (n, Some v).
Proof.
  induction n as [|b n IH]; [done|]. intros [Hb Hn]%not_elem_of_cons. cbn.
  rewrite bool_decide_eq_false_2 by congruence. by rewrite IH.
Qed.

Lemma classify_spell name value : flag_name name = true → classify (spell name value) = Named name (Some value).
Proof.
  unfold flag_name, classify, spell. rewrite !bytes_of_app. change (bytes_of "-") with [x2d]. change (bytes_of "=") with [x3d].
  destruct (bytes_of name) as [|b n] eqn:En; [done|]. intros [Hb%negb_true_iff He%negb_true_iff]%andb_true_iff.
  apply bool_decide_eq_false in He. cbn [app].
  assert (b ≠ x3d) by (intros ->; apply He; by left). unfold named. rewrite Hb. change (bool_decide (x2d = x2d)) with true.
  cbn [negb orb]. rewrite bool_decide_eq_false_2 by done.
  change (b :: n ++ x3d :: bytes_of value) with ((b :: n) ++ x3d :: bytes_of value). rewrite split_equals_spec by done.
  rewrite <- En. cbn. by rewrite !string_of_bytes_of.
Qed.

Example classify_tests :
  map classify ["-x"; "--x=1"; "-x="; "--"; "-"; ""; "x"; "---x"; "-=1"; "-x=a=b"]%string
  = [Named "x" None; Named "x" (Some "1"%string); Named "x" (Some ""%string); Terminator; Positional; Positional; Positional;
     BadSyntax; BadSyntax; Named "x" (Some "a=b"%string)].
Proof. vm_compute. reflexivity. Qed.
