(* ===== verification/FormatFloat.v ===== *)
(** * Printing float64

    [strconv.AppendFloat] with the precision -1, in the format encoding/json
    picks: the shortest decimal that a nearest-even parser reads back, the nearest
    such to the value, in positional notation or, for the very small and the very
    large, with an exponent. No decimal with fewer digits reads back
    ([shortest_spec]), and what is printed parses to the value ([FormatFloat_reads]). *)

From S2P Require Import Prelude GoErrors GoTime GoText GoStrings Float64 GoParse.

(** ** The parts of a value *)

(** The mantissa, below [2^53], and the exponent of a finite value as its 64 bits
    have them: [2^52] or more, or the exponent of the subnormals. *)
Definition binary_exponent (m e : Z) : Z := Z.max (Z.log2 (Z.abs m) + e - 52) (-1074).

Definition binary_mantissa (m e : Z) : Z :=
  let E := binary_exponent m e in
  if E <=? e then Z.abs m * 2 ^ (e - E) else Z.abs m / 2 ^ (E - e).

(** The values that have 64 bits: the results of every operation. *)
Definition representable (f : float64) : bool :=
  match f with
  | Fin m e =>
      let E := binary_exponent m e in
      (m =? 0) || (E <=? 971) && (Z.abs m * 2 ^ Z.max 0 (e - E) =? binary_mantissa m e * 2 ^ Z.max 0 (E - e))
  | _ => true
  end.

(** ** The shortest decimal *)

Section Shortest.
Variables M E : Z.

(** Halfway to the values below and above, in units of [2^(E-2)]. *)
Definition half_below : Z := if (M =? 2 ^ 52) && (-1074 <? E) then 4 * M - 1 else 4 * M - 2.
Definition half_above : Z := 4 * M + 2.

(** The halves themselves round to an even mantissa. *)
Definition inclusive : bool := Z.even M.

Definition below (a b : Z) : bool := if inclusive then a <=? b else a <? b.

(** [X * 2^(E-2)] against [D * 10^p], over one denominator: [X * scale_up p]
    against [D * scale_down p]. *)
Definition scale_up (p : Z) : Z := 2 ^ Z.max 0 (E - 2) * 10 ^ Z.max 0 (- p).
Definition scale_down (p : Z) : Z := 10 ^ Z.max 0 p * 2 ^ Z.max 0 (2 - E).

(** [roundShortest] at the digit of [10^p]: the value cut there or one more, if
    either is between the halves; the nearer, or the even one, if both are. *)
Definition round_at (p : Z) : option Z :=
  let v := 4 * M * scale_up p in
  let D := v / scale_down p in
  let okdown := below (half_below * scale_up p) (D * scale_down p) in
  let okup := below ((D + 1) * scale_down p) (half_above * scale_up p) in
  if okdown && okup then
    let r := 2 * (v - D * scale_down p) in
    Some (if r <? scale_down p then D
          else if scale_down p <? r then D + 1
          else if Z.even D then D else D + 1)
  else if okdown then Some D
  else if okup then Some (D + 1)
  else None.

(** The first digit, from [10^p] down, at which it can stop. *)
Fixpoint shortest_from (fuel : nat) (p : Z) : Z * Z :=
  match round_at p, fuel with
  | Some D, _ => (D, p)
  | None, S fuel' => shortest_from fuel' (p - 1)
  | None, O => (0, 0)
  end.

(** A power of ten the value is below. *)
Definition first_digit : Z :=
  let bits := Z.log2 half_above + 1 + (E - 2) in
  if 0 <=? bits then bits / 3 + 1 else - (- bits / 4).

(** The digits, as a number, and the exponent of ten of the last one. *)
Definition shortest : Z * Z :=
  shortest_from (Z.to_nat (first_digit - Z.min 0 (E - 2))) first_digit.
End Shortest.

(** ** Formats *)

(** [%f]: every digit before the dot and those after it, if any. *)
Definition format_f (D p : Z) : bytes :=
  if 0 <=? p then bytes_of (FormatInt (D * 10 ^ p))
  else bytes_of (FormatInt (D / 10 ^ (- p))) ++ x2e :: pad_left (Z.to_nat (- p)) (bytes_of (FormatInt (D mod 10 ^ (- p)))).

(** [%e], with the leading zero of the exponent dropped as encoding/json does:
    only [e-07] to [e-09] have one. *)
Definition format_e (D p : Z) : bytes :=
  match bytes_of (FormatInt D) with
  | [] => []
  | d :: ds =>
      let exp := p + len ds in
      d :: (match ds with [] => [] | _ => x2e :: ds end) ++ x65 :: (if exp <? 0 then x2d else x2b) :: bytes_of (FormatInt (Z.abs exp))
  end.

(** Whether the value is below [10^-6] or from [10^21] on. *)
Definition scientific (m e : Z) : bool :=
  flt (Fin (Z.abs m) e) (decimal_float 1 (-6)) || negb (flt (Fin (Z.abs m) e) (decimal_float 1 21)).

(** [floatEncoder]. *)
Definition FormatFloat (f : float64) : res bytes :=
  let unsupported s := Err (New ("json: unsupported value: " +:+ s)) in
  match f with
  | NaN => unsupported "NaN"%string
  | Inf negative => unsupported (if negative then "-Inf" else "+Inf")%string
  | Fin m e =>
      if m =? 0 then Ok [x30]
      else
        let '(D, p) := shortest (binary_mantissa m e) (binary_exponent m e) in
        Ok ((if m <? 0 then [x2d] else []) ++ if scientific m e then format_e D p else format_f D p)
  end.

Example FormatFloat_tests :
  map (λ f, match FormatFloat f with Ok b => string_of b | Err e => error_text e end)
    [of_int 0; of_int 1; of_int (-120); fdiv (of_int 1) (of_int 3); fdiv (of_int 15) (of_int 10); fdiv (of_int 1) (of_int 10);
     decimal_float 1 21; decimal_float 123456 (-12); decimal_float 5 (-324); decimal_float 1 23;
     Fin 9007199254740991 971; decimal_float 1 (-6); decimal_float 9999999999999999 (-1); decimal_float 22250738585072014 (-324);
     fadd (fdiv (of_int 1) (of_int 10)) (fdiv (of_int 2) (of_int 10)); decimal_float 2 20; Inf true]
  = ["0"; "1"; "-120"; "0.3333333333333333"; "1.5"; "0.1"; "1e+21"; "1.23456e-7"; "5e-324"; "1e+23";
     "1.7976931348623157e+308"; "0.000001"; "999999999999999.9"; "2.2250738585072014e-308"; "0.30000000000000004";
     "200000000000000000000"; "json: unsupported value: -Inf"]%string.
Proof. vm_compute. reflexivity. Qed.

(** ** Equal values *)

Definition same_value (f g : float64) : Prop :=
  match f, g with
  | Fin m1 e1, Fin m2 e2 => m1 * 2 ^ (e1 - Z.min e1 e2) = m2 * 2 ^ (e2 - Z.min e1 e2)
  | Inf s, Inf t => s = t
  | NaN, NaN => True
  | _, _ => False
  end.

Lemma same_value_at e m1 e1 m2 e2 : e <= e1 → e <= e2 →
  same_value (Fin m1 e1) (Fin m2 e2) ↔ m1 * 2 ^ (e1 - e) = m2 * 2 ^ (e2 - e).
Proof.
  intros H1 H2. cbn. set (k := Z.min e1 e2). pose proof (pow_pos (k - e) ltac:(lia)) as Hp.
  replace (e1 - e) with ((e1 - k) + (k - e)) by lia. replace (e2 - e) with ((e2 - k) + (k - e)) by lia.
  rewrite !Z.pow_add_r, !Z.mul_assoc by lia. split; [by intros ->|]. intros H. by apply Z.mul_reg_r in H; [|lia].
Qed.

#[global] Instance same_value_equiv : Equivalence same_value.
Proof.
  split.
  - by intros [m e|s|].
  - intros [m1 e1|s|] [m2 e2|t|]; try done. intros H. pose proof (Z.le_min_l e1 e2). pose proof (Z.le_min_r e1 e2).
    apply (same_value_at (Z.min e1 e2)) in H; [|done..]. by apply (same_value_at (Z.min e1 e2)).
  - intros [m1 e1|s|] [m2 e2|t|] [m3 e3|u|]; try done; [|by intros -> ->].
    intros H1 H2. set (e := Z.min e1 (Z.min e2 e3)).
    apply (same_value_at e) in H1; [|lia..]. apply (same_value_at e) in H2; [|lia..]. apply (same_value_at e); [lia..|congruence].
Qed.

(** ** Rounding to the nearest *)

(** The nearest integer, ties to even. *)
Definition nearest (n k c : Z) : Prop :=
  (2 * c - 1) * 2 ^ k <= 2 * n <= (2 * c + 1) * 2 ^ k
  ∧ (2 * n = (2 * c - 1) * 2 ^ k ∨ 2 * n = (2 * c + 1) * 2 ^ k → Z.even c = true).

Lemma nearest_unique n k c c' : 0 <= k → nearest n k c → nearest n k c' → c = c'.
Proof.
  intros Hk [H1 H2] [H3 H4]. pose proof (pow_pos k Hk).
  assert (c' - c < 2 ∧ c - c' < 2) as [Ha Hb] by nia.
  destruct (Z.lt_trichotomy c c') as [Hc|[Hc|Hc]]; [|done|]; exfalso.
  - assert (c' = c + 1) as -> by lia. assert (2 * n = (2 * c + 1) * 2 ^ k) as E by nia.
    specialize (H2 (or_intror E)). assert (2 * n = (2 * (c + 1) - 1) * 2 ^ k) as E' by (rewrite E; f_equal; lia). specialize (H4 (or_introl E')). rewrite Z.even_add, H2 in H4. done.
  - assert (c = c' + 1) as -> by lia. assert (2 * n = (2 * c' + 1) * 2 ^ k) as E by nia.
    specialize (H4 (or_intror E)). assert (2 * n = (2 * (c' + 1) - 1) * 2 ^ k) as E' by (rewrite E; f_equal; lia). specialize (H2 (or_introl E')). rewrite Z.even_add, H4 in H2. done.
Qed.

Lemma rne_nearest n k : 0 <= k → nearest n k (rne n k).
Proof.
  intros Hk. unfold rne, nearest. pose proof (pow_pos k Hk). pose proof (Z.div_mod n (2 ^ k)).
  pose proof (Z.mod_pos_bound n (2 ^ k)).
  destruct (Z.ltb_spec (2 * (n mod 2 ^ k)) (2 ^ k)); [split; [nia|intros []; nia]|].
  destruct (Z.ltb_spec (2 ^ k) (2 * (n mod 2 ^ k))); [split; [nia|intros []; nia]|].
  destruct (Z.even (n / 2 ^ k)) eqn:E; [split; [nia|done]|]. split; [nia|]. intros _. by rewrite Z.even_add, E.
Qed.

Lemma rne_unique n k c : 0 <= k → nearest n k c → rne n k = c.
Proof. intros Hk. by apply nearest_unique, rne_nearest. Qed.

Lemma rne_opp n k : 0 <= k → rne (- n) k = - rne n k.
Proof.
  intros Hk. apply rne_unique; [done|]. destruct (rne_nearest n k Hk) as [H1 H2]. split; [nia|].
  rewrite Z.even_opp. intros [H|H]; apply H2; [right|left]; nia.
Qed.

Lemma finite_or_inf_opp x y : finite_or_inf (- x) y = fopp (finite_or_inf x y).
Proof.
  unfold finite_or_inf. rewrite Z.abs_opp. replace (- x =? 0) with (x =? 0) by lia.
  destruct (Z.eqb_spec x 0); cbn [negb andb fopp]; [done|]. destruct (_ <=? _); cbn [fopp]; [|done]. f_equal. lia.
Qed.

Lemma round64_opp m e : round64 (- m) e = fopp (round64 m e).
Proof.
  unfold round64. rewrite Z.abs_opp. set (k := Z.max _ _).
  destruct (k <=? 0) eqn:Hk; [apply finite_or_inf_opp|]. rewrite rne_opp by lia. apply finite_or_inf_opp.
Qed.

(** Rounding depends on the value alone. *)
Lemma round64_scale m e j : 0 < m → 0 <= j → same_value (round64 (m * 2 ^ j) (e - j)) (round64 m e).
Proof.
  intros Hm Hj. pose proof (pow_pos j Hj) as Hp. unfold round64. rewrite !Z.abs_eq, Z.log2_mul_pow2 by lia.
  set (k := Z.max (Z.log2 m + 1 - 53) (-1074 - e)). replace (Z.max _ _) with (k + j) by lia.
  assert (Hinf : ∀ x y x' y', 0 < x → 0 < x' → Z.log2 x + y = Z.log2 x' + y' → same_value (Fin x y) (Fin x' y') →
    same_value (finite_or_inf x y) (finite_or_inf x' y')).
  { intros x y x' y' Hx Hx' Hl Hv. unfold finite_or_inf. rewrite !Z.abs_eq by lia. rewrite Hl.
    replace (x =? 0) with false by lia. replace (x' =? 0) with false by lia. cbn [negb andb].
    destruct (_ <=? _); [|done]. cbn. lia. }
  destruct (Z.leb_spec k 0) as [Hk|Hk]; destruct (Z.leb_spec (k + j) 0) as [Hkj|Hkj]; try lia.
  - apply Hinf; [nia|done|rewrite Z.log2_mul_pow2; lia|].
    apply (same_value_at (e - j)); [lia..|]. rewrite Z.sub_diag. replace (e - (e - j)) with j by lia. lia.
  - assert (E : rne (m * 2 ^ j) (k + j) = m * 2 ^ (- k)).
    { apply rne_unique; [lia|]. assert (E : m * 2 ^ j = m * 2 ^ (- k) * 2 ^ (k + j)).
      { rewrite <- Z.mul_assoc, <- Z.pow_add_r by lia. do 2 f_equal. lia. }
      pose proof (pow_pos (k + j) ltac:(lia)). split; [nia|]. intros []; nia. }
    rewrite E. pose proof (pow_pos (- k) ltac:(lia)). apply Hinf; [nia|done|rewrite Z.log2_mul_pow2; lia|].
    apply (same_value_at (e + k)); [lia..|]. replace (e - j + (k + j) - (e + k)) with 0 by lia.
    replace (e - (e + k)) with (- k) by lia. lia.
  - replace (rne (m * 2 ^ j) (k + j)) with (rne m k).
    + replace (e - j + (k + j)) with (e + k) by lia. reflexivity.
    + symmetry. apply rne_unique; [lia|]. destruct (rne_nearest m k ltac:(lia)) as [H1 H2]. unfold nearest.
      rewrite Z.pow_add_r by lia. split; [nia|]. intros H. apply H2. destruct H; [left|right]; nia.
Qed.

(** ** What rounds to a value *)

(** The 64 bits of a positive value. *)
Record normal (M E : Z) : Prop := {
  normal_M : 0 < M < 2 ^ 53;
  normal_E : -1074 <= E <= 971;
  normal_full : 2 ^ 52 <= M ∨ E = -1074;
}.

Section Interval.
Variables M E : Z.
Hypothesis Hn : normal M E.

Lemma below_le a b : below M a b = true → a <= b ∧ (a = b → Z.even M = true).
Proof. unfold below, inclusive. destruct (Z.even M); intros H; zbool; split; try lia; done. Qed.

Lemma below_intro a b : a <= b → (a = b → Z.even M = true) → below M a b = true.
Proof.
  intros H1 H2. unfold below, inclusive. destruct (Z.even M); [by apply Z.leb_le|apply Z.ltb_lt].
  destruct (Z.eq_dec a b) as [H|]; [by specialize (H2 H)|lia].
Qed.

Lemma below_scale a b c : 0 < c → below M (a * c) (b * c) = below M a b.
Proof. intros Hc. unfold below. destruct (inclusive M); apply eq_true_iff_eq; rewrite ?Z.leb_le, ?Z.ltb_lt; nia. Qed.

Lemma half_below_bound : 4 * M - 2 <= half_below M E <= 4 * M - 1.
Proof. unfold half_below. case_match; lia. Qed.

Lemma no_overflow x y : 0 < x → Z.log2 x + y <= 1023 → finite_or_inf x y = Fin x y.
Proof.
  intros Hx H. unfold finite_or_inf. rewrite Z.abs_eq by lia. replace (1024 <=? Z.log2 x + y) with false by lia.
  by rewrite andb_false_r.
Qed.

Lemma log2_upto x k : 0 < x → 0 <= k → x < 2 ^ (k + 1) → Z.log2 x <= k.
Proof. intros Hx Hk H. apply Z.lt_succ_r. apply Z.log2_lt_pow2; [lia|]. by replace (Z.succ k) with (k + 1) by lia. Qed.

Lemma log2_from x k : 0 <= k → 2 ^ k <= x → k <= Z.log2 x.
Proof. intros Hk H. apply Z.log2_le_pow2; [|done]. pose proof (pow_pos k Hk). lia. Qed.

(** The bits rounding drops from a number between the halves: two, or one just
    below a power of two. *)
Lemma dropped_bits m j e : e = E - 2 - j → 0 <= j → half_below M E * 2 ^ j <= m <= half_above M * 2 ^ j →
  let k := Z.max (Z.log2 m + 1 - 53) (-1074 - e) in
  k = j + 2 ∨ k = j + 1 ∧ M = 2 ^ 52 ∧ (2 ^ 54 - 1) * 2 ^ j <= m < 2 ^ 54 * 2 ^ j.
Proof.
  intros -> Hj [H1 H2] k. destruct Hn as [HM HE Hf]. pose proof (pow_pos j Hj) as Hp. pose proof half_below_bound as Hb.
  unfold half_above in H2. assert (Hm : 0 < m) by nia.
  assert (Hlog : Z.log2 m <= 54 + j).
  { apply log2_upto; [done|lia|]. replace (54 + j + 1) with (55 + j) by lia. rewrite Z.pow_add_r by lia. nia. }
  destruct (Z.le_gt_cases (2 ^ 54 * 2 ^ j) m) as [Hge|Hlt].
  { assert (54 + j <= Z.log2 m) by (apply log2_from; [lia|]; rewrite Z.pow_add_r by lia; nia). lia. }
  assert (Hlog' : Z.log2 m <= 53 + j).
  { apply log2_upto; [done|lia|]. replace (53 + j + 1) with (54 + j) by lia. rewrite Z.pow_add_r by lia. lia. }
  destruct (Z.eq_dec E (-1074)) as [HE'|HE']; [left; lia|]. destruct Hf as [Hf|]; [|lia]. right.
  assert (M = 2 ^ 52) as HM' by nia. assert (half_below M E = 4 * M - 1) as Hhb.
  { unfold half_below. rewrite HM'. replace (-1074 <? E) with true by lia. done. }
  assert (53 + j <= Z.log2 m) by (apply log2_from; [lia|]; rewrite Z.pow_add_r by lia; nia).
  split; [lia|]. split; [done|]. split; [|done]. nia.
Qed.

(** Between the halves, everything rounds to the value. *)
Lemma round64_between m j e : e = E - 2 - j → 0 <= j →
  below M (half_below M E * 2 ^ j) m = true → below M m (half_above M * 2 ^ j) = true →
  same_value (round64 m e) (Fin M E).
Proof.
  intros He Hj [H1 H1']%below_le [H2 H2']%below_le. destruct Hn as [HM HE Hf]. pose proof (pow_pos j Hj) as Hp.
  pose proof half_below_bound as Hb. assert (Hm : 0 < m) by nia.
  pose proof (dropped_bits m j e He Hj (conj H1 H2)) as Hk. cbv zeta in Hk. unfold round64. rewrite Z.abs_eq by lia.
  set (k := Z.max _ _) in *. assert (Hk0 : 0 < k) by lia. replace (k <=? 0) with false by lia. unfold half_above in *.
  destruct Hk as [Hk|(Hk & HM' & Hm')]; rewrite Hk.
  - assert (rne m (j + 2) = M) as ->.
    { apply rne_unique; [lia|]. unfold nearest. rewrite Z.pow_add_r by lia. change (2 ^ 2) with 4.
      split; [nia|]. intros [Ht|Ht]; [apply H1', Z.le_antisymm; nia|apply H2', Z.le_antisymm; nia]. }
    replace (e + (j + 2)) with E by lia. rewrite no_overflow; [done|lia|].
    assert (Z.log2 M <= 52) by (apply log2_upto; lia). lia.
  - assert (rne m (j + 1) = 2 ^ 53) as ->.
    { apply rne_unique; [lia|]. unfold nearest. rewrite Z.pow_add_r by lia. change (2 ^ 1) with 2. split; [nia|done]. }
    replace (e + (j + 1)) with (E - 1) by lia. rewrite no_overflow; [|lia|rewrite Z.log2_pow2; lia].
    apply (same_value_at (E - 1)); [lia..|]. rewrite Z.sub_diag, HM'. replace (E - (E - 1)) with 1 by lia. done.
Qed.

(** The same for a quotient, which [fdiv_fin] cuts after at least 56 bits. *)
Lemma quotient_between D d : 0 < D → 0 < d →
  below M (half_below M E * 2 ^ Z.max 0 (E - 2) * d) (D * 2 ^ Z.max 0 (2 - E)) = true →
  below M (D * 2 ^ Z.max 0 (2 - E)) (half_above M * 2 ^ Z.max 0 (E - 2) * d) = true →
  same_value (fdiv_fin D 0 d 0) (Fin M E).
Proof.
  intros HD Hd H1 H2. destruct Hn as [HM HE Hf]. set (a := Z.max 0 (E - 2)) in *. set (b := Z.max 0 (2 - E)) in *.
  unfold fdiv_fin. rewrite !Z.abs_eq, !Z.sgn_pos by lia. set (s := Z.max 0 _).
  assert (Hs : 2 - E <= s).
  { apply below_le in H2 as [H2 _]. unfold half_above in H2. pose proof (pow_pos a ltac:(lia)). pose proof (pow_pos b ltac:(lia)).
    assert (Hlog : Z.log2 (D * 2 ^ b) <= 54 + a + (Z.log2 d + 1)).
    { pose proof (Z.log2_nonneg d). apply log2_upto; [nia|lia|].
      replace (54 + a + (Z.log2 d + 1) + 1) with (55 + (a + (Z.log2 d + 1))) by lia.
      rewrite Z.pow_add_r, (Z.pow_add_r 2 a) by lia. pose proof (Z.log2_spec d Hd) as [_ Hl].
      replace (Z.succ (Z.log2 d)) with (Z.log2 d + 1) in Hl by lia. nia. }
    rewrite Z.log2_mul_pow2 in Hlog by lia. lia. }
  set (n := D * 2 ^ s). set (q := 2 * (n / d) + _). set (j := E - 1 + s).
  assert (Hcut : ∀ X, X * 2 ^ a * d * 2 ^ s = X * 2 ^ (j - 1) * d * 2 ^ b).
  { intros X. replace (j - 1) with (a - b + s) by lia. assert (2 ^ a * 2 ^ s = 2 ^ (a - b + s) * 2 ^ b) as HE2.
    { rewrite <- !Z.pow_add_r by lia. f_equal. lia. }
    transitivity (X * d * (2 ^ a * 2 ^ s)); [lia|rewrite HE2; lia]. }
  pose proof (pow_pos s ltac:(lia)) as Hps. pose proof (pow_pos b ltac:(lia)) as Hpb. pose proof (pow_pos (j - 1) ltac:(lia)) as Hpj.
  rewrite <- (below_scale _ _ (2 ^ s)), Hcut in H1 by lia. rewrite <- (below_scale _ _ (2 ^ s)), Hcut in H2 by lia.
  replace (D * 2 ^ b * 2 ^ s) with (n * 2 ^ b) in * by (unfold n; lia). rewrite below_scale in H1, H2 by lia.
  apply below_le in H1 as [H1 H1']. apply below_le in H2 as [H2 H2'].
  pose proof (Z.div_mod n d ltac:(lia)) as Hdm. pose proof (Z.mod_pos_bound n d ltac:(lia)) as Hr.
  assert (Ej : 2 ^ j = 2 * 2 ^ (j - 1)) by (replace j with (1 + (j - 1)) at 1 by lia; rewrite Z.pow_add_r by lia; done).
  replace (1 * 1 * q) with q by lia.
  apply (round64_between q j); [lia|lia|apply below_intro|apply below_intro]; rewrite Ej; unfold q;
    set (L := half_below M E * 2 ^ (j - 1)) in *; set (U := half_above M * 2 ^ (j - 1)) in *.
  - assert (L <= n / d) by (apply Z.div_le_lower_bound; lia). destruct (_ =? 0); lia.
  - intros Heq. apply H1'. destruct (Z.eqb_spec (n mod d) 0); [|lia]. nia.
  - destruct (Z.eqb_spec (n mod d) 0) as [|Hne]; [nia|]. assert (n / d < U); [|lia]. apply Z.div_lt_upper_bound; [lia|].
    assert (n ≠ d * U); [|lia]. intros Heq. apply Hne. by rewrite Heq, Z.mul_comm, Z_mod_mult.
  - intros Heq. apply H2'. destruct (Z.eqb_spec (n mod d) 0); [|lia]. nia.
Qed.

(** A decimal between the halves reads back. *)
Lemma decimal_between D p :
  below M (half_below M E * scale_up E p) (D * scale_down E p) = true →
  below M (D * scale_down E p) (half_above M * scale_up E p) = true →
  0 < D ∧ same_value (decimal_float D p) (Fin M E).
Proof.
  intros H1 H2. pose proof half_below_bound as Hb. pose proof (normal_M _ _ Hn) as HM. unfold scale_up, scale_down in *.
  set (a := Z.max 0 (E - 2)) in *. set (b := Z.max 0 (2 - E)) in *.
  pose proof (pow_pos a ltac:(lia)) as Hpa. pose proof (pow_pos b ltac:(lia)) as Hpb.
  assert (Hten : ∀ k, 0 <= k → 0 < 10 ^ k) by (intros; apply Z.pow_pos_nonneg; lia).
  assert (HD : 0 < D).
  { apply below_le in H1 as [H1 _]. pose proof (Hten (Z.max 0 (- p)) ltac:(lia)). pose proof (Hten (Z.max 0 p) ltac:(lia)).
    destruct (Z.le_gt_cases D 0) as [HD|]; [|done]. exfalso.
    assert (0 < half_below M E * (2 ^ a * 10 ^ Z.max 0 (- p))) by (apply Z.mul_pos_pos; nia).
    assert (D * (10 ^ Z.max 0 p * 2 ^ b) <= 0) by (apply Z.mul_nonpos_nonneg; nia). lia. }
  split; [done|]. unfold decimal_float. replace (D =? 0) with false by lia. destruct (Z.leb_spec 0 p) as [Hp|Hp].
  - replace (Z.max 0 (- p)) with 0 in * by lia. replace (Z.max 0 p) with p in * by lia. change (10 ^ 0) with 1 in *. rewrite !Z.mul_1_r in *.
    rewrite Z.mul_assoc in H1, H2. specialize (Hten p Hp).
    rewrite <- (round64_scale (D * 10 ^ p) 0 b) by lia. apply (round64_between _ a); [lia|lia|done|done].
  - replace (Z.max 0 (- p)) with (- p) in * by lia. replace (Z.max 0 p) with 0 in * by lia. change (10 ^ 0) with 1 in *. rewrite !Z.mul_1_l in *.
    apply quotient_between; [done|apply Hten; lia|..]; fold a b; by rewrite <- Z.mul_assoc.
Qed.
End Interval.

(** ** The shortest decimal *)

(** [D * 10^p] reads back as the value. *)
Definition reads_as (M E D p : Z) : Prop :=
  below M (half_below M E * scale_up E p) (D * scale_down E p) = true
  ∧ below M (D * scale_down E p) (half_above M * scale_up E p) = true.

Section Search.
Variables M E : Z.
Hypothesis Hn : normal M E.

Lemma scales_pos p : 0 < scale_up E p ∧ 0 < scale_down E p.
Proof. unfold scale_up, scale_down. split; apply Z.mul_pos_pos; apply Z.pow_pos_nonneg; lia. Qed.

Lemma cut_bounds p : let v := 4 * M * scale_up E p in let D := v / scale_down E p in
  D * scale_down E p <= v < (D + 1) * scale_down E p.
Proof.
  cbv zeta. destruct (scales_pos p) as [_ Hd]. pose proof (Z.div_mod (4 * M * scale_up E p) (scale_down E p) ltac:(lia)).
  pose proof (Z.mod_pos_bound (4 * M * scale_up E p) (scale_down E p) Hd). lia.
Qed.

Lemma round_at_between p D : round_at M E p = Some D → reads_as M E D p.
Proof.
  unfold round_at, reads_as. cbv zeta. pose proof (cut_bounds p) as Hc. cbv zeta in Hc.
  destruct (scales_pos p) as [Hu Hd]. pose proof (half_below_bound M E) as Hb.
  set (D0 := 4 * M * scale_up E p / scale_down E p) in *.
  assert (Hlo : below M (half_below M E * scale_up E p) ((D0 + 1) * scale_down E p) = true) by (apply below_intro; nia).
  assert (Hhi : below M (D0 * scale_down E p) (half_above M * scale_up E p) = true) by (apply below_intro; unfold half_above; nia).
  destruct (below M (half_below M E * _) (D0 * _)) eqn:Hdown, (below M ((D0 + 1) * _) _) eqn:Hup; cbn [andb]; intros H;
    [|by injection H as <-..|done].
  repeat match type of H with Some (if ?b then _ else _) = _ => destruct b end; by injection H as <-.
Qed.

(** Where nothing is chosen, no number of that many digits would do. *)
Lemma round_at_none p D : round_at M E p = None → ¬ reads_as M E D p.
Proof.
  unfold round_at, reads_as. cbv zeta. pose proof (cut_bounds p) as Hc. cbv zeta in Hc. destruct (scales_pos p) as [Hu Hd].
  set (D0 := 4 * M * scale_up E p / scale_down E p) in *.
  destruct (below M (half_below M E * _) (D0 * _)) eqn:Hdown, (below M ((D0 + 1) * _) _) eqn:Hup; cbn [andb]; intros H; try done.
  intros [[H1 H1']%below_le [H2 H2']%below_le]. destruct (Z.le_gt_cases D D0) as [Hle|Hgt].
  - apply eq_true_false_abs in Hdown; [done|]. apply below_intro; [nia|]. intros Heq. apply H1'. nia.
  - apply eq_true_false_abs in Hup; [done|]. apply below_intro; [nia|]. intros Heq. apply H2'. nia.
Qed.

(** The last digit tried is the last the value has. *)
Lemma round_at_last : is_Some (round_at M E (Z.min 0 (E - 2))).
Proof.
  unfold round_at. cbv zeta. set (p := Z.min 0 (E - 2)). destruct (scales_pos p) as [Hu Hd]. pose proof (half_below_bound M E) as Hb.
  assert (Hex : 4 * M * scale_up E p / scale_down E p * scale_down E p = 4 * M * scale_up E p).
  { rewrite Z.mul_comm. symmetry. apply Z_div_exact_full_2; [lia|]. unfold scale_up, scale_down.
    destruct (Z.le_gt_cases 2 E) as [He|He].
    - replace (Z.max 0 p) with 0 by lia. replace (Z.max 0 (2 - E)) with 0 by lia. apply Z.mod_1_r.
    - replace (Z.max 0 p) with 0 by lia. replace (Z.max 0 (2 - E)) with (2 - E) by lia. replace (Z.max 0 (- p)) with (2 - E) by lia.
      replace (Z.max 0 (E - 2)) with 0 by lia. change (10 ^ 0) with 1. change (2 ^ 0) with 1. rewrite !Z.mul_1_l.
      change 10 with (5 * 2). rewrite Z.pow_mul_l, Z.mul_assoc. apply Z_mod_mult. }
  rewrite Hex. assert (below M (half_below M E * scale_up E p) (4 * M * scale_up E p) = true) as -> by (apply below_intro; nia).
  by destruct (below _ _ _); cbn [andb].
Qed.

Lemma first_digit_bounds : Z.min 0 (E - 2) <= first_digit M E <= 345.
Proof.
  destruct Hn as [HM HE _]. unfold first_digit, half_above. cbv zeta.
  assert (0 <= Z.log2 (4 * M + 2) <= 54) by (split; [apply Z.log2_nonneg|apply log2_upto; lia]).
  set (bits := _ + 1 + (E - 2)). destruct (Z.leb_spec 0 bits) as [Hb|Hb].
  - pose proof (Z.div_le_upper_bound bits 3 344 ltac:(lia) ltac:(lia)). pose proof (Z.div_pos bits 3 Hb ltac:(lia)). lia.
  - pose proof (Z.div_le_upper_bound (- bits) 4 (- bits) ltac:(lia) ltac:(lia)). pose proof (Z.div_pos (- bits) 4 ltac:(lia) ltac:(lia)). lia.
Qed.

Lemma shortest_from_spec fuel p : p - Z.of_nat fuel <= Z.min 0 (E - 2) <= p →
  let '(D, q) := shortest_from M E fuel p in
  Z.min 0 (E - 2) <= q <= p ∧ reads_as M E D q ∧ ∀ D' r, q < r <= p → ¬ reads_as M E D' r.
Proof.
  revert p. induction fuel as [|fuel IH]; intros p Hp; cbn [shortest_from].
  - destruct round_at_last as [D HD]. replace (Z.min 0 (E - 2)) with p in HD by lia. rewrite HD.
    split; [lia|]. split; [by apply round_at_between|lia].
  - destruct (round_at M E p) as [D|] eqn:Er; [split; [lia|]; split; [by apply round_at_between|lia]|].
    assert (p ≠ Z.min 0 (E - 2)) as Hne by (intros ->; destruct round_at_last; congruence).
    specialize (IH (p - 1) ltac:(lia)). destruct (shortest_from M E fuel (p - 1)) as [D q]. destruct IH as (Hq & HD & Hmin).
    split; [lia|]. split; [done|]. intros D' r Hr. destruct (Z.eq_dec r p) as [->|]; [by apply round_at_none|apply Hmin; lia].
Qed.

(** Beyond the first digit there is nothing to find. *)
Lemma beyond_first D p : first_digit M E < p → ¬ reads_as M E D p.
Proof.
  intros Hp [[H1 _]%below_le [H2 _]%below_le]. destruct (scales_pos p) as [Hu Hd]. pose proof (half_below_bound M E) as Hb.
  destruct Hn as [HM HE _]. assert (HD : 0 < D) by nia. unfold first_digit in Hp. cbv zeta in Hp.
  pose proof (Z.log2_spec (half_above M)) as [_ Hl]; [unfold half_above; lia|]. set (l := Z.log2 (half_above M)) in *.
  assert (Hl0 : 0 <= l) by apply Z.log2_nonneg. set (bits := l + 1 + (E - 2)) in *. replace (Z.succ l) with (l + 1) in Hl by lia.
  enough (2 ^ (l + 1) * scale_up E p <= scale_down E p) by nia. unfold scale_up, scale_down.
  assert (H10 : ∀ k, 0 <= k → 2 ^ (3 * k) <= 10 ^ k) by (intros k Hk; rewrite Z.pow_mul_r by lia; apply Z.pow_le_mono_l; lia).
  assert (H16 : ∀ k, 0 <= k → 10 ^ k <= 2 ^ (4 * k)) by (intros k Hk; rewrite Z.pow_mul_r by lia; apply Z.pow_le_mono_l; lia).
  assert (Hsum : 2 ^ (l + 1) * 2 ^ Z.max 0 (E - 2) = 2 ^ (l + 1 + Z.max 0 (E - 2))) by (symmetry; apply Z.pow_add_r; lia).
  destruct (Z.leb_spec 0 bits) as [Hbits|Hbits].
  - pose proof (Z.div_mod bits 3 ltac:(lia)). pose proof (Z.mod_pos_bound bits 3 ltac:(lia)).
    replace (Z.max 0 (- p)) with 0 by lia. replace (Z.max 0 p) with p by lia. change (10 ^ 0) with 1. rewrite Z.mul_1_r, Hsum.
    specialize (H10 p ltac:(lia)). assert (2 ^ (l + 1 + Z.max 0 (E - 2)) <= 2 ^ (3 * p + Z.max 0 (2 - E))) as H3 by (apply Z.pow_le_mono_r; lia).
    rewrite (Z.pow_add_r 2 (3 * p)) in H3 by lia. pose proof (pow_pos (Z.max 0 (2 - E)) ltac:(lia)). nia.
  - pose proof (Z.div_mod (- bits) 4 ltac:(lia)). pose proof (Z.mod_pos_bound (- bits) 4 ltac:(lia)).
    replace (Z.max 0 (E - 2)) with 0 by lia. rewrite Z.mul_1_l.
    destruct (Z.le_gt_cases 0 p) as [Hp0|Hp0].
    + replace (Z.max 0 (- p)) with 0 by lia. change (10 ^ 0) with 1. rewrite Z.mul_1_r.
      assert (2 ^ (l + 1) <= 2 ^ Z.max 0 (2 - E)) by (apply Z.pow_le_mono_r; lia).
      assert (0 < 10 ^ Z.max 0 p) by (apply Z.pow_pos_nonneg; lia). nia.
    + replace (Z.max 0 (- p)) with (- p) by lia. replace (Z.max 0 p) with 0 by lia. change (10 ^ 0) with 1. rewrite Z.mul_1_l.
      specialize (H16 (- p) ltac:(lia)). assert (2 ^ (l + 1 + 4 * (- p)) <= 2 ^ Z.max 0 (2 - E)) as H3 by (apply Z.pow_le_mono_r; lia).
      rewrite (Z.pow_add_r 2 (l + 1)) in H3 by lia. pose proof (pow_pos (l + 1) ltac:(lia)). nia.
Qed.

(** The search finds a decimal that reads back, and none with its last digit
    further left does. *)
Lemma shortest_spec D p : shortest M E = (D, p) →
  Z.min 0 (E - 2) <= p <= 345 ∧ reads_as M E D p ∧ ∀ D' r, p < r → ¬ reads_as M E D' r.
Proof.
  unfold shortest. intros Hs. pose proof first_digit_bounds as Hf.
  pose proof (shortest_from_spec (Z.to_nat (first_digit M E - Z.min 0 (E - 2))) (first_digit M E) ltac:(lia)) as H. rewrite Hs in H.
  destruct H as (Hp & HD & Hmin). split; [lia|]. split; [done|]. intros D' r Hr.
  destruct (Z.le_gt_cases r (first_digit M E)); [apply Hmin; lia|by apply beyond_first].
Qed.

(** Its digits are few enough for any exponent the parser accumulates. *)
Lemma between_digits D p : reads_as M E D p → -1076 <= p → D < 10 ^ 2200.
Proof.
  intros [_ [H2 _]%below_le] Hp. destruct Hn as [HM HE _]. unfold half_above, scale_up, scale_down in H2.
  assert (2 ^ Z.max 0 (E - 2) <= 10 ^ 969) as Ha.
  { transitivity (2 ^ 969); [apply Z.pow_le_mono_r; lia|apply Z.pow_le_mono_l; lia]. }
  assert (10 ^ Z.max 0 (- p) <= 10 ^ 1076) as Hb by (apply Z.pow_le_mono_r; lia).
  assert (0 < 2 ^ Z.max 0 (E - 2)) by (apply Z.pow_pos_nonneg; lia). assert (0 < 10 ^ Z.max 0 (- p)) by (apply Z.pow_pos_nonneg; lia).
  assert (2 ^ Z.max 0 (E - 2) * 10 ^ Z.max 0 (- p) <= 10 ^ 969 * 10 ^ 1076) as Hc by (apply Z.mul_le_mono_nonneg; lia).
  assert (1 <= 10 ^ Z.max 0 p * 2 ^ Z.max 0 (2 - E)) as Hd.
  { enough (0 < 10 ^ Z.max 0 p * 2 ^ Z.max 0 (2 - E)) by lia. apply Z.mul_pos_pos; apply Z.pow_pos_nonneg; lia. }
  rewrite <- Z.pow_add_r in Hc by lia. change (969 + 1076) with 2045 in Hc.
  assert ((4 * M + 2) * 10 ^ 2045 < 10 ^ 2200).
  { replace (10 ^ 2200) with (10 ^ 155 * 10 ^ 2045) by (rewrite <- Z.pow_add_r by lia; done).
    apply Z.mul_lt_mono_pos_r; [by apply Z.pow_pos_nonneg|]. assert (2 ^ 55 < 10 ^ 155) by (vm_compute; reflexivity). lia. }
  set (x := 10 ^ 2045) in *. set (y := 10 ^ 2200) in *. clearbody x y. destruct (Z.le_gt_cases D 0); nia.
Qed.
End Search.

Lemma binary_mantissa_nonneg m e : 0 <= binary_mantissa m e.
Proof.
  unfold binary_mantissa. cbv zeta. destruct (Z.leb_spec (binary_exponent m e) e).
  - apply Z.mul_nonneg_nonneg; [lia|apply Z.pow_nonneg; lia].
  - apply Z.div_pos; [lia|apply Z.pow_pos_nonneg; lia].
Qed.

Lemma shortest_nonneg M E : 0 <= M → 0 <= (shortest M E).1.
Proof.
  intros HM. assert (Hr : ∀ p D, round_at M E p = Some D → 0 <= D).
  { intros p D. unfold round_at. cbv zeta. destruct (scales_pos E p) as [Hu Hd].
    assert (0 <= 4 * M * scale_up E p / scale_down E p) by (apply Z.div_pos; nia).
    repeat case_match; intros; simplify_eq; lia. }
  unfold shortest. generalize (first_digit M E) at 2. induction (Z.to_nat _) as [|fuel IH]; intros p; cbn [shortest_from];
    (destruct (round_at M E p) as [D|] eqn:Er; [by apply (Hr p)|]); [done|apply IH].
Qed.

(** ** Reading back *)

(** The number a list of digits is. *)
Definition decimal_value (w : bytes) : Z := fold_left (λ v c, v * 10 + (zb c - 48)) w 0.

Lemma fold_digits w v : fold_left (λ v c, v * 10 + (zb c - 48)) w v = v * 10 ^ len w + decimal_value w.
Proof.
  unfold decimal_value. revert v. induction w as [|c w IH]; intros v; cbn [fold_left]; [change (10 ^ len []) with 1; lia|].
  rewrite IH, (IH (0 * 10 + _)). unfold len. cbn [length]. rewrite Nat2Z.inj_succ, Z.pow_succ_r by lia. lia.
Qed.

Lemma decimal_value_cons c w : decimal_value (c :: w) = (zb c - 48) * 10 ^ len w + decimal_value w.
Proof. unfold decimal_value at 1. cbn [fold_left]. rewrite fold_digits. lia. Qed.

Lemma decimal_value_FormatInt n : 0 <= n → decimal_value (bytes_of (FormatInt n)) = n.
Proof.
  intros Hn. destruct (Z.eq_dec n 0) as [->|Hne]; [done|]. rewrite <- (app_nil_r (bytes_of _)).
  unfold decimal_value. set (F := λ (v : Z) (s : bytes), fold_left (λ v c, v * 10 + (zb c - 48)) s v).
  exact (read_digits F n (λ v c s _ _ _, eq_refl) n [] ltac:(lia)).
Qed.

Lemma FormatInt_all_digits n : 0 <= n → forallb is_digit (bytes_of (FormatInt n)) = true ∧ bytes_of (FormatInt n) ≠ [].
Proof.
  intros Hn. destruct (Z.eq_dec n 0) as [->|Hne]; [done|]. destruct (FormatInt_digits n ltac:(lia)) as (d & ds & -> & Hd & Hds).
  split; [|done]. cbn [forallb]. rewrite Hds, andb_true_r. destruct d; first [discriminate Hd|reflexivity].
Qed.

Lemma decimal_value_bounds w : forallb is_digit w = true → 0 <= decimal_value w < 10 ^ len w.
Proof.
  induction w as [|c w IH]; [by cbn|]. cbn [forallb]. intros [Hc Hw]%andb_true_iff. specialize (IH Hw).
  rewrite decimal_value_cons. unfold is_digit, between in Hc. zbool. unfold len in *. cbn [length].
  rewrite Nat2Z.inj_succ, Z.pow_succ_r by lia. assert (0 < 10 ^ Z.of_nat (length w)) by (apply Z.pow_pos_nonneg; lia). nia.
Qed.

(** A number below [10^k] has at most [k] digits. *)
Lemma FormatInt_len n k : 0 < n < 10 ^ k → 0 <= k → 1 <= len (bytes_of (FormatInt n)) <= k.
Proof.
  intros Hn Hk. destruct (FormatInt_digits n ltac:(lia)) as (d & ds & E & Hd & Hds). pose proof (decimal_value_FormatInt n ltac:(lia)) as Hv.
  rewrite E in *. rewrite decimal_value_cons in Hv. pose proof (decimal_value_bounds ds Hds). unfold between in Hd. zbool.
  unfold len in *. cbn [length]. rewrite Nat2Z.inj_succ. split; [lia|].
  assert (0 < 10 ^ Z.of_nat (length ds)) by (apply Z.pow_pos_nonneg; lia).
  assert (10 ^ Z.of_nat (length ds) < 10 ^ k) as Hlt by nia. apply Z.pow_lt_mono_r_iff in Hlt; lia.
Qed.

Lemma pad_left_spec n w : forallb is_digit w = true → (length w <= n)%nat →
  forallb is_digit (pad_left n w) = true ∧ len (pad_left n w) = Z.of_nat n ∧ decimal_value (pad_left n w) = decimal_value w.
Proof.
  revert w. induction n as [|n IH]; intros w Hw Hl; cbn [pad_left].
  - assert (length w = 0%nat) as -> by lia. cbn [Nat.ltb Nat.leb]. split; [done|]. split; [unfold len; lia|done].
  - destruct (Nat.ltb_spec (length w) (S n)) as [Hlt|Hge].
    + destruct (IH w Hw ltac:(lia)) as (H1 & H2 & H3). rewrite decimal_value_cons, H3. cbn [forallb]. rewrite H1.
      split; [done|]. unfold len in *. cbn [length]. split; [lia|]. change (zb x30 - 48) with 0. lia.
    + split; [done|]. split; [unfold len; lia|done].
Qed.

Lemma pad_left_digits n w : forallb is_digit w = true → w ≠ [] → forallb is_digit (pad_left n w) = true ∧ pad_left n w ≠ [].
Proof. intros Hw Hne. induction n as [|n [IH _]]; cbn [pad_left]; (destruct (_ <? _)%nat; [|done]); [done|]. cbn [forallb]. by rewrite IH. Qed.

(** *** The parser on printed digits *)

Lemma float_digit_digit c : is_digit c = true → float_digit false c = Some (zb c - 48).
Proof. unfold float_digit. by intros ->. Qed.

Lemma digit_byte c : is_digit c = true → c ≠ x5f ∧ c ≠ x2e ∧ c ≠ x2d ∧ c ≠ x2b ∧ c ≠ x65.
Proof. intros Hc. split_and!; by intros ->. Qed.

Lemma mantissa_digits w sawdot sawdigits m frac s : forallb is_digit w = true →
  mantissa false sawdot sawdigits m frac (w ++ s)
  = mantissa false sawdot (sawdigits || match w with [] => false | _ => true end) (m * 10 ^ len w + decimal_value w)
      (if sawdot then frac + len w else frac) s.
Proof.
  revert sawdigits m frac. induction w as [|c w IH]; intros sawdigits m frac.
  - intros _. cbn. rewrite Z.mul_1_r, !Z.add_0_r, orb_false_r. by destruct sawdot.
  - cbn [forallb]. intros [Hc Hw]%andb_true_iff. destruct (digit_byte c Hc) as (H1 & H2 & _). cbn [app mantissa].
    rewrite !bool_decide_eq_false_2 by done. rewrite float_digit_digit by done. rewrite IH by done.
    rewrite decimal_value_cons. unfold len. cbn [length]. rewrite Nat2Z.inj_succ, Z.pow_succ_r by lia.
    rewrite !orb_true_l, orb_true_r.
    f_equal; [lia|destruct sawdot; lia].
Qed.

Lemma exponent_digits n : 0 <= n < 10000 → exponent 0 (bytes_of (FormatInt n)) = (n, []).
Proof.
  intros Hn. destruct (Z.eq_dec n 0) as [->|Hne]; [done|]. rewrite <- (app_nil_r (bytes_of _)).
  rewrite (read_digits exponent 9999); [done| |lia]. intros v c s Hc Hv Hb. cbn [exponent].
  destruct (digit_byte c Hc) as (H1 & _). rewrite bool_decide_eq_false_2 by done. rewrite Hc.
  assert (48 <= zb c) by (unfold is_digit, between in Hc; zbool; lia). replace (v <? 10000) with true by lia. done.
Qed.

(** The bytes of a printed number. *)
Definition number_byte (c : byte) : bool := is_digit c || bool_decide (c ∈ [x2e; x65; x2b; x2d]).

Lemma digits_number_bytes w : forallb is_digit w = true → forallb number_byte w = true.
Proof. rewrite !forallb_forall. intros H x Hx. unfold number_byte. by rewrite (H x Hx). Qed.

(** What [read_float] makes of a number: an optional sign, digits, perhaps a dot
    and digits, perhaps an exponent. *)
Lemma read_float_number (neg dot : bool) (c : byte) (w frac ex : bytes) (e : Z) :
  forallb is_digit (c :: w) = true → forallb is_digit frac = true → forallb number_byte ex = true →
  exponent_part false ex = Some (e, []) → match ex with [] => True | x :: _ => x = x65 end →
  read_float ((if neg then [x2d] else []) ++ c :: w ++ (if dot then x2e :: frac else []) ++ ex)
  = Some (let v := decimal_value (c :: w) in
          let v := if dot then v * 10 ^ len frac + decimal_value frac else v in
          decimal_float (if neg then - v else v) (e - if dot then len frac else 0)).
Proof.
  intros Hw Hf Hex He Hx. set (tail := (if dot then x2e :: frac else []) ++ ex).
  assert (Hc : is_digit c = true) by (cbn in Hw; by apply andb_true_iff in Hw as [? _]).
  destruct (digit_byte c Hc) as (H1 & H2 & H3 & H4 & _).
  assert (Hall : forallb number_byte (c :: w ++ tail) = true).
  { change (c :: w ++ tail) with ((c :: w) ++ tail). unfold tail. rewrite !forallb_app, (digits_number_bytes _ Hw), Hex.
    destruct dot; [|done]. cbn [forallb]. by rewrite (digits_number_bytes _ Hf). }
  unfold read_float. assert (strip_sign ((if neg then [x2d] else []) ++ c :: w ++ tail) = (neg, c :: w ++ tail)) as ->.
  { destruct neg; [done|]. cbn [app strip_sign]. by rewrite !bool_decide_eq_false_2. }
  match goal with |- (let '(_, _) := ?h in _) = _ => assert (h = (false, c :: w ++ tail)) as -> end.
  { destruct (w ++ tail) as [|x [|y r]] eqn:Et; [done..|]. destruct (lower x =? 120) eqn:Ex; [|by rewrite andb_false_r].
    cbn [forallb] in Hall. apply andb_true_iff in Hall as [_ [Hn _]%andb_true_iff]. destruct x; first [discriminate Hn|discriminate Ex]. }
  assert (Hm : mantissa false false false 0 0 (c :: w ++ tail)
    = (if dot then decimal_value (c :: w) * 10 ^ len frac + decimal_value frac else decimal_value (c :: w),
       if dot then len frac else 0, true, ex)).
  { change (c :: w ++ tail) with ((c :: w) ++ tail). rewrite mantissa_digits by done. unfold tail.
    assert (Hend : ∀ d v k, mantissa false d true v k ex = (v, k, true, ex)).
    { intros d v k. destruct ex as [|x ex]; [done|]. subst x. done. }
    destruct dot; [|by rewrite Hend, Z.mul_0_l]. cbn [app mantissa orb].
    change (bool_decide (x2e = x5f)) with false. change (bool_decide (x2e = x2e)) with true. cbv iota.
    rewrite mantissa_digits by done. by rewrite Hend. }
  rewrite Hm, He. cbn [negb].
  assert (bool_decide (x5f ∈ (if neg then [x2d] else []) ++ c :: w ++ tail) = false) as ->; [|by destruct neg, dot].
  apply bool_decide_eq_false. rewrite elem_of_app. intros [Hin|Hin].
  - destruct neg; [by apply list_elem_of_singleton in Hin|by apply elem_of_nil in Hin].
  - apply list_elem_of_In in Hin. rewrite forallb_forall in Hall. by apply Hall in Hin.
Qed.

Lemma exponent_part_number exp : Z.abs exp < 10000 →
  exponent_part false (x65 :: (if exp <? 0 then x2d else x2b) :: bytes_of (FormatInt (Z.abs exp))) = Some (exp, []).
Proof.
  intros He. unfold exponent_part. change (lower x65 =? 101) with true. cbv iota.
  assert (strip_sign ((if exp <? 0 then x2d else x2b) :: bytes_of (FormatInt (Z.abs exp)))
    = (exp <? 0, bytes_of (FormatInt (Z.abs exp)))) as -> by (by destruct (exp <? 0)).
  destruct (FormatInt_all_digits (Z.abs exp) ltac:(lia)) as [Hd Hne].
  pose proof (exponent_digits (Z.abs exp) ltac:(lia)) as Hx. destruct (bytes_of (FormatInt (Z.abs exp))) as [|d ds]; [done|].
  cbn [forallb] in Hd. apply andb_true_iff in Hd as [-> _]. rewrite Hx. do 2 f_equal. destruct (Z.ltb_spec exp 0); lia.
Qed.

Lemma decimal_float_opp D p : decimal_float (- D) p = fopp (decimal_float D p).
Proof.
  unfold decimal_float. replace (- D =? 0) with (D =? 0) by lia. destruct (Z.eqb_spec D 0); [done|].
  destruct (0 <=? p); [by rewrite Z.mul_opp_l, round64_opp|]. unfold fdiv_fin. by rewrite Z.abs_opp, Z.sgn_opp, !Z.mul_opp_l, round64_opp.
Qed.

Definition sign (neg : bool) : bytes := if neg then [x2d] else [].
Definition signed (neg : bool) (D : Z) : Z := if neg then - D else D.

Lemma format_f_reads neg D p : 0 < D → read_float (sign neg ++ format_f D p) = Some (decimal_float (signed neg D) p).
Proof.
  intros HD. unfold format_f. destruct (Z.leb_spec 0 p) as [Hp|Hp].
  - assert (0 < D * 10 ^ p) as HDp by (apply Z.mul_pos_pos; [done|apply Z.pow_pos_nonneg; lia]).
    destruct (FormatInt_all_digits (D * 10 ^ p) ltac:(lia)) as [Hd Hne].
    pose proof (decimal_value_FormatInt (D * 10 ^ p) ltac:(lia)) as Hv. destruct (bytes_of (FormatInt (D * 10 ^ p))) as [|c w]; [done|].
    pose proof (read_float_number neg false c w [] [] 0 Hd eq_refl eq_refl eq_refl I) as Hr. cbn [app] in Hr. rewrite app_nil_r in Hr.
    unfold sign. rewrite Hr. cbv zeta. rewrite Hv. f_equal. unfold signed, decimal_float. rewrite Z.sub_0_r. change (0 <=? 0) with true.
    replace (0 <=? p) with true by lia. change (10 ^ 0) with 1.
    destruct neg; [replace (- (D * 10 ^ p) =? 0) with false by lia; replace (- D =? 0) with false by lia; f_equal; lia|].
    replace (D * 10 ^ p =? 0) with false by lia. replace (D =? 0) with false by lia. f_equal. lia.
  - assert (0 < 10 ^ (- p)) as Hten by (apply Z.pow_pos_nonneg; lia).
    pose proof (Z.div_mod D (10 ^ (- p)) ltac:(lia)) as Hdm. pose proof (Z.mod_pos_bound D _ Hten) as Hm.
    pose proof (Z.div_pos D (10 ^ (- p)) ltac:(lia) Hten) as Hq.
    destruct (FormatInt_all_digits _ Hq) as [Hd Hne]. pose proof (decimal_value_FormatInt _ Hq) as Hv.
    destruct (FormatInt_all_digits (D mod 10 ^ (- p)) ltac:(lia)) as [Hd' _].
    assert (Hl : (length (bytes_of (FormatInt (D mod 10 ^ (- p)))) <= Z.to_nat (- p))%nat).
    { destruct (Z.eq_dec (D mod 10 ^ (- p)) 0) as [->|Hnz]; [change (length (bytes_of (FormatInt 0))) with 1%nat; lia|].
      pose proof (FormatInt_len (D mod 10 ^ (- p)) (- p) ltac:(lia) ltac:(lia)) as Hl. unfold len in Hl. lia. }
    destruct (pad_left_spec _ _ Hd' Hl) as (Hp1 & Hp2 & Hp3). rewrite decimal_value_FormatInt in Hp3 by lia.
    destruct (bytes_of (FormatInt (D / 10 ^ (- p)))) as [|c w]; [done|].
    pose proof (read_float_number neg true c w _ [] 0 Hd Hp1 eq_refl eq_refl I) as Hr. rewrite app_nil_r in Hr. cbn [app] in Hr.
    unfold sign. cbn [app]. rewrite Hr. cbv zeta. rewrite Hv, Hp2, Hp3. rewrite Z2Nat.id by lia. f_equal. f_equal; [|lia].
    unfold signed. destruct neg; lia.
Qed.

Lemma format_e_reads neg D p : 0 < D → D < 10 ^ 2200 → -1076 <= p <= 345 →
  read_float (sign neg ++ format_e D p) = Some (decimal_float (signed neg D) p).
Proof.
  intros HD HD' Hp. unfold format_e. pose proof (FormatInt_len D 2200 (conj HD HD') ltac:(lia)) as Hl.
  destruct (FormatInt_all_digits D ltac:(lia)) as [Hd Hne]. pose proof (decimal_value_FormatInt D ltac:(lia)) as Hv.
  destruct (bytes_of (FormatInt D)) as [|d ds] eqn:Ed; [done|]. unfold len in Hl. cbn [length] in Hl.
  set (exp := p + len ds). assert (Hexp : Z.abs exp < 10000) by (unfold exp, len; lia).
  assert (Hex : forallb number_byte (x65 :: (if exp <? 0 then x2d else x2b) :: bytes_of (FormatInt (Z.abs exp))) = true).
  { cbn [forallb]. destruct (FormatInt_all_digits (Z.abs exp) ltac:(lia)) as [Hx _]. rewrite (digits_number_bytes _ Hx). by destruct (exp <? 0). }
  cbn [forallb] in Hd. apply andb_true_iff in Hd as [Hd Hds]. unfold signed.
  destruct ds as [|d2 ds].
  - pose proof (read_float_number neg false d [] [] _ exp ltac:(cbn [forallb]; by rewrite Hd) eq_refl Hex (exponent_part_number exp Hexp) eq_refl) as Hr.
    unfold sign. cbn [app] in *. rewrite Hr. cbv zeta. rewrite Hv. f_equal. f_equal. unfold exp, len. cbn [length]. lia.
  - pose proof (read_float_number neg true d [] (d2 :: ds) _ exp ltac:(cbn [forallb]; by rewrite Hd) Hds Hex (exponent_part_number exp Hexp) eq_refl) as Hr.
    unfold sign. cbn [app] in *. rewrite Hr. cbv zeta.
    assert (decimal_value [d] * 10 ^ len (d2 :: ds) + decimal_value (d2 :: ds) = D) as ->.
    { rewrite <- Hv, (decimal_value_cons d (d2 :: ds)). unfold decimal_value at 1. cbn [fold_left]. lia. }
    f_equal. f_equal. unfold exp. lia.
Qed.

(** ** Values with 64 bits *)

Lemma representable_intro m e :
  Z.abs m <= 2 ^ 53 → -1074 <= e → m = 0 ∨ Z.log2 (Z.abs m) + e <= 1023 → representable (Fin m e) = true.
Proof.
  intros Hm He Ho. unfold representable. destruct (Z.eqb_spec m 0) as [|Hne]; [done|]. cbn [orb]. destruct Ho as [|Ho]; [done|].
  unfold binary_mantissa, binary_exponent. set (E := Z.max _ _). apply andb_true_iff. split; [lia|]. apply Z.eqb_eq.
  destruct (Z.eq_dec (Z.abs m) (2 ^ 53)) as [Hm'|Hm'].
  - assert (Z.log2 (Z.abs m) = 53) as Hl by (by rewrite Hm', Z.log2_pow2). assert (E = e + 1) as HE by lia. rewrite HE, Hm'.
    replace (e + 1 <=? e) with false by lia. replace (e + 1 - e) with 1 by lia. replace (Z.max 0 (e - (e + 1))) with 0 by lia. done.
  - assert (Z.log2 (Z.abs m) <= 52) by (apply log2_upto; lia). replace (E <=? e) with true by lia.
    replace (Z.max 0 (e - E)) with (e - E) by lia. replace (Z.max 0 (E - e)) with 0 by lia. lia.
Qed.

Lemma finite_representable m e : Z.abs m <= 2 ^ 53 → -1074 <= e → representable (finite_or_inf m e) = true.
Proof.
  intros Hm He. unfold finite_or_inf. destruct (Z.eqb_spec m 0) as [|Hne]; cbn [negb andb]; [apply representable_intro; auto|].
  destruct (Z.leb_spec 1024 (Z.log2 (Z.abs m) + e)); [done|]. apply representable_intro; [done|done|lia].
Qed.

Lemma round64_representable m e : representable (round64 m e) = true.
Proof.
  unfold round64. set (k := Z.max _ _). destruct (Z.eq_dec m 0) as [->|Hm0].
  { destruct (k <=? 0) eqn:Hk; [done|]. by rewrite rne_0 by lia. }
  pose proof (Z.log2_spec (Z.abs m) ltac:(lia)) as [_ Hl]. destruct (Z.leb_spec k 0) as [Hk|Hk].
  - apply finite_representable; [|lia]. assert (2 ^ Z.succ (Z.log2 (Z.abs m)) <= 2 ^ 53) by (apply Z.pow_le_mono_r; lia). lia.
  - apply finite_representable; [|lia]. assert (Z.abs m <= 2 ^ 53 * 2 ^ k).
    { rewrite <- Z.pow_add_r by lia. assert (2 ^ Z.succ (Z.log2 (Z.abs m)) <= 2 ^ (53 + k)) by (apply Z.pow_le_mono_r; lia). lia. }
    apply Z.abs_le. split; [apply rne_ge|apply rne_le]; lia.
Qed.

Lemma fdiv_representable f g : representable (fdiv f g) = true.
Proof.
  destruct f as [m1 e1|s|], g as [m2 e2|t|]; try done. cbn [fdiv]. destruct (m2 =? 0); [by destruct (m1 =? 0)|].
  destruct (m1 =? 0); [done|apply round64_representable].
Qed.

Lemma fadd_representable f g : representable (fadd f g) = true.
Proof.
  destruct f as [m1 e1|s|], g as [m2 e2|t|]; try done; [|by cbn; destruct (eqb s t)]. cbn [fadd]. destruct (exact_add m1 e1 m2 e2).
  apply round64_representable.
Qed.

Lemma representable_normal m e : m ≠ 0 → representable (Fin m e) = true →
  normal (binary_mantissa m e) (binary_exponent m e)
  ∧ same_value (Fin (Z.abs m) e) (Fin (binary_mantissa m e) (binary_exponent m e)).
Proof.
  intros Hm. unfold representable. replace (m =? 0) with false by lia. cbn [orb]. cbv zeta. intros [H1 H2]%andb_true_iff. apply Z.leb_le in H1. apply Z.eqb_eq in H2.
  set (M := binary_mantissa m e) in *. set (E := binary_exponent m e) in *.
  assert (HE : E = Z.max (Z.log2 (Z.abs m) + e - 52) (-1074)) by done.
  pose proof (pow_pos (Z.max 0 (e - E)) ltac:(lia)) as Hp1. pose proof (pow_pos (Z.max 0 (E - e)) ltac:(lia)) as Hp2.
  assert (HM : 0 < M) by nia.
  assert (Hlog : Z.log2 (Z.abs m) + Z.max 0 (e - E) = Z.log2 M + Z.max 0 (E - e)).
  { rewrite (Z.add_comm (Z.log2 (Z.abs m))), (Z.add_comm (Z.log2 M)), <- !Z.log2_mul_pow2 by lia. by rewrite H2. }
  split.
  - pose proof (Z.log2_spec M HM) as [Hl Hu]. split; [|lia|].
    + split; [done|]. apply (Z.lt_le_trans _ _ _ Hu). apply Z.pow_le_mono_r; lia.
    + destruct (Z.eq_dec E (-1074)); [by right|left]. etransitivity; [|exact Hl]. apply Z.pow_le_mono_r; lia.
  - cbn. replace (e - Z.min e E) with (Z.max 0 (e - E)) by lia. by replace (E - Z.min e E) with (Z.max 0 (E - e)) by lia.
Qed.

(** ** The round trip *)

Lemma special_number c w neg : is_digit c = true → special (sign neg ++ c :: w) = None.
Proof.
  intros Hc. unfold special. assert (strip_sign (sign neg ++ c :: w) = (neg, c :: w)) as ->.
  { destruct neg; [done|]. destruct (digit_byte c Hc) as (_ & _ & H3 & H4 & _). cbn [app sign strip_sign]. by rewrite !bool_decide_eq_false_2. }
  cbn [forallb]. by assert (between 65 90 c || between 97 122 c = false) as -> by (by destruct c).
Qed.

Lemma same_value_opp f g : same_value f g → same_value (fopp f) (fopp g).
Proof. destruct f, g; cbn; try done; intros; [lia|congruence]. Qed.

Lemma format_first D p (b : bool) : 0 < D → ∃ c w, (if b then format_e D p else format_f D p) = c :: w ∧ is_digit c = true.
Proof.
  intros HD. assert (Hi : ∀ n s, 0 <= n → ∃ c w, bytes_of (FormatInt n) ++ s = c :: w ∧ is_digit c = true).
  { intros n s Hn. destruct (FormatInt_all_digits n Hn) as [Hd Hne]. destruct (bytes_of (FormatInt n)) as [|c w]; [done|].
    cbn [forallb] in Hd. apply andb_true_iff in Hd as [Hd _]. by exists c, (w ++ s). }
  destruct b.
  - unfold format_e. destruct (Hi D [] ltac:(lia)) as (c & w & Hb & Hc). rewrite app_nil_r in Hb. rewrite Hb. eauto.
  - unfold format_f. destruct (Z.leb_spec 0 p).
    + destruct (Hi (D * 10 ^ p) []) as (c & w & Hb & Hc); [apply Z.mul_nonneg_nonneg; lia|]. rewrite app_nil_r in Hb. eauto.
    + apply Hi. apply Z.div_pos; [lia|]. apply Z.pow_pos_nonneg; lia.
Qed.

(** Every number with 64 bits is printed, and what is printed parses to the same
    value. *)
Lemma FormatFloat_reads `{UX : UnicodeText} m e : representable (Fin m e) = true →
  ∃ b f, FormatFloat (Fin m e) = Ok b ∧ ParseFloat (string_of b) = Ok f ∧ same_value f (Fin m e).
Proof.
  intros Hr. unfold FormatFloat. destruct (Z.eqb_spec m 0) as [->|Hm].
  { exists [x30], (Fin 0 0). split; [done|]. split; [done|]. cbn. lia. }
  destruct (representable_normal m e Hm Hr) as [Hn Hv]. destruct (shortest _ _) as [D p] eqn:Hs.
  destruct (shortest_spec _ _ Hn D p Hs) as (Hp & HD & _).
  pose proof (between_digits _ _ Hn D p HD) as HDlt. destruct (decimal_between _ _ Hn D p (proj1 HD) (proj2 HD)) as [HDpos Hread].
  destruct Hn as [_ HE _]. specialize (HDlt ltac:(lia)). rewrite <- Hv in Hread.
  eexists _, (decimal_float (signed (m <? 0) D) p). split; [reflexivity|]. change (if m <? 0 then [x2d] else []) with (sign (m <? 0)).
  assert (Hval : same_value (decimal_float (signed (m <? 0) D) p) (Fin m e)).
  { unfold signed. destruct (Z.ltb_spec m 0).
    - rewrite decimal_float_opp. replace m with (- Z.abs m) by lia. by apply (same_value_opp _ (Fin (Z.abs m) e)).
    - replace m with (Z.abs m) by lia. done. }
  split; [|done]. unfold ParseFloat. rewrite bytes_of_string_of.
  destruct (format_first D p (scientific m e) HDpos) as (c & w & Ef & Hc). rewrite Ef, special_number, <- Ef by done.
  assert (read_float (sign (m <? 0) ++ (if scientific m e then format_e D p else format_f D p)) = Some (decimal_float (signed (m <? 0) D) p)) as ->.
  { destruct (scientific m e); [apply format_e_reads; [done|done|lia]|by apply format_f_reads]. }
  revert Hval. generalize (decimal_float (signed (m <? 0) D) p). intros [m' e'|s|] Hval; [reflexivity|destruct Hval..].
Qed.
