(* ===== verification/Json.v ===== *)
(** * encoding/json

    [json.Valid]: the scanner of encoding/json, one state per state function,
    with its stack of open objects and arrays and its limit on nesting. *)

From S2P Require Import Prelude GoErrors GoText.

(** ** The scanner *)

Inductive parse_state : Type :=
  | parseObjectKey
  | parseObjectValue
  | parseArrayValue.

(** The state functions; [stateLit name rest] expects the bytes [rest] of the
    literal [name] and [stateInStringEscU n] has [n + 1] hexadecimal digits
    left. *)
Inductive step_fn : Type :=
  | stateBeginValueOrEmpty
  | stateBeginValue
  | stateBeginStringOrEmpty
  | stateBeginString
  | stateEndValue
  | stateEndTop
  | stateInString
  | stateInStringEsc
  | stateInStringEscU (n : nat)
  | stateNeg
  | state1
  | state0
  | stateDot
  | stateDot0
  | stateE
  | stateESign
  | stateE0
  | stateLit (name : string) (rest : bytes).

Record scanner : Type := mkScanner {
  scan_step : step_fn;
  scan_stack : list parse_state;   (* the innermost first *)
  scan_endTop : bool;
}.

Definition maxNestingDepth : Z := 10000.

Definition json_space (c : byte) : bool := bool_decide (c ∈ [x20; x09; x0d; x0a]).
Definition digit (c : byte) : bool := between 48 57 c.
Definition digit19 (c : byte) : bool := between 49 57 c.
Definition hex (c : byte) : bool := digit c || between 97 102 c || between 65 70 c.

Definition goto (f : step_fn) (s : scanner) : option scanner :=
  Some (mkScanner f (scan_stack s) (scan_endTop s)).

Definition pushParseState (f : step_fn) (p : parse_state) (s : scanner) : option scanner :=
  if Z.of_nat (length (scan_stack s)) <? maxNestingDepth
  then Some (mkScanner f (p :: scan_stack s) (scan_endTop s)) else None.

Definition popParseState (s : scanner) : option scanner :=
  match scan_stack s with
  | [] => None
  | [_] => Some (mkScanner stateEndTop [] true)
  | _ :: ps => Some (mkScanner stateEndValue ps (scan_endTop s))
  end.

Definition step_EndTop (s : scanner) (c : byte) : option scanner :=
  if json_space c then goto stateEndTop s else None.

(** [stateEndValue]. *)
Definition step_EndValue (s : scanner) (c : byte) : option scanner :=
  match scan_stack s with
  | [] => step_EndTop (mkScanner stateEndTop [] true) c
  | p :: ps =>
      if json_space c then goto stateEndValue s
      else match p with
      | parseObjectKey =>
          if bool_decide (c = x3a) then Some (mkScanner stateBeginValue (parseObjectValue :: ps) (scan_endTop s))
          else None
      | parseObjectValue =>
          if bool_decide (c = x2c) then Some (mkScanner stateBeginString (parseObjectKey :: ps) (scan_endTop s))
          else if bool_decide (c = x7d) then popParseState s
          else None
      | parseArrayValue =>
          if bool_decide (c = x2c) then goto stateBeginValue s
          else if bool_decide (c = x5d) then popParseState s
          else None
      end
  end.

Definition step_BeginValue (s : scanner) (c : byte) : option scanner :=
  if json_space c then goto stateBeginValue s
  else if bool_decide (c = x7b) then pushParseState stateBeginStringOrEmpty parseObjectKey s
  else if bool_decide (c = x5b) then pushParseState stateBeginValueOrEmpty parseArrayValue s
  else if bool_decide (c = x22) then goto stateInString s
  else if bool_decide (c = x2d) then goto stateNeg s
  else if bool_decide (c = x30) then goto state0 s
  else if bool_decide (c = x74) then goto (stateLit "true" (bytes_of "rue")) s
  else if bool_decide (c = x66) then goto (stateLit "false" (bytes_of "alse")) s
  else if bool_decide (c = x6e) then goto (stateLit "null" (bytes_of "ull")) s
  else if digit19 c then goto state1 s
  else None.

Definition step_BeginString (s : scanner) (c : byte) : option scanner :=
  if json_space c then goto stateBeginString s
  else if bool_decide (c = x22) then goto stateInString s
  else None.

Definition is_exp (c : byte) : bool := bool_decide (c = x65) || bool_decide (c = x45).

(** [state0]: after the integer part. *)
Definition step_0 (s : scanner) (c : byte) : option scanner :=
  if bool_decide (c = x2e) then goto stateDot s
  else if is_exp c then goto stateE s
  else step_EndValue s c.

Definition step_ESign (s : scanner) (c : byte) : option scanner :=
  if digit c then goto stateE0 s else None.

(** One byte; [None] is [scanError]. *)
Definition scan_byte (s : scanner) (c : byte) : option scanner :=
  match scan_step s with
  | stateBeginValueOrEmpty =>
      if json_space c then goto stateBeginValueOrEmpty s
      else if bool_decide (c = x5d) then step_EndValue s c
      else step_BeginValue s c
  | stateBeginValue => step_BeginValue s c
  | stateBeginStringOrEmpty =>
      if json_space c then goto stateBeginStringOrEmpty s
      else if bool_decide (c = x7d)
      then step_EndValue
             (mkScanner (scan_step s) (parseObjectValue :: tail (scan_stack s)) (scan_endTop s)) c
      else step_BeginString s c
  | stateBeginString => step_BeginString s c
  | stateEndValue => step_EndValue s c
  | stateEndTop => step_EndTop s c
  | stateInString =>
      if bool_decide (c = x22) then goto stateEndValue s
      else if bool_decide (c = x5c) then goto stateInStringEsc s
      else if zb c <? 32 then None
      else goto stateInString s
  | stateInStringEsc =>
      if bool_decide (c ∈ [x62; x66; x6e; x72; x74; x5c; x2f; x22]) then goto stateInString s
      else if bool_decide (c = x75) then goto (stateInStringEscU 3) s
      else None
  | stateInStringEscU n =>
      if hex c then goto match n with O => stateInString | S n' => stateInStringEscU n' end s else None
  | stateNeg =>
      if bool_decide (c = x30) then goto state0 s
      else if digit19 c then goto state1 s
      else None
  | state1 => if digit c then goto state1 s else step_0 s c
  | state0 => step_0 s c
  | stateDot => if digit c then goto stateDot0 s else None
  | stateDot0 =>
      if digit c then goto stateDot0 s
      else if is_exp c then goto stateE s
      else step_EndValue s c
  | stateE => if bool_decide (c ∈ [x2b; x2d]) then goto stateESign s else step_ESign s c
  | stateESign => step_ESign s c
  | stateE0 => if digit c then goto stateE0 s else step_EndValue s c
  | stateLit name rest =>
      match rest with
      | [] => None
      | x :: rest' =>
          if bool_decide (c = x)
          then goto (match rest' with [] => stateEndValue | _ => stateLit name rest' end) s
          else None
      end
  end.

Definition in_string (s : scanner) : bool := match scan_step s with stateInString => true | _ => false end.

(** ** Error texts *)

(** Latin-1 characters [strconv.Quote] prints as they are. *)
Definition printable_latin (z : Z) : bool :=
  ((32 <=? z) && (z <=? 126)) || ((161 <=? z) && (z <=? 255) && negb (z =? 173)).

(** [quoteChar]: the character with the code of the byte, in single quotes. *)
Definition quoteChar (c : byte) : string :=
  let q (b : bytes) := string_of ([x27] ++ b ++ [x27]) in
  let hex2 := [hex_digit (zb c / 16); hex_digit (zb c mod 16)] in
  if bool_decide (c = x27) then q [x5c; x27]
  else if bool_decide (c = x22) then q [x22]
  else if bool_decide (c = x5c) then q [x5c; x5c]
  else if bool_decide (c = x07) then q [x5c; x61]
  else if bool_decide (c = x08) then q [x5c; x62]
  else if bool_decide (c = x0c) then q [x5c; x66]
  else if bool_decide (c = x0a) then q [x5c; x6e]
  else if bool_decide (c = x0d) then q [x5c; x72]
  else if bool_decide (c = x09) then q [x5c; x74]
  else if bool_decide (c = x0b) then q [x5c; x76]
  else if zb c <? 128 then q (if printable_latin (zb c) then [c] else [x5c; x78] ++ hex2)
  else q (if printable_latin (zb c)
          then [if zb c <? 192 then xc2 else xc3; match Byte.of_N (Z.to_N (128 + zb c mod 64)) with Some b => b | None => c end]
          else [x5c; x75; x30; x30] ++ hex2).

Definition end_value_context (s : scanner) : string :=
  match scan_stack s with
  | [] => "after top-level value"
  | parseObjectKey :: _ => "after object key"
  | parseObjectValue :: _ => "after object key:value pair"
  | parseArrayValue :: _ => "after array element"
  end.

(** Where the scanner was when [c] failed; a bracket that nests too deep fails
    in a state that otherwise takes it. *)
Definition error_context (s : scanner) (c : byte) : string :=
  match scan_step s with
  | stateBeginValueOrEmpty | stateBeginValue =>
      if bool_decide (c = x7b) || bool_decide (c = x5b) then "exceeded max depth" else "looking for beginning of value"
  | stateBeginStringOrEmpty | stateBeginString => "looking for beginning of object key string"
  | stateEndTop => "after top-level value"
  | stateEndValue | state1 | state0 | stateDot0 | stateE0 => end_value_context s
  | stateInString => "in string literal"
  | stateInStringEsc => "in string escape code"
  | stateInStringEscU _ => "in \u hexadecimal character escape"
  | stateNeg => "in numeric literal"
  | stateDot => "after decimal point in numeric literal"
  | stateE | stateESign => "in exponent of numeric literal"
  | stateLit name rest =>
      "in literal " +:+ name +:+ " (expecting " +:+ string_of ([x27] ++ take 1 rest ++ [x27]) +:+ ")"
  end.

(** [*json.SyntaxError]. *)
Definition SyntaxError (s : scanner) (c : byte) : error :=
  New ("invalid character " +:+ quoteChar c +:+ " " +:+ error_context s c).
Definition UnexpectedEnd : error := New "unexpected end of JSON input".

(** ** Documents *)

Fixpoint scan_bytes (s : scanner) (data : bytes) : option scanner :=
  match data with
  | [] => Some s
  | c :: data' => s' ← scan_byte s c; scan_bytes s' data'
  end.

(** [scan.eof()]. *)
Definition scan_eof (s : scanner) : bool :=
  scan_endTop s || match scan_byte s x20 with Some s' => scan_endTop s' | None => false end.

Definition json_Valid (data : bytes) : bool :=
  match scan_bytes (mkScanner stateBeginValue [] false) data with
  | Some s => scan_eof s
  | None => false
  end.

(** A document written with single quotes. *)
Definition single_quoted (s : string) : bytes :=
  map (λ b, if bool_decide (b = x27) then x22 else b) (bytes_of s).

Example json_Valid_tests :
  (map (λ s, json_Valid (single_quoted s))
    ["{}"; " [1, -2.5e+3, true ,null]"; "{'a':{'b':[]}}"; "0"; "1 "],
   map (λ s, json_Valid (single_quoted s))
    [""; "{a:1}"; "[1,]"; "01"; "1."; "tru"; "{}{}"; "{'a' 1}"; "-"; "]"])%string
  = (repeat true 5, repeat false 10).
Proof. vm_compute. reflexivity. Qed.
