(* ===== verification/JsonEncode.v ===== *)
(** * Encoding JSON

    What encoding/json prints for the values the repository encodes: strings
    with their escapes (HTML characters and U+2028, U+2029 among them), numbers,
    times in RFC 3339, raw messages compacted, arrays, and objects whose members
    are given in the order the encoder visits them. A time of the database is in
    the process's local zone, whose offset is a parameter. *)

From S2P Require Import Prelude GoErrors GoTime GoText GoStrings Float64 GoParse FormatFloat Json.

(** ** Strings *)

(** A byte [b] of ASCII as [appendString] writes it, with HTML escaping. *)
Definition escape_ascii (b : byte) : bytes :=
  if bool_decide (b = x22) || bool_decide (b = x5c) then [x5c; b]
  else if bool_decide (b = x08) then [x5c; x62]
  else if bool_decide (b = x0c) then [x5c; x66]
  else if bool_decide (b = x0a) then [x5c; x6e]
  else if bool_decide (b = x0d) then [x5c; x72]
  else if bool_decide (b = x09) then [x5c; x74]
  else if (zb b <? 32) || bool_decide (b ∈ [x3c; x3e; x26])
  then [x5c; x75; x30; x30; hex_digit (zb b / 16); hex_digit (zb b mod 16)]
  else [b].

Definition escape_chunk (c : chunk) : bytes :=
  match c with
  | Bad _ => bytes_of "\ufffd"
  | Rune r enc =>
      if (r =? 8232) || (r =? 8233) then bytes_of "\u202" ++ [hex_digit (r mod 16)]
      else match enc with [b] => escape_ascii b | _ => enc end
  end.

Definition quote_json (s : bytes) : bytes := [x22] ++ concat (map escape_chunk (decode s)) ++ [x22].

(** ** Times *)

(** Whole days since January 1, 1970 as a date of the proleptic Gregorian
    calendar; the years of the computation start in March. *)
Definition date (days : Z) : Z * Z * Z :=
  let z := days + 719468 in
  let doe := z mod 146097 in
  let yoe := (doe - doe / 1460 + doe / 36524 - doe / 146096) / 365 in
  let doy := doe - (365 * yoe + yoe / 4 - yoe / 100) in
  let mp := (5 * doy + 2) / 153 in
  let month := if mp <? 10 then mp + 3 else mp - 9 in
  (yoe + z / 146097 * 400 + (if month <=? 2 then 1 else 0), month, doy - (153 * mp + 2) / 5 + 1).

(** [appendInt]: at least [width] digits, after the sign. *)
Definition appendInt (x : Z) (width : nat) : bytes :=
  (if x <? 0 then [x2d] else []) ++ pad_left width (bytes_of (FormatInt (Z.abs x))).

(** [appendNano] of [".999999999"]. *)
Definition appendNano (nanos : Z) : bytes :=
  let digits := rev (trim_zeros (rev (pad_left 9 (bytes_of (FormatInt nanos))))) in
  if bool_decide (digits = []) then [] else [x2e] ++ digits.

(** [appendFormatRFC3339], with nanoseconds, [offset] seconds east of UTC. *)
Definition appendFormatRFC3339 (offset : Z) (t : Time) : bytes :=
  let local := wall t + offset * Second in
  let seconds := local / Second in
  let '(year, month, day) := date (seconds / 86400) in
  let clock := seconds mod 86400 in
  appendInt year 4 ++ [x2d] ++ appendInt month 2 ++ [x2d] ++ appendInt day 2 ++ [x54]
  ++ appendInt (clock / 3600) 2 ++ [x3a] ++ appendInt ((clock / 60) mod 60) 2 ++ [x3a] ++ appendInt (clock mod 60) 2
  ++ appendNano (local mod Second)
  ++ (if offset =? 0 then [x5a]
      else
        let zone := Z.quot offset 60 in
        [if zone <? 0 then x2d else x2b] ++ appendInt (Z.abs zone / 60) 2 ++ [x3a] ++ appendInt (Z.abs zone mod 60) 2).

(** [num2]. *)
Definition num2 (a b : byte) : Z := (10 * (zb a - 48) + (zb b - 48)) mod 256.

(** [Time.MarshalJSON]: four digits of the year and a zone below 24 hours. *)
Definition MarshalJSON (offset : Z) (t : Time) : res bytes :=
  let b := appendFormatRFC3339 offset t in
  let refuse msg := Err (New ("json: error calling MarshalJSON for type time.Time: Time.MarshalJSON: " +:+ msg)) in
  let zone_ok :=
    match rev b with
    | z :: rest =>
        bool_decide (z = x5a)
        || match rest with
           | _ :: _ :: h1 :: h0 :: c :: _ => negb (is_digit c || (24 <=? num2 h0 h1))
           | _ => false
           end
    | [] => false
    end in
  if negb (bool_decide (b !! 4%nat = Some x2d)) then refuse "year outside of range [0,9999]"%string
  else if negb zone_ok then refuse "timezone hour outside of range [0,23]"%string
  else Ok ([x22] ++ b ++ [x22]).

(** ** Raw messages *)

(** What [appendCompact] writes for a byte the scanner accepts in state [s]:
    nothing for white space outside strings, an escape for an HTML character. *)
Definition compact_byte (s : scanner) (c : byte) : bytes :=
  if json_space c && negb (in_string s) then []
  else if bool_decide (c ∈ [x3c; x3e; x26]) then [x5c; x75; x30; x30; hex_digit (zb c / 16); hex_digit (zb c mod 16)]
  else [c].

(** U+2028 and U+2029, three bytes, are escaped too. *)
Fixpoint compact_from (s : scanner) (src : bytes) : res bytes :=
  match src with
  | [] => if scan_eof s then Ok [] else Err UnexpectedEnd
  | c :: rest =>
      match scan_byte s c with
      | None => Err (SyntaxError s c)
      | Some s1 =>
          match rest with
          | xb :: xc :: rest2 =>
              if bool_decide (c = xe2) && bool_decide (xb = x80) && bool_decide (xc ∈ [xa8; xa9]) then
                match scan_byte s1 xb with
                | None => Err (SyntaxError s1 xb)
                | Some s2 =>
                    match scan_byte s2 xc with
                    | None => Err (SyntaxError s2 xc)
                    | Some s3 => out ← compact_from s3 rest2;
                                 Ok (bytes_of "\u202" ++ [hex_digit (zb xc mod 16)] ++ out)
                    end
                end
              else out ← compact_from s1 rest; Ok (compact_byte s c ++ out)
          | _ => out ← compact_from s1 rest; Ok (compact_byte s c ++ out)
          end
      end
  end.

Definition compact (src : bytes) : res bytes := compact_from (mkScanner stateBeginValue [] false) src.

(** ** Values *)

Inductive location : Type := UTC_location | Local.

Class Zone := { zone_offset : Z → Z }.

Inductive json : Type :=
  | JString (s : string)
  | JInt (z : Z)
  | JBool (b : bool)
  | JFloat (f : float64)
  | JTime (l : location) (t : Time)
  | JRaw (b : bytes)
  | JArray (l : list json)
  | JObject (l : list (string * json)).

Fixpoint commas (l : list bytes) : bytes :=
  match l with [] => [] | [b] => b | b :: l' => b ++ [x2c] ++ commas l' end.

Section Encode.
Context `{ZO : Zone}.

Definition offset_of (l : location) (t : Time) : Z :=
  match l with UTC_location => 0 | Local => zone_offset (wall t) end.

(** [json.Marshal]. *)
Fixpoint Marshal (j : json) : res bytes :=
  match j with
  | JString s => Ok (quote_json (bytes_of s))
  | JInt z => Ok (bytes_of (FormatInt z))
  | JBool b => Ok (bytes_of (if b then "true" else "false"))
  | JFloat f => FormatFloat f
  | JTime l t => MarshalJSON (offset_of l t) t
  | JRaw b => map_err (wrapf "json: error calling MarshalJSON for type json.RawMessage") (compact b)
  | JArray l =>
      items ← (fix go l := match l with [] => Ok [] | x :: l' => b ← Marshal x; bs ← go l'; Ok (b :: bs) end) l;
      Ok ([x5b] ++ commas items ++ [x5d])
  | JObject l =>
      items ← (fix go l :=
                 match l with
                 | [] => Ok []
                 | (k, x) :: l' => b ← Marshal x; bs ← go l'; Ok ((quote_json (bytes_of k) ++ [x3a] ++ b) :: bs)
                 end) l;
      Ok ([x7b] ++ commas items ++ [x7d])
  end.

(** [Encoder.Encode] ends the value with a newline. *)
Definition Encode (j : json) : res bytes := b ← Marshal j; Ok (b ++ [x0a]).
End Encode.

Definition to_single (b : bytes) : string := string_of (map (λ b, if bool_decide (b = x22) then x27 else b) b).

Example Encode_tests :
  let _ := {| zone_offset := λ _, -12600 |} in
  map (λ j, match Marshal j with Ok b => to_single b | Err e => error_text e end)
    [JObject [("a", JArray [JInt (-7); JBool true; JArray []]); ("b<", JRaw (single_quoted " { 'x' : [1 , '<'] } "))];
     JTime UTC_location (mkTime (1700000000 * Second + 120000000) None);
     JTime Local (mkTime (951868800 * Second) None);
     JTime UTC_location zero_time;
     JTime UTC_location (mkTime (253402300800 * Second) None);
     JRaw (bytes_of "[1"); JRaw (bytes_of "[01]")]%string
  = ["{'a':[-7,true,[]],'b\u003c':{'x':[1,'\u003c']}}"; "'2023-11-14T22:13:20.12Z'"; "'2000-02-29T20:30:00-03:30'";
     "'0001-01-01T00:00:00Z'";
     "json: error calling MarshalJSON for type time.Time: Time.MarshalJSON: year outside of range [0,9999]";
     "json: error calling MarshalJSON for type json.RawMessage: unexpected end of JSON input";
     "json: error calling MarshalJSON for type json.RawMessage: invalid character '1' after array element"]%string.
Proof. vm_compute. reflexivity. Qed.
