(* ===== verification/JsonDecode.v ===== *)
(** * Decoding JSON

    A [json.Decoder] over a stream, for targets that are structs of strings,
    integers and raw messages: the next value of the stream by the scanner, then
    its members, stored in order into the target. The first type error, or with
    [DisallowUnknownFields] unknown field, is the error of the call; decoding
    goes on after it. *)

From S2P Require Import Prelude GoErrors GoTime GoText GoStrings Float64 GoParse Json.

(** ** Streams *)

(** The body of a request: bytes that end with [io.EOF] or another error. *)
Record stream : Type := mkStream { stream_data : bytes; stream_end : error }.

Definition io_EOF : error := Sentinel "io.EOF" "EOF".
(** [err == io.EOF]. *)
Definition is_EOF (err : error) : bool := match err with Sentinel n _ => bool_decide (n = "io.EOF"%string) | _ => false end.
Definition ErrUnexpectedEOF : error := Sentinel "io.ErrUnexpectedEOF" "unexpected EOF".

(** [http.MaxBytesReader]. *)
Definition MaxBytesReader (limit : Z) (s : stream) : stream :=
  if limit <? len (stream_data s)
  then mkStream (take (Z.to_nat limit) (stream_data s)) (New "http: request body too large")
  else s.

(** [json.Decoder]: what is left of its stream, and its option. *)
Record decoder : Type := mkDecoder { decoder_input : stream; disallowUnknownFields : bool }.

Definition NewDecoder (s : stream) : decoder := mkDecoder s false.
Definition DisallowUnknownFields (d : decoder) : decoder := mkDecoder (decoder_input d) true.

Definition start : scanner := mkScanner stateBeginValue [] false.

(** [scanEnd]: the byte [c] ends a number or follows a literal at top level. *)
Definition value_ends (s : scanner) (c : byte) : bool :=
  bool_decide (scan_stack s = []) && scan_eof s
  && match scan_byte s c with Some s' => scan_endTop s' | None => true end.

(** [readValue]: the next value, with the white space in front of it, and the
    rest of the stream. [buf] is what the decoder has read for it. *)
Fixpoint read_value (buf : bytes) (ending : error) (s : scanner) (data : bytes) : res (bytes * bytes) :=
  match data with
  | [] =>
      if is_EOF ending then
        if scan_eof s then Ok ([], [])
        else Err (if forallb json_space buf then io_EOF else ErrUnexpectedEOF)
      else Err ending
  | c :: rest =>
      if value_ends s c then Ok ([], data)
      else match scan_byte s c with
      | None => Err (SyntaxError s c)
      | Some s' =>
          if scan_endTop s' then Ok ([c], rest)
          else '(value, rest) ← read_value buf ending s' rest; Ok (c :: value, rest)
      end
  end.

(** ** Strings *)

(** [getu4] of four hexadecimal digits. *)
Definition hex_value (b : byte) : Z := if digit b then zb b - 48 else Z.lor (zb b) 32 - 87.
Definition getu4 (a b c d : byte) : option Z :=
  if hex a && hex b && hex c && hex d
  then Some (hex_value a * 4096 + hex_value b * 256 + hex_value c * 16 + hex_value d) else None.

(** [utf16.IsSurrogate] and [utf16.DecodeRune]. *)
Definition is_surrogate (r : Z) : bool := (55296 <=? r) && (r <? 57344).
Definition surrogate_pair (r1 r2 : Z) : option Z :=
  if (55296 <=? r1) && (r1 <? 56320) && (56320 <=? r2) && (r2 <? 57344)
  then Some ((r1 - 55296) * 1024 + (r2 - 56320) + 65536) else None.

Definition simple_escape (b : byte) : option byte :=
  if bool_decide (b ∈ [x22; x5c; x2f; x27]) then Some b
  else if bool_decide (b = x62) then Some x08
  else if bool_decide (b = x66) then Some x0c
  else if bool_decide (b = x6e) then Some x0a
  else if bool_decide (b = x72) then Some x0d
  else if bool_decide (b = x74) then Some x09
  else None.

(** [unquoteBytes] of the text between the quotes, by runs without a
    backslash, whose ill-formed bytes become U+FFFD. *)
Definition coerce_chunk (c : chunk) : bytes := match c with Rune _ enc => enc | Bad _ => encode_rune RuneError end.
Definition coerce (b : bytes) : bytes := concat (map coerce_chunk (decode b)).

Fixpoint unquote_from (run s : bytes) : option bytes :=
  match s with
  | [] => Some (coerce run)
  | x5c :: x75 :: a :: b :: c :: d :: rest =>
      rr ← getu4 a b c d;
      if is_surrogate rr then
        match rest with
        | x5c :: x75 :: e :: f :: g :: h :: rest' =>
            match getu4 e f g h ≫= surrogate_pair rr with
            | Some r => out ← unquote_from [] rest'; Some (coerce run ++ encode_rune r ++ out)
            | None => out ← unquote_from [] rest; Some (coerce run ++ encode_rune RuneError ++ out)
            end
        | _ => out ← unquote_from [] rest; Some (coerce run ++ encode_rune RuneError ++ out)
        end
      else out ← unquote_from [] rest; Some (coerce run ++ encode_rune rr ++ out)
  | x5c :: e :: rest =>
      b ← simple_escape e;
      out ← unquote_from [] rest; Some (coerce run ++ [b] ++ out)
  | b :: rest =>
      if bool_decide (b = x22) || bool_decide (b = x5c) || (zb b <? 32) then None
      else unquote_from (run ++ [b]) rest
  end.

Definition unquote (item : bytes) : option bytes :=
  match item with
  | q :: s =>
      match rev s with
      | q' :: r => if bool_decide (q = x22) && bool_decide (q' = x22) then unquote_from [] (rev r) else None
      | [] => None
      end
  | [] => None
  end.

(** ** Members *)

Definition trim_json (b : bytes) : bytes := rev (drop_while json_space (rev (drop_while json_space b))).

(** The members of the object the scanner is in: the keys and the values, as
    they are written. The scanner's stack tells where a member of the outermost
    object begins and ends. *)
Fixpoint members_from (s : scanner) (key acc data : bytes) : list (bytes * bytes) :=
  match data with
  | [] => []
  | c :: rest =>
      match scan_byte s c with
      | None => []
      | Some s' =>
          match scan_stack s, scan_stack s' with
          | [parseObjectKey], [parseObjectValue] => members_from s' (trim_json acc) [] rest
          | [parseObjectValue], [parseObjectKey] => (key, trim_json acc) :: members_from s' [] [] rest
          | [parseObjectValue], [] => [(key, trim_json acc)]
          | _, _ => members_from s' key (acc ++ [c]) rest
          end
      end
  end.

(** [value] starts with the brace. *)
Definition object_members (value : bytes) : list (bytes * bytes) :=
  match value with
  | c :: rest => match scan_byte start c with Some s => members_from s [] [] rest | None => [] end
  | [] => []
  end.

(** ** Targets *)

(** [foldName]: letters in upper case, and the two other characters whose fold
    set has an ASCII letter. *)
Definition fold_chunk (c : chunk) : bytes :=
  match c with
  | Rune r enc =>
      if (97 <=? r) && (r <=? 122) then [byte_of (r - 32)]
      else if r =? 383 then [x53]
      else if r =? 8490 then [x4b]
      else enc
  | Bad _ => encode_rune RuneError
  end.
Definition foldName (b : bytes) : bytes := concat (map fold_chunk (decode b)).

(** What storing a raw value reports: the value's kind, or the number, and the
    type of the field. *)
Definition mismatch : Type := option (string * string).

Definition kind_of (raw : bytes) : string :=
  match raw with
  | b :: _ =>
      if bool_decide (b = x22) then "string" else if bool_decide (b = x7b) then "object"
      else if bool_decide (b = x5b) then "array" else if bool_decide (b = x6e) then "null"
      else if bool_decide (b ∈ [x74; x66]) then "bool" else "number"
  | [] => ""
  end.

Definition store_string (raw : bytes) (old : string) : string * mismatch :=
  let k := kind_of raw in
  if bool_decide (k = "string"%string) then (match unquote raw with Some b => string_of b | None => old end, None)
  else if bool_decide (k = "null"%string) then (old, None)
  else (old, Some (k, "string"%string)).

(** [json.RawMessage.UnmarshalJSON]: any value, [null] included. *)
Definition store_raw (raw _ : bytes) : bytes * mismatch := (raw, None).

Section Decoder.
Context `{UX : UnicodeText}.

(** [strconv.ParseInt(item, 10, 64)] takes the texts [Atoi] takes. *)
Definition store_int (raw : bytes) (old : Z) : Z * mismatch :=
  let k := kind_of raw in
  if bool_decide (k = "number"%string) then
    match Atoi (string_of raw) with
    | Ok n => (n, None)
    | Err _ => (old, Some ("number " +:+ string_of raw, "int"))%string
    end
  else if bool_decide (k = "null"%string) then (old, None)
  else (old, Some (k, "int"%string)).

(** A struct type: its name, and its fields in order. *)
Record field (T : Type) : Type := mkField { field_name : string; field_store : bytes → T → T * mismatch }.
Arguments mkField {T}.
Arguments field_name {T}.
Arguments field_store {T}.

Record struct_type (T : Type) : Type := mkStruct {
  struct_name : string;      (* [Name()] *)
  struct_string : string;    (* [String()] *)
  struct_fields : list (field T);
  struct_zero : T;
}.
Arguments mkStruct {T}.
Arguments struct_name {T}.
Arguments struct_string {T}.
Arguments struct_fields {T}.
Arguments struct_zero {T}.

Section Struct.
Context {T : Type} (St : struct_type T).

Definition find_field (key : bytes) : option (field T) :=
  match List.find (λ f, bool_decide (bytes_of (field_name f) = key)) (struct_fields St) with
  | Some f => Some f
  | None => List.find (λ f, bool_decide (foldName (bytes_of (field_name f)) = foldName key)) (struct_fields St)
  end.

(** [*json.UnmarshalTypeError] of a field, and of the value itself. *)
Definition field_error (f : field T) (m : string * string) : error :=
  New ("json: cannot unmarshal " +:+ m.1 +:+ " into Go struct field " +:+ struct_name St +:+ "." +:+ field_name f
       +:+ " of type " +:+ m.2).
Definition value_error (kind : string) : error :=
  New ("json: cannot unmarshal " +:+ kind +:+ " into Go value of type " +:+ struct_string St).

(** One member: the target and the error saved so far. An unknown field is an
    error with [DisallowUnknownFields], and else skipped. *)
Definition store_member (strict : bool) (acc : T * option error) (m : bytes * bytes) : T * option error :=
  let '(t, saved) := acc in
  let save (e : error) := match saved with Some e0 => Some e0 | None => Some e end in
  match unquote m.1 with
  | None => acc
  | Some key =>
      match find_field key with
      | None => (t, if strict then save (New ("json: unknown field " +:+ Quote (string_of key))) else saved)
      | Some f =>
          let '(t', mm) := field_store f m.2 t in
          (t', match mm with Some x => save (field_error f x) | None => saved end)
      end
  end.

(** [d.unmarshal] of a value the scanner accepted. *)
Definition unmarshal (strict : bool) (value : bytes) : T * option error :=
  let value := trim_json value in
  let k := kind_of value in
  if bool_decide (k = "object"%string) then fold_left (store_member strict) (object_members value) (struct_zero St, None)
  else if bool_decide (k = "null"%string) then (struct_zero St, None)
  else (struct_zero St, Some (value_error k)).

(** [Decoder.Decode] into a new variable. *)
Definition Decode (d : decoder) : res (T * decoder) :=
  let s := decoder_input d in
  '(value, rest) ← read_value (stream_data s) (stream_end s) start (stream_data s);
  match unmarshal (disallowUnknownFields d) value with
  | (t, None) => Ok (t, mkDecoder (mkStream rest (stream_end s)) (disallowUnknownFields d))
  | (_, Some e) => Err e
  end.
End Struct.
End Decoder.

#[global] Arguments mkField {T}.
#[global] Arguments field_name {T}.
#[global] Arguments field_store {T}.
#[global] Arguments mkStruct {T}.
#[global] Arguments struct_name {T}.
#[global] Arguments struct_string {T}.
#[global] Arguments struct_fields {T}.
#[global] Arguments struct_zero {T}.

(** [struct{}]. *)
Definition empty_struct : struct_type unit := mkStruct "" "struct {}" [] tt.

Definition demo_struct `{UnicodeText} : struct_type (string * Z * bytes) :=
  mkStruct "demo" "main.demo"
    [mkField "name" (λ raw '(s, z, b), let '(v, m) := store_string raw s in ((v, z, b), m));
     mkField "count" (λ raw '(s, z, b), let '(v, m) := store_int raw z in ((s, v, b), m));
     mkField "raw" (λ raw '(s, z, b), let '(v, m) := store_raw raw b in ((s, z, v), m))]%string
    (""%string, 0, []).

Example Decode_tests :
  let _ := {| Quote := λ s, "<" +:+ s +:+ ">"; unicode_ToUpper := λ r, r |} in
  map (λ s, match Decode demo_struct (DisallowUnknownFields (NewDecoder (mkStream (single_quoted s) io_EOF))) with
            | Ok ((n, c, b), rest) => (n, c, string_of b, string_of (stream_data (decoder_input rest)))
            | Err e => (error_text e, 0, "", "") end)
    [" {'name' : 'a\u0041\ud83d\ude00\n' , 'COUNT':-12, 'raw': [1, {}] } x"; "null true"; "{'name':null,'raw':null}"; "{'name':1,'x':2}";
     "{'x':2,'name':1}"; "{'count':1.5}"; "{'count':'1'}"; "[]"; "{'name':'a'"; " "; "{'name'}"; "{'a':tru}"; "12 "]%string
  = [("aA" +:+ string_of [xf0; x9f; x98; x80; x0a], -12, "[1, {}]", " x"); ("", 0, "", " true"); ("", 0, "null", "");
     ("json: cannot unmarshal number into Go struct field demo.name of type string", 0, "", "");
     ("json: unknown field <x>", 0, "", "");
     ("json: cannot unmarshal number 1.5 into Go struct field demo.count of type int", 0, "", "");
     ("json: cannot unmarshal string into Go struct field demo.count of type int", 0, "", "");
     ("json: cannot unmarshal array into Go value of type main.demo", 0, "", ""); ("unexpected EOF", 0, "", "");
     ("EOF", 0, "", ""); ("invalid character '}' after object key", 0, "", "");
     ("invalid character '}' in literal true (expecting 'e')", 0, "", "");
     ("json: cannot unmarshal number into Go value of type main.demo", 0, "", "")]%string.
Proof. vm_compute. reflexivity. Qed.

(** Without the option an unknown field is skipped. *)
Example Decode_lenient :
  let _ := {| Quote := λ s, s; unicode_ToUpper := λ r, r |} in
  match Decode demo_struct (NewDecoder (mkStream (single_quoted "{'x':2,'name':'a'}") io_EOF)) with
  | Ok (v, _) => v | Err _ => (""%string, 0, []) end = ("a"%string, 0, []).
Proof. vm_compute. reflexivity. Qed.
