(* ===== verification/Mime.v ===== *)
(** * mime.ParseMediaType

    The media type of a Content-Type header and whether its parameters parse.
    The values of the parameters are kept only as far as duplicates are
    refused: the repository uses the type alone. *)

From S2P Require Import Prelude GoErrors GoText GoStrings Float64 GoParse.

(** [isTSpecial] and [isTokenChar]. *)
Definition isTSpecial (b : byte) : bool :=
  bool_decide (b ∈ [x28; x29; x3c; x3e; x40; x2c; x3b; x3a; x5c; x22; x2f; x5b; x5d; x3f; x3d]).
Definition isTokenChar (b : byte) : bool := between 33 126 b && negb (isTSpecial b).

Definition consumeToken (v : bytes) : bytes * bytes := span isTokenChar v.

Definition CutPrefix (p : byte) (v : bytes) : option bytes :=
  match v with b :: v' => if bool_decide (b = p) then Some v' else None | [] => None end.

(** [strings.TrimLeftFunc(v, unicode.IsSpace)]. *)
Definition trim_left (v : bytes) : bytes := encode (drop_while space_chunk (decode v)).

Definition checkMediaTypeDisposition (s : bytes) : res unit :=
  let '(typ, rest) := consumeToken s in
  if bool_decide (typ = []) then Err (New "mime: no media type")
  else if bool_decide (rest = []) then Ok tt
  else match CutPrefix x2f rest with
  | None => Err (New "mime: expected slash after first token")
  | Some rest =>
      let '(subtype, rest) := consumeToken rest in
      if bool_decide (subtype = []) then Err (New "mime: expected token after slash")
      else if bool_decide (rest = []) then Ok tt
      else Err (New "mime: unexpected content after media subtype")
  end.

(** The rest of a quoted string, after its first quote. *)
Fixpoint quoted_string (out v : bytes) : option (bytes * bytes) :=
  match v with
  | [] => None
  | r :: v' =>
      if bool_decide (r = x22) then Some (out, v')
      else
        let plain := if bool_decide (r ∈ [x0d; x0a]) then None else quoted_string (out ++ [r]) v' in
        match v' with
        | e :: v'' => if bool_decide (r = x5c) && isTSpecial e then quoted_string (out ++ [e]) v'' else plain
        | [] => plain
        end
  end.

Definition consumeValue (v : bytes) : bytes * bytes :=
  match v with
  | [] => ([], [])
  | q :: v' => if bool_decide (q = x22) then default ([], v) (quoted_string [] v') else consumeToken v
  end.

Section Media.
Context `{UT : UnicodeTables}.

(** A parameter and what follows it; [None] is an empty name. *)
Definition consumeMediaParam (v : bytes) : option (string * bytes * bytes) :=
  rest ← CutPrefix x3b (trim_left v);
  let '(param, rest) := consumeToken (trim_left rest) in
  let param := ToLower (string_of param) in
  if bool_decide (param = ""%string) then None
  else
    rest ← CutPrefix x3d (trim_left rest);
    let rest := trim_left rest in
    let '(value, rest2) := consumeValue rest in
    if bool_decide (value = []) && bool_decide (rest2 = rest) then None else Some (param, value, rest2).

Definition ErrInvalidMediaParameter : error :=
  Sentinel "mime.ErrInvalidMediaParameter" "mime: invalid media parameter".

(** The parameters seen, with continuations ([name*0]) under their whole name,
    as the maps of the code keep them. Every turn consumes the semicolon of a
    parameter, so that as many turns as bytes are enough. *)
Fixpoint media_params (fuel : nat) (seen : list (string * bytes)) (v : bytes) : res unit :=
  let v := trim_left v in
  match v, fuel with
  | [], _ | _, O => Ok tt
  | _, S fuel' =>
      match consumeMediaParam v with
      | None =>
          if bool_decide (TrimSpace (string_of v) = string_of [x3b]) then Ok tt else Err ErrInvalidMediaParameter
      | Some (key, value, rest) =>
          match List.find (λ kv, bool_decide (kv.1 = key)) seen with
          | Some (_, value') =>
              if bool_decide (value' = value) then media_params fuel' seen rest
              else Err (New "mime: duplicate parameter name")
          | None => media_params fuel' ((key, value) :: seen) rest
          end
      end
  end.

(** The media type, when there is no error. *)
Definition ParseMediaType (v : string) : res string :=
  let '(base, _, _) := Cut v x3b in
  let mediatype := TrimSpace (ToLower base) in
  _ ← checkMediaTypeDisposition (bytes_of mediatype);
  let rest := drop (String.length base) (bytes_of v) in
  _ ← media_params (length rest) [] rest;
  Ok mediatype.
End Media.

Definition quoted (s : string) : string := string_of (map (λ b, if bool_decide (b = x27) then x22 else b) (bytes_of s)).

Example ParseMediaType_tests :
  let _ := {| unicode_ToLower := λ r, r |} in
  map (λ s, match ParseMediaType (quoted s) with Ok m => m | Err e => error_text e end)
    ["application/json"; " Application/JSON ; charset=utf-8"; "application/json;"; "text/plain; a='x;\'y'; b=2"; "";
     "application/"; "application/json x"; "application/json; charset"; "a/b; c=1; C=2"; "a/b; c=1; c=1"; "a/b; c='1"]%string
  = ["application/json"; "application/json"; "application/json"; "text/plain"; "mime: no media type";
     "mime: expected token after slash"; "mime: unexpected content after media subtype"; "mime: invalid media parameter";
     "mime: duplicate parameter name"; "a/b"; "mime: invalid media parameter"]%string.
Proof. vm_compute. reflexivity. Qed.

(** ** The fuel is enough *)

Lemma trim_left_length v : (length (trim_left v) <= length v)%nat.
Proof.
  unfold trim_left. rewrite <- (encode_decode v) at 2. unfold encode.
  destruct (drop_while_suffix space_chunk (decode v)) as [l0 E]. rewrite E at 2.
  rewrite map_app, concat_app, length_app. lia.
Qed.

Lemma span_length p v : (length (span p v).2 <= length v)%nat.
Proof.
  induction v as [|b v IH]; [done|]. cbn. destruct (p b); [|done]. destruct (span p v) as [l r]. cbn in *. lia.
Qed.

Lemma quoted_length v out value rest : quoted_string out v = Some (value, rest) → (length rest <= length v)%nat.
Proof.
  revert out. induction v as [v IH] using (well_founded_induction (Wf_nat.well_founded_ltof _ (@length byte))).
  unfold Wf_nat.ltof in IH. intros out. destruct v as [|r v]; [done|]. cbn [quoted_string].
  destruct (bool_decide (r = x22)); [intros [= <- <-]; cbn; lia|].
  assert (Hp : (if bool_decide (r ∈ [x0d; x0a]) then None else quoted_string (out ++ [r]) v) = Some (value, rest) →
    (length rest <= length (r :: v))%nat).
  { destruct (bool_decide _); [done|]. intros H%IH; cbn; lia. }
  destruct v as [|e v]; [exact Hp|]. destruct (_ && _); [|exact Hp]. intros H%IH; cbn in *; lia.
Qed.

Lemma consumeMediaParam_shorter `{UT : UnicodeTables} v key value rest :
  consumeMediaParam v = Some (key, value, rest) → (length rest < length v)%nat.
Proof.
  unfold consumeMediaParam. intros H. destruct (CutPrefix x3b (trim_left v)) as [r1|] eqn:E1; [|done].
  cbn [mbind option_bind] in H. pose proof (trim_left_length v) as L0.
  assert (L1 : (length r1 < length (trim_left v))%nat).
  { destruct (trim_left v) as [|b w]; [done|]. cbn in E1. destruct (bool_decide _); [|done]. injection E1 as ->. cbn. lia. }
  pose proof (trim_left_length r1) as L2. pose proof (span_length isTokenChar (trim_left r1)) as L3. unfold consumeToken in H.
  destruct (span isTokenChar (trim_left r1)) as [param r2]. cbn [snd] in L3. destruct (bool_decide _) in H; [done|].
  pose proof (trim_left_length r2) as L4. destruct (CutPrefix x3d (trim_left r2)) as [r3|] eqn:E3; [|done].
  cbn [mbind option_bind] in H.
  assert (L5 : (length r3 <= length (trim_left r2))%nat).
  { destruct (trim_left r2) as [|b w]; [done|]. cbn in E3. destruct (bool_decide _); [|done]. injection E3 as ->. cbn. lia. }
  pose proof (trim_left_length r3) as L6.
  assert (L7 : (length (consumeValue (trim_left r3)).2 <= length (trim_left r3))%nat).
  { unfold consumeValue. destruct (trim_left r3) as [|q w]; [done|]. destruct (bool_decide _); [|apply span_length].
    destruct (quoted_string [] w) as [[x y]|] eqn:Eq; [|done]. apply quoted_length in Eq. cbn. lia. }
  destruct (consumeValue (trim_left r3)) as [x r4]. cbn [snd] in L7. destruct (_ && _); [done|]. injection H as <- <- <-. lia.
Qed.

(** Any more turns give the same answer. *)
Lemma media_params_fuel `{UT : UnicodeTables} n m seen v :
  (length v <= n)%nat → (length v <= m)%nat → media_params n seen v = media_params m seen v.
Proof.
  revert m seen v. induction n as [|n IH]; intros m seen v Hn Hm.
  { destruct v; [|cbn in Hn; lia]. by destruct m. }
  pose proof (trim_left_length v) as Lt. destruct m as [|m]; [destruct v; [done|cbn in Hm; lia]|]. cbn [media_params].
  destruct (trim_left v) as [|b w] eqn:Et; [done|]. destruct (consumeMediaParam (b :: w)) as [[[key value] rest]|] eqn:E; [|done].
  apply consumeMediaParam_shorter in E. destruct (List.find _ seen) as [[k x]|].
  - destruct (bool_decide _); [|done]. apply IH; lia.
  - apply IH; lia.
Qed.
