(* ===== verification/JsonTheorems.v ===== *)
(** * Theorems on the JSON codec

    The printer's strings read back; what the scanner does with the printer's
    tokens; the streaming decoder with its check for a second value is
    unmarshalling of the whole body. *)

From S2P Require Import Prelude GoErrors GoTime GoText GoStrings Float64 GoParse Json JsonEncode JsonDecode.

(** ** Strings *)

(** U+2028 and U+2029 have one encoding. *)
Lemma good_separator r enc : good_chunk (Rune r enc) → r = 8232 ∨ r = 8233 → enc = encode_rune r.
Proof.
  intros H Hr. assert (E : ∃ b2, enc = [xe2; x80; b2] ∧ zb b2 = r - 8064).
  { cbn in H. destruct enc as [|b0 [|b1 [|b2 [|b3 [|b4 enc]]]]]; cbn [decode] in H; [done|..];
      split_decode H; simplify_eq; zbool; unfold lead2, lead3, lead4, second3, second4, cont, rune2, rune3, rune4, between in *;
      repeat match goal with H : context [if ?c then _ else _] |- _ => destruct c eqn:? end; zbool; try lia.
    all: exists b2; split; [|lia]; f_equal; [apply zb_inj; change (zb xe2) with 226; lia|f_equal; apply zb_inj; change (zb x80) with 128; lia]. }
  destruct E as (b2 & -> & E). destruct Hr as [-> | ->]; cbv -[zb] in E |- *; repeat f_equal; apply zb_inj; by rewrite E.
Qed.

Lemma coerce_valid b : Valid b = true → coerce b = b.
Proof.
  unfold Valid, coerce. rewrite <- (encode_decode b) at 3. unfold encode.
  induction (decode b) as [|[r enc|x] cs IH]; [done| |done]. cbn [forallb map concat is_rune andb coerce_chunk chunk_bytes].
  intros H. by rewrite (IH H).
Qed.

(** Bytes of a string that stand for themselves. *)
Definition plain_byte (b : byte) : bool :=
  negb (bool_decide (b = x22)) && negb (bool_decide (b = x5c)) && negb (zb b <? 32).

Lemma high_plain b : (128 <=? zb b) = true → plain_byte b = true.
Proof. destruct b; vm_compute; done. Qed.

Lemma unquote_plain run w rest :
  forallb plain_byte w = true → unquote_from run (w ++ rest) = unquote_from (run ++ w) rest.
Proof.
  revert run. induction w as [|b w IH]; intros run; [by rewrite app_nil_r|]. cbn [forallb app]. intros [Hb Hw]%andb_true_iff.
  replace (run ++ b :: w) with ((run ++ [b]) ++ w) by (by rewrite <- app_assoc). rewrite <- (IH _ Hw).
  destruct b; first [discriminate Hb|reflexivity].
Qed.

Lemma unquote_escaped run b rest :
  zb b < 128 →
  unquote_from run (escape_ascii b ++ rest)
  = if bool_decide (escape_ascii b = [b]) then unquote_from (run ++ [b]) rest
    else out ← unquote_from [] rest; Some (coerce run ++ [b] ++ out).
Proof. intros Hb. destruct b; first [exfalso; vm_compute in Hb; discriminate Hb|reflexivity]. Qed.

Lemma unquote_chunk run c rest out :
  good_chunk c → Valid run = true → (∀ run', Valid run' = true → unquote_from run' rest = Some (run' ++ out)) →
  unquote_from run (escape_chunk c ++ rest) = Some (run ++ coerce_chunk c ++ out).
Proof.
  intros Hc Hr Hrest. destruct c as [r enc|b]; cbn [escape_chunk coerce_chunk].
  2:{ cbn. rewrite Hrest by done. by rewrite (coerce_valid _ Hr). }
  destruct ((r =? 8232) || (r =? 8233)) eqn:Er.
  { assert (Henc : enc = encode_rune r ∧ unquote_from run ((bytes_of "\u202" ++ [hex_digit (r mod 16)]) ++ rest)
                   = (out ← unquote_from [] rest; Some (coerce run ++ encode_rune r ++ out))).
    { pose proof (good_rune_bytes _ _ Hc) as [(b & -> & -> & Hb)|_].
      - apply orb_true_iff in Er as [E%Z.eqb_eq|E%Z.eqb_eq]; lia.
      - split; [|apply orb_true_iff in Er as [->%Z.eqb_eq| ->%Z.eqb_eq]; reflexivity].
        apply (good_separator _ _ Hc). apply orb_true_iff in Er. by rewrite !Z.eqb_eq in Er. }
    destruct Henc as [-> ->]. rewrite Hrest by done. cbn. by rewrite (coerce_valid _ Hr). }
  destruct (good_rune_bytes _ _ Hc) as [(b & -> & -> & Hb)|[Hh Hl]].
  - rewrite unquote_escaped by done. case_bool_decide.
    + rewrite Hrest, <- app_assoc; [done|]. apply Valid_app; [done|by eapply Valid_good_chunk].
    + rewrite Hrest by done. cbn. by rewrite (coerce_valid _ Hr).
  - destruct enc as [|b0 [|b1 enc]]; [cbn in Hl; lia|cbn in Hl; lia|]. rewrite unquote_plain.
    + rewrite Hrest, <- app_assoc; [done|]. apply Valid_app; [done|by eapply Valid_good_chunk].
    + rewrite forallb_forall in *. intros x Hx. by apply high_plain, Hh.
Qed.

(** What the printer writes for a string reads back as the string, its
    ill-formed bytes as U+FFFD. *)
Lemma unquote_quote s : unquote (quote_json s) = Some (coerce s).
Proof.
  unfold unquote, quote_json. cbn [app]. rewrite rev_app_distr. cbn [rev app]. rewrite rev_involutive.
  change (bool_decide (x22 = x22)) with true. cbn [andb]. unfold coerce.
  assert (H : ∀ cs, Forall good_chunk cs → ∀ run, Valid run = true →
    unquote_from run (concat (map escape_chunk cs)) = Some (run ++ concat (map coerce_chunk cs))).
  { induction 1 as [|c cs Hc _ IH]; intros run Hr; cbn [map concat].
    - cbn. by rewrite (coerce_valid _ Hr), app_nil_r.
    - by apply unquote_chunk. }
  by rewrite (H _ (decode_good s) []).
Qed.

(** ** Tokens in the scanner *)

Lemma scan_bytes_app s a b : scan_bytes s (a ++ b) = scan_bytes s a ≫= λ s', scan_bytes s' b.
Proof.
  revert s. induction a as [|c a IH]; intros s; [done|]. cbn [app scan_bytes].
  destruct (scan_byte s c) as [s'|]; cbn; [apply IH|done].
Qed.

(** The states inside a string or a number, which leave the stack alone. *)
Definition flat (f : step_fn) : bool :=
  match f with stateInString | stateInStringEsc | stateInStringEscU _ | state1 => true | _ => false end.

(** Scanning within one token. *)
Fixpoint flat_run (s : scanner) (w : bytes) : option scanner :=
  match w with
  | [] => Some s
  | c :: w' => if flat (scan_step s) then s' ← scan_byte s c; flat_run s' w' else None
  end.

Lemma flat_run_scan s w s' : flat_run s w = Some s' → scan_bytes s w = Some s'.
Proof.
  revert s. induction w as [|c w IH]; cbn; intros s H; [done|]. destruct (flat _); [|done].
  destruct (scan_byte s c); cbn in *; [by apply IH|done].
Qed.

Lemma flat_run_app s a b : flat_run s (a ++ b) = flat_run s a ≫= λ s', flat_run s' b.
Proof.
  revert s. induction a as [|c a IH]; intros s; [done|]. cbn [app flat_run].
  destruct (flat _); [|done]. destruct (scan_byte s c) as [s'|]; cbn; [apply IH|done].
Qed.

Definition inside (st : list parse_state) : scanner := mkScanner stateInString st false.

Lemma run_escape_ascii b st : flat_run (inside st) (escape_ascii b) = Some (inside st).
Proof. destruct b; reflexivity. Qed.

Lemma run_plain w st : forallb plain_byte w = true → flat_run (inside st) w = Some (inside st).
Proof.
  induction w as [|b w IH]; [done|]. cbn [forallb flat_run]. intros [Hb Hw]%andb_true_iff. specialize (IH Hw).
  destruct b; first [discriminate Hb|exact IH].
Qed.

Lemma run_chunk c st : good_chunk c → flat_run (inside st) (escape_chunk c) = Some (inside st).
Proof.
  intros Hc. destruct c as [r enc|b]; [|reflexivity]. cbn [escape_chunk].
  destruct ((r =? 8232) || (r =? 8233)) eqn:Er.
  { by apply orb_true_iff in Er as [->%Z.eqb_eq| ->%Z.eqb_eq]. }
  destruct (good_rune_bytes _ _ Hc) as [(b & -> & -> & _)|[Hh Hl]]; [apply run_escape_ascii|].
  destruct enc as [|b0 [|b1 enc]]; [cbn in Hl; lia|cbn in Hl; lia|]. apply run_plain.
  rewrite forallb_forall in *. intros x Hx. by apply high_plain, Hh.
Qed.

(** A string after its first quote. *)
Lemma run_string s st :
  flat_run (inside st) (concat (map escape_chunk (decode s)) ++ [x22]) = Some (mkScanner stateEndValue st false).
Proof.
  rewrite flat_run_app.
  replace (flat_run (inside st) (concat _)) with (Some (inside st)); [done|]. symmetry.
  induction (decode_good s) as [|c cs Hc _ IH]; [done|]. cbn [map concat]. by rewrite flat_run_app, (run_chunk _ _ Hc).
Qed.

Definition takes_string (f : step_fn) : bool :=
  match f with stateBeginValueOrEmpty | stateBeginValue | stateBeginStringOrEmpty | stateBeginString => true | _ => false end.

Lemma quote_step f st : takes_string f = true → scan_byte (mkScanner f st false) x22 = Some (inside st).
Proof. by destruct f. Qed.

Lemma scan_quote f st s :
  takes_string f = true → scan_bytes (mkScanner f st false) (quote_json s) = Some (mkScanner stateEndValue st false).
Proof.
  intros Hf. unfold quote_json. change ([x22] ++ ?w) with (x22 :: w). cbn [scan_bytes]. rewrite (quote_step _ _ Hf).
  apply flat_run_scan, run_string.
Qed.

(** The decimal digits of a positive number. *)
Lemma FormatInt_positive n :
  0 < n → ∃ d ds, bytes_of (FormatInt n) = d :: ds ∧ digit19 d = true ∧ forallb digit ds = true.
Proof. exact (FormatInt_digits n). Qed.

Lemma run_digits ds st : forallb digit ds = true → flat_run (mkScanner state1 st false) ds = Some (mkScanner state1 st false).
Proof.
  induction ds as [|d ds IH]; [done|]. cbn [forallb flat_run]. intros [Hd Hds]%andb_true_iff. cbn [flat scan_step scan_byte].
  rewrite Hd. by apply IH.
Qed.

Lemma digit19_step d st : digit19 d = true → scan_byte (mkScanner stateBeginValue st false) d = Some (mkScanner state1 st false).
Proof. destruct d; first [discriminate|reflexivity]. Qed.

(** ** One value of a stream *)

(** The scanner is at the end exactly in its state [stateEndTop]. *)
Definition scanner_ok (s : scanner) : Prop :=
  if scan_endTop s then scan_step s = stateEndTop ∧ scan_stack s = [] else scan_step s ≠ stateEndTop.

Lemma scan_byte_ok s c s' : scanner_ok s → scan_byte s c = Some s' → scanner_ok s'.
Proof.
  destruct s as [f st e]. unfold scanner_ok. cbn [scan_endTop scan_step scan_stack].
  intros Hok H. destruct e.
  - destruct Hok as [-> ->]. cbn in H. unfold step_EndTop, goto in H. by repeat case_match; simplify_eq.
  - unfold scan_byte, step_BeginValue, step_BeginString, step_0, step_ESign, step_EndValue, step_EndTop, pushParseState,
      popParseState, goto in H. cbn [scan_step scan_stack scan_endTop] in H.
    destruct f; try done; repeat case_match; simplify_eq; cbn; done.
Qed.

Lemma scan_bytes_ok s w s' : scanner_ok s → scan_bytes s w = Some s' → scanner_ok s'.
Proof.
  revert s. induction w as [|c w IH]; cbn; intros s Hok H; [by simplify_eq|].
  destruct (scan_byte s c) as [s1|] eqn:E; [|done]. cbn in H. eauto using scan_byte_ok.
Qed.

(** At the end only white space is taken. *)
Lemma scan_end_spaces s w :
  scanner_ok s → scan_endTop s = true → scan_bytes s w = if forallb json_space w then Some s else None.
Proof.
  destruct s as [f st e]. unfold scanner_ok. cbn. intros Hok ->. destruct Hok as [-> ->].
  induction w as [|c w IH]; [done|]. cbn [scan_bytes forallb]. cbn [scan_byte scan_step]. unfold step_EndTop.
  destruct (json_space c); cbn; [exact IH|done].
Qed.

(** A complete value can be followed by white space only. *)
Lemma eof_space s c :
  scanner_ok s → scan_eof s = true → json_space c = true → ∃ s', scan_byte s c = Some s' ∧ scan_endTop s' = true.
Proof.
  intros Hok He Hc.
  assert (Hs : ∀ d, json_space d = true → d = x20 ∨ d = x09 ∨ d = x0d ∨ d = x0a).
  { intros d. unfold json_space. rewrite bool_decide_eq_true, !elem_of_cons, elem_of_nil. tauto. }
  destruct s as [f st e]. unfold scanner_ok in Hok. unfold scan_eof in He. cbn [scan_endTop scan_step scan_stack] in *.
  destruct e; cbn [orb] in He.
  - destruct Hok as [-> ->]. apply Hs in Hc as [-> |[-> |[-> | ->]]]; eexists; done.
  - assert (Hx : scan_byte (mkScanner f st false) c = scan_byte (mkScanner f st false) x20
      ∨ (∃ g, scan_byte (mkScanner f st false) x20 = Some (mkScanner g st false))
      ∨ scan_byte (mkScanner f st false) x20 = None).
    { apply Hs in Hc as [-> |[-> |[-> | ->]]]; destruct f, st as [|[] st]; cbn; eauto; repeat case_match; eauto. }
    destruct Hx as [-> |[(g & E)|E]].
    + destruct (scan_byte _ x20) as [s'|]; [by exists s'|done].
    + by rewrite E in He.
    + by rewrite E in He.
Qed.

Lemma eof_spaces s w :
  scanner_ok s → scan_eof s = true → forallb json_space w = true → ∃ s', scan_bytes s w = Some s' ∧ scan_eof s' = true.
Proof.
  destruct w as [|c w]; [by exists s|]. cbn [forallb scan_bytes]. intros Hok He [Hc Hw]%andb_true_iff.
  destruct (eof_space _ _ Hok He Hc) as (s' & E & He'). rewrite E. cbn [mbind option_bind]. exists s'.
  rewrite (scan_end_spaces s' w (scan_byte_ok _ _ _ Hok E) He'), Hw. split; [done|]. unfold scan_eof. by rewrite He'.
Qed.

(** What [readValue] returns is a complete value at the front of the data. *)
Lemma read_value_sound buf ending s data v rest :
  read_value buf ending s data = Ok (v, rest) →
  data = v ++ rest ∧ ∃ s', scan_bytes s v = Some s' ∧ scan_eof s' = true.
Proof.
  revert s v. induction data as [|c data IH]; intros s v; cbn [read_value].
  { destruct (is_EOF _); [|done]. destruct (scan_eof s) eqn:E; [|done]. intros [= <- <-]. split; [done|]. by exists s. }
  destruct (value_ends s c) eqn:Ev.
  { intros [= <- <-]. split; [done|]. exists s. split; [done|]. unfold value_ends in Ev. zbool. done. }
  destruct (scan_byte s c) as [s1|] eqn:E; [|done]. destruct (scan_endTop s1) eqn:Ee.
  { intros [= <- <-]. split; [done|]. exists s1. cbn. rewrite E. split; [done|]. unfold scan_eof. by rewrite Ee. }
  intros ([v' r'] & Hr & [= <- <-])%res_bind_Ok. apply IH in Hr as (-> & s2 & Hs & He). split; [done|].
  exists s2. cbn. by rewrite E.
Qed.

(** At top level a byte that ends the value is white space. *)
Lemma end_byte_space s c s1 :
  scan_stack s = [] → scan_endTop s = false → scan_eof s = true → scan_byte s c = Some s1 → scan_endTop s1 = true →
  json_space c = true.
Proof.
  destruct s as [f st e]. cbn. intros -> -> He E H1. destruct (json_space c) eqn:Ec; [done|]. exfalso.
  unfold scan_eof in He. destruct f; cbn in *; unfold step_BeginValue, step_BeginString, step_0, step_ESign, step_EndValue,
    step_EndTop, pushParseState, popParseState, goto in *; cbn in *; rewrite ?Ec in E; repeat case_match; simplify_eq; done.
Qed.

(** Of a valid text it returns all but white space. *)
Lemma read_value_complete buf s data s' :
  scanner_ok s → scan_endTop s = false → scan_bytes s data = Some s' → scan_eof s' = true →
  ∃ v rest, read_value buf io_EOF s data = Ok (v, rest) ∧ data = v ++ rest ∧ forallb json_space rest = true.
Proof.
  revert s. induction data as [|c data IH]; intros s Hok Ht; cbn [read_value scan_bytes].
  { intros [= ->] He. cbn. rewrite He. by exists [], []. }
  destruct (scan_byte s c) as [s1|] eqn:E; [|done]. cbn [mbind option_bind]. intros Hs He.
  pose proof (scan_byte_ok _ _ _ Hok E) as Hok1.
  assert (Hsp : scan_endTop s1 = true → forallb json_space data = true).
  { intros Ht1. rewrite (scan_end_spaces _ _ Hok1 Ht1) in Hs. by destruct (forallb _ _). }
  destruct (value_ends s c) eqn:Ev.
  - unfold value_ends in Ev. rewrite E in Ev. zbool. exists [], (c :: data). split_and!; [done|done|].
    cbn [forallb]. rewrite Hsp, andb_true_r by done.
    by eapply end_byte_space.
  - destruct (scan_endTop s1) eqn:Ht1; [exists [c], data; auto|].
    destruct (IH s1 Hok1 Ht1 Hs He) as (v & rest & -> & -> & Hr). by exists (c :: v), rest.
Qed.

(** ** A body of one value *)

Lemma drop_while_all {A} (p : A → bool) l r : forallb p l = true → drop_while p (l ++ r) = drop_while p r.
Proof. induction l as [|x l IH]; [done|]. cbn. intros [Hx Hl]%andb_true_iff. rewrite Hx. by apply IH. Qed.

Lemma trim_json_spaces v w : forallb json_space w = true → trim_json (v ++ w) = trim_json v.
Proof.
  intros Hw. unfold trim_json.
  assert (Hr : forallb json_space (rev w) = true).
  { rewrite forallb_forall in *. intros x Hx%in_rev. by apply Hw. }
  assert (E : drop_while json_space (v ++ w) = drop_while json_space v ++ w ∨
              drop_while json_space (v ++ w) = [] ∧ drop_while json_space v = []).
  { clear Hr. induction v as [|c v IH]; cbn [app drop_while].
    - right. split; [|done]. rewrite <- (app_nil_r w). by rewrite drop_while_all.
    - destruct (json_space c); [exact IH|by left]. }
  destruct E as [-> |[-> ->]]; [|done]. f_equal. rewrite rev_app_distr. by rewrite drop_while_all.
Qed.

Section Body.
Context `{UX : UnicodeText}.

Lemma unmarshal_spaces {T} (St : struct_type T) strict v w :
  forallb json_space w = true → unmarshal St strict (v ++ w) = unmarshal St strict v.
Proof. intros Hw. unfold unmarshal. by rewrite trim_json_spaces. Qed.

(** A second [Decode] finds the end of the stream exactly when only white space
    is left. *)
Lemma decode_end (s : stream) strict err :
  stream_end s = io_EOF ∨ errors_is (stream_end s) io_EOF = false →
  Decode empty_struct (mkDecoder s strict) = Err err → errors_is err io_EOF = true →
  stream_end s = io_EOF ∧ forallb json_space (stream_data s) = true.
Proof.
  intros Hend Hd He. unfold Decode in Hd. cbn [decoder_input disallowUnknownFields] in Hd.
  assert (Hr : ∀ ss data, read_value (stream_data s) (stream_end s) ss data = Err err →
    stream_end s = io_EOF ∧ forallb json_space (stream_data s) = true).
  { intros ss data. revert ss. induction data as [|c data IH]; intros ss; cbn [read_value].
    - destruct Hend as [E|E].
      + rewrite E. cbn. destruct (scan_eof ss); [done|]. destruct (forallb _ _); [done|]. by intros [= <-].
      + destruct (is_EOF (stream_end s)) eqn:Ei.
        { exfalso. destruct (stream_end s); cbn in *; try done. by zbool. }
        intros [= <-]. by rewrite E in He.
    - destruct (value_ends ss c); [done|]. destruct (scan_byte ss c) as [s1|]; [|by intros [= <-]].
      destruct (scan_endTop s1); [done|]. destruct (read_value _ _ s1 data) as [[v r]|e] eqn:E; [done|]. cbn.
      intros [= ->]. by eapply IH. }
  destruct (read_value _ _ start _) as [[v r]|e] eqn:E; cbn in Hd; [|simplify_eq; by eapply Hr]. exfalso. clear Hr E.
  assert (Hn : ∀ ms a, match a.2 with Some e => errors_is e io_EOF = false | None => True end →
    match (fold_left (store_member empty_struct strict) ms a).2 with Some e => errors_is e io_EOF = false | None => True end).
  { induction ms as [|m ms IH]; intros a Ha; [exact Ha|]. cbn [fold_left]. apply IH. destruct a as [[] saved].
    unfold store_member. destruct (unquote m.1) as [k|]; [|exact Ha]. cbn. by destruct strict, saved. }
  destruct (unmarshal empty_struct strict v) as [t [e|]] eqn:Eu; [|done]. injection Hd as <-.
  unfold unmarshal in Eu. repeat case_match; simplify_eq; try done.
  specialize (Hn (object_members (trim_json v)) (struct_zero empty_struct, None) I). rewrite Eu in Hn. cbn in Hn. by rewrite He in Hn.
Qed.

(** Decoding a value and finding nothing after it is unmarshalling the whole of
    a valid text. *)
Lemma decode_one {T} (St : struct_type T) (s : stream) strict (q : T) :
  stream_end s = io_EOF ∨ errors_is (stream_end s) io_EOF = false →
  (∃ rest err, Decode St (mkDecoder s strict) = Ok (q, rest) ∧ Decode empty_struct rest = Err err ∧ errors_is err io_EOF = true)
  ↔ stream_end s = io_EOF ∧ json_Valid (stream_data s) = true ∧ unmarshal St strict (stream_data s) = (q, None).
Proof.
  intros Hend. split.
  - intros (rest & err & Hd & He & Hi). unfold Decode in Hd. cbn [decoder_input disallowUnknownFields] in Hd.
    apply res_bind_Ok in Hd as ([v r] & Hr & Hd). destruct (unmarshal St strict v) as [t [e|]] eqn:Eu; [done|].
    injection Hd as <- <-. apply decode_end in He as [E Hsp]; [|done|done]. cbn in E, Hsp.
    apply read_value_sound in Hr as (-> & s' & Hs & Heof). split_and!; [done| |].
    + destruct (eof_spaces s' r (scan_bytes_ok start v s' ltac:(done) Hs) Heof Hsp) as (s2 & Hs2 & He2).
      unfold json_Valid. change (mkScanner _ _ _) with start. rewrite scan_bytes_app, Hs. cbn. by rewrite Hs2.
    + by rewrite unmarshal_spaces.
  - intros (E & Hv & Hu). unfold json_Valid in Hv. change (mkScanner _ _ _) with start in Hv.
    destruct (scan_bytes start (stream_data s)) as [s'|] eqn:Es; [|done].
    destruct (read_value_complete (stream_data s) start (stream_data s) s' ltac:(done) ltac:(done) Es Hv)
      as (v & r & Hr & Hdata & Hsp).
    unfold Decode. cbn [decoder_input disallowUnknownFields]. rewrite E, Hr. cbn [mbind res_bind]. rewrite Hdata, unmarshal_spaces in Hu by done. rewrite Hu.
    exists (mkDecoder (mkStream r io_EOF) strict), io_EOF. split_and!; [done| |done]. cbn [decoder_input stream_data stream_end].
    assert (Hsk : ∀ w, forallb json_space w = true → read_value r io_EOF start w = Err io_EOF).
    { induction w as [|c w IH]; cbn [read_value forallb].
      - intros _. cbn. by rewrite Hsp.
      - intros [Hc Hw]%andb_true_iff.
        assert (E1 : scan_byte start c = Some start) by (cbn; unfold step_BeginValue; by rewrite Hc).
        change (value_ends start c) with false. rewrite E1. cbn [scan_endTop start]. by rewrite (IH Hw). }
    by rewrite (Hsk r Hsp).
Qed.
End Body.

(** ** Members *)

Definition is_empty {A} (l : list A) : bool := match l with [] => true | _ => false end.

(** A byte that leaves the stack as it is belongs to the current token. *)
Lemma members_byte s s' key acc c rest :
  scan_byte s c = Some s' → scan_stack s' = scan_stack s → is_empty (scan_stack s) = false →
  members_from s key acc (c :: rest) = members_from s' key (acc ++ [c]) rest.
Proof. intros E Hs Hq. cbn [members_from]. rewrite E, Hs. by destruct (scan_stack s) as [|[] [|]]. Qed.

(** So does one inside a nested value, its brackets included. *)
Lemma members_nested s s' key acc c rest :
  scan_byte s c = Some s' → (2 <=? length (scan_stack s))%nat || (2 <=? length (scan_stack s'))%nat = true →
  members_from s key acc (c :: rest) = members_from s' key (acc ++ [c]) rest.
Proof.
  intros E Hl. cbn [members_from]. rewrite E. destruct (scan_stack s) as [|[] [|]], (scan_stack s') as [|[] [|]]; done.
Qed.

(** A token is collected as a whole. *)
Lemma members_string f st key acc s rest :
  takes_string f = true → is_empty st = false →
  members_from (mkScanner f st false) key acc (quote_json s ++ rest)
  = members_from (mkScanner stateEndValue st false) key (acc ++ quote_json s) rest.
Proof.
  intros Hf Hst. unfold quote_json. change ([x22] ++ ?w) with (x22 :: w). cbn [app].
  rewrite (members_byte _ (inside st)); [|by apply quote_step|done|done].
  pose proof (run_string s st) as Hr. set (text := concat (map escape_chunk (decode s)) ++ [x22]) in *.
  replace (acc ++ x22 :: text) with ((acc ++ [x22]) ++ text) by (by rewrite <- app_assoc). generalize (acc ++ [x22]).
  assert (Hgo : ∀ w a t, flat t = true → t ≠ state1 → flat_run (mkScanner t st false) w = Some (mkScanner stateEndValue st false) →
    members_from (mkScanner t st false) key a (w ++ rest) = members_from (mkScanner stateEndValue st false) key (a ++ w) rest).
  { induction w as [|c w IH]; intros a t Ht H1 Hw; [by cbn in Hw; simplify_eq|]. cbn [flat_run scan_step] in Hw.
    rewrite Ht in Hw. destruct (scan_byte _ c) as [[t' st' e']|] eqn:E; [|done]. cbn in Hw.
    assert (st' = st ∧ e' = false ∧ t' ≠ state1 ∧ (flat t' = true ∨ t' = stateEndValue)) as (-> & -> & H1' & Ht').
    { destruct t; try done; cbn in E; unfold goto in E; repeat case_match; simplify_eq; cbn; auto. }
    cbn [app]. rewrite (members_byte _ (mkScanner t' st false)) by done.
    replace (a ++ c :: w) with ((a ++ [c]) ++ w) by (by rewrite <- app_assoc). destruct Ht' as [Ht'| ->]; [by apply IH|].
    destruct w as [|? w]; [by rewrite app_nil_r|]. done. }
  intros a. by apply Hgo.
Qed.

Lemma members_digits st key acc ds rest :
  forallb digit ds = true → is_empty st = false →
  members_from (mkScanner state1 st false) key acc (ds ++ rest) = members_from (mkScanner state1 st false) key (acc ++ ds) rest.
Proof.
  intros Hd Hst. revert acc. induction ds as [|d ds IH]; intros acc; [by rewrite app_nil_r|]. cbn [forallb] in Hd.
  apply andb_true_iff in Hd as [Hd Hds]. cbn [app]. rewrite (members_byte _ (mkScanner state1 st false)); [|cbn; by rewrite Hd|done|done].
  rewrite IH by done. by rewrite <- app_assoc.
Qed.

Lemma trim_json_ends c w d : json_space c = false → json_space d = false → trim_json (c :: w ++ [d]) = c :: w ++ [d].
Proof.
  intros Hc Hd. unfold trim_json. cbn [drop_while]. rewrite Hc.
  change (c :: w ++ [d]) with ((c :: w) ++ [d]). rewrite rev_app_distr. cbn [rev app drop_while]. rewrite Hd.
  change (d :: ?x) with ([d] ++ x). rewrite rev_app_distr. cbn [rev app]. by rewrite rev_app_distr, rev_involutive.
Qed.

Lemma trim_json_quote s : trim_json (quote_json s) = quote_json s.
Proof. unfold quote_json. by apply (trim_json_ends x22 _ x22). Qed.

(** A key with its colon, and a string with the byte that ends its member. *)
Definition key_state (f : step_fn) : bool := match f with stateBeginStringOrEmpty | stateBeginString => true | _ => false end.

Lemma members_key f key k rest :
  key_state f = true →
  members_from (mkScanner f [parseObjectKey] false) key [] (quote_json k ++ x3a :: rest)
  = members_from (mkScanner stateBeginValue [parseObjectValue] false) (quote_json k) [] rest.
Proof.
  intros Hf. rewrite members_string by (by destruct f). cbn [app]. rewrite <- (trim_json_quote k) at 2. reflexivity.
Qed.

Lemma members_next f acc key rest :
  f = stateEndValue ∨ f = state1 →
  members_from (mkScanner f [parseObjectValue] false) key acc (x2c :: rest)
  = (key, trim_json acc) :: members_from (mkScanner stateBeginString [parseObjectKey] false) [] [] rest.
Proof. by intros [-> | ->]. Qed.

Lemma members_last acc key :
  members_from (mkScanner stateEndValue [parseObjectValue] false) key acc [x7d] = [(key, trim_json acc)].
Proof. reflexivity. Qed.
