(* ===== verification/JsonValid.v ===== *)
(** * What the encoder prints is valid JSON

    The scanner accepts every value the encoder prints, inside any objects and
    arrays that leave room for its nesting: strings, numbers, times, arrays and
    objects directly, raw messages because compacting follows the scanner byte
    by byte. *)

From S2P Require Import Prelude GoErrors GoTime GoText GoStrings Float64 GoParse FormatFloat Json JsonEncode JsonDecode JsonTheorems.

(** ** Complete values *)

(** The states after a value. *)
Definition value_end (f : step_fn) : bool :=
  match f with stateEndValue | state0 | state1 | stateDot0 | stateE0 => true | _ => false end.

Definition is_begin (f : step_fn) : bool := match f with stateBeginValue | stateBeginValueOrEmpty => true | _ => false end.

(** [w] is a value, wherever one may stand and [d] more levels fit. *)
Definition is_value (w : bytes) (d : Z) : Prop :=
  ∀ f st, is_begin f = true → st ≠ [] → Z.of_nat (length st) + d <= maxNestingDepth →
  ∃ g, scan_bytes (mkScanner f st false) w = Some (mkScanner g st false) ∧ value_end g = true.

Lemma value_end_step g st c :
  value_end g = true → c ∈ [x2c; x5d; x7d; x3a] →
  scan_byte (mkScanner g st false) c = step_EndValue (mkScanner g st false) c.
Proof. rewrite !elem_of_cons, elem_of_nil. intros Hg [-> |[-> |[-> |[-> |[]]]]]; by destruct g. Qed.

Lemma is_value_mono w d d' : is_value w d → d <= d' → is_value w d'.
Proof. intros H Hd f st Hf Hst Hl. apply H; [done|done|lia]. Qed.

Lemma string_value s : is_value (quote_json s) 0.
Proof. intros f st Hf _ _. exists stateEndValue. split; [|done]. apply scan_quote. by destruct f. Qed.

(** A literal that the scanner takes from [stateBeginValue] alone. *)
Lemma bool_value (b : bool) : is_value (bytes_of (if b then "true" else "false")) 0.
Proof. intros f st Hf _ _. exists stateEndValue. split; [|done]. by destruct f, b. Qed.

Lemma begin_step f st c : is_begin f = true → c ≠ x5d → json_space c = false →
  scan_byte (mkScanner f st false) c = step_BeginValue (mkScanner stateBeginValue st false) c.
Proof.
  intros Hf Hc Hs. destruct f; try done; cbn; rewrite ?Hs, ?(bool_decide_eq_false_2 _ Hc); unfold step_BeginValue;
    by rewrite Hs.
Qed.

Lemma digits_value_end d ds f st :
  is_begin f = true → digit19 d = true → forallb digit ds = true →
  scan_bytes (mkScanner f st false) (d :: ds) = Some (mkScanner state1 st false).
Proof.
  intros Hf Hd Hds. cbn [scan_bytes].
  assert (scan_byte (mkScanner f st false) d = Some (mkScanner state1 st false)) as ->.
  { destruct f; try done; destruct d; first [discriminate Hd|reflexivity]. }
  by apply flat_run_scan, run_digits.
Qed.

Lemma int_value z : is_value (bytes_of (FormatInt z)) 0.
Proof.
  intros f st Hf _ _. destruct (Z.lt_trichotomy z 0) as [Hz|[->|Hz]].
  - destruct (FormatInt_positive (- z) ltac:(lia)) as (d & ds & E & Hd & Hds). exists state1. split; [|done].
    assert (bytes_of (FormatInt z) = x2d :: d :: ds) as ->.
    { destruct z as [|p|p]; try lia. change (FormatInt (Z.neg p)) with ("-" +:+ FormatInt (Z.pos p)).
      rewrite bytes_of_app. change (- Z.neg p) with (Z.pos p) in E. by rewrite E. }
    cbn [scan_bytes]. assert (scan_byte (mkScanner f st false) x2d = Some (mkScanner stateNeg st false)) as -> by (by destruct f).
    cbn [mbind option_bind]. assert (scan_byte (mkScanner stateNeg st false) d = Some (mkScanner state1 st false)) as ->.
    { destruct d; first [discriminate Hd|reflexivity]. }
    by apply flat_run_scan, run_digits.
  - exists state0. split; [|done]. by destruct f.
  - destruct (FormatInt_positive z Hz) as (d & ds & -> & Hd & Hds). exists state1. split; [|done]. by apply digits_value_end.
Qed.

(** A number: digits, perhaps a dot and digits, perhaps an exponent. *)
Lemma digits_loop g ds st : g = state1 ∨ g = stateDot0 ∨ g = stateE0 → forallb is_digit ds = true →
  scan_bytes (mkScanner g st false) ds = Some (mkScanner g st false).
Proof.
  intros Hg. induction ds as [|d ds IH]; [done|]. cbn [forallb]. intros [Hd Hds]%andb_true_iff. cbn [scan_bytes].
  assert (scan_byte (mkScanner g st false) d = Some (mkScanner g st false)) as ->; [|by apply IH].
  destruct Hg as [-> |[-> | ->]]; destruct d; first [discriminate Hd|reflexivity].
Qed.

Lemma integer_part n st f : 0 <= n → is_begin f = true ∨ f = stateNeg →
  ∃ g, (g = state0 ∨ g = state1) ∧ scan_bytes (mkScanner f st false) (bytes_of (FormatInt n)) = Some (mkScanner g st false).
Proof.
  intros Hn Hf. destruct (Z.eq_dec n 0) as [->|Hne].
  - exists state0. split; [auto|]. destruct Hf as [Hf| ->]; [by destruct f|done].
  - destruct (FormatInt_positive n ltac:(lia)) as (d & ds & -> & Hd & Hds). exists state1. split; [auto|].
    destruct Hf as [Hf| ->]; [by apply digits_value_end|]. cbn [scan_bytes].
    assert (scan_byte (mkScanner stateNeg st false) d = Some (mkScanner state1 st false)) as -> by (destruct d; first [discriminate Hd|reflexivity]).
    cbn [mbind option_bind]. apply digits_loop; auto.
Qed.

Lemma fraction_part g ds st : g = state0 ∨ g = state1 → forallb is_digit ds = true → ds ≠ [] →
  scan_bytes (mkScanner g st false) (x2e :: ds) = Some (mkScanner stateDot0 st false).
Proof.
  intros Hg Hds Hne. cbn [scan_bytes]. assert (scan_byte (mkScanner g st false) x2e = Some (mkScanner stateDot st false)) as ->
    by (by destruct Hg as [-> | ->]). cbn [mbind option_bind]. destruct ds as [|d ds]; [done|]. cbn [forallb] in Hds.
  apply andb_true_iff in Hds as [Hd Hds]. cbn [scan_bytes].
  assert (scan_byte (mkScanner stateDot st false) d = Some (mkScanner stateDot0 st false)) as -> by (destruct d; first [discriminate Hd|reflexivity]).
  cbn [mbind option_bind]. apply digits_loop; auto.
Qed.

Lemma exponent_scans g (neg : bool) n st : g = state0 ∨ g = state1 ∨ g = stateDot0 → 0 <= n →
  scan_bytes (mkScanner g st false) (x65 :: (if neg then x2d else x2b) :: bytes_of (FormatInt n)) = Some (mkScanner stateE0 st false).
Proof.
  intros Hg Hn. destruct (FormatInt_all_digits n Hn) as [Hd Hne]. destruct (bytes_of (FormatInt n)) as [|d ds]; [done|].
  cbn [forallb] in Hd. apply andb_true_iff in Hd as [Hd Hds]. cbn [scan_bytes].
  assert (scan_byte (mkScanner g st false) x65 = Some (mkScanner stateE st false)) as -> by (by destruct Hg as [-> |[-> | ->]]).
  cbn [mbind option_bind]. assert (scan_byte (mkScanner stateE st false) (if neg then x2d else x2b) = Some (mkScanner stateESign st false)) as ->
    by (by destruct neg). cbn [mbind option_bind].
  assert (scan_byte (mkScanner stateESign st false) d = Some (mkScanner stateE0 st false)) as -> by (destruct d; first [discriminate Hd|reflexivity]).
  cbn [mbind option_bind]. apply digits_loop; auto.
Qed.

(** What is printed after the sign. *)
Lemma format_scans (b : bool) D p f st : 0 <= D → is_begin f = true ∨ f = stateNeg →
  ∃ g, scan_bytes (mkScanner f st false) (if b then format_e D p else format_f D p) = Some (mkScanner g st false) ∧ value_end g = true.
Proof.
  intros HD Hf. destruct b; unfold format_e, format_f.
  - destruct (FormatInt_all_digits D HD) as [Hd Hne]. destruct (bytes_of (FormatInt D)) as [|d ds]; [done|].
    cbn [forallb] in Hd. apply andb_true_iff in Hd as [Hd Hds]. set (exp := p + len ds).
    destruct (integer_part (zb d - 48) st f) as (g & Hg & Hs); [destruct d; first [discriminate Hd|done]|done|].
    assert (bytes_of (FormatInt (zb d - 48)) = [d]) as Ed by (destruct d; first [discriminate Hd|reflexivity]). rewrite Ed in Hs.
    change (d :: ?x) with ([d] ++ x). rewrite scan_bytes_app, Hs. cbn [mbind option_bind]. exists stateE0. split; [|done].
    destruct ds as [|d2 ds]; [cbn [app]; apply exponent_scans; [tauto|lia]|].
    rewrite scan_bytes_app, (fraction_part g (d2 :: ds)) by done. cbn [mbind option_bind]. apply exponent_scans; [tauto|lia].
  - destruct (Z.leb_spec 0 p) as [Hp|Hp].
    + destruct (integer_part (D * 10 ^ p) st f) as (g & Hg & Hs); [apply Z.mul_nonneg_nonneg; lia|done|].
      exists g. split; [done|]. by destruct Hg as [-> | ->].
    + assert (0 < 10 ^ (- p)) as Hten by (apply Z.pow_pos_nonneg; lia).
      destruct (integer_part (D / 10 ^ (- p)) st f) as (g & Hg & Hs); [apply Z.div_pos; lia|done|].
      rewrite scan_bytes_app, Hs. cbn [mbind option_bind]. exists stateDot0. split; [|done].
      pose proof (Z.mod_pos_bound D _ Hten) as Hm. destruct (FormatInt_all_digits (D mod 10 ^ (- p)) ltac:(lia)) as [Hd Hne].
      destruct (pad_left_digits (Z.to_nat (- p)) _ Hd Hne) as [H1 H2]. by apply fraction_part.
Qed.

Lemma float_value x b : FormatFloat x = Ok b → is_value b 0.
Proof.
  intros H f st Hf _ _. destruct x as [m e|s|]; [|done..]. unfold FormatFloat in H. destruct (Z.eqb_spec m 0) as [->|Hm].
  { injection H as <-. exists state0. split; [by destruct f|done]. }
  destruct (shortest _ _) as [D p] eqn:Hs. apply (f_equal (λ r, match r with Ok w => w | Err _ => [] end)) in H. cbv beta iota in H. subst b.
  assert (HD : 0 <= D) by (change D with (D, p).1; rewrite <- Hs; apply shortest_nonneg, binary_mantissa_nonneg).
  clear Hs Hm. generalize (scientific m e) (m <? 0). intros sci neg.
  destruct (format_scans sci D p (if neg then stateNeg else f) st HD) as (g & Hg & Hv); [destruct neg; auto|].
  exists g. split; [|done]. destruct neg; [|exact Hg]. cbn [app scan_bytes].
  assert (scan_byte (mkScanner f st false) x2d = Some (mkScanner stateNeg st false)) as -> by (by destruct f). exact Hg.
Qed.

(** A string without anything to escape, as times are. *)
Lemma plain_value w : forallb plain_byte w = true → is_value ([x22] ++ w ++ [x22]) 0.
Proof.
  intros Hw f st Hf _ _. exists stateEndValue. split; [|done]. change ([x22] ++ ?v) with (x22 :: v). cbn [scan_bytes].
  rewrite quote_step by (by destruct f). cbn [mbind option_bind]. by rewrite scan_bytes_app, (flat_run_scan _ _ _ (run_plain w st Hw)).
Qed.

(** ** Times *)

Lemma digit_plain w : forallb digit w = true → forallb plain_byte w = true.
Proof.
  rewrite !forallb_forall. intros H x Hx. apply H in Hx. destruct x; first [discriminate Hx|reflexivity].
Qed.

Lemma appendInt_plain x n : forallb plain_byte (appendInt x n) = true.
Proof.
  assert (Hp : ∀ n w, forallb plain_byte w = true → forallb plain_byte (pad_left n w) = true).
  { intros m. induction m as [|k IH]; intros w Hw; cbn [pad_left]; (destruct (_ <? _)%nat; [|exact Hw]); [exact Hw|].
    cbn [forallb]. by apply IH. }
  unfold appendInt. rewrite forallb_app. apply andb_true_iff. split; [by destruct (x <? 0)|]. apply Hp.
  destruct (Z.eq_dec x 0) as [->|Hx]; [done|].
  destruct (FormatInt_positive (Z.abs x) ltac:(lia)) as (d & ds & -> & Hd & Hds). cbn [forallb].
  rewrite (digit_plain _ Hds), andb_true_r. destruct d; first [discriminate Hd|reflexivity].
Qed.

Lemma FormatInt_plain_bytes x : 0 <= x → forallb plain_byte (bytes_of (FormatInt x)) = true.
Proof.
  intros Hx. destruct (Z.eq_dec x 0) as [->|Hne]; [done|].
  destruct (FormatInt_positive x ltac:(lia)) as (d & ds & -> & Hd & Hds). cbn [forallb].
  rewrite (digit_plain _ Hds), andb_true_r. destruct d; first [discriminate Hd|reflexivity].
Qed.

Lemma pad_left_plain n w : forallb plain_byte w = true → forallb plain_byte (pad_left n w) = true.
Proof.
  revert w. induction n as [|k IH]; intros w Hw; cbn [pad_left]; (destruct (_ <? _)%nat; [|exact Hw]); [exact Hw|].
  cbn [forallb]. by apply IH.
Qed.

Lemma appendNano_plain x : 0 <= x → forallb plain_byte (appendNano x) = true.
Proof.
  intros Hx. unfold appendNano.
  assert (Hr : ∀ w, forallb plain_byte w = true → forallb plain_byte (rev w) = true).
  { intros w. rewrite !forallb_forall. intros H y Hy%in_rev. by apply H. }
  assert (Ht : ∀ w, forallb plain_byte w = true → forallb plain_byte (trim_zeros w) = true).
  { induction w as [|b w IH]; [done|]. cbn [trim_zeros]. destruct (bool_decide _); [|done]. cbn [forallb].
    intros [_ Hw]%andb_true_iff. by apply IH. }
  destruct (bool_decide _); [done|]. change ([x2e] ++ ?w) with (x2e :: w). cbn [forallb]. change (plain_byte x2e) with true.
  by apply Hr, Ht, Hr, pad_left_plain, FormatInt_plain_bytes.
Qed.

Lemma RFC3339_plain offset t : forallb plain_byte (appendFormatRFC3339 offset t) = true.
Proof.
  unfold appendFormatRFC3339. destruct (date _) as [[year month] day]. rewrite !forallb_app, !appendInt_plain.
  rewrite appendNano_plain by (apply Z.mod_pos_bound; reflexivity). destruct (offset =? 0); [done|].
  rewrite !forallb_app, !appendInt_plain. by destruct (_ <? _).
Qed.

Lemma time_value offset t b : MarshalJSON offset t = Ok b → is_value b 0.
Proof.
  assert (Hv : is_value ([x22] ++ appendFormatRFC3339 offset t ++ [x22]) 0) by apply plain_value, RFC3339_plain.
  unfold MarshalJSON. destruct (negb _); [done|]. destruct (negb _); [done|]. by intros [= <-].
Qed.

(** ** Raw messages *)

(** The scanner of the message in an outer context: its own stack on top of
    [base]. A number may still be open where the message had white space. *)
Definition follows (base : list parse_state) (s t : scanner) : Prop :=
  scan_endTop t = false ∧
  if scan_endTop s then scan_stack t = base ∧ value_end (scan_step t) = true
  else scan_stack t = scan_stack s ++ base
       ∧ (scan_step t = scan_step s ∨ scan_step s = stateBeginValue ∧ is_begin (scan_step t) = true
          ∨ scan_step s = stateEndValue ∧ value_end (scan_step t) = true).

(** The deepest stack while scanning. *)
Fixpoint nesting (s : scanner) (src : bytes) : Z :=
  match src with
  | [] => 0
  | c :: rest =>
      match scan_byte s c with
      | Some s' => Z.max (Z.of_nat (length (scan_stack s'))) (nesting s' rest)
      | None => 0
      end
  end.

(** What is left of a literal is letters. *)
Definition letter (b : byte) : bool := between 97 122 b.
Definition literal_ok (s : scanner) : bool := match scan_step s with stateLit _ rest => forallb letter rest | _ => true end.

Lemma literal_goto f s s' : goto f s = Some s' → literal_ok (mkScanner f [] false) = true → literal_ok s' = true.
Proof. by intros [= <-]. Qed.

Lemma literal_EndValue s c s' : step_EndValue s c = Some s' → literal_ok s' = true.
Proof.
  unfold step_EndValue, step_EndTop, popParseState, goto. destruct (scan_stack s) as [|p ps]; [by case_match; intros; simplify_eq|].
  case_match; [by intros; simplify_eq|]. destruct p; repeat case_match; by intros; simplify_eq.
Qed.

Lemma literal_BeginValue s c s' : step_BeginValue s c = Some s' → literal_ok s' = true.
Proof.
  unfold step_BeginValue, pushParseState, goto.
  repeat match goal with |- (if ?b then _ else _) = _ → _ => destruct b end; intros H; by simplify_eq.
Qed.

Lemma literal_0 s c s' : step_0 s c = Some s' → literal_ok s' = true.
Proof.
  unfold step_0. destruct (bool_decide _); [by intros [= <-]|]. destruct (is_exp c); [by intros [= <-]|]. apply literal_EndValue.
Qed.

Lemma literal_ok_step s c s' : literal_ok s = true → scan_byte s c = Some s' → literal_ok s' = true.
Proof.
  intros Hl H. unfold scan_byte, step_BeginString, step_ESign, step_EndTop in H. destruct (scan_step s) eqn:Ef;
    repeat match type of H with (if ?b then _ else _) = _ => destruct b end; try done;
    try (by apply literal_goto in H); eauto using literal_EndValue, literal_BeginValue, literal_0.
  - by destruct n; apply literal_goto in H.
  - unfold literal_ok in Hl. rewrite Ef in Hl. destruct rest as [|x rest]; [done|]. destruct (bool_decide _); [|done].
    cbn in Hl. apply andb_true_iff in Hl as [_ Hl]. by destruct rest; apply literal_goto in H.
Qed.

(** Bytes the compacted text replaces. *)
Definition html (c : byte) : bool := bool_decide (c ∈ [x3c; x3e; x26]).

Lemma literal_step n rest st e c s' :
  forallb letter rest = true → scan_byte (mkScanner (stateLit n rest) st e) c = Some s' → letter c = true.
Proof.
  intros Hr E. cbn in E. destruct rest as [|x rest]; [done|]. case_bool_decide; [|done]. subst. cbn in Hr. by zbool.
Qed.

(** White space outside strings changes the scanner's state only at the end of
    a value. *)
Lemma space_step s c s' :
  scan_endTop s = false → literal_ok s = true → in_string s = false → json_space c = true → scan_byte s c = Some s' →
  s' = s ∨ value_end (scan_step s) = true ∧
    s' = match scan_stack s with [] => mkScanner stateEndTop [] true | st => mkScanner stateEndValue st false end.
Proof.
  destruct s as [f st e]. unfold literal_ok, in_string. cbn [scan_endTop scan_step scan_stack]. intros -> Hl Hi Hc E.
  assert (Hcs : c = x20 ∨ c = x09 ∨ c = x0d ∨ c = x0a).
  { unfold json_space in Hc. rewrite bool_decide_eq_true, !elem_of_cons, elem_of_nil in Hc. tauto. }
  destruct f as [| | | | | | | | | | | | | | | | |n rest]; try done;
    [..|apply literal_step in E; [|done]; by destruct Hcs as [-> |[-> |[-> | ->]]]];
    destruct Hcs as [-> |[-> |[-> | ->]]], st as [|[] st]; vm_compute in E; try discriminate E; injection E as <-; auto.
Qed.

(** White space is skipped without the outer scanner noticing. *)
Lemma follows_skip base s t c s' :
  follows base s t → scanner_ok s → literal_ok s = true → scan_byte s c = Some s' → json_space c = true →
  in_string s = false → follows base s' t.
Proof.
  intros [Ht H] Hok Hl E Hc Hi. destruct (scan_endTop s) eqn:He.
  - assert (scan_bytes s [c] = Some s) as Hs by (rewrite scan_end_spaces by done; cbn; by rewrite Hc).
    cbn in Hs. rewrite E in Hs. injection Hs as ->. split; [done|]. by rewrite He.
  - destruct H as [Hst Hf]. destruct (space_step _ _ _ He Hl Hi Hc E) as [-> |[Hv ->]]; [split; [done|]; by rewrite He|].
    assert (Hg : value_end (scan_step t) = true) by (destruct Hf as [-> |[[E1 ?]|[? ?]]]; [done|by rewrite E1 in Hv|done]).
    split; [done|]. destruct (scan_stack s); cbn; [done|]. auto.
Qed.

(** The state after an opening brace has the object on its stack. *)
Definition brace_ok (s : scanner) : Prop :=
  match scan_step s with stateBeginStringOrEmpty => scan_stack s ≠ [] | _ => True end.

Lemma brace_ok_step s c s' : brace_ok s → scan_byte s c = Some s' → brace_ok s'.
Proof.
  unfold brace_ok. intros Hb H. destruct (scan_step s') eqn:Es'; try done.
  unfold scan_byte, step_BeginValue, step_BeginString, step_0, step_ESign, step_EndValue, step_EndTop, pushParseState,
    popParseState, goto in H.
  destruct (scan_step s) eqn:Es;
    repeat match type of H with (if ?b then _ else _) = _ => destruct b end; try done;
    try (injection H as <-; cbn in *; congruence);
    repeat case_match; simplify_eq; cbn in *; congruence.
Qed.

(** What closes or separates acts on the message's own stack. *)
Lemma follows_EndValue base f g st c s' :
  base ≠ [] → json_space c = false → step_EndValue (mkScanner f st false) c = Some s' →
  c ∈ [x2c; x5d; x7d; x3a]
  ∧ ∃ t', step_EndValue (mkScanner g (st ++ base) false) c = Some t' ∧ follows base s' t'.
Proof.
  intros Hb Hc H. unfold step_EndValue, step_EndTop in *. cbn [scan_stack] in *. rewrite Hc in *.
  destruct st as [|p ps]; [done|]. cbn [app] in *. rewrite !elem_of_cons.
  assert (Hpop : ∀ q, popParseState (mkScanner f (q :: ps) false) = Some s' →
    ∃ t', popParseState (mkScanner g (q :: ps ++ base) false) = Some t' ∧ follows base s' t').
  { intros q. unfold popParseState. cbn [scan_stack]. destruct ps as [|p' ps]; cbn [app]; intros [= <-].
    - destruct base as [|b base]; [done|]. eexists. split; [done|]. by repeat split.
    - eexists. split; [done|]. split; [done|]. cbn. auto. }
  destruct p.
  - case_bool_decide; [|done]. injection H as <-. split; [tauto|]. eexists. split; [done|]. split; [done|]. cbn. auto.
  - case_bool_decide as Ec; [injection H as <-; split; [tauto|]; eexists; split; [done|]; split; [done|]; cbn; auto|].
    case_bool_decide; [|done]. split; [tauto|]. by apply Hpop.
  - case_bool_decide as Ec; [injection H as <-; split; [tauto|]; eexists; split; [done|]; split; [done|]; cbn; auto|].
    case_bool_decide; [|done]. split; [tauto|]. by apply Hpop.
Qed.

Lemma follows_goto base f f' st s' :
  goto f' (mkScanner f st false) = Some s' →
  ∃ t', goto f' (mkScanner f (st ++ base) false) = Some t' ∧ follows base s' t'.
Proof. intros [= <-]. eexists. split; [done|]. split; [done|]. cbn. auto. Qed.

Lemma follows_push base f' q st s' :
  Z.of_nat (length (scan_stack s')) + Z.of_nat (length base) <= maxNestingDepth →
  pushParseState f' q (mkScanner stateBeginValue st false) = Some s' →
  ∃ t', pushParseState f' q (mkScanner stateBeginValue (st ++ base) false) = Some t' ∧ follows base s' t'.
Proof.
  unfold pushParseState. cbn [scan_stack]. destruct (_ <? _); [|done]. intros Hl [= <-]. cbn [scan_stack length] in Hl.
  destruct (Z.ltb_spec (Z.of_nat (length (st ++ base))) maxNestingDepth) as [_|H]; [|rewrite length_app in H; lia].
  eexists. split; [done|]. split; [done|]. cbn. auto.
Qed.

Lemma follows_BeginValue base st c s' :
  Z.of_nat (length (scan_stack s')) + Z.of_nat (length base) <= maxNestingDepth →
  step_BeginValue (mkScanner stateBeginValue st false) c = Some s' →
  ∃ t', step_BeginValue (mkScanner stateBeginValue (st ++ base) false) c = Some t' ∧ follows base s' t'.
Proof.
  intros Hl. unfold step_BeginValue.
  repeat match goal with
  | |- (if ?b then _ else _) = _ → _ => destruct b; [first [apply follows_goto | by apply follows_push]|]
  end. done.
Qed.

(** Every other byte is taken in the outer context too. *)
Lemma follows_same base f st c s' :
  base ≠ [] → f ≠ stateEndTop → brace_ok (mkScanner f st false) → json_space c = false ∨ f = stateInString →
  Z.of_nat (length (scan_stack s')) + Z.of_nat (length base) <= maxNestingDepth →
  scan_byte (mkScanner f st false) c = Some s' →
  ∃ t', scan_byte (mkScanner f (st ++ base) false) c = Some t' ∧ follows base s' t'.
Proof.
  intros Hb Hf Hbr Hc Hl H.
  assert (Hend : ∀ g, json_space c = false → step_EndValue (mkScanner g st false) c = Some s' →
    ∃ t', step_EndValue (mkScanner g (st ++ base) false) c = Some t' ∧ follows base s' t').
  { intros g Hcs He. by eapply follows_EndValue in He as [_ He]. }
  unfold scan_byte, step_BeginString, step_0, step_ESign in *. cbn [scan_step scan_stack scan_endTop] in *.
  destruct f; try done; (destruct Hc as [Hc|Hc]; [|try discriminate Hc]); rewrite ?Hc in *;
    try (match type of H with step_BeginValue _ _ = _ => by apply follows_BeginValue end);
    repeat match type of H with
    | (if ?b then _ else _) = _ => destruct b; [first [done | by apply follows_goto | by apply Hend | idtac]|]
    end; try done; try (by apply follows_goto); try (by apply Hend).
  - by apply (follows_BeginValue base st).
  - unfold brace_ok in Hbr. cbn [scan_step scan_stack] in Hbr. destruct st as [|p st]; [done|].
    by apply (follows_EndValue base _ stateBeginStringOrEmpty (parseObjectValue :: st)) in H as [_ H].
  - destruct rest as [|x rest]; [done|]. destruct (bool_decide _); [|done]. by apply follows_goto.
Qed.

Lemma follows_byte base s t c s' :
  base ≠ [] → follows base s t → scanner_ok s → brace_ok s → json_space c && negb (in_string s) = false →
  Z.of_nat (length (scan_stack s')) + Z.of_nat (length base) <= maxNestingDepth →
  scan_byte s c = Some s' → ∃ t', scan_byte t c = Some t' ∧ follows base s' t'.
Proof.
  intros Hb [Ht H] Hok Hbr Hc Hl E. destruct s as [f st e], t as [g st' e']. cbn [scan_endTop scan_step scan_stack] in *. subst e'.
  unfold in_string in Hc. cbn [scan_step] in Hc. unfold scanner_ok in Hok. cbn [scan_endTop scan_step scan_stack] in Hok.
  destruct e.
  { destruct Hok as [-> ->]. cbn in E, Hc. unfold step_EndTop in E. destruct (json_space c); [|done]. by rewrite andb_true_r in Hc. }
  destruct H as [-> Hf].
  assert (Hsp : f ≠ stateInString → json_space c = false).
  { intros Hne. destruct (json_space c); [|done]. by destruct f. }
  assert (Hor : json_space c = false ∨ f = stateInString).
  { destruct f; try (left; apply Hsp; discriminate). by right. }
  destruct Hf as [-> |[[-> Hg]|[-> Hg]]]; [by eapply follows_same| |].
  - specialize (Hsp ltac:(done)). cbn [scan_byte scan_step] in E.
    assert (Hne : c ≠ x5d) by (intros ->; vm_compute in E; discriminate E).
    rewrite (begin_step g _ c Hg Hne Hsp). by apply (follows_BeginValue base st).
  - specialize (Hsp ltac:(done)). cbn [scan_byte scan_step] in E.
    destruct (follows_EndValue base stateEndValue g st c s' Hb Hsp E) as [Hin Hx]. by rewrite (value_end_step g _ c Hg Hin).
Qed.

(** Escapes stay inside a string. *)
Lemma follows_inside base s t : follows base s t → scanner_ok s → in_string s = true → t = inside (scan_stack s ++ base).
Proof.
  destruct s as [f st e], t as [g st' e']. unfold in_string, scanner_ok. intros [Ht H] Hok Hs.
  cbn [scan_endTop scan_step scan_stack] in *. subst e'. destruct f; try done. destruct e; [by destruct Hok|].
  destruct H as [-> [-> |[[? ?]|[? ?]]]]; done.
Qed.

Lemma html_step s c s' :
  html c = true → literal_ok s = true → scan_byte s c = Some s' → in_string s = true ∧ s' = s.
Proof.
  unfold html. rewrite bool_decide_eq_true, !elem_of_cons, elem_of_nil. intros Hc Hl E. destruct s as [f st e].
  unfold literal_ok in Hl. cbn [scan_step] in Hl.
  destruct f as [| | | | | | | | | | | | | | | | |n rest]; try (apply literal_step in E; [|done]; by destruct Hc as [-> |[-> |[-> |[]]]]);
    destruct Hc as [-> |[-> |[-> |[]]]]; destruct st as [|[] st], e; vm_compute in E; try discriminate E; by injection E as <-.
Qed.

Lemma high_step s c s' :
  c = xe2 → literal_ok s = true → scan_byte s c = Some s' → in_string s = true ∧ s' = s.
Proof.
  intros -> Hl E. destruct s as [f st e]. unfold literal_ok in Hl. cbn [scan_step] in Hl.
  destruct f as [| | | | | | | | | | | | | | | | |n rest]; try (by apply literal_step in E);
    destruct st as [|[] st], e; vm_compute in E; try discriminate E; by injection E as <-.
Qed.

Lemma in_string_plain s c s' :
  in_string s = true → plain_byte c = true → scan_byte s c = Some s' → s' = s.
Proof.
  destruct s as [f st e]. unfold in_string. cbn [scan_step]. intros Hf Hc E. destruct f; try done.
  destruct c; first [discriminate Hc|cbn in E; by injection E as <-].
Qed.

(** At the end of the message the outer scanner has read a value. *)
Lemma follows_eof base s t :
  follows base s t → scanner_ok s → literal_ok s = true → scan_eof s = true →
  scan_stack t = base ∧ scan_endTop t = false ∧ value_end (scan_step t) = true.
Proof.
  intros [Ht H] Hok Hl He. unfold scan_eof in He. destruct (scan_endTop s) eqn:Hs; [by destruct H|]. cbn [orb] in He.
  destruct (scan_byte s x20) as [s'|] eqn:E; [|done]. destruct (in_string s) eqn:Hi.
  { apply in_string_plain in E as ->; [|done..]. by rewrite Hs in He. }
  destruct (space_step s x20 s' Hs Hl Hi ltac:(reflexivity) E) as [-> |[Hv ->]]; [by rewrite Hs in He|]. destruct H as [Hst Hf].
  destruct (scan_stack s); [|done]. cbn [app] in Hst. split_and!; [done|done|].
  destruct Hf as [-> |[[E1 ?]|[? ?]]]; [done|by rewrite E1 in Hv|done].
Qed.

Lemma compact_value_from n base s t src out :
  (length src <= n)%nat → base ≠ [] → follows base s t → scanner_ok s → literal_ok s = true → brace_ok s →
  nesting s src + Z.of_nat (length base) <= maxNestingDepth → compact_from s src = Ok out →
  ∃ t', scan_bytes t out = Some t' ∧ scan_stack t' = base ∧ scan_endTop t' = false ∧ value_end (scan_step t') = true.
Proof.
  revert s t src out. induction n as [|n IH]; intros s t src out Hn Hb Hf Hok Hl Hbr Hd H.
  { destruct src; [|cbn in Hn; lia]. cbn in H. destruct (scan_eof s) eqn:He; [|done]. injection H as <-.
    exists t. split; [done|]. by eapply follows_eof. }
  destruct src as [|c rest]; [cbn in H; destruct (scan_eof s) eqn:He; [|done]; injection H as <-; exists t; split; [done|];
    by eapply follows_eof|].
  cbn [compact_from nesting length] in *. destruct (scan_byte s c) as [s1|] eqn:E; [|done].
  pose proof (scan_byte_ok _ _ _ Hok E) as Hok1. pose proof (literal_ok_step _ _ _ Hl E) as Hl1.
  pose proof (brace_ok_step _ _ _ Hbr E) as Hbr1.
  assert (Hgen : (out ← compact_from s1 rest; Ok (compact_byte s c ++ out)) = Ok out →
    ∃ t', scan_bytes t out = Some t' ∧ scan_stack t' = base ∧ scan_endTop t' = false ∧ value_end (scan_step t') = true).
  { clear H. intros (out' & Hout & [= <-])%res_bind_Ok.
    assert (Hstep : ∃ t1, scan_bytes t (compact_byte s c) = Some t1 ∧ follows base s1 t1).
    { unfold compact_byte. destruct (json_space c && negb (in_string s)) eqn:Hsp.
      - apply andb_true_iff in Hsp as [Hsp Hi%negb_true_iff]. exists t. split; [done|]. by eapply follows_skip.
      - change (bool_decide (c ∈ [x3c; x3e; x26])) with (html c). destruct (html c) eqn:Hh.
        + destruct (html_step _ _ _ Hh Hl E) as [Hi ->]. rewrite (follows_inside _ _ _ Hf Hok Hi).
          exists (inside (scan_stack s ++ base)). split; [|by rewrite <- (follows_inside _ _ _ Hf Hok Hi)].
          unfold html in Hh. rewrite bool_decide_eq_true, !elem_of_cons, elem_of_nil in Hh.
          by destruct Hh as [-> |[-> |[-> |[]]]].
        + destruct (follows_byte base s t c s1) as (t1 & E1 & F1); [done..|lia|done|]. exists t1. cbn. by rewrite E1. }
    destruct Hstep as (t1 & E1 & F1). rewrite scan_bytes_app, E1. cbn [mbind option_bind].
    eapply (IH s1 t1 rest out'); try done; lia. }
  destruct rest as [|xb [|xc rest2]]; [by apply Hgen|by apply Hgen|].
  destruct (bool_decide (c = xe2) && bool_decide (xb = x80) && bool_decide (xc ∈ [xa8; xa9])) eqn:Hsep; [|by apply Hgen].
  clear Hgen. apply andb_true_iff in Hsep as [[Hc Hx]%andb_true_iff Hy].
  apply bool_decide_eq_true in Hc, Hx, Hy. rewrite !elem_of_cons, elem_of_nil in Hy. subst c xb. destruct (high_step _ _ _ eq_refl Hl E) as [Hi ->].
  destruct (scan_byte s x80) as [s2|] eqn:E2; [|done]. apply in_string_plain in E2 as Es2; [|done..]. subst s2.
  destruct (scan_byte s xc) as [s3|] eqn:E3; [|done]. apply in_string_plain in E3 as Es3; [|done|].
  2:{ by destruct Hy as [-> |[-> |[]]]. }
  subst s3. apply res_bind_Ok in H as (out' & Hout & [= <-]). pose proof (follows_inside _ _ _ Hf Hok Hi) as ->.
  cbn [nesting] in Hd. rewrite E2, E3 in Hd.
  destruct (IH s (inside (scan_stack s ++ base)) rest2 out') as (t' & Ht' & Hrest); try done; [cbn in Hn; lia|lia|].
  exists t'. split; [|exact Hrest]. rewrite <- Ht'. by destruct Hy as [-> |[-> |[]]].
Qed.

Lemma raw_value src out : compact src = Ok out → is_value out (nesting start src).
Proof.
  intros H f st Hf Hst Hd.
  destruct (compact_value_from (length src) st start (mkScanner f st false) src out) as ([g st' e] & Hs & Hx & He & Hg);
    [done|done| |done|done|done|lia|exact H|].
  { split; [done|]. cbn. auto. }
  cbn in Hx, He, Hg. subst. by exists g.
Qed.

(** ** Arrays and objects *)

(** The scanner after a closing bracket. *)
Definition closed (st : list parse_state) : scanner :=
  match st with [] => mkScanner stateEndTop [] true | _ => mkScanner stateEndValue st false end.

Lemma pop_closed f p st : popParseState (mkScanner f (p :: st) false) = Some (closed st).
Proof. by destruct st. Qed.

Lemma array_items d st items f :
  Forall (λ b, is_value b d) items → items ≠ [] → is_begin f = true → Z.of_nat (length st) + 1 + d <= maxNestingDepth →
  scan_bytes (mkScanner f (parseArrayValue :: st) false) (commas items ++ [x5d]) = Some (closed st).
Proof.
  intros H. revert f. induction H as [|b items Hb Hitems IH]; intros f Hne Hf Hd; [done|].
  destruct (Hb f (parseArrayValue :: st) Hf ltac:(done) ltac:(cbn [length]; lia)) as (g & Hg & Hv).
  destruct items as [|b2 items]; cbn [commas]; rewrite <- ?app_assoc, scan_bytes_app, Hg; cbn [mbind option_bind app scan_bytes].
  - rewrite value_end_step by (done || by (rewrite !elem_of_cons; tauto)). unfold step_EndValue. cbn [scan_stack].
    change (json_space x5d) with false. change (bool_decide (x5d = x2c)) with false. change (bool_decide (x5d = x5d)) with true.
    cbv iota. by rewrite pop_closed.
  - rewrite value_end_step by (done || by (rewrite !elem_of_cons; tauto)). unfold step_EndValue. cbn [scan_stack].
    change (json_space x2c) with false. change (bool_decide (x2c = x2c)) with true. cbv iota. cbn [goto mbind option_bind scan_stack scan_endTop].
    by apply IH.
Qed.

Definition member_text (kb : string * bytes) : bytes := quote_json (bytes_of kb.1) ++ [x3a] ++ kb.2.

Lemma object_items d st items f :
  Forall (λ kb, is_value kb.2 d) items → items ≠ [] → key_state f = true → Z.of_nat (length st) + 1 + d <= maxNestingDepth →
  scan_bytes (mkScanner f (parseObjectKey :: st) false) (commas (map member_text items) ++ [x7d]) = Some (closed st).
Proof.
  intros H. revert f. induction H as [|[k b] items Hb Hitems IH]; intros f Hne Hf Hd; [done|].
  destruct (Hb stateBeginValue (parseObjectValue :: st) eq_refl ltac:(done) ltac:(cbn [length]; lia)) as (g & Hg & Hv).
  cbn [snd] in Hg. assert (Hk : ∀ w, scan_bytes (mkScanner f (parseObjectKey :: st) false) (member_text (k, b) ++ w)
               = scan_bytes (mkScanner g (parseObjectValue :: st) false) w).
  { intros w. unfold member_text. cbn [fst snd]. rewrite <- !app_assoc, scan_bytes_app, scan_quote by (by destruct f).
    change (mbind ?k (Some ?x)) with (k x). cbv beta. cbn [app scan_bytes].
    change (scan_byte (mkScanner stateEndValue (parseObjectKey :: st) false) x3a)
      with (Some (mkScanner stateBeginValue (parseObjectValue :: st) false)).
    cbn [mbind option_bind]. by rewrite scan_bytes_app, Hg. }
  destruct items as [|kb2 items]; cbn [map commas]; rewrite <- ?app_assoc, Hk; cbn [app scan_bytes].
  - rewrite value_end_step by (done || by (rewrite !elem_of_cons; tauto)). unfold step_EndValue. cbn [scan_stack].
    change (json_space x7d) with false. change (bool_decide (x7d = x2c)) with false. change (bool_decide (x7d = x7d)) with true.
    cbv iota. by rewrite pop_closed.
  - rewrite value_end_step by (done || by (rewrite !elem_of_cons; tauto)). unfold step_EndValue. cbn [scan_stack].
    change (json_space x2c) with false. change (bool_decide (x2c = x2c)) with true. cbv iota. cbn [mbind option_bind scan_endTop].
    by apply IH.
Qed.

(** ** Values *)

Section Values.
Context `{ZO : Zone}.

(** The levels a value adds. *)
Fixpoint depth (j : json) : Z :=
  match j with
  | JRaw b => nesting start b
  | JArray l => 1 + fold_right Z.max 0 (map depth l)
  | JObject l => 1 + fold_right Z.max 0 (map (λ kv, depth kv.2) l)
  | _ => 0
  end.

(** Induction on nested values. *)
Lemma json_induction (P : json → Prop) :
  (∀ s, P (JString s)) → (∀ z, P (JInt z)) → (∀ b, P (JBool b)) → (∀ f, P (JFloat f)) → (∀ l t, P (JTime l t)) → (∀ b, P (JRaw b)) →
  (∀ l, Forall P l → P (JArray l)) → (∀ l, Forall (λ kv, P kv.2) l → P (JObject l)) → ∀ j, P j.
Proof.
  intros HS HI HB HF HT HR HA HO. fix IH 1. intros [s|z|b|x|l t|b|l|l]; [apply HS|apply HI|apply HB|apply HF|apply HT|apply HR|..].
  - apply HA. induction l as [|x l IHl]; constructor; [apply IH|exact IHl].
  - apply HO. induction l as [|[k x] l IHl]; constructor; [apply IH|exact IHl].
Qed.

Lemma Marshal_array l b :
  Marshal (JArray l) = Ok b →
  ∃ items, Forall2 (λ x w, Marshal x = Ok w) l items ∧ b = [x5b] ++ commas items ++ [x5d].
Proof.
  cbn [Marshal]. intros (items & H & [= <-])%res_bind_Ok. exists items. split; [|done]. revert items H.
  induction l as [|x l IH]; intros items; [intros [= <-]; constructor|].
  intros (w & Hw & (ws & Hws & [= <-])%res_bind_Ok)%res_bind_Ok. constructor; [done|by apply IH].
Qed.

Lemma Marshal_object l b :
  Marshal (JObject l) = Ok b →
  ∃ items, Forall2 (λ kv kw, Marshal kv.2 = Ok kw.2) l items ∧ b = [x7b] ++ commas (map member_text items) ++ [x7d].
Proof.
  cbn [Marshal]. intros (texts & H & [= <-])%res_bind_Ok.
  assert (∃ items, Forall2 (λ kv kw, Marshal kv.2 = Ok kw.2) l items ∧ texts = map member_text items) as (items & Hi & ->);
    [|by exists items].
  revert texts H. induction l as [|[k x] l IH]; intros texts; [intros [= <-]; exists []; split; [constructor|done]|].
  intros (w & Hw & (ws & Hws & [= <-])%res_bind_Ok)%res_bind_Ok. destruct (IH _ Hws) as (items & Hi & ->).
  exists ((k, w) :: items). split; [by constructor|done].
Qed.

Lemma max_In d l : d ∈ l → d <= fold_right Z.max 0 l.
Proof. induction l as [|x l IH]; [by intros ?%elem_of_nil|]. cbn. rewrite elem_of_cons. intros [->|H%IH]; lia. Qed.

Lemma max_nonneg l : 0 <= fold_right Z.max 0 l.
Proof. induction l; cbn; lia. Qed.

(** The values of an array or an object, with the room of the deepest. *)
Lemma values_room {A B} (val : A → json) (text : B → bytes) l items :
  Forall (λ a, ∀ b, Marshal (val a) = Ok b → is_value b (depth (val a))) l →
  Forall2 (λ a b, Marshal (val a) = Ok (text b)) l items →
  Forall (λ b, is_value (text b) (fold_right Z.max 0 (map (λ a, depth (val a)) l))) items.
Proof.
  intros Hl H2. assert (H : Forall2 (λ a b, is_value (text b) (depth (val a))) l items).
  { induction H2 as [|a b l items Hab H2 IH]; [constructor|]. apply Forall_cons in Hl as [Ha Hl]. constructor; auto. }
  apply Forall_forall. intros b Hb. destruct (list_elem_of_lookup_1 _ _ Hb) as [i Hi].
  destruct (Forall2_lookup_r _ _ _ _ _ H Hi) as (a & Ha & Hv). eapply is_value_mono; [exact Hv|].
  apply max_In, list_elem_of_fmap. exists a. split; [done|]. by eapply list_elem_of_lookup_2.
Qed.

Lemma begin_push f st c q f' :
  is_begin f = true → c = x5b ∧ q = parseArrayValue ∧ f' = stateBeginValueOrEmpty
    ∨ c = x7b ∧ q = parseObjectKey ∧ f' = stateBeginStringOrEmpty →
  Z.of_nat (length st) + 1 <= maxNestingDepth → scan_byte (mkScanner f st false) c = Some (mkScanner f' (q :: st) false).
Proof.
  intros Hf Hc Hl. assert (E : scan_byte (mkScanner f st false) c = pushParseState f' q (mkScanner stateBeginValue st false)).
  { by destruct Hc as [(-> & -> & ->)|(-> & -> & ->)]; destruct f. }
  rewrite E. unfold pushParseState. cbn [scan_stack]. by rewrite (proj2 (Z.ltb_lt _ _)) by lia.
Qed.

(** An object anywhere, the outermost level included. *)
Lemma object_scans l b f st :
  Forall (λ kv, ∀ w, Marshal kv.2 = Ok w → is_value w (depth kv.2)) l → Marshal (JObject l) = Ok b →
  is_begin f = true → Z.of_nat (length st) + depth (JObject l) <= maxNestingDepth →
  scan_bytes (mkScanner f st false) b = Some (closed st).
Proof.
  intros Hl (items & Hi & ->)%Marshal_object Hf Hd. cbn [depth] in Hd.
  pose proof (max_nonneg (map (λ kv : string * json, depth kv.2) l)) as Hm. change ([x7b] ++ ?w) with (x7b :: w). cbn [scan_bytes].
  rewrite (begin_push f st x7b parseObjectKey stateBeginStringOrEmpty Hf) by (auto || lia). cbn [mbind option_bind].
  destruct items as [|kb items]; [cbn; by rewrite ?pop_closed; destruct st|].
  eapply object_items; [exact (values_room snd snd _ _ Hl Hi)|done|done|lia].
Qed.

Lemma Marshal_value j b : Marshal j = Ok b → is_value b (depth j).
Proof.
  revert b. induction j as [s|z|x|x|l t|src|l Hl|l Hl] using json_induction; intros b H.
  - injection H as <-. apply string_value.
  - injection H as <-. apply int_value.
  - injection H as <-. apply bool_value.
  - by eapply float_value.
  - by eapply time_value.
  - cbn in H. destruct (compact src) eqn:E; [|done]. injection H as <-. by apply raw_value.
  - apply Marshal_array in H as (items & Hi & ->). intros f st Hf Hst Hd. cbn [depth] in Hd.
    pose proof (max_nonneg (map depth l)) as Hm. exists stateEndValue. split; [|done].
    change ([x5b] ++ ?w) with (x5b :: w). cbn [scan_bytes].
    rewrite (begin_push f st x5b parseArrayValue stateBeginValueOrEmpty Hf) by (auto || lia). cbn [mbind option_bind].
    assert (Hc : closed st = mkScanner stateEndValue st false) by (by destruct st). rewrite <- Hc.
    destruct items as [|w items]; [cbn; by destruct st|].
    eapply array_items; [exact (values_room id id _ _ Hl Hi)|done|done|].
    change (λ a, depth (id a)) with depth. lia.
  - intros f st Hf Hst Hd. exists stateEndValue. split; [|done].
    rewrite (object_scans l b f st Hl H Hf Hd). by destruct st.
Qed.

(** A printed object is a valid JSON text, with or without a final newline. *)
Lemma Marshal_object_valid l b w :
  Marshal (JObject l) = Ok b → depth (JObject l) <= maxNestingDepth → forallb json_space w = true → json_Valid (b ++ w) = true.
Proof.
  intros H Hd Hw. unfold json_Valid. rewrite scan_bytes_app, (object_scans l b stateBeginValue []); [|..|exact H|done|exact Hd].
  - cbn [mbind option_bind closed]. by rewrite scan_end_spaces, Hw.
  - apply Forall_forall. intros kv _ x. apply Marshal_value.
Qed.

Lemma Encode_valid l b : Encode (JObject l) = Ok b → depth (JObject l) <= maxNestingDepth → json_Valid b = true.
Proof. intros (m & Hm & [= <-])%res_bind_Ok Hd. by apply (Marshal_object_valid l m [x0a] Hm Hd). Qed.

(** ** Values without a JSON form *)

(** The values inside a value that hold no others. *)
Fixpoint leaves (j : json) : list json :=
  match j with
  | JArray l => concat (map leaves l)
  | JObject l => concat (map (λ kv, leaves kv.2) l)
  | _ => [j]
  end.

(** A leaf the encoder refuses: a time out of range, a raw message that is no
    JSON text, or a number that is not finite. *)
Definition refused (part : json) : Prop :=
  match part with
  | JTime l t => is_ok (MarshalJSON (offset_of l t) t) = false
  | JRaw b => is_ok (compact b) = false
  | JFloat f => is_ok (FormatFloat f) = false
  | _ => False
  end.

Lemma Marshal_refused j e : Marshal j = Err e → Exists refused (leaves j).
Proof.
  revert e. induction j as [s|z|b|f|l t|b|l IH|l IH] using json_induction; intros e H; cbn [leaves]; try done.
  - left. cbn [refused]. cbn in H. by rewrite H.
  - left. cbn [refused]. cbn [Marshal] in H. by rewrite H.
  - left. cbn [refused]. cbn [Marshal] in H. by destruct (compact b).
  - cbn [Marshal] in H. match type of H with (?g _ ≫= _ = _) => destruct (g l) as [items|e'] eqn:E end; [done|]. clear H.
    revert E. induction IH as [|x l Hx _ IHl]; [done|]. cbn [map concat]. rewrite Exists_app.
    destruct (Marshal x) as [b|ex]; [|intros _; left; by eapply Hx]. cbn [mbind res_bind].
    match goal with |- (?g _ ≫= _ = _) → _ => destruct (g l) as [items|e''] end; [done|]. intros [= ->]. right. by apply IHl.
  - cbn [Marshal] in H. match type of H with (?g _ ≫= _ = _) => destruct (g l) as [items|e'] eqn:E end; [done|]. clear H.
    revert E. induction IH as [|[k x] l Hx _ IHl]; [done|]. cbn [map concat snd] in *. rewrite Exists_app.
    destruct (Marshal x) as [b|ex]; [|intros _; left; by eapply Hx]. cbn [mbind res_bind].
    match goal with |- (?g _ ≫= _ = _) → _ => destruct (g l) as [items|e''] end; [done|]. intros [= ->]. right. by apply IHl.
Qed.

(** The encoder fails on the leaves only. *)
Lemma Encode_refused j e : Encode j = Err e → Exists refused (leaves j).
Proof. unfold Encode. destruct (Marshal j) as [b|e'] eqn:E; [done|]. intros _. by eapply Marshal_refused. Qed.
End Values.
