(* ===== verification/JsonIndent.v ===== *)
(** * Indented JSON

    [json.Indent] and an [Encoder] with [SetIndent]: the text it makes is valid
    and differs from the compact one in white space outside strings alone. *)

From S2P Require Import Prelude GoErrors GoTime GoText GoStrings Float64 GoParse Json JsonEncode JsonDecode JsonTheorems JsonValid.

(** ** The code *)

Section Indent.
Variable indent : bytes.

Definition appendNewline (depth : nat) : bytes := x0a :: concat (repeat indent depth).

Definition closing (c : byte) : bool := bool_decide (c = x7d) || bool_decide (c = x5d).
Definition opening (c : byte) : bool := bool_decide (c = x7b) || bool_decide (c = x5b).

(** What is written for a byte outside strings, once the indentation that an
    opening bracket has put off is written; whether the next one is put off, and
    the new depth. *)
Definition indent_byte (need : bool) (depth : nat) (c : byte) : bytes * bool * nat :=
  if opening c then ([c], true, depth)
  else if bool_decide (c = x2c) then (c :: appendNewline depth, need, depth)
  else if bool_decide (c = x3a) then ([c; x20], need, depth)
  else if closing c then
    if need then ([c], false, depth) else (appendNewline (pred depth) ++ [c], need, pred depth)
  else ([c], need, depth).

(** [appendIndent], with an empty prefix. *)
Fixpoint indent_from (s : scanner) (need : bool) (depth : nat) (src : bytes) : res bytes :=
  match src with
  | [] => if scan_eof s then Ok [] else Err UnexpectedEnd
  | c :: rest =>
      match scan_byte s c with
      | None => Err (SyntaxError s c)
      | Some s' =>
          if in_string s then out ← indent_from s' need depth rest; Ok (c :: out)
          else if json_space c && negb (scan_endTop s') then indent_from s' need depth rest
          else
            let begins := need && negb (closing c) in
            let depth := if begins then S depth else depth in
            let '(text, need, depth') := indent_byte (need && negb begins) depth c in
            out ← indent_from s' need depth' rest;
            Ok ((if begins then appendNewline depth else []) ++ text ++ out)
      end
  end.

Definition Indent (src : bytes) : res bytes := indent_from (mkScanner stateBeginValue [] false) false 0 src.

(** [Encoder.Encode] after [SetIndent("", indent)]. *)
Definition EncodeIndent `{ZO : Zone} (j : json) : res bytes := b ← Marshal j; Indent (b ++ [x0a]).
End Indent.

Example Indent_tests :
  let two := bytes_of "  " in
  (match Indent two (single_quoted "{'a': [1,{}, [ ] ],'b,':'x : y'}" ++ [x0a]) with
   | Ok b => to_single b | Err e => error_text e end)
  = string_of (concat (map (λ l, bytes_of l ++ [x0a])
      ["{"; "  'a': ["; "    1,"; "    {},"; "    []"; "  ],"; "  'b,': 'x : y'"; "}"]%string)).
Proof. vm_compute. reflexivity. Qed.

(** ** White space outside strings *)

(** A text without it. *)
Fixpoint squeeze (s : scanner) (src : bytes) : bytes :=
  match src with
  | [] => []
  | c :: rest =>
      match scan_byte s c with
      | Some s' => (if json_space c && negb (in_string s) then [] else [c]) ++ squeeze s' rest
      | None => []
      end
  end.

Lemma squeeze_app s a b s' : scan_bytes s a = Some s' → squeeze s (a ++ b) = squeeze s a ++ squeeze s' b.
Proof.
  revert s. induction a as [|c a IH]; intros s; cbn [scan_bytes squeeze app]; [by intros [= ->]|].
  destruct (scan_byte s c) as [s1|]; [|done]. cbn [mbind option_bind]. intros H. by rewrite (IH _ H), app_assoc.
Qed.

(** The scanner of the indented text follows that of the source: it may not yet
    have seen the end of a value where the source has white space. *)
Definition tracks (s t : scanner) : Prop :=
  t = s ∨ scan_step s = stateEndValue ∧ scan_stack s ≠ [] ∧ scan_endTop s = false
          ∧ ∃ g, t = mkScanner g (scan_stack s) false ∧ value_end g = true.

(** The states after an opening bracket. *)
Definition just_open (s : scanner) : bool :=
  match scan_step s with stateBeginValueOrEmpty | stateBeginStringOrEmpty => true | _ => false end.

(** The states white space does not change. *)
Definition awaiting (f : step_fn) : bool :=
  match f with stateBeginValueOrEmpty | stateBeginStringOrEmpty | stateBeginValue | stateBeginString | stateEndValue => true | _ => false end.

(** Text the scanner passes over, and that leaves nothing when squeezed. *)
Definition quiet (w : bytes) (s s' : scanner) : Prop := scan_bytes s w = Some s' ∧ squeeze s w = [].

Lemma quiet_nil s : quiet [] s s.
Proof. done. Qed.

Lemma space_awaiting f st c : awaiting f = true → st ≠ [] → json_space c = true →
  scan_byte (mkScanner f st false) c = Some (mkScanner f st false) ∧ in_string (mkScanner f st false) = false.
Proof.
  intros Hf Hst Hc. destruct f; try done; (split; [|done]); unfold scan_byte, step_BeginValue, step_BeginString, step_EndValue; cbn [scan_step scan_stack];
    [by rewrite Hc..|]. destruct st; [done|]. by rewrite Hc.
Qed.

Lemma quiet_awaiting f st w : awaiting f = true → st ≠ [] → forallb json_space w = true →
  quiet w (mkScanner f st false) (mkScanner f st false).
Proof.
  intros Hf Hst. induction w as [|c w IH]; [done|]. cbn [forallb]. intros [Hc Hw]%andb_true_iff.
  destruct (space_awaiting f st c Hf Hst Hc) as [H1 H2]. destruct (IH Hw) as [H3 H4]. unfold quiet. cbn [scan_bytes squeeze].
  rewrite H1, H2, Hc. done.
Qed.

Lemma quiet_value_end g st w : value_end g = true → st ≠ [] → forallb json_space w = true → w ≠ [] →
  quiet w (mkScanner g st false) (mkScanner stateEndValue st false).
Proof.
  intros Hg Hst Hw Hne. destruct w as [|c w]; [done|]. cbn [forallb] in Hw. apply andb_true_iff in Hw as [Hc Hw].
  assert (E : scan_byte (mkScanner g st false) c = Some (mkScanner stateEndValue st false)).
  { assert (Hcs : c = x20 ∨ c = x09 ∨ c = x0d ∨ c = x0a) by (unfold json_space in Hc; rewrite bool_decide_eq_true, !elem_of_cons, elem_of_nil in Hc; tauto).
    destruct st as [|[] st]; [done|..]; destruct g; try done; by destruct Hcs as [-> |[-> |[-> | ->]]]. }
  destruct (quiet_awaiting stateEndValue st w eq_refl Hst Hw) as [H1 H2]. unfold quiet. cbn [scan_bytes squeeze]. rewrite E.
  cbn [mbind option_bind]. rewrite H1, H2, Hc. split; [done|]. by destruct g.
Qed.

Section Structure.
Variable s s' : scanner.
Variable c : byte.
Hypotheses (Hok : scanner_ok s) (Hlit : literal_ok s = true) (Hin : in_string s = false) (Hstep : scan_byte s c = Some s').

(** The structural bytes and the states around them. *)
Lemma after_opening : opening c = true → just_open s' = true ∧ scan_stack s' ≠ [] ∧ scan_endTop s' = false.
Proof.
  destruct s as [f st e]. unfold opening, scanner_ok, in_string, literal_ok in *. cbn [scan_step scan_stack scan_endTop] in *.
  intros Hc. assert (c = x7b ∨ c = x5b) as Hc' by (apply orb_true_iff in Hc as [H|H]; apply bool_decide_eq_true in H; auto).
  destruct e; [destruct Hok as [-> ->]; by destruct Hc' as [-> | ->]|]. clear Hc.
  assert (E : ∃ f' q, just_open (mkScanner f' [] false) = true ∧ pushParseState f' q (mkScanner f st false) = Some s').
  { destruct f as [| | | | | | | | | | | | | | | | |n rest]; try done;
      [..|apply literal_step in Hstep; [|done]; by destruct Hc' as [-> | ->]];
      destruct Hc' as [-> | ->];
      first [by exists stateBeginStringOrEmpty, parseObjectKey|by exists stateBeginValueOrEmpty, parseArrayValue
            |by destruct st as [|[] st]|by destruct n]. }
  destruct E as (f' & q & Hf & Hp). unfold pushParseState in Hp. destruct (_ <? _); [|done]. by injection Hp as <-.
Qed.

Lemma after_comma : c = x2c → ∃ f st, s' = mkScanner f st false ∧ (f = stateBeginString ∨ f = stateBeginValue) ∧ st ≠ [].
Proof.
  destruct s as [f st e]. unfold scanner_ok, in_string, literal_ok in *. cbn [scan_step scan_stack scan_endTop] in *. intros ->.
  destruct e; [by destruct Hok as [-> ->]|]. destruct f as [| | | | | | | | | | | | | | | | |n rest]; try done;
    [..|by apply literal_step in Hstep];
    destruct st as [|[] st]; try discriminate Hstep; try (destruct n; discriminate Hstep); injection Hstep as <-; eauto 10.
Qed.

Lemma after_colon : c = x3a → ∃ st, s' = mkScanner stateBeginValue st false ∧ st ≠ [].
Proof.
  destruct s as [f st e]. unfold scanner_ok, in_string, literal_ok in *. cbn [scan_step scan_stack scan_endTop] in *. intros ->.
  destruct e; [by destruct Hok as [-> ->]|]. destruct f as [| | | | | | | | | | | | | | | | |n rest]; try done;
    [..|by apply literal_step in Hstep];
    destruct st as [|[] st]; try discriminate Hstep; try (destruct n; discriminate Hstep); injection Hstep as <-; eauto 10.
Qed.

Lemma before_closing : closing c = true → just_open s = false →
  ∃ g st, s = mkScanner g st false ∧ value_end g = true ∧ st ≠ [].
Proof.
  destruct s as [f st e]. unfold closing, scanner_ok, in_string, literal_ok, just_open in *. cbn [scan_step scan_stack scan_endTop] in *.
  intros Hc Hj. assert (c = x7d ∨ c = x5d) as Hc' by (apply orb_true_iff in Hc as [H|H]; apply bool_decide_eq_true in H; auto).
  destruct e; [destruct Hok as [-> ->]; by destruct Hc' as [-> | ->]|].
  destruct f as [| | | | | | | | | | | | | | | | |n rest]; try done.
  all: try (apply literal_step in Hstep; [|done]; by destruct Hc' as [-> | ->]).
  all: destruct st as [|p st]; [destruct Hc' as [-> | ->]; try discriminate Hstep; try (destruct n; discriminate Hstep)|].
  all: try (eexists _, _; split; [reflexivity|done]).
  all: destruct Hc' as [-> | ->]; try discriminate Hstep; try (destruct n; discriminate Hstep).
Qed.

Lemma not_just_open : opening c = false → json_space c = false → just_open s' = false.
Proof.
  unfold opening, just_open. intros [H1 H2]%orb_false_iff Hs. destruct s as [f st e]. unfold in_string in *. cbn [scan_step] in *.
  unfold scan_byte, step_BeginValue, step_BeginString, step_0, step_ESign, step_EndValue, step_EndTop, popParseState, goto in Hstep.
  cbn [scan_step scan_stack scan_endTop] in Hstep. rewrite ?Hs, ?H1, ?H2 in Hstep.
  destruct f; cbn [scan_step] in *; try done;
    repeat match type of Hstep with (if ?b then _ else _) = _ => destruct b end; try discriminate Hstep; try (by injection Hstep as <-);
    repeat case_match; simplify_eq; done.
Qed.
End Structure.

Lemma endTop_stays s c s' : scanner_ok s → scan_byte s c = Some s' → scan_endTop s = true → scan_endTop s' = true.
Proof.
  destruct s as [f st e]. unfold scanner_ok. cbn [scan_endTop scan_step scan_stack]. intros Hok H ->. destruct Hok as [-> ->].
  cbn in H. unfold step_EndTop, goto in H. by destruct (json_space c); simplify_eq.
Qed.

(** What is not white space reaches the same state from both. *)
Lemma tracks_step s t c s' : tracks s t → scan_byte s c = Some s' → json_space c && negb (scan_endTop s') = false →
  scan_byte t c = Some s'.
Proof.
  intros [-> |(Hs & Hst & He & g & -> & Hg)] H Hc; [done|]. destruct s as [f st e]. cbn [scan_step scan_stack scan_endTop] in *. subst f e.
  cbn [scan_byte scan_step] in H. destruct st as [|p st]; [done|]. destruct (json_space c) eqn:Hsp.
  { unfold step_EndValue in H. cbn [scan_stack] in H. rewrite Hsp in H. injection H as <-. done. }
  assert (Hmem : c ∈ [x2c; x5d; x7d; x3a]).
  { unfold step_EndValue in H. cbn [scan_stack] in H. rewrite Hsp in H. rewrite !elem_of_cons.
    destruct p; repeat case_bool_decide; try done; tauto. }
  rewrite value_end_step by done. rewrite <- H. unfold step_EndValue. cbn [scan_stack]. by rewrite Hsp.
Qed.

Lemma tracks_in_string s t : tracks s t → in_string s = true → t = s.
Proof. intros [-> |(Hs & _)]; [done|]. unfold in_string. by rewrite Hs. Qed.

Lemma tracks_not_in_string s t : tracks s t → in_string s = false → in_string t = false.
Proof. intros [-> |(Hs & _ & _ & g & -> & Hg)]; [done|]. by destruct g. Qed.

Lemma tracks_open s t : tracks s t → just_open s = true → t = s.
Proof. intros [-> |(Hs & _)]; [done|]. unfold just_open. by rewrite Hs. Qed.

(** An opening bracket has put its indentation off. *)
Definition pending (s : scanner) (need : bool) : Prop :=
  just_open s = need ∧ (need = true → scan_stack s ≠ [] ∧ scan_endTop s = false).

(** The output from a state on does what the source does. *)
Definition mirrors (t : scanner) (out : bytes) (s : scanner) (src : bytes) : Prop :=
  ∃ t', scan_bytes t out = Some t' ∧ scan_eof t' = true ∧ squeeze t out = squeeze s src.

(** One byte of the source, with white space around it. *)
Lemma mirrors_byte t t1 s s1 s2 c pre post out rest :
  quiet pre t t1 → scan_byte t1 c = Some s1 → scan_byte s c = Some s1 → in_string t1 = in_string s → quiet post s1 s2 →
  mirrors s2 out s1 rest → mirrors t (pre ++ c :: post ++ out) s (c :: rest).
Proof.
  intros [H1 H2] Ht Hs Hi [H3 H4] (t' & H5 & H6 & H7). exists t'. split; [|split; [done|]].
  - rewrite scan_bytes_app, H1. cbn [mbind option_bind scan_bytes]. rewrite Ht. cbn [mbind option_bind]. rewrite scan_bytes_app, H3. exact H5.
  - rewrite (squeeze_app _ _ _ _ H1), H2. cbn [app squeeze]. rewrite Ht, Hs, Hi, (squeeze_app _ _ _ _ H3), H4, H7. done.
Qed.

Section Mirror.
Variable indent : bytes.
Hypothesis Hindent : forallb json_space indent = true.

Lemma newline_space d : forallb json_space (appendNewline indent d) = true ∧ appendNewline indent d ≠ [].
Proof.
  split; [|done]. unfold appendNewline. cbn [forallb]. induction d as [|d IH]; [done|]. cbn [repeat concat]. rewrite forallb_app, Hindent.
  exact IH.
Qed.

(** What is written for a byte: itself, with white space the scanners of the
    source and of the output agree on. *)
Definition written (text : bytes) (need : bool) (s t s1 : scanner) (c : byte) : Prop :=
  ∃ pre post t1, text = pre ++ c :: post ∧ quiet pre t t1 ∧ scan_byte t1 c = Some s1 ∧ in_string t1 = false
    ∧ quiet post s1 s1 ∧ pending s1 need.

(** White space of the source that is dropped. *)
Lemma space_tracks s t s1 c need :
  tracks s t → scanner_ok s → literal_ok s = true → in_string s = false → scan_byte s c = Some s1 →
  json_space c = true → scan_endTop s1 = false → pending s need → tracks s1 t ∧ pending s1 need.
Proof.
  intros Ht Hok Hlit Hin Hstep Hsp He Hp. assert (scan_endTop s = false) as Hes.
  { destruct (scan_endTop s) eqn:Hes; [|done]. by rewrite (endTop_stays _ _ _ Hok Hstep Hes) in He. }
  destruct (space_step s c s1 Hes Hlit Hin Hsp Hstep) as [-> |[Hv Hs1]]; [done|].
  destruct (scan_stack s) as [|p st] eqn:Hst; [by rewrite Hs1 in He|]. split.
  - right. subst s1. split_and!; [done|done|done|]. destruct Ht as [-> |(_ & _ & _ & g & -> & Hg)].
    + exists (scan_step s). cbn [scan_stack]. split; [|done]. destruct s as [f st' e]. cbn in *. by subst.
    + exists g. cbn [scan_stack]. by rewrite Hst.
  - destruct Hp as [Hj _]. subst s1. unfold pending, just_open in *. cbn [scan_step]. destruct s as [f st' e]. cbn in *. by destruct f; subst.
Qed.
Section Byte.
Variables s t s1 : scanner.
Variable c : byte.
Hypotheses (Ht : tracks s t) (Hok : scanner_ok s) (Hlit : literal_ok s = true) (Hin : in_string s = false)
  (Hstep : scan_byte s c = Some s1) (Hkept : json_space c && negb (scan_endTop s1) = false).

Lemma pending_done : opening c = false → pending s1 false.
Proof.
  intros Hc. split; [|discriminate]. destruct (json_space c) eqn:Hsp; [|by apply (not_just_open s s1 c)].
  cbn in Hkept. apply negb_false_iff in Hkept. pose proof (scan_byte_ok _ _ _ Hok Hstep) as Hok1. unfold scanner_ok in Hok1.
  rewrite Hkept in Hok1. destruct Hok1 as [H _]. unfold just_open. by rewrite H.
Qed.

(** A closing bracket on a line of its own. *)
Lemma closing_written d : closing c = true → just_open s = false → written (appendNewline indent d ++ [c]) false s t s1 c.
Proof.
  intros Hc Hj. destruct (before_closing s s1 c Hok Hlit Hin Hstep Hc Hj) as (g & st & Es & Hg & Hst).
  assert (∃ g', t = mkScanner g' st false ∧ value_end g' = true) as (g' & Et & Hg').
  { destruct Ht as [-> |(_ & _ & _ & g' & -> & Hg')]; [by exists g|]. exists g'. by rewrite Es. }
  destruct (newline_space d) as [Hs Hne]. exists (appendNewline indent d), [], (mkScanner stateEndValue st false).
  assert (Hmem : c ∈ [x2c; x5d; x7d; x3a]).
  { rewrite !elem_of_cons. apply orb_true_iff in Hc as [H|H]; apply bool_decide_eq_true in H; tauto. }
  split; [done|]. split; [rewrite Et; by apply quiet_value_end|]. split.
  - rewrite <- Hstep, Es, !value_end_step by done. unfold step_EndValue. cbn [scan_stack]. destruct st; [done|].
    assert (json_space c = false) as -> by (apply orb_true_iff in Hc as [H|H]; apply bool_decide_eq_true in H; by subst). done.
  - split; [done|]. split; [done|]. apply pending_done. unfold opening. apply orb_true_iff in Hc as [H|H]; apply bool_decide_eq_true in H; by subst.
Qed.

(** Any byte that does not close, after what is put off. *)
Lemma plain_written pre t1 d : closing c = false → quiet pre t t1 → scan_byte t1 c = Some s1 → in_string t1 = false →
  let '(text, need, _) := indent_byte indent false d c in written (pre ++ text) need s t s1 c.
Proof.
  intros Hc Hq Et Hi. unfold indent_byte. rewrite Hc. destruct (opening c) eqn:Hop.
  { destruct (after_opening s s1 c Hok Hlit Hin Hstep Hop) as (H1 & H2 & H3).
    by exists pre, [], t1. }
  pose proof (pending_done Hop) as Hp. destruct (bool_decide_reflect (c = x2c)) as [Ec|]; [|destruct (bool_decide_reflect (c = x3a)) as [Ec|]].
  - destruct (after_comma s s1 c Hok Hlit Hin Hstep Ec) as (f & st & -> & Hf & Hst). destruct (newline_space d) as [Hs _].
    exists pre, (appendNewline indent d), t1. split_and!; try done; apply quiet_awaiting; try done; by destruct Hf as [-> | ->].
  - destruct (after_colon s s1 c Hok Hlit Hin Hstep Ec) as (st & -> & Hst).
    exists pre, [x20], t1. split_and!; try done; by apply quiet_awaiting.
  - by exists pre, [], t1.
Qed.

Lemma byte_written need d : pending s need →
  let begins := need && negb (closing c) in
  let depth := if begins then S d else d in
  let '(text, need', _) := indent_byte indent (need && negb begins) depth c in
  written ((if begins then appendNewline indent depth else []) ++ text) need' s t s1 c.
Proof.
  intros [Hj Hn]. pose proof (tracks_step _ _ _ _ Ht Hstep Hkept) as Et. pose proof (tracks_not_in_string _ _ Ht Hin) as Hi.
  destruct need; cbn [andb]; cbv zeta; destruct (closing c) eqn:Hc; cbn [negb andb].
  - assert (opening c = false ∧ bool_decide (c = x2c) = false ∧ bool_decide (c = x3a) = false) as (H1 & H2 & H3).
    { unfold opening. apply orb_true_iff in Hc as [H|H]; apply bool_decide_eq_true in H; by subst. }
    unfold indent_byte. rewrite H1, H2, H3, Hc. exists [], [], t. split_and!; try done; by apply pending_done.
  - pose proof (tracks_open _ _ Ht Hj) as Ets. destruct (Hn eq_refl) as [Hst He]. destruct (newline_space (S d)) as [Hs _].
    apply plain_written with (t1 := s); [done| |by rewrite <- Ets|done]. rewrite Ets. destruct s as [f st e]. cbn [scan_stack scan_endTop] in *. subst e.
    apply quiet_awaiting; [|done|done]. unfold just_open in Hj. cbn in Hj. by destruct f.
  - assert (opening c = false ∧ bool_decide (c = x2c) = false ∧ bool_decide (c = x3a) = false) as (H1 & H2 & H3).
    { unfold opening. apply orb_true_iff in Hc as [H|H]; apply bool_decide_eq_true in H; by subst. }
    unfold indent_byte. rewrite H1, H2, H3, Hc. by apply closing_written.
  - by apply plain_written with (t1 := t).
Qed.

End Byte.

Lemma string_byte s c s1 need : in_string s = true → scan_byte s c = Some s1 → pending s need → pending s1 need.
Proof.
  intros Hin E [Hj _]. unfold pending, just_open, in_string in *. destruct s as [f st e]. cbn [scan_step] in *. destruct f; try done. subst need.
  cbn in E. repeat case_match; unfold goto in E; by simplify_eq.
Qed.

Lemma indent_mirrors s need d src out t :
  indent_from indent s need d src = Ok out → tracks s t → scanner_ok s → literal_ok s = true → pending s need →
  mirrors t out s src.
Proof.
  revert s need d out t. induction src as [|c rest IH]; intros s need d out t H Ht Hok Hlit Hp.
  - cbn in H. destruct (scan_eof s) eqn:He; [|done]. injection H as <-. exists t. split; [done|].
    destruct Ht as [-> |(Hs & Hst & Hend & _)]; [done|]. exfalso. unfold scan_eof in He. rewrite Hend in He.
    destruct s as [f st e]. cbn in *. subst. by destruct st.
  - cbn [indent_from] in H. destruct (scan_byte s c) as [s1|] eqn:E; [|done].
    pose proof (scan_byte_ok _ _ _ Hok E) as Hok1. pose proof (literal_ok_step _ _ _ Hlit E) as Hlit1.
    destruct (in_string s) eqn:Hin.
    { apply res_bind_Ok in H as (out' & Hout & [= <-]). pose proof (tracks_in_string _ _ Ht Hin) as ->.
      apply (mirrors_byte s s s s1 s1 c [] [] out' rest); try done. apply (IH s1 need d); try done; [by left|by eapply string_byte]. }
    destruct (json_space c && negb (scan_endTop s1)) eqn:Hsp.
    { apply andb_true_iff in Hsp as [Hsp He%negb_true_iff]. destruct (space_tracks s t s1 c need Ht Hok Hlit Hin E Hsp He Hp) as [Ht1 Hp1].
      destruct (IH s1 need d out t H Ht1 Hok1 Hlit1 Hp1) as (t2 & H1 & H2 & H3). exists t2. split_and!; [done|done|].
      rewrite H3. cbn [squeeze]. by rewrite E, Hin, Hsp. }
    pose proof (byte_written s t s1 c Ht Hok Hlit Hin E Hsp need d Hp) as Hw. cbv zeta in Hw, H.
    destruct (indent_byte _ _ _ c) as [[text need'] d']. apply res_bind_Ok in H as (out' & Hout & [= <-]).
    destruct Hw as (pre & post & t1 & Etext & Hq1 & Hc & Hi & Hq2 & Hp1). rewrite app_assoc, Etext, <- app_assoc. cbn [app].
    eapply mirrors_byte; [exact Hq1|exact Hc|exact E|by rewrite Hi, Hin|exact Hq2|]. apply (IH s1 need' d'); try done; by left.
Qed.

(** Indented text is valid, and what it was made from but for white space. *)
Lemma Indent_spec src out : Indent indent src = Ok out → json_Valid out = true ∧ squeeze start out = squeeze start src.
Proof.
  intros H. destruct (indent_mirrors start false 0 src out start H) as (t' & H1 & H2 & H3); [by left|done|done|done|].
  split; [|done]. unfold json_Valid. fold start. by rewrite H1.
Qed.

(** A valid text can be indented. *)
Lemma indent_total s need d src s' : scan_bytes s src = Some s' → scan_eof s' = true → is_ok (indent_from indent s need d src) = true.
Proof.
  revert s need d. induction src as [|c rest IH]; intros s need d; cbn [scan_bytes indent_from].
  - intros [= <-] ->. done.
  - destruct (scan_byte s c) as [s1|]; [|done]. cbn [mbind option_bind]. intros H He.
    destruct (in_string s); [|destruct (json_space c && _); [by apply IH|]].
    + specialize (IH s1 need d H He). destruct (indent_from _ _ _ _ rest); [done|discriminate IH].
    + destruct (indent_byte _ _ _ c) as [[text need'] d']. specialize (IH s1 need' d' H He).
      destruct (indent_from _ _ _ _ rest); [done|discriminate IH].
Qed.

(** A printed object, indented, is one valid text. *)
Lemma EncodeIndent_object `{ZO : Zone} l b : Marshal (JObject l) = Ok b → depth (JObject l) <= maxNestingDepth →
  ∃ out, EncodeIndent indent (JObject l) = Ok out ∧ json_Valid out = true ∧ squeeze start out = squeeze start (b ++ [x0a]).
Proof.
  intros Hb Hd. unfold EncodeIndent. rewrite Hb. cbn [mbind res_bind].
  pose proof (Marshal_object_valid l b [x0a] Hb Hd eq_refl) as Hv. unfold json_Valid in Hv. fold start in Hv.
  destruct (scan_bytes start (b ++ [x0a])) as [s'|] eqn:Es; [|done]. pose proof (indent_total start false 0 _ _ Es Hv) as Ho.
  destruct (Indent indent (b ++ [x0a])) as [out|e] eqn:Ei; [|unfold Indent in Ei; fold start in Ei; by rewrite Ei in Ho].
  exists out. split; [done|]. by apply Indent_spec.
Qed.
End Mirror.
