(* ===== verification/Delivery.v ===== *)
(** * Package delivery: the data model, outcome evaluation and retry policy

    [src/internal/delivery/model.go] and [policy.go]. The service of
    [management.go] is in [Services.v]. *)

From S2P Require Import Prelude GoErrors GoTime GoText Float64.

(** ** model.go *)

Inductive Status : Type :=
  | StatusPending
  | StatusProcessing
  | StatusRetrying
  | StatusSucceeded
  | StatusDead.

#[export] Instance Status_eq_dec : EqDecision Status.
Proof. solve_decision. Defined.

(** The text the column and the API carry. *)
Definition Status_string (s : Status) : string :=
  match s with
  | StatusPending => "pending"
  | StatusProcessing => "processing"
  | StatusRetrying => "retrying"
  | StatusSucceeded => "succeeded"
  | StatusDead => "dead"
  end.

Record Endpoint : Type := mkEndpoint {
  Endpoint_ID : string;
  Endpoint_Name : string;
  Endpoint_URL : string;
  Endpoint_SecretCiphertext : bytes;
  Endpoint_Timeout : Duration;
  Endpoint_MaxAttempts : Z;
  Endpoint_ConsecutiveFailures : Z;
  Endpoint_DisabledAt : option Time;
  Endpoint_CircuitOpenUntil : option Time;
  Endpoint_CreatedAt : Time;
  Endpoint_UpdatedAt : Time;
}.

Record Event : Type := mkEvent {
  Event_ID : string;
  Event_EndpointID : string;
  Event_Type : string;
  Event_Payload : bytes;
  Event_IdempotencyKey : string;
  Event_CreatedAt : Time;
}.

Record Delivery : Type := mkDelivery {
  Delivery_ID : string;
  Delivery_EventID : string;
  Delivery_EndpointID : string;
  Delivery_Status : Status;
  Delivery_AttemptCount : Z;
  Delivery_MaxAttempts : Z;
  Delivery_NextAttemptAt : Time;
  Delivery_LockedBy : string;
  Delivery_LeaseToken : string;
  Delivery_LockedAt : option Time;
  Delivery_LockedUntil : option Time;
  Delivery_LastStatusCode : option Z;
  Delivery_LastError : string;
  Delivery_LastCompletedAt : option Time;
  Delivery_CreatedAt : Time;
  Delivery_UpdatedAt : Time;
}.

Record Attempt : Type := mkAttempt {
  Attempt_ID : string;
  Attempt_DeliveryID : string;
  Attempt_Number : Z;
  Attempt_StatusCode : option Z;
  Attempt_ResponseBody : string;
  Attempt_ErrorMessage : string;
  Attempt_Duration : Duration;
  Attempt_StartedAt : Time;
  Attempt_CompletedAt : Time;
}.

Definition Final (s : Status) : bool :=
  bool_decide (s = StatusSucceeded) || bool_decide (s = StatusDead).

Definition CanTransition (s next : Status) : bool :=
  match s with
  | StatusPending | StatusRetrying => bool_decide (next = StatusProcessing)
  | StatusProcessing =>
      bool_decide (next = StatusSucceeded) || bool_decide (next = StatusRetrying)
      || bool_decide (next = StatusDead)
  | StatusDead => bool_decide (next = StatusPending)
  | _ => false
  end.

(** ** policy.go *)

(** [Decision] is a string type with three named values; [DecisionOther] is
    any other string, which [validateAttemptResult] refuses. *)
Inductive Decision : Type :=
  | DecisionSucceed
  | DecisionRetry
  | DecisionDiscard
  | DecisionOther (s : string).

#[export] Instance Decision_eq_dec : EqDecision Decision.
Proof. solve_decision. Defined.

Definition Decision_string (d : Decision) : string :=
  match d with
  | DecisionSucceed => "succeed"
  | DecisionRetry => "retry"
  | DecisionDiscard => "discard"
  | DecisionOther s => s
  end.

Record RetryPolicy : Type := mkRetryPolicy {
  policy_base : Duration;
  policy_max : Duration;
  policy_jitter : float64;
}.

Definition NewRetryPolicy (base max : Duration) (jitter : float64) : res RetryPolicy :=
  if base <=? 0 then Err (New "base delay must be positive")
  else if max <? base then Err (New "max delay must not be less than base delay")
  else if flt jitter f_zero || flt f_one jitter then Err (New "jitter must be between 0 and 1")
  else Ok (mkRetryPolicy base max jitter).

(** The doubling loop of [NextDelay]: [n] iterations are left. *)
Fixpoint backoff_loop (n : nat) (max delay : Duration) : Duration :=
  match n with
  | O => delay
  | S n' => if Z.quot max 2 <=? delay then max else backoff_loop n' max (wrap64 (delay * 2))
  end.

(** What the Go specification leaves to the target: whether [x*y + z] is
    fused, and the conversion of a float that does not fit in an [int64]. *)
Class GoTarget := {
  fuses : bool;
  int64_out_of_range : float64 → Z;
}.

Section NextDelay.
Context {Target : GoTarget}.

Definition clamp_sample (sample : float64) : float64 :=
  let sample := if flt sample f_zero then f_zero else sample in
  if flt f_one sample then f_one else sample.

(** [1 + (sample*2-1)*jitter]. *)
Definition jitter_factor (jitter sample : float64) : float64 :=
  let x := fsub (fmul sample f_two) f_one in
  if fuses then fma x jitter f_one else fadd f_one (fmul x jitter).

Definition backoff (p : RetryPolicy) (attempt : Z) : Duration :=
  let attempt := if attempt <? 1 then 1 else attempt in
  let delay := backoff_loop (Z.to_nat (attempt - 1)) (policy_max p) (policy_base p) in
  if policy_max p <? delay then policy_max p else delay.

Definition NextDelay (p : RetryPolicy) (attempt : Z) (sample : float64) : Duration :=
  let delay := backoff p attempt in
  let factor := jitter_factor (policy_jitter p) (clamp_sample sample) in
  let result := to_int64 int64_out_of_range (fmul (of_int delay) factor) in
  if policy_max p <? result then policy_max p else result.
End NextDelay.

Definition Evaluate (statusCode : Z) (requestErr : option error) : Decision :=
  match requestErr with
  | Some _ => DecisionRetry
  | None =>
      if (200 <=? statusCode) && (statusCode <? 300) then DecisionSucceed
      else if (statusCode =? 408) || (statusCode =? 425) || (statusCode =? 429) || (500 <=? statusCode)
      then DecisionRetry
      else DecisionDiscard
  end.

Definition ValidateMaxAttempts (attempts : Z) : res unit :=
  if (attempts <? 1) || (100 <? attempts) then Err (New "max attempts must be between 1 and 100")
  else Ok tt.

(** ** The state machine *)

(** A path of permitted transitions. *)
Definition transitions : Status → Status → Prop := rtc (λ s t : Status, CanTransition s t = true).

Lemma transitions_step (s t : Status) : CanTransition s t = true → transitions s t.
Proof. intros H. by eapply rtc_l; [exact H|]. Qed.

Lemma transitions_succeeded (t : Status) : transitions StatusSucceeded t → t = StatusSucceeded.
Proof.
  intros H. remember StatusSucceeded as s eqn:E. induction H as [|s' u t Hstep H IH]; [done|].
  subst. discriminate Hstep.
Qed.

#[export] Hint Resolve transitions_step : relay.

(** ** Backoff *)

Lemma quot_2_half (max : Z) : 0 < max → 2 * Z.quot max 2 <= max ∧ max <= 2 * Z.quot max 2 + 1.
Proof.
  intros. rewrite Z.quot_div_nonneg by lia.
  pose proof (Z.div_mod max 2). pose proof (Z.mod_pos_bound max 2). lia.
Qed.

(** The loop computes [delay * 2^n] capped at [max]; when it would reach
    [max - 1], which only an odd [max] allows, it is already at the cap. *)
Lemma backoff_loop_exact (n : nat) (max delay : Z) :
  0 < delay <= max → max <= MaxInt64 →
  backoff_loop n max delay =
    if (0 <? n)%nat && (delay * 2 ^ Z.of_nat n =? max - 1) then max else Z.min (delay * 2 ^ Z.of_nat n) max.
Proof.
  revert delay. induction n as [|n IH]; intros delay Hd Hmax; cbn [backoff_loop].
  { change (2 ^ Z.of_nat 0) with 1. cbn [Nat.ltb Nat.leb andb]. lia. }
  pose proof (quot_2_half max) as Hq.
  assert (2 ^ Z.of_nat (S n) = 2 * 2 ^ Z.of_nat n) as -> by (rewrite Nat2Z.inj_succ, Z.pow_succ_r; lia).
  assert (1 <= 2 ^ Z.of_nat n) by (apply pow_pos; lia). change (0 <? S n)%nat with true. cbn [andb].
  destruct (Z.leb_spec (Z.quot max 2) delay) as [Hle|Hgt].
  - assert (max - 1 <= delay * (2 * 2 ^ Z.of_nat n)) by nia.
    destruct (Z.eqb_spec (delay * (2 * 2 ^ Z.of_nat n)) (max - 1)); lia.
  - rewrite wrap64_id by (unfold in_int64, MinInt64, MaxInt64 in *; lia). rewrite IH by lia.
    replace (delay * (2 * 2 ^ Z.of_nat n)) with (delay * 2 * 2 ^ Z.of_nat n) by lia.
    destruct n as [|n]; [|done]. change (2 ^ Z.of_nat 0) with 1. rewrite (proj2 (Z.eqb_neq _ _)) by lia. done.
Qed.

Lemma backoff_loop_spec (n : nat) (max delay : Z) :
  0 < delay <= max → max <= MaxInt64 →
  Z.min (delay * 2 ^ Z.of_nat n) max <= backoff_loop n max delay <= max.
Proof.
  intros Hd Hm. rewrite backoff_loop_exact by done.
  destruct (_ && _) eqn:E; [|lia]. zbool. lia.
Qed.

Lemma backoff_range (p : RetryPolicy) (attempt : Z) :
  0 < policy_base p <= policy_max p → policy_max p <= MaxInt64 →
  policy_base p <= backoff p attempt <= policy_max p.
Proof.
  intros Hb Hm. unfold backoff. cbn zeta.
  set (n := Z.to_nat _). pose proof (backoff_loop_spec n _ _ Hb Hm) as H.
  assert (1 <= 2 ^ Z.of_nat n) by (apply pow_pos; lia).
  destruct (Z.ltb_spec (policy_max p) (backoff_loop n (policy_max p) (policy_base p))); nia.
Qed.

(** ** Jitter *)

(** A policy as [NewRetryPolicy] returns it for a jitter that is a number, of
    at most [2^-d]. *)
Definition jitter_le (d : Z) (j : float64) : Prop :=
  ∃ m e, j = Fin m e ∧ 0 <= m ∧ abs_le (- d) m e.

Lemma flt_not_below_zero (m e : Z) : flt (Fin m e) f_zero = false → 0 <= m.
Proof.
  cbn [flt f_zero]. rewrite Z.mul_0_l. intros H%Z.ltb_ge.
  pose proof (pow_pos (e - Z.min e 0)). nia.
Qed.

Lemma flt_pow (d m e : Z) : 0 <= d →
  0 <= m → flt (Fin 1 (- d)) (Fin m e) = false → abs_le (- d) m e.
Proof.
  intros Hd Hm. cbn [flt]. rewrite Z.mul_1_l. intros H%Z.ltb_ge.
  unfold abs_le. rewrite Z.abs_eq by done.
  destruct (Z_lt_le_dec (- d) e) as [Hlt|Hle].
  - rewrite Z.min_l in H by lia. rewrite Z.sub_diag in H. change (2 ^ 0) with 1 in H.
    pose proof (pow_pos (e - - d)).
    assert (2 ^ 1 <= 2 ^ (e - - d)) by (apply Z.pow_le_mono_r; lia).
    rewrite Z.pow_neg_r by lia. nia.
  - rewrite Z.min_r in H by lia. rewrite Z.sub_diag in H. change (2 ^ 0) with 1 in H. lia.
Qed.

Lemma clamp_sample_range (s : float64) : s ≠ NaN →
  ∃ m e, clamp_sample s = Fin m e ∧ 0 <= m ∧ abs_le 0 m e.
Proof.
  intros Hs. unfold clamp_sample. cbn zeta.
  assert (flt f_one f_zero = false) as E0 by done.
  destruct (flt s f_zero) eqn:E1.
  { rewrite E0. exists 0, 0. by repeat split. }
  destruct (flt f_one s) eqn:E2.
  { exists 1, 0. by repeat split. }
  destruct s as [m e|[]|]; [|done|done|done].
  exists m, e. split; [done|]. apply flt_not_below_zero in E1. split; [done|].
  apply (flt_pow 0); done.
Qed.

Lemma exact_sub_one (m e : Z) : 0 <= m → abs_le 1 m e →
  let '(m', e') := exact_add m e (-1) 0 in abs_le 0 m' e'.
Proof.
  intros Hm H. unfold exact_add.
  destruct (Z_lt_le_dec 1 e) as [Hp|Hp].
  { rewrite (abs_le_zero _ _ _ Hp H), Z.mul_0_l, Z.add_0_l. unfold abs_le.
    pose proof (pow_pos (0 - Z.min e 0)). lia. }
  unfold abs_le in *. rewrite Z.abs_eq in H by done.
  destruct (Z.eq_dec e 1) as [->|].
  { change (Z.min 1 0) with 0. change (2 ^ (1 - 0)) with 2. change (2 ^ (0 - 0)) with 1.
    change (2 ^ (1 - 1)) with 1 in H. lia. }
  rewrite Z.min_l by lia. rewrite Z.sub_diag, Z.mul_1_r. change (2 ^ 0) with 1.
  assert (2 ^ (1 - e) = 2 * 2 ^ (0 - e)) as E.
  { replace (1 - e) with (1 + (0 - e)) by lia. rewrite Z.pow_add_r; lia. }
  lia.
Qed.

(** The centred sample [2 s - 1] lies in [[-1, 1]] after both roundings. *)
Lemma centred_sample (m e : Z) : 0 <= m → abs_le 0 m e →
  ∃ m' e', fsub (fmul (Fin m e) f_two) f_one = Fin m' e' ∧ abs_le 0 m' e'.
Proof.
  intros Hm H.
  destruct (fmul_abs_le 0 1 m e 2 0) as (m2 & e2 & E2 & H2 & Hpos); [lia|done|unfold abs_le; cbn; lia|].
  unfold f_two. rewrite E2. unfold fsub, fopp, f_one. cbn [fadd].
  pose proof (exact_sub_one m2 e2 ltac:(apply Hpos; lia) H2) as H3.
  change (Z.opp 1) with (-1) in *.
  destruct (exact_add m2 e2 (-1) 0) as [m3 e3].
  destruct (round64_abs_le 0 m3 e3) as (m4 & e4 & E4 & H4 & _); [lia|done|]. eauto.
Qed.

Lemma exact_add_comm (m1 e1 m2 e2 : Z) : exact_add m1 e1 m2 e2 = exact_add m2 e2 m1 e1.
Proof. unfold exact_add. rewrite Z.min_comm. f_equal. apply Z.add_comm. Qed.

(** The factor lies in [[0, 2]], and is at least a half when the jitter is at
    most a half; fused or not. *)
Lemma jitter_factor_range `{GoTarget} (d : Z) (j s : float64) :
  0 <= d <= 1 → jitter_le d j → s ≠ NaN →
  ∃ m e, jitter_factor j (clamp_sample s) = Fin m e ∧ 0 <= m ∧ abs_le 1 m e
         ∧ (1 <= d → ge_pow (-1) m e).
Proof.
  intros Hd (mj & ej & -> & Hmj & Hj) Hs.
  destruct (clamp_sample_range s Hs) as (ms & es & Es & Hms & Hle).
  destruct (centred_sample ms es Hms Hle) as (mx & ex & Ex & Hx).
  unfold jitter_factor. rewrite Es, Ex. cbn zeta.
  assert (∃ my ey, (if fuses then fma (Fin mx ex) (Fin mj ej) f_one
            else fadd f_one (fmul (Fin mx ex) (Fin mj ej))) = fadd f_one (Fin my ey)
          ∧ abs_le (- d) my ey) as (my & ey & -> & Hy).
  { destruct fuses.
    - exists (mx * mj), (ex + ej). split.
      + cbn [fma fadd f_one]. rewrite exact_add_comm. done.
      + replace (- d) with (0 + - d) by lia. by apply abs_le_mul.
    - destruct (fmul_abs_le 0 (- d) mx ex mj ej) as (my & ey & -> & Hy & _); [lia|done|done|].
      exists my, ey. split; [done|]. by replace (- d) with (0 + - d) by lia. }
  cbn [fadd f_one].
  pose proof (exact_add_one d my ey ltac:(lia) Hy) as H1.
  destruct (exact_add 1 0 my ey) as [m e]. destruct H1 as (Hm & Hle1 & Hge).
  destruct (round64_abs_le 1 m e) as (m' & e' & E' & Hle' & Hpos); [lia|done|].
  exists m', e'. split; [done|]. split; [by apply Hpos|]. split; [done|].
  intros Hd1. apply (round64_ge (-1) 1 m e); auto; lia.
Qed.

(** The longest maximum delay for which no conversion can overflow: about 73
    years. *)
Definition max_safe_delay : Z := 2 ^ 61.

Lemma abs_le_int (p z : Z) : 0 <= z <= 2 ^ p → abs_le p z 0.
Proof. unfold abs_le. rewrite Z.sub_0_r. lia. Qed.

(** The scaled delay before the final cap. *)
Lemma scaled_delay `{GoTarget} (d : Z) (p : RetryPolicy) (delay : Z) (s : float64) :
  0 <= d <= 1 → jitter_le d (policy_jitter p) → s ≠ NaN → 0 <= delay <= max_safe_delay →
  let r := to_int64 int64_out_of_range
             (fmul (of_int delay) (jitter_factor (policy_jitter p) (clamp_sample s))) in
  0 <= r ∧ (1 <= d → 2 <= delay → 1 <= r).
Proof.
  intros Hd Hj Hs Hdelay.
  destruct (jitter_factor_range d _ s Hd Hj Hs) as (mf & ef & -> & Hmf & Hf & Hge).
  destruct (round64_abs_le 61 delay 0) as (mi & ei & Ei & Hi & Hipos);
    [lia|by apply abs_le_int|]. unfold of_int. rewrite Ei.
  destruct (fmul_abs_le 61 1 mi ei mf ef) as (m & e & E & Hle & Hpos); [lia|done|done|].
  rewrite E. cbn [to_int64].
  assert (0 <= m) as Hm by (apply Hpos; specialize (Hipos ltac:(lia)); nia).
  pose proof (ftrunc_bounds 62 m e ltac:(lia) Hm Hle) as Ht.
  destruct (Z.leb_spec MinInt64 (ftrunc m e)); [|unfold MinInt64 in *; lia].
  destruct (Z.leb_spec (ftrunc m e) MaxInt64); [|unfold MaxInt64 in *; lia].
  cbn [andb]. split; [lia|]. intros Hd1 H2.
  apply ftrunc_ge_one.
  assert (ge_pow 1 mi ei) as Hgi.
  { apply (round64_ge 1 61 delay 0); [lia|lia|by apply abs_le_int|split; [lia|]|done].
    change (2 ^ (1 - 0)) with 2. lia. }
  cbn [fmul] in E. apply (round64_ge 0 62 (mi * mf) (ei + ef)); [lia|lia| | |done].
  - change 62 with (61 + 1). by apply abs_le_mul.
  - change 0 with (1 + -1). apply ge_pow_mul; auto.
Qed.

Lemma NextDelay_range `{GoTarget} (d : Z) (p : RetryPolicy) (attempt : Z) (s : float64) :
  0 <= d <= 1 → 0 < policy_base p <= policy_max p → policy_max p <= max_safe_delay →
  jitter_le d (policy_jitter p) → s ≠ NaN →
  0 <= NextDelay p attempt s <= policy_max p
  ∧ (1 <= d → 2 <= policy_base p → 0 < NextDelay p attempt s).
Proof.
  intros Hd Hb Hm Hj Hs.
  assert (policy_max p <= MaxInt64) as Hm' by (unfold max_safe_delay, MaxInt64 in *; lia).
  pose proof (backoff_range p attempt Hb Hm') as Hr.
  pose proof (scaled_delay d p (backoff p attempt) s Hd Hj Hs ltac:(lia)) as [H0 H1].
  unfold NextDelay. cbn zeta. destruct (Z.ltb_spec (policy_max p) (to_int64 int64_out_of_range
    (fmul (of_int (backoff p attempt)) (jitter_factor (policy_jitter p) (clamp_sample s)))));
    split; try lia; intros; lia || (specialize (H1 ltac:(lia) ltac:(lia)); lia).
Qed.

(** ** Properties *)

Lemma NewRetryPolicy_ok (base max : Duration) (j : float64) (p : RetryPolicy) :
  NewRetryPolicy base max j = Ok p →
  p = mkRetryPolicy base max j ∧ 0 < base <= max ∧ flt j f_zero = false ∧ flt f_one j = false.
Proof.
  unfold NewRetryPolicy. repeat case_match; intros [= <-]; zbool.
  repeat split; try lia; done.
Qed.

Lemma valid_jitter (j : float64) (d : Z) : 0 <= d →
  j ≠ NaN → flt j f_zero = false → flt f_one j = false → flt (Fin 1 (- d)) j = false →
  jitter_le d j.
Proof.
  intros Hd Hn H0 H1 Hd'. destruct j as [m e|[]|]; [|done|done|done].
  apply flt_not_below_zero in H0 as Hm. exists m, e. split; [done|]. split; [done|].
  by apply flt_pow.
Qed.

(** The target the witnesses use: an amd64 build, which does not fuse. *)
Definition amd64_target : GoTarget := {| fuses := false; int64_out_of_range := amd64 |}.
Definition fused_target : GoTarget := {| fuses := true; int64_out_of_range := amd64 |}.

(** The literal [0.2] as [strconv.ParseFloat] rounds it. *)
Definition f_0_2 : float64 := Fin 3602879701896397 (-54).

(** The cases of [policy_test.go], on both kinds of target. *)
Definition test_policy : RetryPolicy := mkRetryPolicy Second (8 * Second) f_0_2.

Example NextDelay_tests :
  map (λ '(attempt, sample), @NextDelay amd64_target test_policy attempt sample)
    [(1, f_zero); (2, Fin 1 (-1)); (3, f_one); (10, Fin 1 (-1)); (10, f_one); (1, f_two)]
  = [800 * Millisecond; 2 * Second; 4800 * Millisecond; 8 * Second; 8 * Second;
     1200 * Millisecond].
Proof. vm_compute. reflexivity. Qed.

Example NextDelay_tests_fused :
  map (λ '(attempt, sample), @NextDelay fused_target test_policy attempt sample)
    [(1, f_zero); (2, Fin 1 (-1)); (3, f_one); (10, Fin 1 (-1)); (10, f_one)]
  = [800 * Millisecond; 2 * Second; 4800 * Millisecond; 8 * Second; 8 * Second].
Proof. vm_compute. reflexivity. Qed.

(** [C30] The un-jittered delay of attempt [n] (an attempt number below 1
    counts as 1) is exactly [base * 2^(n-1)] capped at [max], but that a delay
    which doubling brings to [max - 1] is [max]: the loop never overflows,
    whatever the attempt number. *)
Theorem backoff_capped_exponential (base max : Duration) (j : float64) (p : RetryPolicy) (attempt : Z) :
  NewRetryPolicy base max j = Ok p → max <= MaxInt64 →
  let n := Z.max 1 attempt in
  backoff p attempt =
    if (1 <? n) && (base * 2 ^ (n - 1) =? max - 1) then max else Z.min (base * 2 ^ (n - 1)) max.
Proof.
  intros (-> & Hb & _)%NewRetryPolicy_ok Hm n. unfold backoff. cbn [policy_max policy_base].
  assert ((if attempt <? 1 then 1 else attempt) = n) as -> by (destruct (Z.ltb_spec attempt 1); lia).
  rewrite backoff_loop_exact, Z2Nat.id by lia.
  assert ((0 <? Z.to_nat (n - 1))%nat = (1 <? n)) as ->
    by (destruct (Z.ltb_spec 1 n); [apply Nat.ltb_lt|apply Nat.ltb_ge]; lia).
  destruct (_ && _); cbn zeta.
  - by rewrite Z.ltb_irrefl.
  - destruct (Z.ltb_spec max (Z.min (base * 2 ^ (n - 1)) max)); lia.
Qed.

Lemma backoff_capped_exponential_witness :
  backoff (mkRetryPolicy Second (5 * Minute) f_0_2) 4 = 8 * Second
  ∧ backoff (mkRetryPolicy 3 13 f_0_2) 3 = 13 ∧ backoff (mkRetryPolicy 3 13 f_0_2) 2 = 6.
Proof.
  split; [|split].
  - by rewrite (backoff_capped_exponential Second (5 * Minute) f_0_2 _ 4).
  - by rewrite (backoff_capped_exponential 3 13 f_0_2 _ 3).
  - by rewrite (backoff_capped_exponential 3 13 f_0_2 _ 2).
Defined.

(** [C31] Every delay lies between 0 and the policy's maximum: for any policy
    [NewRetryPolicy] accepts whose jitter is a number and whose maximum is at
    most [max_safe_delay], any attempt number and any sample that is a number
    (the random source, or anything outside [[0,1]], which is clamped), on a
    target that fuses or not and whatever its out-of-range conversion. *)
Theorem NextDelay_bounds (Target : GoTarget) (base max : Duration) (j : float64) (p : RetryPolicy)
    (attempt : Z) (sample : float64) :
  NewRetryPolicy base max j = Ok p → max <= max_safe_delay → j ≠ NaN → sample ≠ NaN →
  0 <= NextDelay p attempt sample <= max.
Proof.
  intros (-> & Hb & H0 & H1)%NewRetryPolicy_ok Hm Hj Hs.
  apply (NextDelay_range 0 (mkRetryPolicy base max j)); cbn; try done.
  by apply (valid_jitter j 0).
Qed.

Lemma NextDelay_bounds_witness :
  0 <= @NextDelay amd64_target (mkRetryPolicy Second (5 * Minute) f_0_2) 3 f_zero <= 5 * Minute.
Proof.
  apply (NextDelay_bounds amd64_target Second (5 * Minute) f_0_2); try done.
Defined.

(** With a jitter of at most one half and a base of at least two
    nanoseconds every delay is strictly positive, which is what
    [validateAttemptResult] demands of a retry. *)
Theorem NextDelay_positive (Target : GoTarget) (base max : Duration) (j : float64) (p : RetryPolicy)
    (attempt : Z) (sample : float64) :
  NewRetryPolicy base max j = Ok p → max <= max_safe_delay → j ≠ NaN → sample ≠ NaN →
  flt (Fin 1 (-1)) j = false → 2 <= base → 0 < NextDelay p attempt sample.
Proof.
  intros (-> & Hb & H0 & H1)%NewRetryPolicy_ok Hm Hj Hs Hhalf H2.
  apply (NextDelay_range 1 (mkRetryPolicy base max j)); cbn; try done; try lia.
  by apply (valid_jitter j 1).
Qed.

Lemma NextDelay_positive_witness :
  0 < @NextDelay amd64_target (mkRetryPolicy Second (5 * Minute) f_0_2) 3 f_zero.
Proof. apply (NextDelay_positive amd64_target Second (5 * Minute) f_0_2); done. Defined.

(** A NaN jitter passes [NewRetryPolicy] (both comparisons are false),
    and then every delay is whatever the target makes of [int64(NaN)]: the
    most negative duration on amd64. *)
Theorem NewRetryPolicy_accepts_nan (base max : Duration) :
  0 < base <= max →
  ∃ p, NewRetryPolicy base max NaN = Ok p ∧
       ∀ attempt sample, @NextDelay amd64_target p attempt sample = MinInt64.
Proof.
  intros Hb. exists (mkRetryPolicy base max NaN). split.
  - unfold NewRetryPolicy. destruct (Z.leb_spec base 0); [lia|].
    destruct (Z.ltb_spec max base); [lia|]. done.
  - intros attempt sample. unfold NextDelay, jitter_factor. cbn zeta. cbn [policy_jitter fuses amd64_target].
    assert (∀ x, fadd f_one (fmul x NaN) = NaN) as -> by (by intros [|[]|]).
    assert (∀ x, fmul x NaN = NaN) as -> by (by intros [|[]|]).
    cbn. unfold amd64, MinInt64. destruct (Z.ltb_spec max (-9223372036854775808)); lia.
Qed.

Lemma NewRetryPolicy_accepts_nan_witness :
  ∃ p, NewRetryPolicy Second Minute NaN = Ok p ∧
       ∀ attempt sample, @NextDelay amd64_target p attempt sample = MinInt64.
Proof. apply (NewRetryPolicy_accepts_nan Second Minute). done. Defined.

(** [Evaluate] decides by the response class: any transport error is
    retried; without one, exactly the 2xx statuses succeed, exactly 408, 425,
    429 and everything from 500 up is retried, and the rest is discarded. *)
Theorem Evaluate_spec (statusCode : Z) (requestErr : option error) :
  (Evaluate statusCode requestErr = DecisionSucceed ↔
     requestErr = None ∧ 200 <= statusCode < 300) ∧
  (Evaluate statusCode requestErr = DecisionRetry ↔
     requestErr ≠ None ∨ statusCode ∈ [408; 425; 429] ∨ 500 <= statusCode) ∧
  (∀ s, Evaluate statusCode requestErr ≠ DecisionOther s).
Proof.
  unfold Evaluate. destruct requestErr as [e|].
  { split; [split; [done|intros [? _]; done]|]. split; [split; [by left|done]|done]. }
  rewrite !list_elem_of_In. cbn [In].
  destruct (Z.leb_spec 200 statusCode), (Z.ltb_spec statusCode 300), (Z.eqb_spec statusCode 408),
    (Z.eqb_spec statusCode 425), (Z.eqb_spec statusCode 429), (Z.leb_spec 500 statusCode);
    cbn [andb orb]; repeat split; intros; try done; try lia;
    try (left; congruence); try (right; lia); intuition (try congruence; try lia).
Qed.
