(* ===== verification/Schema.v ===== *)
(** * The database schema

    [src/migrations/001_init.up.sql]: the four tables as finite maps from
    primary key to row, the CHECK constraints of each table as boolean
    functions, and the row-level statements (insert and update with every
    constraint the schema declares) the queries of package store are built
    from. What PostgreSQL itself decides (the input syntax of [uuid], [text],
    [jsonb] and [timestamptz], and the physical order a scan reads rows in) is
    the class [Postgres]. *)

From S2P Require Import Prelude GoErrors GoTime GoText Delivery.

(** ** PostgreSQL *)

Class Postgres := {
  uuid_in : string → option string;      (* uuid input; the canonical text *)
  jsonb : Type;
  jsonb_eq_dec :: EqDecision jsonb;
  jsonb_in : bytes → option jsonb;       (* jsonb input *)
  jsonb_out : jsonb → bytes;             (* jsonb output *)
  text_in : string → bool;               (* is the byte sequence legal text? *)
  timestamptz_in : Z → Z;                (* nanoseconds to microseconds *)
  scan_order : ∀ A, gmap string A → list (string * A);
}.

(** Documented behaviour the proofs rely on: a canonical [uuid] text is read
    back as itself and is not blank; well-formed UTF-8 without a NUL is legal
    text; converting a time keeps the order; a sequential scan
    returns every row of the table once. *)
Class PostgresLaws `{Postgres} : Prop := {
  uuid_in_canonical : ∀ s u, uuid_in s = Some u → uuid_in u = Some u;
  uuid_in_not_blank : ∀ s u, uuid_in s = Some u → blank u = false;
  text_in_valid : ∀ s, ValidString s = true → (∀ b, b ∈ bytes_of s → zb b ≠ 0) → text_in s = true;
  timestamptz_mono : ∀ a b, a <= b → timestamptz_in a <= timestamptz_in b;
  scan_order_perm : ∀ A (m : gmap string A), scan_order A m ≡ₚ map_to_list m;
}.

Lemma text_in_printable `{PostgresLaws} (s : string) :
  forallb (between 32 126) (bytes_of s) = true → text_in s = true.
Proof.
  intros Hs. apply text_in_valid; [by apply Valid_printable|].
  intros b Hb. apply list_elem_of_In in Hb. rewrite forallb_forall in Hs. apply Hs in Hb.
  unfold between in Hb. zbool. lia.
Qed.

(** A [timestamptz] value as pgx scans it into a [time.Time]. *)
Definition time_of_ts (us : Z) : Time := mkTime (us * Microsecond) None.

(** [z * interval '1 millisecond'], in microseconds. *)
Definition interval_ms (ms : Z) : Z := ms * 1000.

(** The parameter of a [timestamptz] column. *)
Definition ts_of_time `{Postgres} (t : Time) : Z := timestamptz_in (wall t).

(** ** Rows *)

Record EndpointRow : Type := mkEndpointRow {
  ep_name : string;
  ep_url : string;
  ep_secret_ciphertext : bytes;
  ep_timeout_ms : Z;
  ep_max_attempts : Z;
  ep_consecutive_failures : Z;
  ep_circuit_open_until : option Z;
  ep_disabled_at : option Z;
  ep_created_at : Z;
  ep_updated_at : Z;
}.

Record EventRow `{Postgres} : Type := mkEventRow {
  ev_endpoint_id : string;
  ev_event_type : string;
  ev_payload : jsonb;
  ev_idempotency_key : string;
  ev_created_at : Z;
}.

Record DeliveryRow : Type := mkDeliveryRow {
  d_event_id : string;
  d_endpoint_id : string;
  d_status : Status;
  d_attempt_count : Z;
  d_max_attempts : Z;
  d_next_attempt_at : Z;
  d_locked_by : option string;
  d_lease_token : option string;
  d_locked_at : option Z;
  d_locked_until : option Z;
  d_last_status_code : option Z;
  d_last_error : string;
  d_last_completed_at : option Z;
  d_created_at : Z;
  d_updated_at : Z;
}.

Record AttemptRow : Type := mkAttemptRow {
  a_delivery_id : string;
  a_attempt_number : Z;
  a_status_code : option Z;
  a_response_body : string;
  a_error_message : string;
  a_duration_ms : Z;
  a_started_at : Z;
  a_completed_at : Z;
}.

Record db `{Postgres} : Type := mkDb {
  endpoints : gmap string EndpointRow;
  events : gmap string EventRow;
  deliveries : gmap string DeliveryRow;
  delivery_attempts : gmap string AttemptRow;
}.

(** ** CHECK constraints

    A check on a null value is unknown, which satisfies the constraint. *)

Definition is_null {A} (o : option A) : bool := match o with None => true | Some _ => false end.

Definition null_or {A} (p : A → bool) (o : option A) : bool :=
  match o with None => true | Some x => p x end.

Definition in_range (lo hi z : Z) : bool := (lo <=? z) && (z <=? hi).

Definition int4 (z : Z) : bool := in_range MinInt32 MaxInt32 z.
Definition int2 (z : Z) : bool := in_range (-32768) MaxInt16 z.

Definition check_endpoint (e : EndpointRow) : bool :=
  in_range 100 30000 (ep_timeout_ms e) && in_range 1 100 (ep_max_attempts e)
  && (0 <=? ep_consecutive_failures e) && int4 (ep_consecutive_failures e).

Definition check_delivery (d : DeliveryRow) : bool :=
  (0 <=? d_attempt_count d) && (1 <=? d_max_attempts d)
  && int4 (d_attempt_count d) && int4 (d_max_attempts d)
  && null_or (in_range 100 599) (d_last_status_code d)
  && eqb (is_null (d_locked_by d)) (is_null (d_lease_token d))
  && eqb (is_null (d_locked_by d)) (is_null (d_locked_at d))
  && eqb (is_null (d_locked_by d)) (is_null (d_locked_until d))
  && eqb (bool_decide (d_status d = StatusProcessing)) (negb (is_null (d_locked_by d)))
  && null_or (λ u, null_or (λ a, a <? u) (d_locked_at d)) (d_locked_until d)
  && (d_attempt_count d <=? d_max_attempts d).

Definition check_attempt (a : AttemptRow) : bool :=
  (0 <? a_attempt_number a) && int4 (a_attempt_number a)
  && null_or (in_range 100 599) (a_status_code a)
  && (0 <=? a_duration_ms a) && int4 (a_duration_ms a)
  && (a_started_at a <=? a_completed_at a)
  && (negb (is_null (a_status_code a)) || negb (bool_decide (a_error_message a = ""%string))).

(** ** Errors of the database and of pgx *)

Definition pgx_ErrNoRows : error := Sentinel "pgx.ErrNoRows" "no rows in result set".
Definition check_violation (table : string) : error :=
  New ("new row for relation " +:+ table +:+ " violates check constraint").
Definition unique_violation (table : string) : error :=
  New ("duplicate key value violates unique constraint of " +:+ table).
Definition foreign_key_violation (table : string) : error :=
  New ("insert or update on table " +:+ table +:+ " violates foreign key constraint").
Definition invalid_input (type : string) : error :=
  New ("invalid input syntax for type " +:+ type).
Definition out_of_range : error := New "integer out of range".
Definition null_scan : error := New "can't scan into dest: cannot scan NULL".

Definition sql_guard (b : bool) (e : error) : res unit := if b then Ok tt else Err e.

Definition sql_uuid `{Postgres} (s : string) : res string :=
  match uuid_in s with Some u => Ok u | None => Err (invalid_input "uuid") end.
Definition sql_text `{Postgres} (s : string) : res string :=
  if text_in s then Ok s else Err (invalid_input "text").
Definition sql_jsonb `{Postgres} (b : bytes) : res jsonb :=
  match jsonb_in b with Some j => Ok j | None => Err (invalid_input "json") end.

(** ** Row-level statements *)

Section Tables.
Context `{PG : Postgres}.

Definition set_endpoints (m : gmap string EndpointRow) (d : db) : db :=
  mkDb _ m (events d) (deliveries d) (delivery_attempts d).
Definition set_events (m : gmap string EventRow) (d : db) : db :=
  mkDb _ (endpoints d) m (deliveries d) (delivery_attempts d).
Definition set_deliveries (m : gmap string DeliveryRow) (d : db) : db :=
  mkDb _ (endpoints d) (events d) m (delivery_attempts d).
Definition set_attempts (m : gmap string AttemptRow) (d : db) : db :=
  mkDb _ (endpoints d) (events d) (deliveries d) m.

Definition empty_db : db := mkDb _ ∅ ∅ ∅ ∅.

Definition insert_endpoint (id : string) (r : EndpointRow) (d : db) : res db :=
  _ ← sql_guard (is_null (endpoints d !! id)) (unique_violation "endpoints");
  _ ← sql_guard (check_endpoint r) (check_violation "endpoints");
  Ok (set_endpoints (<[id := r]> (endpoints d)) d).

Definition update_endpoint (id : string) (r : EndpointRow) (d : db) : res db :=
  _ ← sql_guard (check_endpoint r) (check_violation "endpoints");
  Ok (set_endpoints (<[id := r]> (endpoints d)) d).

Definition insert_event (id : string) (r : EventRow) (d : db) : res db :=
  _ ← sql_guard (is_null (events d !! id)) (unique_violation "events");
  _ ← sql_guard (negb (is_null (endpoints d !! ev_endpoint_id r))) (foreign_key_violation "events");
  Ok (set_events (<[id := r]> (events d)) d).

Definition insert_delivery (id : string) (r : DeliveryRow) (d : db) : res db :=
  _ ← sql_guard (is_null (deliveries d !! id)) (unique_violation "deliveries");
  _ ← sql_guard (check_delivery r) (check_violation "deliveries");
  _ ← sql_guard (negb (is_null (events d !! d_event_id r))) (foreign_key_violation "deliveries");
  _ ← sql_guard (negb (is_null (endpoints d !! d_endpoint_id r))) (foreign_key_violation "deliveries");
  Ok (set_deliveries (<[id := r]> (deliveries d)) d).

(** An update that leaves [event_id] and [endpoint_id] alone. *)
Definition update_delivery (id : string) (r : DeliveryRow) (d : db) : res db :=
  _ ← sql_guard (check_delivery r) (check_violation "deliveries");
  Ok (set_deliveries (<[id := r]> (deliveries d)) d).

(** The row of the unique index on (delivery_id, attempt_number). *)
Definition attempt_of (delivery_id : string) (number : Z) (d : db) : option (string * AttemptRow) :=
  map_find (λ _ a, bool_decide (a_delivery_id a = delivery_id) && (a_attempt_number a =? number))
    (delivery_attempts d).

Definition insert_attempt (id : string) (r : AttemptRow) (d : db) : res db :=
  _ ← sql_guard (is_null (delivery_attempts d !! id)) (unique_violation "delivery_attempts");
  _ ← sql_guard (is_null (attempt_of (a_delivery_id r) (a_attempt_number r) d))
        (unique_violation "delivery_attempts");
  _ ← sql_guard (check_attempt r) (check_violation "delivery_attempts");
  _ ← sql_guard (negb (is_null (deliveries d !! a_delivery_id r)))
        (foreign_key_violation "delivery_attempts");
  Ok (set_attempts (<[id := r]> (delivery_attempts d)) d).
End Tables.

(** ** Inversion of the row-level statements *)

Section TableLemmas.
Context `{PG : Postgres}.

Lemma sql_guard_Ok (b : bool) (e : error) x : sql_guard b e = Ok x → b = true.
Proof. unfold sql_guard. by destruct b. Qed.

Lemma is_null_None {A} (o : option A) : is_null o = true → o = None.
Proof. by destruct o. Qed.

Lemma is_null_Some {A} (o : option A) : negb (is_null o) = true → is_Some o.
Proof. destruct o; [by eexists|done]. Qed.
End TableLemmas.

(** Inverts a chain of guarded statements that returned [Ok]. *)
Ltac inv_stmt H :=
  repeat match type of H with
  | (_ ≫= _) = Ok _ =>
      let a := fresh "x" in let E := fresh "E" in
      apply res_bind_Ok in H as (a & E & H);
      lazymatch type of E with
      | sql_guard _ _ = Ok _ => apply sql_guard_Ok in E
      | _ => idtac
      end
  end.
