(* ===== verification/Tx.v ===== *)
(** * Connections, transactions and faults

    The calls of pgx package store makes, as a state and error monad over a
    connection. A connection holds the [durable] database, the [work]ing copy
    of the open transaction, the generator of [uuid.NewString] and an oracle
    of faults: each call consumes one entry and fails if it says so, so that
    every I/O error of every call is a run of the model. A failed [Commit]
    may have taken effect ([AckLost]) or not.

    Transactions are serialised as a whole: PostgreSQL's row locks are held to
    the commit, and rows a concurrent transaction holds are those a
    [SKIP LOCKED] scan passes over, which is the [TxEnv] of the operation. *)

From S2P Require Import Prelude GoErrors GoTime GoText Delivery Schema.

(** ** [uuid.NewString]: a random source that does not repeat *)

Class Uuids := { NewString : nat → string }.

Class UuidsLaws `{Uuids} `{Postgres} : Prop := {
  NewString_inj : ∀ m n, NewString m = NewString n → m = n;
  NewString_canonical : ∀ n, uuid_in (NewString n) = Some (NewString n);
}.

(** ** The environment of a transaction *)

(** [now()], which is constant inside a transaction, and the rows that
    concurrent transactions hold locked when each scanning statement runs. *)
Class TxEnv := {
  now : Z;
  locked_recover : gset string;
  locked_claim : gset string;
}.

Inductive fault : Type :=
  | NoFault
  | Fault (e : error)
  | AckLost (e : error).

Record conn `{Postgres} : Type := mkConn {
  durable : db;
  work : db;
  faults : list fault;
  next_uuid : nat;
}.

Section Monad.
Context `{PG : Postgres}.

Definition M (A : Type) : Type := conn → res A * conn.

#[export] Instance M_ret : MRet M := λ A a s, (Ok a, s).
#[export] Instance M_bind : MBind M := λ A B f m s,
  match m s with
  | (Ok a, s') => f a s'
  | (Err e, s') => (Err e, s')
  end.

Definition throw {A} (e : error) : M A := λ s, (Err e, s).

(** [x, err := m]: the error becomes a value. *)
Definition try {A} (m : M A) : M (res A) := λ s, let '(r, s') := m s in (Ok r, s').

(** [if err := m; err != nil { return fmt.Errorf("msg: %w", err) }]. *)
Definition wrapping {A} (msg : string) (m : M A) : M A := λ s,
  let '(r, s') := m s in (map_err (wrapf msg) r, s').

Definition next_fault : M fault := λ s,
  match faults s with
  | [] => (Ok NoFault, s)
  | f :: fs => (Ok f, mkConn _ (durable s) (work s) fs (next_uuid s))
  end.

(** A call that only may fail (reading a row from the network). *)
Definition io : M unit :=
  f ← next_fault;
  match f with NoFault => mret tt | Fault e | AckLost e => throw e end.

Definition set_work (d : db) : M unit := λ s,
  (Ok tt, mkConn _ (durable s) d (faults s) (next_uuid s)).
Definition get_work : M db := λ s, (Ok (work s), s).

(** The transaction works on a snapshot of the durable database. *)
Definition snapshot : M unit := λ s,
  (Ok tt, mkConn _ (durable s) (durable s) (faults s) (next_uuid s)).

Definition BeginTx : M unit := _ ← io; snapshot.

Definition publish : M unit := λ s, (Ok tt, mkConn _ (work s) (work s) (faults s) (next_uuid s)).

Definition Commit : M unit :=
  f ← next_fault;
  match f with
  | NoFault => publish
  | Fault e => throw e
  | AckLost e => _ ← publish; throw e
  end.

(** One SQL statement inside the transaction. *)
Definition statement {A} (f : db → res (db * A)) : M A :=
  _ ← io;
  d ← get_work;
  match f d with
  | Ok (d', a) => _ ← set_work d'; mret a
  | Err e => throw e
  end.

(** [tx.QueryRow(...).Scan(...)]: the first row, or [pgx.ErrNoRows]. *)
Definition QueryRow {A} (f : db → res (db * list A)) : M A :=
  rows ← statement f;
  match rows with
  | [] => throw pgx_ErrNoRows
  | r :: _ => mret r
  end.

Definition Exec (f : db → res db) : M unit := statement (λ d, d' ← f d; Ok (d', tt)).

(** [s.pool.QueryRow]: a statement in a transaction of its own. *)
Definition autocommit {A} (m : M A) : M A :=
  _ ← BeginTx; a ← m; _ ← Commit; mret a.

Definition new_uuid `{Uuids} : M string := λ s,
  (Ok (NewString (next_uuid s)), mkConn _ (durable s) (work s) (faults s) (S (next_uuid s))).

(** ** Reasoning about runs

    [runs m s r s']: the run of [m] from [s]. The lemmas below invert runs
    one call at a time. *)
Definition runs {A} (m : M A) (s : conn) (r : res A) (s' : conn) : Prop := m s = (r, s').

(** A run that succeeds, from the evaluation of its result. *)
Lemma runs_ok {A} (m : M A) s : is_ok (m s).1 = true → ∃ a, runs m s (Ok a) (m s).2.
Proof. unfold runs. destruct (m s) as [[a|e] s']; [by exists a|done]. Qed.

Lemma runs_ret {A} (a : A) s r s' : runs (mret a) s r s' → r = Ok a ∧ s' = s.
Proof. intros [= <- <-]. done. Qed.

Lemma runs_throw {A} e s (r : res A) s' : runs (throw e) s r s' → r = Err e ∧ s' = s.
Proof. intros [= <- <-]. done. Qed.

Lemma runs_bind {A B} (m : M A) (f : A → M B) s r s' :
  runs (m ≫= f) s r s' →
  (∃ e, runs m s (Err e) s' ∧ r = Err e) ∨ (∃ a s1, runs m s (Ok a) s1 ∧ runs (f a) s1 r s').
Proof.
  unfold runs, mbind, M_bind. destruct (m s) as [[a|e] s1]; [right; eauto|].
  intros [= <- <-]. left; eauto.
Qed.

Lemma runs_try {A} (m : M A) s r s' : runs (try m) s r s' → ∃ r', runs m s r' s' ∧ r = Ok r'.
Proof. unfold runs, try. destruct (m s) as [r1 s1]. intros [= <- <-]. eauto. Qed.

Lemma runs_wrapping {A} msg (m : M A) s r s' :
  runs (wrapping msg m) s r s' → ∃ r', runs m s r' s' ∧ r = map_err (wrapf msg) r'.
Proof. unfold runs, wrapping. destruct (m s) as [r1 s1]. intros [= <- <-]. eauto. Qed.

(** What a call may do to the connection short of a commit: nothing to the
    durable database, and the generator only moves forward. *)
Definition stays (s s' : conn) : Prop := durable s' = durable s ∧ (next_uuid s <= next_uuid s')%nat.

Lemma stays_refl s : stays s s.
Proof. done. Qed.

Lemma stays_trans s1 s2 s3 : stays s1 s2 → stays s2 s3 → stays s1 s3.
Proof. intros [H1 H2] [H3 H4]. split; [congruence|lia]. Qed.

Lemma runs_io s r s' : runs io s r s' →
  stays s s' ∧ work s' = work s ∧ next_uuid s' = next_uuid s ∧
  (faults s = [] → r = Ok tt ∧ s' = s).
Proof.
  unfold io, next_fault, runs, mbind, M_bind, throw, mret, M_ret.
  destruct (faults s) as [|[|e|e] fs] eqn:E; intros [= <- <-]; repeat split; done.
Qed.

Lemma runs_statement {A} (f : db → res (db * A)) s r s' : runs (statement f) s r s' →
  stays s s' ∧ next_uuid s' = next_uuid s ∧
  ((∃ e, r = Err e ∧ work s' = work s ∧ (faults s = [] → f (work s) = Err e ∧ s' = s)) ∨
   (∃ a d', f (work s) = Ok (d', a) ∧ r = Ok a ∧ work s' = d' ∧ (faults s = [] → faults s' = []))).
Proof.
  unfold statement. intros H. apply runs_bind in H as [(e & H & ->)|([] & s1 & Hio & H)].
  { apply runs_io in H as (Hs & Hw & Hn & Hf). split; [done|]. split; [done|]. left. exists e.
    split; [done|]. split; [done|]. intros E. by destruct (Hf E). }
  apply runs_io in Hio as (Hs & Hw & Hn & Hf).
  unfold runs, get_work, mbind, M_bind in H. rewrite Hw in H.
  destruct (f (work s)) as [[d' a]|e] eqn:E; cbn in H; injection H as <- <-.
  - cbn. split; [by destruct Hs|]. split; [done|]. right. exists a, d'. repeat split.
    intros E0. destruct (Hf E0) as [_ ->]. done.
  - split; [done|]. split; [done|]. left. exists e. split; [done|]. split; [done|].
    intros E0. by destruct (Hf E0).
Qed.

Lemma runs_QueryRow {A} (f : db → res (db * list A)) s r s' : runs (QueryRow f) s r s' →
  stays s s' ∧ next_uuid s' = next_uuid s ∧
  ((∃ e, r = Err e ∧ work s' = work s ∧ (faults s = [] → f (work s) = Err e ∧ s' = s)) ∨
   (∃ rows d', f (work s) = Ok (d', rows) ∧ work s' = d' ∧ (faults s = [] → faults s' = []) ∧
      r = match rows with [] => Err pgx_ErrNoRows | x :: _ => Ok x end)).
Proof.
  unfold QueryRow. intros H. apply runs_bind in H as [(e & H & ->)|(rows & s1 & H1 & H)].
  - apply runs_statement in H as (Hs & Hn & [(e' & [= <-] & Hw & Hf)|(a & d' & _ & ? & _)]); [|done].
    split; [done|]. split; [done|]. left. eauto.
  - apply runs_statement in H1 as (Hs & Hn & [(e' & ? & _)|(a & d' & Hf & [= <-] & Hw & Hfl)]); [done|].
    assert (s1 = s' ∧ r = match rows with [] => Err pgx_ErrNoRows | x :: _ => Ok x end) as [<- ->].
    { destruct rows as [|x rows]; [apply runs_throw in H|apply runs_ret in H]; by destruct H as [-> ->]. }
    split; [done|]. split; [done|]. right. exists rows, d'. done.
Qed.

Lemma runs_Exec (f : db → res db) s r s' : runs (Exec f) s r s' →
  stays s s' ∧ next_uuid s' = next_uuid s ∧
  ((∃ e, r = Err e ∧ work s' = work s ∧ (faults s = [] → f (work s) = Err e ∧ s' = s)) ∨
   (∃ d', f (work s) = Ok d' ∧ r = Ok tt ∧ work s' = d' ∧ (faults s = [] → faults s' = []))).
Proof.
  unfold Exec. intros H. apply runs_statement in H as (Hs & Hn & [(e & -> & Hw & Hf)|(a & d' & Hf & -> & Hw & Hfl)]).
  - split; [done|]. split; [done|]. left. exists e. split; [done|]. split; [done|].
    intros E. destruct (Hf E) as [H1 H2]. split; [|done].
    destruct (f (work s)); cbn in H1; congruence.
  - split; [done|]. split; [done|]. right. exists d'.
    destruct (f (work s)) as [d1|]; cbn in Hf; [|done]. injection Hf as -> <-. done.
Qed.

Lemma runs_BeginTx s r s' : runs BeginTx s r s' →
  stays s s' ∧ next_uuid s' = next_uuid s ∧ (r = Ok tt → work s' = durable s) ∧
  (faults s = [] → r = Ok tt ∧ faults s' = []).
Proof.
  unfold BeginTx. intros H. apply runs_bind in H as [(e & H & ->)|([] & s1 & H1 & H)].
  - apply runs_io in H as (Hs & Hw & Hn & Hf). split; [done|]. split; [done|].
    split; [done|]. intros E. by destruct (Hf E).
  - apply runs_io in H1 as (Hs & Hw & Hn & Hf). injection H as <- <-. cbn.
    split; [done|]. split; [done|]. split; [by destruct Hs|].
    intros E. by destruct (Hf E) as [_ ->].
Qed.

(** A commit publishes the working copy or leaves the durable database; its
    report is exact when it succeeds. *)
Lemma runs_Commit s r s' : runs Commit s r s' →
  next_uuid s' = next_uuid s ∧
  ((r = Ok tt ∧ durable s' = work s) ∨
   (∃ e, r = Err e ∧ (durable s' = durable s ∨ durable s' = work s))) ∧
  (faults s = [] → r = Ok tt ∧ faults s' = []).
Proof.
  unfold Commit, next_fault, runs, mbind, M_bind, throw, publish.
  destruct (faults s) as [|[|e|e] fs] eqn:E; intros [= <- <-]; cbn; split; try done;
    (split; [|done]); eauto.
Qed.

Lemma runs_new_uuid `{Uuids} s r s' : runs new_uuid s r s' →
  r = Ok (NewString (next_uuid s)) ∧ stays s s' ∧ work s' = work s ∧
  next_uuid s' = S (next_uuid s) ∧ faults s' = faults s.
Proof. intros [= <- <-]. repeat split; cbn; lia || done. Qed.
End Monad.

#[global] Hint Resolve stays_refl stays_trans : relay.

(** ** A concrete environment

    An instance of everything the model takes as a parameter, used by the
    witnesses: a database that accepts every non-blank uuid and stores payloads
    as they are, and a counting source of uuids. *)

Definition sim_uuid_in (s : string) : option string :=
  if blank s then None else Some s.

(** Legal text: well-formed UTF-8 without a null byte. *)
Definition sim_text_in (s : string) : bool :=
  ValidString s && negb (existsb (λ b, zb b =? 0) (bytes_of s)).

Definition sim_jsonb_in (b : bytes) : option bytes :=
  if bool_decide (b = []) then None else Some b.

Definition sim_postgres : Postgres := {|
  uuid_in := sim_uuid_in;
  jsonb := bytes;
  jsonb_eq_dec := _;
  jsonb_in := sim_jsonb_in;
  jsonb_out := λ b, b;
  text_in := sim_text_in;
  timestamptz_in := λ ns, ns / 1000;
  scan_order := λ A m, map_to_list m;
|}.

Definition sim_uuids : Uuids := {| NewString := λ n, "uuid-" +:+ FormatInt (Z.of_nat n) |}.

Definition sim_env (t : Z) : TxEnv := {| now := t; locked_recover := ∅; locked_claim := ∅ |}.

Lemma sim_postgres_laws : @PostgresLaws sim_postgres.
Proof.
  split; cbn.
  - unfold sim_uuid_in. intros s u. destruct (blank s) eqn:E; [done|]. intros [= <-]. by rewrite E.
  - unfold sim_uuid_in. intros s u. destruct (blank s) eqn:E; [done|]. by intros [= <-].
  - intros s Hs Hz. unfold sim_text_in. rewrite Hs. cbn.
    apply negb_true_iff, not_true_iff_false. intros (b & Hb%list_elem_of_In & E%Z.eqb_eq)%existsb_exists.
    by apply (Hz b).
  - intros a b H. apply Z.div_le_mono; lia.
  - done.
Qed.

Lemma sim_uuids_laws : @UuidsLaws sim_uuids sim_postgres.
Proof.
  split; cbn.
  - intros m n H. apply (inj (String.append "uuid-")), (inj pretty) in H. lia.
  - intros n. unfold sim_uuid_in. assert (blank ("uuid-" +:+ FormatInt (Z.of_nat n)) = false) as ->; [|done].
    set (t := FormatInt _). rewrite <- (string_of_bytes_of ("uuid-" +:+ t)).
    apply (not_blank_first x75 (bytes_of ("uid-" +:+ t))); done.
Qed.
