(* ===== verification/Invariant.v ===== *)
(** * The database invariant and the evolution of rows

    What every committed database satisfies ([db_ok]): the constraints of the
    schema, and the laws the operations of package store keep on top of them.
    Inside a transaction some of it is suspended; [db_ok_mod miss orph] is the
    invariant of a database where the attempts in [miss] are still to be
    recorded and the events in [orph] still lack their delivery. [evolves]
    says what may happen to rows that exist. *)

From S2P Require Import Prelude GoErrors GoTime GoText Delivery Schema.

Definition canonical `{Postgres} (u : string) : Prop := uuid_in u = Some u.

(** A delivery waiting for a worker. *)
Definition live (r : DeliveryRow) : Prop :=
  d_status r = StatusPending ∨ d_status r = StatusRetrying.

(** How many attempts of a delivery are finished: all that were claimed, less
    the one in flight. *)
Definition recorded (r : DeliveryRow) : Z :=
  if bool_decide (d_status r = StatusProcessing) then d_attempt_count r - 1
  else d_attempt_count r.

Definition has_attempt `{Postgres} (d : db) (did : string) (n : Z) : Prop :=
  ∃ aid a, delivery_attempts d !! aid = Some a ∧ a_delivery_id a = did ∧ a_attempt_number a = n.

(** What the status of a row says about its counters. *)
Definition row_ok (r : DeliveryRow) : Prop :=
  check_delivery r = true
  ∧ (live r → d_attempt_count r < d_max_attempts r)
  ∧ (d_status r = StatusProcessing → 1 <= d_attempt_count r).

Record db_ok_mod `{Postgres} (miss : list (string * Z)) (orph : list string) (d : db) : Prop := {
  ok_endpoints : ∀ id e, endpoints d !! id = Some e → check_endpoint e = true ∧ canonical id;
  ok_events : ∀ id e, events d !! id = Some e →
    canonical id ∧ is_Some (endpoints d !! ev_endpoint_id e);
  ok_deliveries : ∀ id r, deliveries d !! id = Some r →
    canonical id ∧ row_ok r
    ∧ ∃ e, events d !! d_event_id r = Some e ∧ ev_endpoint_id e = d_endpoint_id r;
  ok_attempts : ∀ id a, delivery_attempts d !! id = Some a →
    check_attempt a = true ∧ is_Some (deliveries d !! a_delivery_id a);
  ok_event_key : ∀ id1 id2 e1 e2, events d !! id1 = Some e1 → events d !! id2 = Some e2 →
    ev_endpoint_id e1 = ev_endpoint_id e2 → ev_idempotency_key e1 = ev_idempotency_key e2 →
    id1 = id2;
  ok_delivery_event : ∀ id1 id2 r1 r2, deliveries d !! id1 = Some r1 → deliveries d !! id2 = Some r2 →
    d_event_id r1 = d_event_id r2 → id1 = id2;
  ok_attempt_key : ∀ id1 id2 a1 a2,
    delivery_attempts d !! id1 = Some a1 → delivery_attempts d !! id2 = Some a2 →
    a_delivery_id a1 = a_delivery_id a2 → a_attempt_number a1 = a_attempt_number a2 → id1 = id2;
  ok_history : ∀ id r n, deliveries d !! id = Some r →
    has_attempt d id n ↔ 1 <= n <= recorded r ∧ (id, n) ∉ miss;
  ok_event_delivery : ∀ id e, events d !! id = Some e → id ∉ orph →
    ∃ did r, deliveries d !! did = Some r ∧ d_event_id r = id;
  ok_miss : ∀ id n, (id, n) ∈ miss →
    ∃ r, deliveries d !! id = Some r ∧ 1 <= n <= recorded r;
  ok_miss_nodup : NoDup miss;
}.

Definition db_ok `{Postgres} (d : db) : Prop := db_ok_mod [] [] d.

(** ** Evolution *)

(** Any transaction may move an endpoint's circuit; its identity is fixed and
    it stays disabled once disabled. *)
Record endpoint_evolves (e e' : EndpointRow) : Prop := {
  ee_fixed : ep_name e' = ep_name e ∧ ep_url e' = ep_url e
    ∧ ep_secret_ciphertext e' = ep_secret_ciphertext e ∧ ep_timeout_ms e' = ep_timeout_ms e
    ∧ ep_max_attempts e' = ep_max_attempts e ∧ ep_created_at e' = ep_created_at e;
  ee_disabled : ∀ t, ep_disabled_at e = Some t → ep_disabled_at e' = Some t;
}.

Record row_evolves (r r' : DeliveryRow) : Prop := {
  re_fixed : d_event_id r' = d_event_id r ∧ d_endpoint_id r' = d_endpoint_id r
    ∧ d_created_at r' = d_created_at r;
  re_status : transitions (d_status r) (d_status r');
  re_count : d_attempt_count r <= d_attempt_count r';
  re_max : d_max_attempts r <= d_max_attempts r';
  re_succeeded : d_status r = StatusSucceeded → r' = r;
}.

Record evolves `{Postgres} (d d' : db) : Prop := {
  ev_events : events d ⊆ events d';
  ev_attempts : delivery_attempts d ⊆ delivery_attempts d';
  ev_deliveries : ∀ id r, deliveries d !! id = Some r →
    ∃ r', deliveries d' !! id = Some r' ∧ row_evolves r r';
  ev_endpoints : ∀ id e, endpoints d !! id = Some e →
    ∃ e', endpoints d' !! id = Some e' ∧ endpoint_evolves e e';
}.

Lemma recorded_processing r :
  d_status r = StatusProcessing → recorded r = d_attempt_count r - 1.
Proof. intros H. unfold recorded. by rewrite bool_decide_eq_true_2. Qed.

Lemma recorded_idle r : d_status r ≠ StatusProcessing → recorded r = d_attempt_count r.
Proof. intros H. unfold recorded. by rewrite bool_decide_eq_false_2. Qed.

Lemma endpoint_evolves_refl e : endpoint_evolves e e.
Proof. by repeat split. Qed.

Lemma endpoint_evolves_trans e1 e2 e3 :
  endpoint_evolves e1 e2 → endpoint_evolves e2 e3 → endpoint_evolves e1 e3.
Proof.
  intros [(?&?&?&?&?&?) K1] [(?&?&?&?&?&?) K2]. split; [repeat split; congruence|]. eauto.
Qed.

Lemma row_evolves_refl r : row_evolves r r.
Proof. by split. Qed.

Lemma row_evolves_trans r1 r2 r3 : row_evolves r1 r2 → row_evolves r2 r3 → row_evolves r1 r3.
Proof.
  intros [(?&?&?) Hs1 ? ? Hd1] [(?&?&?) Hs2 ? ? Hd2]. split; try lia.
  - repeat split; congruence.
  - by etrans.
  - intros E. rewrite (Hd1 E) in *. auto.
Qed.

#[global] Hint Resolve endpoint_evolves_refl row_evolves_refl : relay.

Section Evolves.
Context `{PG : Postgres}.

#[export] Instance evolves_preorder : PreOrder evolves.
Proof.
  split.
  - intros d. split; eauto with relay.
  - intros d1 d2 d3 [He1 Ha1 Hd1 Hp1] [He2 Ha2 Hd2 Hp2]. split.
    + by etrans.
    + by etrans.
    + intros id r H. destruct (Hd1 _ _ H) as (r2 & H2 & E2). destruct (Hd2 _ _ H2) as (r3 & H3 & E3).
      exists r3. split; [done|]. by eapply row_evolves_trans.
    + intros id e H. destruct (Hp1 _ _ H) as (e2 & H2 & E2). destruct (Hp2 _ _ H2) as (e3 & H3 & E3).
      exists e3. split; [done|]. by eapply endpoint_evolves_trans.
Qed.

Lemma evolves_set_delivery d id r r' :
  deliveries d !! id = Some r → row_evolves r r' →
  evolves d (set_deliveries (<[id := r']> (deliveries d)) d).
Proof.
  intros H E. split; cbn; [done|done| |eauto with relay].
  intros id' r0 H'. destruct (decide (id' = id)) as [->|Hne].
  - exists r'. rewrite lookup_insert_eq. by simplify_eq.
  - exists r0. rewrite lookup_insert_ne by done. eauto with relay.
Qed.

Lemma evolves_set_endpoint d id e e' :
  endpoints d !! id = Some e → endpoint_evolves e e' →
  evolves d (set_endpoints (<[id := e']> (endpoints d)) d).
Proof.
  intros H E. split; cbn; [done|done|eauto with relay|].
  intros id' r0 H'. destruct (decide (id' = id)) as [->|Hne].
  - exists e'. rewrite lookup_insert_eq. by simplify_eq.
  - exists r0. rewrite lookup_insert_ne by done. eauto with relay.
Qed.

Lemma evolves_insert_attempt id a d d' : insert_attempt id a d = Ok d' → evolves d d'.
Proof.
  unfold insert_attempt. intros H. inv_stmt H. injection H as <-.
  apply is_null_None in E. split; cbn; eauto with relay. by apply insert_subseteq.
Qed.

Lemma evolves_insert_event id e d d' : insert_event id e d = Ok d' → evolves d d'.
Proof.
  unfold insert_event. intros H. inv_stmt H. injection H as <-.
  apply is_null_None in E. split; cbn; eauto with relay. by apply insert_subseteq.
Qed.

Lemma evolves_insert_delivery id r d d' : insert_delivery id r d = Ok d' → evolves d d'.
Proof.
  unfold insert_delivery. intros H. inv_stmt H. injection H as <-.
  apply is_null_None in E. split; cbn; eauto with relay.
  intros id' r0 H'. exists r0. split; [|apply row_evolves_refl].
  rewrite lookup_insert_ne; [done|congruence].
Qed.

Lemma evolves_insert_endpoint id e d d' : insert_endpoint id e d = Ok d' → evolves d d'.
Proof.
  unfold insert_endpoint. intros H. inv_stmt H. injection H as <-.
  apply is_null_None in E. split; cbn; eauto with relay.
  intros id' r0 H'. exists r0. split; [|apply endpoint_evolves_refl].
  rewrite lookup_insert_ne; [done|congruence].
Qed.
End Evolves.

(** ** The invariant under row-level statements *)

Section Preservation.
Context `{PG : Postgres}.
Implicit Types (d : db) (miss : list (string * Z)) (orph : list string).

Lemma sql_uuid_canonical {PL : PostgresLaws} s u : sql_uuid s = Ok u → canonical u.
Proof.
  unfold sql_uuid, canonical. destruct (uuid_in s) eqn:E; [|done]. intros [= <-].
  by eapply uuid_in_canonical.
Qed.

Lemma canonical_sql_uuid u : canonical u → sql_uuid u = Ok u.
Proof. unfold canonical, sql_uuid. by intros ->. Qed.

Lemma has_attempt_deliveries d m did n :
  has_attempt (set_deliveries m d) did n ↔ has_attempt d did n.
Proof. done. Qed.

(** Updating a delivery in place. Its recorded attempts stay what they were,
    or grow by one that is still missing. *)
Lemma ok_update_delivery miss miss' orph d id r r' :
  db_ok_mod miss orph d → deliveries d !! id = Some r →
  row_ok r' → d_event_id r' = d_event_id r → d_endpoint_id r' = d_endpoint_id r →
  (recorded r' = recorded r ∧ miss' = miss
   ∨ recorded r' = recorded r + 1 ∧ 0 <= recorded r ∧ miss' = (id, recorded r') :: miss) →
  db_ok_mod miss' orph (set_deliveries (<[id := r']> (deliveries d)) d).
Proof.
  intros Hok Hr Hr' Hev Hep Hmiss.
  assert (Hlook : ∀ id0 r0, <[id := r']> (deliveries d) !! id0 = Some r0 →
            ∃ r1, deliveries d !! id0 = Some r1 ∧ d_event_id r0 = d_event_id r1
                  ∧ d_endpoint_id r0 = d_endpoint_id r1 ∧ (id0 = id ∧ r0 = r' ∧ r1 = r ∨ id0 ≠ id ∧ r0 = r1)).
  { intros id0 r0 [[-> ->]|[Hne H]]%lookup_insert_Some; eauto 10. }
  destruct Hok as [H1 H2 H3 H4 H5 H6 H7 H8 H9 H10 H11]. split; cbn; try done.
  - intros id0 r0 (r1 & H & E1 & E2 & HH)%Hlook. destruct (H3 _ _ H) as (? & ? & ? & ? & ?).
    rewrite E1, E2. split; [done|]. split; [|by eexists].
    by destruct HH as [(-> & -> & ->)|(Hne & ->)].
  - intros id0 a H. destruct (H4 _ _ H) as (? & [r0 Hr0]). split; [done|].
    destruct (decide (id = a_delivery_id a)) as [->|];
      [rewrite lookup_insert_eq|rewrite lookup_insert_ne by done]; eauto.
  - intros id1 id2 r1 r2 (r1' & G1 & E1 & _ & _)%Hlook (r2' & G2 & E2 & _ & _)%Hlook.
    rewrite E1, E2. eauto.
  - intros id0 r0 n (r1 & H & _ & _ & HH)%Hlook. rewrite has_attempt_deliveries, (H8 id0 r1 n H).
    destruct HH as [(-> & -> & ->)|(Hne & ->)], Hmiss as [(E & ->)|(E & Hpos & ->)];
      rewrite ?E, ?not_elem_of_cons; try done.
    + split; [intros [Hn Hin]|intros [Hn [Hne' Hin]]].
      * split; [lia|]. split; [intros [= ->]; lia|done].
      * split; [|done]. destruct (decide (n = recorded r + 1)) as [->|]; [done|lia].
    + split; [intros [? ?]|intros [? [? ?]]]; repeat split; try done; try lia. congruence.
  - intros id0 e H Ho. destruct (H9 _ _ H Ho) as (did & r0 & Hd & E).
    destruct (decide (did = id)) as [->|Hne].
    + exists id, r'. rewrite lookup_insert_eq. split; [done|]. simplify_eq. congruence.
    + exists did, r0. by rewrite lookup_insert_ne.
  - intros id0 n Hin.
    assert (H0 : (id0, n) ∈ miss → ∃ r0, <[id:=r']> (deliveries d) !! id0 = Some r0 ∧ 1 <= n <= recorded r0).
    { intros (r0 & G & Hn)%H10. destruct (decide (id0 = id)) as [->|Hne].
      - exists r'. rewrite lookup_insert_eq. split; [done|]. simplify_eq.
        destruct Hmiss as [(E & _)|(E & _)]; lia.
      - exists r0. by rewrite lookup_insert_ne. }
    destruct Hmiss as [(_ & ->)|(E & Hpos & ->)]; [auto|].
    apply elem_of_cons in Hin as [[= -> ->]|Hin]; [|auto].
    exists r'. rewrite lookup_insert_eq. split; [done|lia].
  - destruct Hmiss as [(_ & ->)|(E & Hpos & ->)]; [done|]. constructor; [|done].
    intros (r0 & G & Hn)%H10. simplify_eq. lia.
Qed.

(** Recording an attempt that is missing. *)
Lemma ok_insert_attempt miss orph d d' aid a :
  db_ok_mod ((a_delivery_id a, a_attempt_number a) :: miss) orph d →
  insert_attempt aid a d = Ok d' → db_ok_mod miss orph d'.
Proof.
  unfold insert_attempt. intros Hok H. inv_stmt H. injection H as <-.
  apply is_null_None in E. apply is_null_Some in E2.
  destruct Hok as [H1 H2 H3 H4 H5 H6 H7 H8 H9 H10 H11].
  apply NoDup_cons in H11 as [Hnin Hnd].
  assert (Hnot : ¬ has_attempt d (a_delivery_id a) (a_attempt_number a)).
  { destruct E2 as [r Hr]. rewrite (H8 _ _ _ Hr). intros [_ []]. left. }
  assert (Hhas : ∀ did n, has_attempt (set_attempts (<[aid:=a]> (delivery_attempts d)) d) did n ↔
            (did = a_delivery_id a ∧ n = a_attempt_number a) ∨ has_attempt d did n).
  { intros did n. split.
    - intros (aid' & a' & Hl & <- & <-). cbn in Hl.
      apply lookup_insert_Some in Hl as [[<- <-]|[Hne H]]; [by left|].
      right. by exists aid', a'.
    - intros [[-> ->]|(aid' & a' & H & <- & <-)].
      + exists aid, a. cbn. by rewrite lookup_insert_eq.
      + exists aid', a'. cbn. rewrite lookup_insert_ne by congruence. done. }
  split; cbn; try done.
  - intros id a' [[<- <-]|[Hne H]]%lookup_insert_Some; [done|eauto].
  - intros id1 id2 a1 a2 [[<- <-]|[Hne1 G1]]%lookup_insert_Some
      [[<- <-]|[Hne2 G2]]%lookup_insert_Some Ed En; [done| | |eauto].
    + exfalso. apply Hnot. by exists id2, a2.
    + exfalso. apply Hnot. by exists id1, a1.
  - intros id r n Hr. rewrite Hhas, (H8 _ _ _ Hr), not_elem_of_cons.
    split.
    + intros [[-> ->]|[Hn [_ Hin]]]; [|done]. split; [|done].
      destruct (H10 (a_delivery_id a) (a_attempt_number a)) as (r0 & Hr0 & Hn); [left|]. by simplify_eq.
    + intros [Hn Hin].
      destruct (decide ((id, n) = (a_delivery_id a, a_attempt_number a))) as [[= -> ->]|]; [by left|].
      right. done.
  - intros id n Hin. apply H10. by right.
Qed.

(** Any change of an endpoint that keeps its check. *)
Lemma ok_update_endpoint miss orph d d' id e e' :
  db_ok_mod miss orph d → endpoints d !! id = Some e →
  update_endpoint id e' d = Ok d' → db_ok_mod miss orph d'.
Proof.
  unfold update_endpoint. intros Hok He H. inv_stmt H. injection H as <-.
  destruct Hok as [H1 H2 H3 H4 H5 H6 H7 H8 H9 H10 H11].
  split; cbn; try done.
  - intros id' e0 [[-> ->]|[Hne G]]%lookup_insert_Some; [|eauto]. split; [done|].
    by destruct (H1 _ _ He).
  - intros id' e0 G. destruct (H2 _ _ G) as [Hc [e1 He1]]. split; [done|].
    destruct (decide (id = ev_endpoint_id e0)) as [->|];
      [rewrite lookup_insert_eq|rewrite lookup_insert_ne by done]; eauto.
Qed.

Lemma ok_insert_endpoint miss orph d d' id e :
  db_ok_mod miss orph d → canonical id → insert_endpoint id e d = Ok d' → db_ok_mod miss orph d'.
Proof.
  unfold insert_endpoint. intros Hok Hc H. inv_stmt H. injection H as <-.
  destruct Hok as [H1 H2 H3 H4 H5 H6 H7 H8 H9 H10 H11].
  split; cbn; try done.
  - intros id' e0 [[<- <-]|[Hne G]]%lookup_insert_Some; [done|eauto].
  - intros id' e0 G. destruct (H2 _ _ G) as [Hc' [e1 He1]]. split; [done|].
    destruct (decide (id = ev_endpoint_id e0)) as [->|];
      [rewrite lookup_insert_eq|rewrite lookup_insert_ne by done]; eauto.
Qed.

Lemma ok_insert_event miss orph d d' id e :
  db_ok_mod miss orph d → canonical id →
  (∀ id' e', events d !! id' = Some e' → ev_endpoint_id e' = ev_endpoint_id e →
     ev_idempotency_key e' = ev_idempotency_key e → False) →
  insert_event id e d = Ok d' → db_ok_mod miss (id :: orph) d'.
Proof.
  unfold insert_event. intros Hok Hc Hkey H. inv_stmt H. injection H as <-.
  apply is_null_None in E. apply is_null_Some in E0.
  destruct Hok as [H1 H2 H3 H4 H5 H6 H7 H8 H9 H10 H11].
  split; cbn; try done.
  - intros id' e0 [[<- <-]|[Hne G]]%lookup_insert_Some; [done|eauto].
  - intros id' r G. destruct (H3 _ _ G) as (? & ? & e0 & He0 & ?). split; [done|]. split; [done|].
    exists e0. rewrite lookup_insert_ne by congruence. done.
  - intros id1 id2 e1 e2 [[<- <-]|[Hne1 G1]]%lookup_insert_Some
      [[<- <-]|[Hne2 G2]]%lookup_insert_Some Ed En; [done| | |eauto].
    + exfalso. by eapply Hkey.
    + exfalso. by eapply Hkey.
  - intros id' e0 [[<- <-]|[Hne G]]%lookup_insert_Some Hn; apply not_elem_of_cons in Hn as [Hn1 Hn2];
      [done|eauto].
Qed.

Lemma ok_insert_delivery miss orph d d' id r e :
  db_ok_mod miss (d_event_id r :: orph) d → canonical id → row_ok r → recorded r = 0 →
  events d !! d_event_id r = Some e → ev_endpoint_id e = d_endpoint_id r →
  (∀ id' r', deliveries d !! id' = Some r' → d_event_id r' = d_event_id r → False) →
  insert_delivery id r d = Ok d' → db_ok_mod miss orph d'.
Proof.
  unfold insert_delivery. intros Hok Hc Hrow Hrec He Hep Hnew H. inv_stmt H. injection H as <-.
  apply is_null_None in E.
  destruct Hok as [H1 H2 H3 H4 H5 H6 H7 H8 H9 H10 H11].
  split; cbn; try done.
  - intros id' r0 [[<- <-]|[Hne G]]%lookup_insert_Some; [|eauto]. eauto.
  - intros id' a G. destruct (H4 _ _ G) as (? & [r0 Hr0]). split; [done|].
    rewrite lookup_insert_ne by congruence. eauto.
  - intros id1 id2 e1 e2 [[<- <-]|[Hne1 G1]]%lookup_insert_Some
      [[<- <-]|[Hne2 G2]]%lookup_insert_Some Ed; [done| | |eauto].
    + exfalso. by eapply Hnew.
    + exfalso. by eapply Hnew.
  - intros id' r0 n [[<- <-]|[Hne G]]%lookup_insert_Some; rewrite has_attempt_deliveries; [|eauto].
    rewrite Hrec. split; [|lia]. intros (aid & a & Ha & <- & _).
    destruct (H4 _ _ Ha) as (_ & [r1 Hr1]). congruence.
  - intros id' e0 G Hn. destruct (decide (id' = d_event_id r)) as [->|Hne].
    + exists id, r. by rewrite lookup_insert_eq.
    + destruct (H9 _ _ G) as (did & r0 & Hd & <-); [by apply not_elem_of_cons|].
      exists did, r0. rewrite lookup_insert_ne by congruence. done.
  - intros id' n Hin. destruct (H10 _ _ Hin) as (r0 & Hr0 & Hn). exists r0.
    rewrite lookup_insert_ne by congruence. done.
Qed.

Lemma ok_empty : db_ok empty_db.
Proof.
  split; cbn; intros; repeat match goal with H : ∅ !! _ = Some _ |- _ => by rewrite lookup_empty in H end.
  - by apply elem_of_nil in H.
  - constructor.
Qed.
End Preservation.
