(* ===== verification/TxLogic.v ===== *)
(** * A program logic for transactions

    Assertions speak of the durable and the working database. A triple
    [triple P m Q E] says: started in [P], every run of [m] (under any faults)
    ends in [Q a] when it returns [a], and in [E] when it returns an error. *)

From S2P Require Import Prelude GoErrors GoTime GoText Delivery Schema Tx.

Section Logic.
Context `{PG : Postgres}.

Abbreviation asrt := (db → db → Prop).

Definition holds (P : asrt) (s : conn) : Prop := P (durable s) (work s).

Definition triple {A} (P : asrt) (m : M A) (Q : A → asrt) (E : asrt) : Prop :=
  ∀ s r s', holds P s → runs m s r s' →
  match r with Ok a => holds (Q a) s' | Err _ => holds E s' end.

Lemma triple_ret {A} (a : A) (P : asrt) (Q : A → asrt) E :
  (∀ D W, P D W → Q a D W) → triple P (mret a) Q E.
Proof. intros H s r s' HP [-> ->]%runs_ret. by apply H. Qed.

Lemma triple_throw {A} e (P : asrt) (Q : A → asrt) E :
  (∀ D W, P D W → E D W) → triple P (throw e) Q E.
Proof. intros H s r s' HP [-> ->]%runs_throw. by apply H. Qed.

Lemma triple_bind {A B} (m : M A) (f : A → M B) P Q R E :
  triple P m Q E → (∀ a, triple (Q a) (f a) R E) → triple P (m ≫= f) R E.
Proof.
  intros Hm Hf s r s' HP [(e & H & ->)|(a & s1 & H1 & H)]%runs_bind.
  - by apply (Hm _ _ _ HP H).
  - specialize (Hm _ _ _ HP H1). cbn in Hm. by apply (Hf a s1).
Qed.

Lemma triple_wrapping {A} msg (m : M A) P Q E :
  triple P m Q E → triple P (wrapping msg m) Q E.
Proof.
  intros Hm s r s' HP (r' & H & ->)%runs_wrapping. specialize (Hm _ _ _ HP H). by destruct r'.
Qed.

Lemma triple_try {A} (m : M A) P Q E E' :
  triple P m Q E' →
  triple P (try m) (λ r, match r with Ok a => Q a | Err _ => E' end) E.
Proof.
  intros Hm s r s' HP (r' & H & ->)%runs_try. specialize (Hm _ _ _ HP H). by destruct r'.
Qed.

Lemma triple_consequence {A} (m : M A) (P P' : asrt) (Q Q' : A → asrt) (E : asrt) :
  triple P' m Q' E → (∀ D W, P D W → P' D W) → (∀ a D W, Q' a D W → Q a D W) → triple P m Q E.
Proof.
  intros Hm HP HQ s r s' H Hr. specialize (Hm s r s' (HP _ _ H) Hr). destruct r; [by apply HQ|done].
Qed.

(** A fact the precondition carries. *)
Lemma triple_known {A} (φ : Prop) (m : M A) P Q E :
  (∀ D W, P D W → φ) → (φ → triple P m Q E) → triple P m Q E.
Proof. intros Hφ Hm s r s' HP. by apply (Hm (Hφ _ _ HP)). Qed.

Lemma triple_io (P Q : asrt) (E : asrt) :
  (∀ D W, P D W → Q D W) → (∀ D W, P D W → E D W) → triple P io (λ _, Q) E.
Proof.
  unfold triple, holds. intros HQ HE s r s' HP ([HD _] & HW & _)%runs_io.
  rewrite HD, HW. destruct r; auto.
Qed.

Lemma triple_new_uuid `{Uuids} (P E : asrt) : triple P new_uuid (λ _, P) E.
Proof. unfold triple, holds. intros s r s' HP (-> & [-> _] & -> & _)%runs_new_uuid. done. Qed.

Lemma triple_BeginTx (P Q E : asrt) :
  (∀ D W, P D W → Q D D) → (∀ D W W', P D W → E D W') → triple P BeginTx (λ _, Q) E.
Proof.
  unfold triple, holds. intros HQ HE s r s' HP ([HD _] & _ & HW & _)%runs_BeginTx.
  rewrite HD. destruct r as [[]|e]; [rewrite HW by done; eauto|eauto].
Qed.

Lemma triple_Commit (P Q E : asrt) :
  (∀ D W W', P D W → Q W W') → (∀ D W W', P D W → E D W' ∧ E W W') → triple P Commit (λ _, Q) E.
Proof.
  unfold triple, holds. intros HQ HE s r s' HP (_ & [[-> HD]|(e & -> & [HD|HD])] & _)%runs_Commit;
    rewrite HD; eauto.
  - by apply (HE (durable s) (work s)).
  - by apply (HE (durable s) (work s)).
Qed.

Lemma triple_statement {A} (f : db → res (db * A)) (P : asrt) (Q : A → asrt) (E : asrt) :
  (∀ D W W' a, P D W → f W = Ok (W', a) → Q a D W') → (∀ D W, P D W → E D W) →
  triple P (statement f) Q E.
Proof.
  unfold triple, holds.
  intros HQ HE s r s' HP ([HD _] & _ & [(e & -> & HW & _)|(a & d' & Hf & -> & HW & _)])%runs_statement;
    rewrite HD, HW; eauto.
Qed.

Lemma triple_QueryRow {A} (f : db → res (db * list A)) (P : asrt) (Q : A → asrt) (E : asrt) :
  (∀ D W W' a l, P D W → f W = Ok (W', a :: l) → Q a D W') →
  (∀ D W W', P D W → f W = Ok (W', []) → E D W') → (∀ D W, P D W → E D W) →
  triple P (QueryRow f) Q E.
Proof.
  intros HQ H0 HE. unfold QueryRow.
  eapply (triple_bind _ _ _ (λ rows D W, match rows with [] => E D W | x :: _ => Q x D W end)).
  - apply triple_statement; [|done]. intros D W W' [|a l] HP Hf; eauto.
  - intros [|a l]; [by apply triple_throw|by apply triple_ret].
Qed.

Lemma triple_Exec (f : db → res db) (P : asrt) (Q E : asrt) :
  (∀ D W W', P D W → f W = Ok W' → Q D W') → (∀ D W, P D W → E D W) →
  triple P (Exec f) (λ _, Q) E.
Proof.
  intros HQ HE. unfold Exec. apply triple_statement; [|done].
  intros D W W' a HP Hf. destruct (f W) as [d'|e] eqn:Ef; cbn in Hf; [|done].
  injection Hf as -> <-. eauto.
Qed.
End Logic.

(** ** Atomicity

    When no acknowledgement of a commit is lost, an operation that returns an
    error has changed nothing durable. [quiet] computations commit nothing;
    [atomic] ones commit at most once, as the last thing they do. *)

Section Atomicity.
Context `{PG : Postgres}.

Definition no_ack_lost (fs : list fault) : Prop := ∀ e, AckLost e ∉ fs.

Definition quiet {A} (m : M A) : Prop :=
  ∀ s r s', no_ack_lost (faults s) → runs m s r s' →
  no_ack_lost (faults s') ∧ durable s' = durable s.

Definition atomic {A} (m : M A) : Prop :=
  ∀ s r s', no_ack_lost (faults s) → runs m s r s' →
  ∀ e, r = Err e → durable s' = durable s.

Lemma quiet_atomic {A} (m : M A) : quiet m → atomic m.
Proof. intros Hm s r s' Hf Hr e ->. by apply (Hm _ _ _ Hf Hr). Qed.

Lemma quiet_ret {A} (a : A) : quiet (mret a).
Proof. by intros s r s' Hf [-> ->]%runs_ret. Qed.

Lemma quiet_throw {A} e : quiet (throw (A := A) e).
Proof. by intros s r s' Hf [-> ->]%runs_throw. Qed.

Lemma quiet_bind {A B} (m : M A) (f : A → M B) :
  quiet m → (∀ a, quiet (f a)) → quiet (m ≫= f).
Proof.
  intros Hm Hf s r s' Hn [(e & H & ->)|(a & s1 & H1 & H)]%runs_bind.
  - by apply (Hm _ _ _ Hn H).
  - destruct (Hm _ _ _ Hn H1) as [Hn1 E1]. destruct (Hf a _ _ _ Hn1 H) as [Hn2 E2].
    split; [done|congruence].
Qed.

Lemma quiet_try {A} (m : M A) : quiet m → quiet (try m).
Proof. intros Hm s r s' Hn (r' & H & ->)%runs_try. by apply (Hm _ _ _ Hn H). Qed.

Lemma quiet_wrapping {A} msg (m : M A) : quiet m → quiet (wrapping msg m).
Proof. intros Hm s r s' Hn (r' & H & ->)%runs_wrapping. by apply (Hm _ _ _ Hn H). Qed.

Lemma no_ack_lost_tail f fs : no_ack_lost (f :: fs) → no_ack_lost fs.
Proof. intros H e Hin. apply (H e). by right. Qed.

Lemma quiet_next_fault : quiet next_fault.
Proof.
  unfold quiet, runs, next_fault. intros s r s' Hn. destruct (faults s) as [|f fs] eqn:E.
  - intros [= <- <-]. by rewrite E.
  - intros [= <- <-]. cbn. split; [by eapply no_ack_lost_tail|done].
Qed.

Lemma quiet_io : quiet io.
Proof.
  apply quiet_bind; [apply quiet_next_fault|].
  intros []; [apply quiet_ret|apply quiet_throw|apply quiet_throw].
Qed.

(** A step that computes without calling the database. *)
Lemma quiet_pure {A} (g : conn → res A * conn) :
  (∀ s, faults (g s).2 = faults s ∧ durable (g s).2 = durable s) → quiet g.
Proof.
  unfold quiet, runs. intros Hg s r s' Hn E. destruct (Hg s) as [H1 H2].
  rewrite E in H1, H2. cbn in H1, H2. by rewrite H1, H2.
Qed.

Lemma quiet_statement {A} (f : db → res (db * A)) : quiet (statement f).
Proof.
  apply quiet_bind; [apply quiet_io|]. intros []. apply quiet_bind; [by apply quiet_pure|].
  intros d. destruct (f d) as [[d' a]|e]; [|apply quiet_throw].
  apply quiet_bind; [by apply quiet_pure|]. intros _. apply quiet_ret.
Qed.

Lemma quiet_QueryRow {A} (f : db → res (db * list A)) : quiet (QueryRow f).
Proof.
  apply quiet_bind; [apply quiet_statement|]. intros [|x l]; [apply quiet_throw|apply quiet_ret].
Qed.

Lemma quiet_Exec (f : db → res db) : quiet (Exec f).
Proof. apply quiet_statement. Qed.

Lemma quiet_BeginTx : quiet BeginTx.
Proof. apply quiet_bind; [apply quiet_io|]. intros _. by apply quiet_pure. Qed.

Lemma quiet_new_uuid `{Uuids} : quiet new_uuid.
Proof. by apply quiet_pure. Qed.

(** The commit itself, and the code after it, which cannot fail. *)
Lemma atomic_Commit : atomic Commit.
Proof.
  unfold atomic, runs, Commit, next_fault, mbind, M_bind, throw, publish. intros s r s' Hn.
  destruct (faults s) as [|[|e|e] fs] eqn:E; intros [= <- <-] e' He; try done.
  exfalso. apply (Hn e). left.
Qed.

Lemma atomic_ret_after {A B} (m : M A) (g : A → B) : atomic m → atomic (a ← m; mret (g a)).
Proof.
  intros Hm s r s' Hn [(e & H & ->)|(a & s1 & H1 & [-> ->]%runs_ret)]%runs_bind; [|done].
  intros e' _. by eapply Hm.
Qed.

Lemma atomic_wrapping {A} msg (m : M A) : atomic m → atomic (wrapping msg m).
Proof.
  intros Hm s r s' Hn (r' & H & ->)%runs_wrapping e He. destruct r' as [|e']; [done|].
  by eapply (Hm _ _ _ Hn H).
Qed.

Lemma atomic_bind {A B} (m : M A) (f : A → M B) :
  quiet m → (∀ a, atomic (f a)) → atomic (m ≫= f).
Proof.
  intros Hm Hf s r s' Hn [(e & H & ->)|(a & s1 & H1 & H)]%runs_bind e' He.
  - by destruct (Hm _ _ _ Hn H).
  - destruct (Hm _ _ _ Hn H1) as [Hn1 <-]. by eapply (Hf a).
Qed.

Lemma atomic_throw {A} e : atomic (throw (A := A) e).
Proof. apply quiet_atomic, quiet_throw. Qed.

Lemma atomic_commit_then {A} msg (a : A) : atomic (_ ← wrapping msg Commit; mret a).
Proof. apply (atomic_ret_after _ (λ _, a)), atomic_wrapping, atomic_Commit. Qed.
End Atomicity.

#[export] Hint Resolve quiet_ret quiet_throw quiet_io quiet_statement quiet_QueryRow quiet_Exec
  quiet_BeginTx quiet_new_uuid quiet_try quiet_wrapping atomic_throw atomic_commit_then
  atomic_wrapping atomic_Commit : relay.

(** Proves [quiet] and [atomic] goals by following the program. *)
Ltac solve_atomic :=
  repeat first
    [ progress intros
    | solve [eauto 2 with relay]
    | apply quiet_try | apply quiet_wrapping
    | apply quiet_bind | apply atomic_bind
    | match goal with
      | |- quiet (match ?x with _ => _ end) => destruct x
      | |- atomic (match ?x with _ => _ end) => destruct x
      | |- quiet (let '_ := ?x in _) => destruct x
      end ].

(** ** Runs without faults

    Symbolic evaluation of a transaction on a healthy connection. *)

Section NoFaults.
Context `{PG : Postgres}.

Lemma eval_BeginTx (D W : db) n : BeginTx (mkConn _ D W [] n) = (Ok tt, mkConn _ D D [] n).
Proof. done. Qed.

Lemma eval_Commit (D W : db) n : Commit (mkConn _ D W [] n) = (Ok tt, mkConn _ W W [] n).
Proof. done. Qed.

Lemma eval_io (D W : db) n : io (mkConn _ D W [] n) = (Ok tt, mkConn _ D W [] n).
Proof. done. Qed.

Lemma eval_statement {A} (f : db → res (db * A)) (D W : db) n :
  statement f (mkConn _ D W [] n) =
  match f W with
  | Ok (W', a) => (Ok a, mkConn _ D W' [] n)
  | Err e => (Err e, mkConn _ D W [] n)
  end.
Proof.
  change (statement f (mkConn _ D W [] n)) with
    (match f W with Ok (d', a) => _ ← set_work d'; mret a | Err e => throw e end (mkConn _ D W [] n)).
  by destruct (f W) as [[W' a]|e].
Qed.

Lemma eval_QueryRow {A} (f : db → res (db * list A)) (D W : db) n :
  QueryRow f (mkConn _ D W [] n) =
  match f W with
  | Ok (W', []) => (Err pgx_ErrNoRows, mkConn _ D W' [] n)
  | Ok (W', a :: _) => (Ok a, mkConn _ D W' [] n)
  | Err e => (Err e, mkConn _ D W [] n)
  end.
Proof.
  unfold QueryRow, mbind, M_bind. rewrite eval_statement.
  by destruct (f W) as [[W' [|a l]]|e].
Qed.

Lemma eval_Exec (f : db → res db) (D W : db) n :
  Exec f (mkConn _ D W [] n) =
  match f W with
  | Ok W' => (Ok tt, mkConn _ D W' [] n)
  | Err e => (Err e, mkConn _ D W [] n)
  end.
Proof. unfold Exec. rewrite eval_statement. cbn. by destruct (f W). Qed.

Lemma eval_new_uuid `{Uuids} (D W : db) n :
  new_uuid (mkConn _ D W [] n) = (Ok (NewString n), mkConn _ D W [] (S n)).
Proof. done. Qed.

Lemma eval_bind {A B} (m : M A) (f : A → M B) s :
  (m ≫= f) s = match m s with (Ok a, s') => f a s' | (Err e, s') => (Err e, s') end.
Proof. done. Qed.

Lemma eval_try {A} (m : M A) s : try m s = let '(r, s') := m s in (Ok r, s').
Proof. done. Qed.

Lemma eval_wrapping {A} msg (m : M A) s :
  wrapping msg m s = let '(r, s') := m s in (map_err (wrapf msg) r, s').
Proof. done. Qed.

Lemma eval_ret {A} (a : A) (s : conn) : (mret a : M A) s = (Ok a, s).
Proof. done. Qed.

Lemma eval_throw {A} e (s : conn) : (throw e : M A) s = (Err e, s).
Proof. done. Qed.
End NoFaults.

Create Rewrite HintDb eval.
#[export] Hint Rewrite @eval_bind @eval_try @eval_wrapping @eval_ret @eval_throw @eval_BeginTx
  @eval_Commit @eval_io @eval_statement @eval_QueryRow @eval_Exec @eval_new_uuid : eval.

Ltac run_eval := repeat (autorewrite with eval; cbn [map_err wrapf]).
