(* ===== verification/Queue.v ===== *)
(** * The delivery queue

    [src/internal/store/queue.go]: claiming a delivery under a lease,
    recovering expired leases, and finishing an attempt. Each SQL text is a
    function on the database; the Go functions are transactions over them, in
    the order the code issues them. *)

From S2P Require Import Prelude GoErrors GoTime GoText Delivery Schema Tx.

Definition ErrLeaseLost : error := Sentinel "store.ErrLeaseLost" "delivery lease lost".

(** ** Data *)

Record Job : Type := mkJob {
  Job_Delivery : Delivery;
  Job_Event : Event;
  Job_Endpoint : Endpoint;
}.

(** A string type with three named values; [CircuitOther] is any other. *)
Inductive CircuitOutcome : Type :=
  | CircuitNone
  | CircuitFailure
  | CircuitSuccess
  | CircuitOther (s : string).

#[export] Instance CircuitOutcome_eq_dec : EqDecision CircuitOutcome.
Proof. solve_decision. Defined.

Record AttemptResult : Type := mkAttemptResult {
  AR_DeliveryID : string;
  AR_WorkerID : string;
  AR_LeaseToken : string;
  AR_AttemptNumber : Z;
  AR_Decision : Decision;
  AR_StatusCode : option Z;
  AR_ResponseBody : string;
  AR_ErrorMessage : string;
  AR_Duration : Duration;
  AR_StartedAt : Time;
  AR_CompletedAt : Time;
  AR_NextAttemptAt : Time;
  AR_CircuitOutcome : CircuitOutcome;
  AR_CircuitThreshold : Z;
  AR_CircuitCooldown : Duration;
}.

Record recoveredLease : Type := mkRecoveredLease {
  rl_deliveryID : string;
  rl_attempt : Z;
  rl_startedAt : Time;
  rl_completedAt : Time;
}.

(** ** Pure helpers *)

Definition durationMilliseconds (value : Duration) : Z :=
  let milliseconds := Milliseconds value in
  if MaxInt32 <? milliseconds then MaxInt32 else wrap32 milliseconds.

Definition validateAttemptResult (r : AttemptResult) : res unit :=
  if blank (AR_DeliveryID r) then Err (New "delivery id is required")
  else if blank (AR_WorkerID r) then Err (New "worker id is required")
  else if blank (AR_LeaseToken r) then Err (New "lease token is required")
  else if (AR_AttemptNumber r <? 1) || (MaxInt32 <? AR_AttemptNumber r)
  then Err (New "attempt number is outside the supported range")
  else if negb (bool_decide (AR_Decision r = DecisionSucceed))
          && negb (bool_decide (AR_Decision r = DecisionRetry))
          && negb (bool_decide (AR_Decision r = DecisionDiscard))
  then Err (New "invalid delivery decision")
  else if match AR_StatusCode r with Some c => (c <? 100) || (599 <? c) | None => false end
  then Err (New "status code must be between 100 and 599")
  else if is_null (AR_StatusCode r) && blank (AR_ErrorMessage r)
  then Err (New "error message is required without status code")
  else if is_null (AR_StatusCode r) && bool_decide (AR_Decision r = DecisionSucceed)
  then Err (New "successful result requires a status code")
  else if match AR_StatusCode r with
          | Some c => negb (bool_decide (Evaluate c None = AR_Decision r)) | None => false end
  then Err (New "decision does not match status code")
  else if AR_Duration r <? 0 then Err (New "duration must not be negative")
  else if IsZero (AR_StartedAt r) || IsZero (AR_CompletedAt r)
          || Before (AR_CompletedAt r) (AR_StartedAt r)
  then Err (New "invalid attempt timestamps")
  else if bool_decide (AR_Decision r = DecisionRetry)
          && negb (After (AR_NextAttemptAt r) (AR_CompletedAt r))
  then Err (New "next attempt must be after completion")
  else if negb (bool_decide (AR_CircuitOutcome r = CircuitNone))
          && negb (bool_decide (AR_CircuitOutcome r = CircuitFailure))
          && negb (bool_decide (AR_CircuitOutcome r = CircuitSuccess))
  then Err (New "invalid circuit outcome")
  else if bool_decide (AR_CircuitOutcome r = CircuitFailure)
          && ((AR_CircuitThreshold r <? 1) || (AR_CircuitCooldown r <? Millisecond))
  then Err (New "invalid circuit breaker configuration")
  else Ok tt.

Section Queue.
Context `{PG : Postgres} `{UU : Uuids} `{TE : TxEnv}.

(** ** recoverExpiredQuery *)

Definition lease_expired (row : DeliveryRow) : bool :=
  bool_decide (d_status row = StatusProcessing)
  && match d_locked_until row with Some u => u <=? now | None => false end.

Definition by_locked_until (a b : string * DeliveryRow) : Prop :=
  default 0 (d_locked_until a.2) <= default 0 (d_locked_until b.2).
#[export] Instance by_locked_until_dec : RelDecision by_locked_until.
Proof. intros a b. unfold by_locked_until. apply _. Defined.

(** The rows of the CTE [expired]. *)
Definition expired_rows (d : db) : list (string * DeliveryRow) :=
  take 32 (merge_sort by_locked_until
    (List.filter (λ kv, lease_expired kv.2 && negb (bool_decide (kv.1 ∈ locked_recover)))
       (scan_order _ (deliveries d)))).

Definition recovered_row (row : DeliveryRow) : DeliveryRow :=
  let again := d_attempt_count row <? d_max_attempts row in
  mkDeliveryRow (d_event_id row) (d_endpoint_id row)
    (if again then StatusRetrying else StatusDead)
    (d_attempt_count row) (d_max_attempts row)
    (if again then now else d_next_attempt_at row)
    None None None None
    (d_last_status_code row) "delivery lease expired" (Some now)
    (d_created_at row) now.

(** The UPDATE over every expired row, all or nothing. *)
Fixpoint update_recovered (rows : list (string * DeliveryRow)) (d : db) : res db :=
  match rows with
  | [] => Ok d
  | (id, row) :: rows' =>
      d' ← update_delivery id (recovered_row row) d; update_recovered rows' d'
  end.

(** A returned row: [d.id, d.attempt_count, e.locked_at, d.last_completed_at]. *)
Definition recoverExpiredQuery (d : db) : res (db * list (string * Z * option Z * Z)) :=
  let rows := expired_rows d in
  d' ← update_recovered rows d;
  Ok (d', map (λ '(id, row), (id, d_attempt_count row, d_locked_at row, now)) rows).

(** ** claimDeliveryQuery *)

Definition endpoint_open (e : EndpointRow) : bool :=
  is_null (ep_disabled_at e) && null_or (λ t, t <=? now) (ep_circuit_open_until e).

Definition claimable (d : db) (row : DeliveryRow) : bool :=
  (bool_decide (d_status row = StatusPending) || bool_decide (d_status row = StatusRetrying))
  && (d_next_attempt_at row <=? now)
  && (d_attempt_count row <? d_max_attempts row)
  && match endpoints d !! d_endpoint_id row with Some e => endpoint_open e | None => false end.

Definition by_next_attempt (a b : string * DeliveryRow) : Prop :=
  d_next_attempt_at a.2 < d_next_attempt_at b.2
  ∨ (d_next_attempt_at a.2 = d_next_attempt_at b.2 ∧ d_created_at a.2 <= d_created_at b.2).
#[export] Instance by_next_attempt_dec : RelDecision by_next_attempt.
Proof. intros a b. unfold by_next_attempt. apply _. Defined.

(** The row of the CTE [candidate]. *)
Definition candidate (d : db) : option (string * DeliveryRow) :=
  head (merge_sort by_next_attempt
    (List.filter (λ kv, claimable d kv.2 && negb (bool_decide (kv.1 ∈ locked_claim)))
       (scan_order _ (deliveries d)))).

Definition claimed_row (worker token : string) (lease_ms : Z) (row : DeliveryRow) : DeliveryRow :=
  mkDeliveryRow (d_event_id row) (d_endpoint_id row) StatusProcessing
    (d_attempt_count row + 1) (d_max_attempts row) (d_next_attempt_at row)
    (Some worker) (Some token) (Some now) (Some (now + interval_ms lease_ms))
    (d_last_status_code row) (d_last_error row) (d_last_completed_at row)
    (d_created_at row) now.

Abbreviation job_row := ((string * DeliveryRow) * (string * EventRow) * (string * EndpointRow))%type.

Definition claimDeliveryQuery (worker token : string) (lease_ms : Z) (d : db)
    : res (db * list job_row) :=
  worker ← sql_text worker;
  token ← sql_uuid token;
  match candidate d with
  | None => Ok (d, [])
  | Some (id, row) =>
      _ ← sql_guard (int4 (d_attempt_count row + 1)) out_of_range;
      let row' := claimed_row worker token lease_ms row in
      d' ← update_delivery id row' d;
      Ok (d', match events d' !! d_event_id row', endpoints d' !! d_endpoint_id row' with
              | Some ev, Some ep => [((id, row'), (d_event_id row', ev), (d_endpoint_id row', ep))]
              | _, _ => []
              end)
  end.

(** ** scanJob *)

Definition scanJob (r : job_row) : res Job :=
  let '((id, d), (ev_id, ev), (ep_id, ep)) := r in
  match d_locked_by d, d_lease_token d with
  | Some worker, Some token =>
      Ok (mkJob
        (mkDelivery id (d_event_id d) (d_endpoint_id d) (d_status d) (d_attempt_count d)
           (d_max_attempts d) (time_of_ts (d_next_attempt_at d)) worker token
           (option_map time_of_ts (d_locked_at d)) (option_map time_of_ts (d_locked_until d))
           (d_last_status_code d) (d_last_error d)
           (option_map time_of_ts (d_last_completed_at d))
           (time_of_ts (d_created_at d)) (time_of_ts (d_updated_at d)))
        (mkEvent ev_id (ev_endpoint_id ev) (ev_event_type ev) (jsonb_out (ev_payload ev))
           (ev_idempotency_key ev) (time_of_ts (ev_created_at ev)))
        (mkEndpoint ep_id (ep_name ep) (ep_url ep) (ep_secret_ciphertext ep)
           (ep_timeout_ms ep * Millisecond) (ep_max_attempts ep) (ep_consecutive_failures ep)
           (option_map time_of_ts (ep_disabled_at ep))
           (option_map time_of_ts (ep_circuit_open_until ep))
           (time_of_ts (ep_created_at ep)) (time_of_ts (ep_updated_at ep))))
  | _, _ => Err null_scan
  end.

(** ** recoverExpiredLeases *)

Definition scan_recovered (r : string * Z * option Z * Z) : res recoveredLease :=
  let '(id, attempt, locked_at, completed_at) := r in
  match locked_at with
  | Some l => Ok (mkRecoveredLease id attempt (time_of_ts l) (time_of_ts completed_at))
  | None => Err null_scan
  end.

(** [rows.Next] and [rows.Scan], row by row. *)
Fixpoint scan_rows (rows : list (string * Z * option Z * Z)) : M (list recoveredLease) :=
  match rows with
  | [] => mret []
  | r :: rows' =>
      item ← wrapping "scan expired lease"
               (_ ← io; match scan_recovered r with Ok i => mret i | Err e => throw e end);
      items ← scan_rows rows';
      mret (item :: items)
  end.

(** The INSERT ... ON CONFLICT (delivery_id, attempt_number) DO NOTHING. *)
Definition insert_expired_attempt (id : string) (item : recoveredLease) (d : db) : res db :=
  id ← sql_uuid id;
  delivery_id ← sql_uuid (rl_deliveryID item);
  let row := mkAttemptRow delivery_id (rl_attempt item) None "" "delivery lease expired"
    (durationMilliseconds (Sub (rl_completedAt item) (rl_startedAt item)))
    (ts_of_time (rl_startedAt item)) (ts_of_time (rl_completedAt item)) in
  match attempt_of delivery_id (rl_attempt item) d with
  | Some _ => _ ← sql_guard (check_attempt row) (check_violation "delivery_attempts"); Ok d
  | None => insert_attempt id row d
  end.

Fixpoint record_recovered (items : list recoveredLease) : M unit :=
  match items with
  | [] => mret tt
  | item :: items' =>
      id ← new_uuid;
      _ ← wrapping "record expired lease" (Exec (insert_expired_attempt id item));
      record_recovered items'
  end.

Definition recoverExpiredLeases : M unit :=
  rows ← wrapping "recover expired leases" (statement recoverExpiredQuery);
  recovered ← scan_rows rows;
  _ ← wrapping "iterate expired leases" io;
  record_recovered recovered.

(** ** ClaimDelivery *)

Definition ClaimDelivery (workerID : string) (lease : Duration) : M (option Job) :=
  let workerID := TrimSpace workerID in
  if bool_decide (workerID = ""%string) then throw (New "worker id is required")
  else if lease <? Millisecond
  then throw (New "lease duration must be at least one millisecond")
  else
    _ ← wrapping "begin claim transaction" BeginTx;
    _ ← recoverExpiredLeases;
    token ← new_uuid;
    scanned ← try (r ← QueryRow (claimDeliveryQuery workerID token (Milliseconds lease));
                   match scanJob r with Ok j => mret j | Err e => throw e end);
    match scanned with
    | Err err =>
        if errors_is err pgx_ErrNoRows then
          _ ← wrapping "commit lease recovery" Commit; mret None
        else throw (wrapf "claim delivery" err)
    | Ok job => _ ← wrapping "commit delivery claim" Commit; mret (Some job)
    end.

(** ** FinishAttempt *)

Definition holds_lease (worker token : string) (number : Z) (row : DeliveryRow) : bool :=
  bool_decide (d_status row = StatusProcessing)
  && bool_decide (d_locked_by row = Some worker)
  && bool_decide (d_lease_token row = Some token)
  && (d_attempt_count row =? number).

Definition finished_row (r : AttemptResult) (row : DeliveryRow) : DeliveryRow :=
  let again := bool_decide (AR_Decision r = DecisionRetry)
               && (d_attempt_count row <? d_max_attempts row) in
  mkDeliveryRow (d_event_id row) (d_endpoint_id row)
    (if bool_decide (AR_Decision r = DecisionSucceed) then StatusSucceeded
     else if again then StatusRetrying else StatusDead)
    (d_attempt_count row) (d_max_attempts row)
    (if again then ts_of_time (AR_NextAttemptAt r) else d_next_attempt_at row)
    None None None None
    (AR_StatusCode r) (AR_ErrorMessage r) (Some (ts_of_time (AR_CompletedAt r)))
    (d_created_at row) now.

(** The UPDATE deliveries ... RETURNING status, endpoint_id. *)
Definition finishQuery (r : AttemptResult) (d : db) : res (db * list (Status * string)) :=
  id ← sql_uuid (AR_DeliveryID r);
  worker ← sql_text (AR_WorkerID r);
  token ← sql_uuid (AR_LeaseToken r);
  _ ← sql_text (AR_ErrorMessage r);
  match deliveries d !! id with
  | Some row =>
      if holds_lease worker token (AR_AttemptNumber r) row then
        let row' := finished_row r row in
        d' ← update_delivery id row' d;
        Ok (d', [(d_status row', d_endpoint_id row')])
      else Ok (d, [])
  | None => Ok (d, [])
  end.

Definition finished_attempt (delivery_id : string) (r : AttemptResult) : AttemptRow :=
  mkAttemptRow delivery_id (AR_AttemptNumber r) (AR_StatusCode r) (AR_ResponseBody r)
    (AR_ErrorMessage r) (durationMilliseconds (AR_Duration r))
    (ts_of_time (AR_StartedAt r)) (ts_of_time (AR_CompletedAt r)).

(** The INSERT INTO delivery_attempts. *)
Definition recordQuery (id : string) (r : AttemptResult) (d : db) : res db :=
  id ← sql_uuid id;
  delivery_id ← sql_uuid (AR_DeliveryID r);
  _ ← sql_text (AR_ResponseBody r);
  _ ← sql_text (AR_ErrorMessage r);
  insert_attempt id (finished_attempt delivery_id r) d.

Definition set_circuit (failures : Z) (open_until : option Z) (e : EndpointRow) : EndpointRow :=
  mkEndpointRow (ep_name e) (ep_url e) (ep_secret_ciphertext e) (ep_timeout_ms e)
    (ep_max_attempts e) failures open_until (ep_disabled_at e) (ep_created_at e) now.

Definition failed_circuit (threshold cooldown_ms : Z) (e : EndpointRow) : EndpointRow :=
  let failures := ep_consecutive_failures e + 1 in
  set_circuit failures
    (if threshold <=? failures
     then Some (Z.max (default now (ep_circuit_open_until e)) (now + interval_ms cooldown_ms))
     else ep_circuit_open_until e) e.

(** The UPDATE endpoints of a failed attempt and of a successful one. *)
Definition circuitFailureQuery (endpointID : string) (threshold cooldown_ms : Z) (d : db) : res db :=
  id ← sql_uuid endpointID;
  _ ← sql_guard (int4 threshold) out_of_range;
  match endpoints d !! id with
  | None => Ok d
  | Some e =>
      _ ← sql_guard (int4 (ep_consecutive_failures e + 1)) out_of_range;
      update_endpoint id (failed_circuit threshold cooldown_ms e) d
  end.

Definition circuitSuccessQuery (endpointID : string) (d : db) : res db :=
  id ← sql_uuid endpointID;
  match endpoints d !! id with
  | None => Ok d
  | Some e => update_endpoint id (set_circuit 0 None e) d
  end.

Definition updateCircuit (r : AttemptResult) (endpointID : string) : M unit :=
  match AR_CircuitOutcome r with
  | CircuitFailure =>
      Exec (circuitFailureQuery endpointID (AR_CircuitThreshold r)
              (Milliseconds (AR_CircuitCooldown r)))
  | CircuitSuccess => Exec (circuitSuccessQuery endpointID)
  | _ => mret tt
  end.

Definition FinishAttempt (r : AttemptResult) : M Status :=
  match validateAttemptResult r with
  | Err e => throw e
  | Ok _ =>
      _ ← wrapping "begin attempt transaction" BeginTx;
      scanned ← try (QueryRow (finishQuery r));
      match scanned with
      | Err err =>
          if errors_is err pgx_ErrNoRows then throw ErrLeaseLost
          else throw (wrapf "finish delivery" err)
      | Ok (status, endpointID) =>
          id ← new_uuid;
          _ ← wrapping "record delivery attempt" (Exec (recordQuery id r));
          _ ← wrapping "update endpoint circuit" (updateCircuit r endpointID);
          _ ← wrapping "commit delivery attempt" Commit;
          mret status
      end
  end.
End Queue.
