(* ===== verification/QueueSafety.v ===== *)
(** * Safety of the queue operations

    Every run of [recoverExpiredLeases], [ClaimDelivery] and [FinishAttempt],
    whatever faults it meets, keeps the invariant and only lets rows evolve. *)

From S2P Require Import Prelude GoErrors GoTime GoText Delivery Schema Tx Invariant TxLogic Queue.

(** ** Transactions that keep the invariant *)

Section Safety.
Context `{PG : Postgres}.

(** The durable database of a connection that started from [d0]. *)
Definition closed (d0 D W : db) : Prop := db_ok D ∧ evolves d0 D.

(** Inside a transaction on [d0] with attempts [miss] and events [orph]
    pending. *)
Definition open_tx (d0 : db) miss orph (D W : db) : Prop :=
  D = d0 ∧ db_ok d0 ∧ db_ok_mod miss orph W ∧ evolves d0 W.

Definition safe {A} (m : M A) : Prop :=
  ∀ d0, db_ok d0 → triple (λ D _, D = d0) m (λ _, closed d0) (closed d0).

Lemma open_closed d0 miss orph D W W' : open_tx d0 miss orph D W → closed d0 D W'.
Proof. intros (-> & Hok & _). by split. Qed.

Lemma open_commit d0 D W W' : open_tx d0 [] [] D W → closed d0 D W' ∧ closed d0 W W'.
Proof. intros (-> & Hok & Hw & He). by split; split. Qed.

Lemma safe_run {A} (m : M A) s r s' :
  safe m → db_ok (durable s) → runs m s r s' →
  db_ok (durable s') ∧ evolves (durable s) (durable s').
Proof.
  intros Hm Hok Hr. specialize (Hm _ Hok s r s' eq_refl Hr). by destruct r.
Qed.

(** ** Steps shared by the operations *)

Lemma begin_triple msg d0 : db_ok d0 →
  triple (λ D _, D = d0) (wrapping msg BeginTx) (λ _, open_tx d0 [] []) (closed d0).
Proof.
  intros Hok. apply triple_wrapping, triple_BeginTx.
  - intros D W ->. by split.
  - intros D W W' ->. by split.
Qed.

Lemma commit_triple msg d0 :
  triple (open_tx d0 [] []) (wrapping msg Commit) (λ _, closed d0) (closed d0).
Proof.
  apply triple_wrapping, triple_Commit.
  - intros D W W' H. by eapply open_commit.
  - intros D W W' H. by eapply open_commit.
Qed.

Lemma io_triple msg d0 miss orph :
  triple (open_tx d0 miss orph) (wrapping msg io) (λ _, open_tx d0 miss orph) (closed d0).
Proof. apply triple_wrapping, triple_io; [done|]. intros. by eapply open_closed. Qed.
End Safety.

Section QueueSafety.
Context `{PG : Postgres} {PL : PostgresLaws} `{UU : Uuids} `{TE : TxEnv}.

Lemma update_delivery_Ok id (r' : DeliveryRow) (d d' : db) :
  update_delivery id r' d = Ok d' →
  check_delivery r' = true ∧ d' = set_deliveries (<[id := r']> (deliveries d)) d.
Proof. unfold update_delivery. intros H. inv_stmt H. by injection H as <-. Qed.

(** ** Recovering leases *)

Lemma expired_rows_spec (d : db) id row :
  (id, row) ∈ expired_rows d →
  deliveries d !! id = Some row ∧ lease_expired row = true ∧ id ∉ locked_recover.
Proof.
  unfold expired_rows. intros H%elem_of_take. destruct H as (i & H & _).
  apply list_elem_of_lookup_2 in H. rewrite merge_sort_Permutation in H.
  apply list_elem_of_In, filter_In in H as [H Hp]. zbool.
  apply list_elem_of_In in H. rewrite (scan_order_perm _ (deliveries d)) in H.
  apply elem_of_map_to_list in H. done.
Qed.

Lemma expired_rows_nodup (d : db) : NoDup (map fst (expired_rows d)).
Proof.
  assert (NoDup (map fst (scan_order DeliveryRow (deliveries d)))) as Hnd.
  { change (map fst (scan_order _ (deliveries d))) with ((scan_order _ (deliveries d)).*1).
    rewrite (scan_order_perm _ (deliveries d)). apply NoDup_fst_map_to_list. }
  unfold expired_rows. set (l := merge_sort _ _).
  assert (NoDup (map fst l)) as Hl.
  { change (map fst l) with (l.*1). unfold l. rewrite merge_sort_Permutation. by apply NoDup_keys_filter. }
  rewrite <- (take_drop 32 l), map_app in Hl. by apply NoDup_app in Hl as [Hl _].
Qed.

Lemma recovered_row_ok (row : DeliveryRow) :
  row_ok row → d_status row = StatusProcessing → check_delivery (recovered_row row) = true →
  row_ok (recovered_row row)
  ∧ recorded (recovered_row row) = recorded row + 1 ∧ 0 <= recorded row
  ∧ row_evolves row (recovered_row row).
Proof.
  intros (Hc & Hl & Hp) Hs Hc'. specialize (Hp Hs).
  pose proof (recorded_processing _ Hs) as Er.
  unfold recovered_row in *. destruct (Z.ltb_spec (d_attempt_count row) (d_max_attempts row)) as [Hlt|Hge].
  - split; [|split; [|split; [lia|]]].
    + split; [done|]. split; cbn; [done|discriminate].
    + rewrite Er, recorded_idle; cbn; [lia|done].
    + split; cbn; try done; [|congruence]. rewrite Hs. by apply transitions_step.
  - split; [|split; [|split; [lia|]]].
    + split; [done|]. split; cbn; [by intros [?|?]|discriminate].
    + rewrite Er, recorded_idle; cbn; [lia|done].
    + split; cbn; try done; [|congruence]. rewrite Hs. by apply transitions_step.
Qed.

Lemma update_recovered_safe (rows : list (string * DeliveryRow)) miss orph (d d' : db) :
  db_ok_mod miss orph d → NoDup (map fst rows) →
  (∀ id row, (id, row) ∈ rows → deliveries d !! id = Some row ∧ d_status row = StatusProcessing) →
  update_recovered rows d = Ok d' →
  db_ok_mod (rev (map (λ '(id, row), (id, d_attempt_count row)) rows) ++ miss) orph d' ∧ evolves d d'.
Proof.
  revert miss d. induction rows as [|[id row] rows IH]; intros miss d Hok Hnd Hrows H; cbn in H.
  { injection H as <-. split; [done|reflexivity]. }
  apply res_bind_Ok in H as (d1 & Hu & H). cbn [map fst] in Hnd. apply NoDup_cons in Hnd as [Hnin Hnd].
  destruct (Hrows id row) as [Hr Hs]; [left|].
  apply update_delivery_Ok in Hu as [Hc ->].
  destruct (ok_deliveries _ _ _ Hok _ _ Hr) as (_ & Hrok & _).
  destruct (recovered_row_ok row Hrok Hs Hc) as (Hok' & Hrec & Hpos & Hev).
  assert (recorded (recovered_row row) = d_attempt_count row) as Ec.
  { rewrite recorded_idle; [done|]. cbn. by destruct (_ <? _). }
  destruct (IH ((id, d_attempt_count row) :: miss) (set_deliveries (<[id:=recovered_row row]> (deliveries d)) d))
    as [IH1 IH2]; [|done| |done|].
  - eapply (ok_update_delivery miss); try done; [by destruct Hev as [(? & ? & ?) _ _ _ _]..|].
    right. split; [done|]. split; [done|]. by rewrite Ec.
  - intros id' row' Hin. destruct (Hrows id' row') as [Hr' Hs']; [by right|]. split; [|done].
    cbn. rewrite lookup_insert_ne; [done|]. intros <-. apply Hnin.
    apply list_elem_of_fmap. by exists (id, row').
  - split.
    + cbn [map rev]. by rewrite <- app_assoc.
    + etrans; [|done]. by eapply evolves_set_delivery.
Qed.

Definition row_key (x : string * Z * option Z * Z) : string * Z :=
  let '(id, n, _, _) := x in (id, n).
Definition item_key (i : recoveredLease) : string * Z := (rl_deliveryID i, rl_attempt i).

Lemma recover_query_safe (d d' : db) rows :
  db_ok d → recoverExpiredQuery d = Ok (d', rows) →
  db_ok_mod (rev (map row_key rows)) [] d' ∧ evolves d d'.
Proof.
  unfold recoverExpiredQuery. intros Hok H. inv_stmt H. injection H as <- <-.
  destruct (update_recovered_safe (expired_rows d) [] [] d x Hok) as [H1 H2]; try done.
  - apply expired_rows_nodup.
  - intros id row (? & He & _)%expired_rows_spec. split; [done|].
    unfold lease_expired in He. zbool. done.
  - split; [|done]. rewrite app_nil_r in H1. rewrite map_map.
    erewrite map_ext; [exact H1|]. by intros [id row].
Qed.

Lemma scan_rows_triple d0 miss orph rows :
  triple (open_tx d0 miss orph) (scan_rows rows)
    (λ items D W, map item_key items = map row_key rows ∧ open_tx d0 miss orph D W) (closed d0).
Proof.
  induction rows as [|x rows IH]; cbn [scan_rows].
  { by apply triple_ret. }
  eapply (triple_bind _ _ _ (λ i D W, item_key i = row_key x ∧ open_tx d0 miss orph D W)).
  - apply triple_wrapping. eapply triple_bind; [apply triple_io; [done|]|].
    + intros. by eapply open_closed.
    + intros []. destruct x as [[[id n] [l|]] c]; cbn [scan_recovered].
      * by apply triple_ret.
      * apply triple_throw. intros. by eapply open_closed.
  - intros i s r s' [Hi Hs] Hrun.
    apply runs_bind in Hrun as [(e & Hrun & ->)|(items & s1 & Hrun & Hret)].
    + by apply (IH _ _ _ Hs Hrun).
    + destruct (IH _ _ _ Hs Hrun) as [Hi' Hs'].
      apply runs_ret in Hret as [-> ->]. split; [cbn [map]; congruence|done].
Qed.

Lemma insert_expired_safe id item miss (d d' : db) :
  db_ok_mod (item_key item :: miss) [] d → insert_expired_attempt id item d = Ok d' →
  db_ok_mod miss [] d' ∧ evolves d d'.
Proof.
  unfold insert_expired_attempt, item_key. intros Hok H.
  apply res_bind_Ok in H as (id' & Eid & H). apply res_bind_Ok in H as (did & Edid & H).
  destruct (ok_miss _ _ _ Hok (rl_deliveryID item) (rl_attempt item)) as (r & Hr & Hn); [left|].
  destruct (ok_deliveries _ _ _ Hok _ _ Hr) as (Hcan & _).
  rewrite (canonical_sql_uuid _ Hcan) in Edid. injection Edid as <-.
  destruct (attempt_of _ _ d) as [[aid a]|] eqn:Ea.
  - exfalso. apply map_find_Some in Ea as [Ha Hk]. zbool.
    assert (has_attempt d (rl_deliveryID item) (rl_attempt item)) as Hh by (by exists aid, a).
    apply (ok_history _ _ _ Hok _ _ _ Hr) in Hh as [_ []]. left.
  - split; [|by eapply evolves_insert_attempt].
    eapply (ok_insert_attempt miss [] d); [|exact H]. done.
Qed.

Lemma record_recovered_triple d0 items :
  triple (open_tx d0 (map item_key items) []) (record_recovered items)
    (λ _, open_tx d0 [] []) (closed d0).
Proof.
  induction items as [|i items IH]; cbn [record_recovered].
  { by apply triple_ret. }
  eapply triple_bind; [apply triple_new_uuid|]. intros id.
  eapply (triple_bind _ _ _ (λ _, open_tx d0 (map item_key items) [])); [|intros []; exact IH].
  apply triple_wrapping, triple_Exec.
  - intros D W W' (-> & Hd0 & Hok & Hev) H.
    destruct (insert_expired_safe _ _ _ _ _ Hok H) as [H1 H2].
    unfold open_tx. split_and!; try done. by etrans.
  - intros. by eapply open_closed.
Qed.

Lemma db_ok_perm miss miss' orph (d : db) :
  miss ≡ₚ miss' → db_ok_mod miss orph d → db_ok_mod miss' orph d.
Proof.
  intros Hp [H1 H2 H3 H4 H5 H6 H7 H8 H9 H10 H11]. split; try done.
  - intros id r n Hr. rewrite (H8 _ _ _ Hr). by rewrite Hp.
  - intros id n. rewrite <- Hp. apply H10.
  - by rewrite <- Hp.
Qed.

Lemma recoverExpiredLeases_triple d0 : 
  triple (open_tx d0 [] []) recoverExpiredLeases (λ _, open_tx d0 [] []) (closed d0).
Proof.
  unfold recoverExpiredLeases.
  eapply (triple_bind _ _ _ (λ rows, open_tx d0 (map row_key rows) [])).
  - apply triple_wrapping, triple_statement; [|intros; by eapply open_closed].
    intros D W W' rows (-> & Hd0 & Hok & Hev) H.
    destruct (recover_query_safe _ _ _ Hok H) as [H1 H2]. unfold open_tx. split_and!; try done; [|by etrans].
    eapply db_ok_perm; [|exact H1]. symmetry. rewrite <- Permutation_rev. done.
  - intros rows. eapply triple_bind; [apply scan_rows_triple|].
    intros items s r s' [Hk Hs] Hrun. rewrite <- Hk in Hs.
    revert Hrun. revert s r s' Hs.
    change (triple (open_tx d0 (map item_key items) [])
      (_ ← wrapping "iterate expired leases" io; record_recovered items) (λ _, open_tx d0 [] []) (closed d0)).
    eapply triple_bind; [apply io_triple|]. intros []. apply record_recovered_triple.
Qed.

(** ** Claiming *)

Lemma candidate_spec (d : db) id row :
  candidate d = Some (id, row) →
  deliveries d !! id = Some row ∧ claimable d row = true ∧ id ∉ locked_claim.
Proof.
  unfold candidate. intros Hh%head_Some_elem_of. rewrite merge_sort_Permutation in Hh.
  apply list_elem_of_In, filter_In in Hh as [Hin Hp]. zbool.
  apply list_elem_of_In in Hin. rewrite (scan_order_perm _ (deliveries d)) in Hin.
  by apply elem_of_map_to_list in Hin.
Qed.

Lemma claimable_spec (d : db) row :
  claimable d row = true →
  live row ∧ d_next_attempt_at row <= now ∧ d_attempt_count row < d_max_attempts row
  ∧ ∃ e, endpoints d !! d_endpoint_id row = Some e ∧ endpoint_open e = true.
Proof.
  unfold claimable, live. intros Hc. zbool. split.
  { match goal with H : _ ∨ _ |- _ => destruct H; zbool; auto end. }
  split; [done|]. split; [done|].
  destruct (endpoints d !! d_endpoint_id row) as [e|]; [eauto|done].
Qed.

Lemma live_not_processing row : live row → d_status row ≠ StatusProcessing.
Proof. intros [-> | ->]; done. Qed.

Lemma claimed_row_ok worker token ms (row : DeliveryRow) :
  row_ok row → live row → check_delivery (claimed_row worker token ms row) = true →
  row_ok (claimed_row worker token ms row)
  ∧ recorded (claimed_row worker token ms row) = recorded row
  ∧ row_evolves row (claimed_row worker token ms row).
Proof.
  intros (Hc & Hl & Hp) Hlive Hc'. split_and!.
  - split; [done|]. split; cbn; [by intros [?|?]|].
    intros _. unfold check_delivery in Hc. zbool. lia.
  - rewrite recorded_processing, recorded_idle; [cbn; lia|by apply live_not_processing|done].
  - split; cbn; try done; [|lia|].
    + apply transitions_step. by destruct Hlive as [-> | ->].
    + by destruct Hlive as [-> | ->].
Qed.

Lemma claim_query_safe worker token ms (d d' : db) rows :
  db_ok d → claimDeliveryQuery worker token ms d = Ok (d', rows) → db_ok d' ∧ evolves d d'.
Proof.
  unfold claimDeliveryQuery. intros Hok Hq.
  apply res_bind_Ok in Hq as (w & _ & Hq). apply res_bind_Ok in Hq as (t & _ & Hq).
  destruct (candidate d) as [[id row]|] eqn:Ecand; [|injection Hq as <- <-; split; [done|reflexivity]].
  apply candidate_spec in Ecand as (Hrow & Hcl & _). apply claimable_spec in Hcl as (Hlive & _).
  apply res_bind_Ok in Hq as (? & _ & Hq). apply res_bind_Ok in Hq as (d1 & Hu & Hq).
  injection Hq as <- _. apply update_delivery_Ok in Hu as [Hc ->].
  destruct (ok_deliveries _ _ _ Hok _ _ Hrow) as (_ & Hrok & _).
  destruct (claimed_row_ok w t ms row Hrok Hlive Hc) as (H1 & H2 & H3). split.
  - eapply (ok_update_delivery [] [] []); try done. by left.
  - by eapply evolves_set_delivery.
Qed.

Lemma ClaimDelivery_safe workerID lease : safe (ClaimDelivery workerID lease).
Proof.
  intros d0 Hd0. unfold ClaimDelivery. cbn zeta.
  assert (Hstop : ∀ D W, D = d0 → closed d0 D W) by (intros D W ->; by split).
  case_bool_decide; [by apply triple_throw|].
  destruct (lease <? Millisecond); [by apply triple_throw|].
  eapply triple_bind; [by apply begin_triple|]. intros [].
  eapply triple_bind; [apply recoverExpiredLeases_triple|]. intros [].
  eapply triple_bind; [apply triple_new_uuid|]. intros token.
  eapply (triple_bind _ _ _ (λ _, open_tx d0 [] [])).
  - eapply triple_consequence; [apply (triple_try _ (open_tx d0 [] []) (λ _, open_tx d0 [] []) (closed d0) (open_tx d0 [] []))| |].
    + eapply (triple_bind _ _ _ (λ _, open_tx d0 [] [])).
      * apply triple_QueryRow; [| |done]; intros D W W'.
        -- intros r l (-> & _ & Hok & Hev) Hq.
           destruct (claim_query_safe _ _ _ _ _ _ Hok Hq). unfold open_tx. split_and!; try done. by etrans.
        -- intros (-> & _ & Hok & Hev) Hq.
           destruct (claim_query_safe _ _ _ _ _ _ Hok Hq). unfold open_tx. split_and!; try done. by etrans.
      * intros r. destruct (scanJob r); [by apply triple_ret|by apply triple_throw].
    + done.
    + by intros [j|e] D W.
  - intros [job|err].
    + eapply triple_bind; [apply commit_triple|]. intros []. by apply triple_ret.
    + destruct (errors_is err pgx_ErrNoRows).
      * eapply triple_bind; [apply commit_triple|]. intros []. by apply triple_ret.
      * apply triple_throw. intros. by eapply open_closed.
Qed.

(** ** Finishing *)

Lemma holds_lease_spec worker token n (row : DeliveryRow) :
  holds_lease worker token n row = true ↔
  d_status row = StatusProcessing ∧ d_locked_by row = Some worker
  ∧ d_lease_token row = Some token ∧ d_attempt_count row = n.
Proof.
  unfold holds_lease. rewrite !andb_true_iff, !bool_decide_eq_true, Z.eqb_eq. tauto.
Qed.

Lemma finished_row_ok r (row : DeliveryRow) :
  row_ok row → d_status row = StatusProcessing → check_delivery (finished_row r row) = true →
  row_ok (finished_row r row)
  ∧ recorded (finished_row r row) = recorded row + 1 ∧ 0 <= recorded row
  ∧ row_evolves row (finished_row r row).
Proof.
  intros (Hc & Hl & Hp) Hs Hc'. specialize (Hp Hs). pose proof (recorded_processing _ Hs) as Er.
  assert (Hst : let s := d_status (finished_row r row) in
            s = StatusSucceeded ∨ s = StatusDead ∨
            s = StatusRetrying ∧ d_attempt_count row < d_max_attempts row).
  { unfold finished_row. cbn. destruct (bool_decide (AR_Decision r = DecisionSucceed)); [by left|].
    destruct (bool_decide (AR_Decision r = DecisionRetry)); cbn; [|by right; left].
    destruct (Z.ltb_spec (d_attempt_count row) (d_max_attempts row)); [by right; right|by right; left]. }
  cbn zeta in Hst.
  assert (Hidle : d_status (finished_row r row) ≠ StatusProcessing) by (destruct Hst as [->|[->|[-> _]]]; done).
  split_and!; [| |lia|].
  - split; [done|]. split; [|done]. intros [E|E]; rewrite E in Hst;
      destruct Hst as [?|[?|[? ?]]]; try done.
  - rewrite recorded_idle by done. rewrite Er. cbn. lia.
  - split; try done; [|congruence]. rewrite Hs. apply transitions_step.
    by destruct Hst as [->|[->|[-> _]]].
Qed.

Lemma finish_query_safe r (d d' : db) rows :
  db_ok d → finishQuery r d = Ok (d', rows) →
  ∃ did, sql_uuid (AR_DeliveryID r) = Ok did ∧
    (rows = [] ∧ d' = d
     ∨ rows ≠ [] ∧ db_ok_mod [(did, AR_AttemptNumber r)] [] d' ∧ evolves d d').
Proof.
  unfold finishQuery. intros Hok Hq.
  apply res_bind_Ok in Hq as (did & Edid & Hq). apply res_bind_Ok in Hq as (w & _ & Hq).
  apply res_bind_Ok in Hq as (t & _ & Hq). apply res_bind_Ok in Hq as (? & _ & Hq).
  exists did. split; [done|].
  destruct (deliveries d !! did) as [row|] eqn:Hrow; [|injection Hq as <- <-; by left].
  destruct (holds_lease w t (AR_AttemptNumber r) row) eqn:Hl; [|injection Hq as <- <-; by left].
  right. apply holds_lease_spec in Hl as (Hs & _ & _ & Hn).
  apply res_bind_Ok in Hq as (d1 & Hu & Hq). injection Hq as <- <-. split; [done|].
  apply update_delivery_Ok in Hu as [Hc ->].
  destruct (ok_deliveries _ _ _ Hok _ _ Hrow) as (_ & Hrok & _).
  destruct (finished_row_ok r row Hrok Hs Hc) as (H1 & H2 & H3 & H4). split.
  - eapply (ok_update_delivery []); try done. right. split; [done|]. split; [done|].
    rewrite H2, recorded_processing by done. do 2 f_equal. lia.
  - by eapply evolves_set_delivery.
Qed.

Lemma record_query_safe id r did (d d' : db) :
  sql_uuid (AR_DeliveryID r) = Ok did → db_ok_mod [(did, AR_AttemptNumber r)] [] d →
  recordQuery id r d = Ok d' → db_ok d' ∧ evolves d d'.
Proof.
  unfold recordQuery. intros Edid Hok Hq. inv_stmt Hq. rewrite Edid in E0. injection E0 as <-.
  split; [|by eapply evolves_insert_attempt].
  by eapply (ok_insert_attempt [] [] d d' _ (finished_attempt did r)).
Qed.

Lemma set_circuit_evolves n o (e : EndpointRow) : endpoint_evolves e (set_circuit n o e).
Proof. by repeat split. Qed.

Lemma circuit_query_safe (d d' : db) id (e e' : EndpointRow) miss orph :
  db_ok_mod miss orph d → endpoints d !! id = Some e → endpoint_evolves e e' →
  update_endpoint id e' d = Ok d' → db_ok_mod miss orph d' ∧ evolves d d'.
Proof.
  intros Hok He Hev Hu. split; [by eapply ok_update_endpoint|].
  unfold update_endpoint in Hu. inv_stmt Hu. injection Hu as <-. by eapply evolves_set_endpoint.
Qed.

Lemma updateCircuit_triple msg d0 r ep :
  triple (open_tx d0 [] []) (wrapping msg (updateCircuit r ep)) (λ _, open_tx d0 [] []) (closed d0).
Proof.
  assert (Hcase : ∀ (f : db → res db),
    (∀ W W', db_ok W → f W = Ok W' → db_ok W' ∧ evolves W W') →
    triple (open_tx d0 [] []) (Exec f) (λ _, open_tx d0 [] []) (closed d0)).
  { intros f Hf. apply triple_Exec; [|intros; by eapply open_closed].
    intros D W W' (-> & Hd0 & Hok & Hev) Hq. destruct (Hf _ _ Hok Hq).
    unfold open_tx. split_and!; try done. by etrans. }
  apply triple_wrapping. unfold updateCircuit.
  destruct (AR_CircuitOutcome r); [by apply triple_ret| | |by apply triple_ret]; apply Hcase;
    intros W W' Hok Hq.
  - unfold circuitFailureQuery in Hq. inv_stmt Hq.
    destruct (endpoints W !! x) eqn:He; [|injection Hq as <-; split; [done|reflexivity]].
    inv_stmt Hq. refine (circuit_query_safe _ _ _ _ _ _ _ Hok He _ Hq). apply set_circuit_evolves.
  - unfold circuitSuccessQuery in Hq. inv_stmt Hq.
    destruct (endpoints W !! x) eqn:He; [|injection Hq as <-; split; [done|reflexivity]].
    refine (circuit_query_safe _ _ _ _ _ _ _ Hok He _ Hq). apply set_circuit_evolves.
Qed.

Lemma FinishAttempt_safe r : safe (FinishAttempt r).
Proof.
  intros d0 Hd0. unfold FinishAttempt.
  assert (Hstop : ∀ D W, D = d0 → closed d0 D W) by (intros D W ->; by split).
  destruct (validateAttemptResult r) as [[]|e]; [|by apply triple_throw].
  eapply triple_bind; [by apply begin_triple|]. intros [].
  eapply (triple_bind _ _ _ (λ scanned D W,
    match scanned with
    | Ok _ => ∃ did, sql_uuid (AR_DeliveryID r) = Ok did ∧
                open_tx d0 [(did, AR_AttemptNumber r)] [] D W
    | Err _ => closed d0 D W end)).
  - eapply triple_consequence;
      [apply (triple_try _ (open_tx d0 [] []) (λ _ D W, ∃ did, sql_uuid (AR_DeliveryID r) = Ok did ∧
                open_tx d0 [(did, AR_AttemptNumber r)] [] D W) (closed d0) (closed d0))| |].
    + apply triple_QueryRow; [| |intros; by eapply open_closed].
      * intros D W W' a l (-> & _ & Hok & Hev) Hq.
        destruct (finish_query_safe _ _ _ _ Hok Hq) as (did & Edid & [[? _]|(_ & Hok' & Hev')]); [done|].
        exists did. split; [done|]. unfold open_tx. split_and!; try done. by etrans.
      * intros D W W' HP _. by eapply open_closed.
    + done.
    + by intros [j|e] D W.
  - intros [[status ep]|err].
    + eapply triple_bind; [apply triple_new_uuid|]. intros id.
      eapply (triple_bind _ _ _ (λ _, open_tx d0 [] [])).
      * apply triple_wrapping, triple_Exec; [|intros D W (did & _ & HP); by eapply open_closed].
        intros D W W' (did & Edid & -> & _ & Hok & Hev) Hq.
        destruct (record_query_safe _ _ _ _ _ Edid Hok Hq). unfold open_tx. split_and!; try done. by etrans.
      * intros []. eapply triple_bind; [apply updateCircuit_triple|]. intros [].
        eapply triple_bind; [apply commit_triple|]. intros []. by apply triple_ret.
    + destruct (errors_is err pgx_ErrNoRows); by apply triple_throw.
Qed.
End QueueSafety.
