(* ===== verification/QueueSpec.v ===== *)
(** * Functional specification of the queue

    On a healthy connection and a database that satisfies the invariant, what
    [recoverExpiredLeases], [ClaimDelivery] and [FinishAttempt] return and
    what they leave behind: no statement of theirs ever meets a constraint
    error. *)

From S2P Require Import Prelude GoErrors GoTime GoText Delivery Schema Tx Invariant TxLogic Queue.
From S2P Require Import QueueSafety.

(** ** What may happen to a delivery, field by field

    Every change of a delivery row the store makes, said of the row before and
    the row after, without the rows the queries of [Queue.v] compute. *)

(** What no operation writes. *)
Definition same_delivery (r r' : DeliveryRow) : Prop :=
  d_event_id r' = d_event_id r ∧ d_endpoint_id r' = d_endpoint_id r ∧ d_created_at r' = d_created_at r.

Definition same_budget (r r' : DeliveryRow) : Prop :=
  d_attempt_count r' = d_attempt_count r ∧ d_max_attempts r' = d_max_attempts r.

(** The outcome of the last attempt. *)
Definition same_outcome (r r' : DeliveryRow) : Prop :=
  d_last_status_code r' = d_last_status_code r ∧ d_last_error r' = d_last_error r
  ∧ d_last_completed_at r' = d_last_completed_at r.

Definition unleased (r : DeliveryRow) : Prop :=
  d_locked_by r = None ∧ d_lease_token r = None ∧ d_locked_at r = None ∧ d_locked_until r = None.

(** The status an attempt leaves, from the decision and the budget. *)
Definition next_status (d : Decision) (count max : Z) : Status :=
  match d with
  | DecisionSucceed => StatusSucceeded
  | DecisionRetry => if count <? max then StatusRetrying else StatusDead
  | _ => StatusDead
  end.

Section Rows.
Context `{TE : TxEnv}.

(** A lease that has run out: back in the queue and due, or dead. *)
Record row_recovered (r r' : DeliveryRow) : Prop := {
  rr_was : d_status r = StatusProcessing ∧ ∃ u, d_locked_until r = Some u ∧ u <= now;
  rr_same : same_delivery r r' ∧ same_budget r r';
  rr_again : d_attempt_count r < d_max_attempts r → d_status r' = StatusRetrying ∧ d_next_attempt_at r' = now;
  rr_spent : d_max_attempts r <= d_attempt_count r →
    d_status r' = StatusDead ∧ d_next_attempt_at r' = d_next_attempt_at r;
  rr_lease : unleased r';
  rr_outcome : d_last_status_code r' = d_last_status_code r ∧ d_last_error r' = "delivery lease expired"%string
    ∧ d_last_completed_at r' = Some now ∧ d_updated_at r' = now;
}.

(** May be claimed: waiting, due, with an attempt left, at an endpoint that is
    enabled and whose circuit is not open. *)
Definition row_due (r : DeliveryRow) (e : EndpointRow) : Prop :=
  (d_status r = StatusPending ∨ d_status r = StatusRetrying) ∧ d_next_attempt_at r <= now
  ∧ d_attempt_count r < d_max_attempts r ∧ ep_disabled_at e = None
  ∧ ∀ u, ep_circuit_open_until e = Some u → u <= now.

(** A claim: one more attempt, under a lease of [lease] from now on (the clock
    of the database counts microseconds, and the lease whole milliseconds). *)
Record row_claimed (worker token : string) (lease : Duration) (r r' : DeliveryRow) : Prop := {
  rc_was : (d_status r = StatusPending ∨ d_status r = StatusRetrying) ∧ d_next_attempt_at r <= now
    ∧ d_attempt_count r < d_max_attempts r;
  rc_same : same_delivery r r' ∧ same_outcome r r';
  rc_status : d_status r' = StatusProcessing;
  rc_budget : d_attempt_count r' = d_attempt_count r + 1 ∧ d_max_attempts r' = d_max_attempts r;
  rc_next : d_next_attempt_at r' = d_next_attempt_at r;
  rc_lease : d_locked_by r' = Some worker ∧ d_lease_token r' = Some token ∧ d_locked_at r' = Some now
    ∧ d_locked_until r' = Some (now + 1000 * (lease / Millisecond));
  rc_updated : d_updated_at r' = now;
}.

(** A finished attempt of the lease the result presents. *)
Record row_finished `{PG : Postgres} (res : AttemptResult) (token : string) (r r' : DeliveryRow) : Prop := {
  rf_was : d_status r = StatusProcessing ∧ d_locked_by r = Some (AR_WorkerID res)
    ∧ d_lease_token r = Some token ∧ d_attempt_count r = AR_AttemptNumber res;
  rf_same : same_delivery r r' ∧ same_budget r r';
  rf_status : d_status r' = next_status (AR_Decision res) (d_attempt_count r) (d_max_attempts r);
  rf_next : d_next_attempt_at r' = if bool_decide (d_status r' = StatusRetrying)
                                   then ts_of_time (AR_NextAttemptAt res) else d_next_attempt_at r;
  rf_lease : unleased r';
  rf_outcome : d_last_status_code r' = AR_StatusCode res ∧ d_last_error r' = AR_ErrorMessage res
    ∧ d_last_completed_at r' = Some (ts_of_time (AR_CompletedAt res)) ∧ d_updated_at r' = now;
}.

(** A replay: a dead delivery is pending again and due now. *)
Record row_replayed (r r' : DeliveryRow) : Prop := {
  rp_was : d_status r = StatusDead;
  rp_same : same_delivery r r' ∧ same_outcome r r';
  rp_status : d_status r' = StatusPending;
  rp_count : d_attempt_count r' = d_attempt_count r;
  rp_next : d_next_attempt_at r' = now;
  rp_lease : d_locked_by r' = d_locked_by r ∧ d_lease_token r' = d_lease_token r
    ∧ d_locked_at r' = d_locked_at r ∧ d_locked_until r' = d_locked_until r;
  rp_updated : d_updated_at r' = now;
}.

(** A new delivery: pending, due now, never attempted. *)
Record row_enqueued (event endpoint : string) (max : Z) (r : DeliveryRow) : Prop := {
  rq_of : d_event_id r = event ∧ d_endpoint_id r = endpoint;
  rq_status : d_status r = StatusPending;
  rq_budget : d_attempt_count r = 0 ∧ d_max_attempts r = max;
  rq_next : d_next_attempt_at r = now;
  rq_lease : unleased r;
  rq_outcome : d_last_status_code r = None ∧ d_last_error r = ""%string ∧ d_last_completed_at r = None;
  rq_times : d_created_at r = now ∧ d_updated_at r = now;
}.

(** The rows of the queries make exactly these changes. *)
Lemma recovered_row_recovers row : lease_expired row = true → row_recovered row (recovered_row row).
Proof.
  unfold lease_expired, recovered_row. intros He. zbool.
  destruct (d_locked_until row) as [u|] eqn:Hu; [|done]. zbool.
  destruct (Z.ltb_spec (d_attempt_count row) (d_max_attempts row)); split; cbn; try done; try lia; eauto.
Qed.

Lemma claimed_row_claims worker token lease row :
  0 <= lease → live row → d_next_attempt_at row <= now → d_attempt_count row < d_max_attempts row →
  row_claimed worker token lease row (claimed_row worker token (Milliseconds lease) row).
Proof.
  intros Hl Hlive Hn Hc. split; cbn; try done. split_and!; [done..|]. unfold interval_ms, Milliseconds, Millisecond.
  rewrite Z.quot_div_nonneg by (unfold Microsecond; lia). f_equal. lia.
Qed.

Lemma finished_row_finishes `{PG : Postgres} res token row :
  holds_lease (AR_WorkerID res) token (AR_AttemptNumber res) row = true →
  row_finished res token row (finished_row res row).
Proof.
  unfold holds_lease. intros H. zbool. unfold finished_row. cbn zeta.
  destruct (AR_Decision res) eqn:Ed; cbn; split; cbn; rewrite ?Ed; cbn; try done;
    by destruct (d_attempt_count row <? d_max_attempts row).
Qed.

End Rows.

(** ** What may happen to the circuit of an endpoint *)

Definition same_endpoint (e e' : EndpointRow) : Prop :=
  ep_name e' = ep_name e ∧ ep_url e' = ep_url e ∧ ep_secret_ciphertext e' = ep_secret_ciphertext e
  ∧ ep_timeout_ms e' = ep_timeout_ms e ∧ ep_max_attempts e' = ep_max_attempts e
  ∧ ep_disabled_at e' = ep_disabled_at e ∧ ep_created_at e' = ep_created_at e.

Section Circuits.
Context `{TE : TxEnv}.

(** A failure counts; from the threshold on the circuit is open for the
    cooldown at least, and never closes earlier than it would have. *)
Record circuit_failed (threshold : Z) (cooldown : Duration) (e e' : EndpointRow) : Prop := {
  xf_same : same_endpoint e e' ∧ ep_updated_at e' = now;
  xf_count : ep_consecutive_failures e' = ep_consecutive_failures e + 1;
  xf_below : ep_consecutive_failures e + 1 < threshold → ep_circuit_open_until e' = ep_circuit_open_until e;
  xf_open : threshold <= ep_consecutive_failures e + 1 → ∃ u, ep_circuit_open_until e' = Some u
    ∧ now + 1000 * (cooldown / Millisecond) <= u
    ∧ (∀ u0, ep_circuit_open_until e = Some u0 → u0 <= u)
    ∧ (u = now + 1000 * (cooldown / Millisecond) ∨ ep_circuit_open_until e = Some u);
}.

(** A success closes it and forgets the failures. *)
Record circuit_succeeded (e e' : EndpointRow) : Prop := {
  xs_same : same_endpoint e e' ∧ ep_updated_at e' = now;
  xs_count : ep_consecutive_failures e' = 0;
  xs_open : ep_circuit_open_until e' = None;
}.

(** What a result does to the circuit of its endpoint. *)
Definition circuit_change (r : AttemptResult) (e e' : EndpointRow) : Prop :=
  match AR_CircuitOutcome r with
  | CircuitFailure => circuit_failed (AR_CircuitThreshold r) (AR_CircuitCooldown r) e e'
  | CircuitSuccess => circuit_succeeded e e'
  | _ => e' = e
  end.

Lemma failed_circuit_fails threshold cooldown e :
  Millisecond <= cooldown → circuit_failed threshold cooldown e (failed_circuit threshold (Milliseconds cooldown) e).
Proof.
  intros Hc. assert (Hms : interval_ms (Milliseconds cooldown) = 1000 * (cooldown / Millisecond)).
  { unfold interval_ms, Milliseconds, Millisecond, Microsecond in *. rewrite Z.quot_div_nonneg by lia. lia. }
  assert (0 <= cooldown / Millisecond) by (apply Z.div_pos; unfold Millisecond, Microsecond in *; lia).
  unfold failed_circuit. cbn zeta. rewrite Hms.
  destruct (Z.leb_spec threshold (ep_consecutive_failures e + 1)); split; cbn; try done; try lia.
  intros _. eexists. split; [done|]. destruct (ep_circuit_open_until e) as [u0|]; cbn.
  - split_and!; [lia|intros u1 [= ->]; lia|]. destruct (Z.max_spec u0 (now + 1000 * (cooldown / Millisecond))) as [[_ ->]|[_ ->]]; auto.
  - split_and!; [lia|done|]. left. lia.
Qed.

Lemma set_circuit_succeeds e : circuit_succeeded e (set_circuit 0 None e).
Proof. done. Qed.
End Circuits.

(** ** CHECK constraints, by the shape of the row *)

Lemma check_delivery_counts d :
  check_delivery d = true →
  0 <= d_attempt_count d <= d_max_attempts d ∧ 1 <= d_max_attempts d <= MaxInt32
  ∧ null_or (in_range 100 599) (d_last_status_code d) = true.
Proof. unfold check_delivery, int4, in_range. intros H. zbool. repeat split; done || lia. Qed.

Lemma check_processing_locks d :
  check_delivery d = true → d_status d = StatusProcessing →
  ∃ w t a u, d_locked_by d = Some w ∧ d_lease_token d = Some t ∧ d_locked_at d = Some a
             ∧ d_locked_until d = Some u ∧ a < u.
Proof.
  unfold check_delivery. intros H Hs. rewrite Hs in H. zbool.
  destruct (d_locked_by d), (d_lease_token d), (d_locked_at d), (d_locked_until d);
    cbn in *; try done. zbool. eauto 10.
Qed.

Lemma check_unlocked ev ep st cnt mx nx lsc err lc cr up :
  st ≠ StatusProcessing → 0 <= cnt <= mx → 1 <= mx <= MaxInt32 →
  null_or (in_range 100 599) lsc = true →
  check_delivery (mkDeliveryRow ev ep st cnt mx nx None None None None lsc err lc cr up) = true.
Proof.
  intros Hs Hc Hm Hl. unfold check_delivery, int4, in_range, MinInt32, MaxInt32 in *. cbn -[Z.leb in_range].
  rewrite Hl, bool_decide_eq_false_2 by done. rewrite !andb_true_iff, !Z.leb_le. cbn. intuition lia.
Qed.

Lemma check_locked ev ep cnt mx nx w t a u lsc err lc cr up :
  0 <= cnt <= mx → 1 <= mx <= MaxInt32 → a < u → null_or (in_range 100 599) lsc = true →
  check_delivery (mkDeliveryRow ev ep StatusProcessing cnt mx nx (Some w) (Some t) (Some a) (Some u)
                    lsc err lc cr up) = true.
Proof.
  intros Hc Hm Ha Hl. unfold check_delivery, int4, in_range, MinInt32, MaxInt32 in *.
  cbn -[Z.leb Z.ltb in_range]. rewrite Hl. rewrite !andb_true_iff, !Z.leb_le, Z.ltb_lt. cbn. intuition lia.
Qed.

Lemma durationMilliseconds_range d : 0 <= d → 0 <= durationMilliseconds d <= MaxInt32.
Proof.
  intros Hd%Milliseconds_nonneg. unfold durationMilliseconds.
  destruct (Z.ltb_spec MaxInt32 (Milliseconds d)); [unfold MaxInt32; lia|].
  rewrite wrap32_id by (unfold in_int32, MinInt32, MaxInt32 in *; lia). lia.
Qed.

Lemma check_attempt_intro did n sc body msg dur a b :
  1 <= n <= MaxInt32 → null_or (in_range 100 599) sc = true → 0 <= dur <= MaxInt32 → a <= b →
  is_null sc = false ∨ msg ≠ ""%string →
  check_attempt (mkAttemptRow did n sc body msg dur a b) = true.
Proof.
  intros Hn Hs Hd Hab Hm. unfold check_attempt, int4, in_range, MinInt32, MaxInt32 in *.
  cbn -[Z.leb Z.ltb in_range]. rewrite Hs.
  assert (negb (is_null sc) || negb (bool_decide (msg = ""%string)) = true) as ->.
  { destruct Hm as [-> | Hm]; [done|]. rewrite bool_decide_eq_false_2 by done. apply orb_true_r. }
  rewrite !andb_true_iff, !Z.leb_le, Z.ltb_lt. intuition lia.
Qed.

Section QueueSpec.
Context `{PG : Postgres} {PL : PostgresLaws} `{UU : Uuids} {UL : UuidsLaws} `{TE : TxEnv}.

(** No stored attempt has an identifier the generator will still produce. *)
Definition fresh_uuids (n : nat) (d : db) : Prop :=
  ∀ k, (n <= k)%nat → delivery_attempts d !! NewString k = None.

Lemma sql_uuid_new k : sql_uuid (NewString k) = Ok (NewString k).
Proof. apply canonical_sql_uuid, NewString_canonical. Qed.

Lemma update_delivery_total id r (d : db) :
  check_delivery r = true →
  update_delivery id r d = Ok (set_deliveries (<[id := r]> (deliveries d)) d).
Proof. intros Hc. unfold update_delivery. by rewrite Hc. Qed.

(** An insert of a missing attempt succeeds. *)
Lemma insert_attempt_total miss orph (d : db) aid a :
  db_ok_mod ((a_delivery_id a, a_attempt_number a) :: miss) orph d →
  delivery_attempts d !! aid = None → check_attempt a = true →
  attempt_of (a_delivery_id a) (a_attempt_number a) d = None
  ∧ insert_attempt aid a d = Ok (set_attempts (<[aid := a]> (delivery_attempts d)) d).
Proof.
  intros Hok Hn Hc. 
  destruct (ok_miss _ _ _ Hok (a_delivery_id a) (a_attempt_number a)) as (r & Hr & _); [left|].
  assert (attempt_of (a_delivery_id a) (a_attempt_number a) d = None) as Ha.
  { destruct (attempt_of _ _ d) as [[aid' a']|] eqn:E; [|done]. exfalso.
    apply map_find_Some in E as [Ha' Hk]. zbool.
    assert (has_attempt d (a_delivery_id a) (a_attempt_number a)) as Hh by (by exists aid', a').
    apply (ok_history _ _ _ Hok _ _ _ Hr) in Hh as [_ []]. left. }
  split; [done|]. unfold insert_attempt. by rewrite Hn, Ha, Hc, Hr.
Qed.

(** ** Recovery *)

Lemma recovered_row_check row :
  check_delivery row = true → check_delivery (recovered_row row) = true.
Proof.
  intros (Hc & Hm & Hl)%check_delivery_counts. unfold recovered_row.
  apply check_unlocked; try done. by destruct (_ <? _).
Qed.

(** The recovered rows, written over the old ones. *)
Definition recover_all (rows : list (string * DeliveryRow)) (m : gmap string DeliveryRow)
    : gmap string DeliveryRow :=
  fold_left (λ m kv, <[kv.1 := recovered_row kv.2]> m) rows m.

Lemma update_recovered_total rows (d : db) :
  (∀ id row, (id, row) ∈ rows → check_delivery row = true) →
  update_recovered rows d = Ok (set_deliveries (recover_all rows (deliveries d)) d).
Proof.
  revert d. induction rows as [|[id row] rows IH]; intros d Hc; cbn [update_recovered].
  { by destruct d. }
  rewrite update_delivery_total by (apply recovered_row_check, (Hc id); left). cbn [mbind res_bind].
  rewrite IH by (intros id' row' Hin; apply (Hc id'); by right). done.
Qed.

Lemma recover_all_lookup rows m id :
  NoDup (map fst rows) → (∀ k row, (k, row) ∈ rows → m !! k = Some row) →
  recover_all rows m !! id =
    if bool_decide (id ∈ map fst rows) then recovered_row <$> m !! id else m !! id.
Proof.
  unfold recover_all. revert m. induction rows as [|[k row] rows IH]; intros m Hnd Hm; cbn [fold_left map fst].
  { done. }
  cbn [map fst] in Hnd. apply NoDup_cons in Hnd as [Hk Hnd].
  assert (Hrest : ∀ k' row', (k', row') ∈ rows → k' ≠ k).
  { intros k' row' Hin ->. apply Hk. apply list_elem_of_fmap. by exists (k, row'). }
  rewrite IH; [|done|].
  - cbn [fst snd]. destruct (decide (id = k)) as [->|Hne].
    + rewrite lookup_insert_eq, bool_decide_eq_false_2 by done.
      rewrite bool_decide_eq_true_2 by left. by rewrite (Hm k row) by left.
    + rewrite lookup_insert_ne by done. do 2 case_bool_decide; try done.
      * exfalso. match goal with H : _ ∉ _ |- _ => apply H end. by right.
      * exfalso. match goal with H : id ∈ k :: _ |- _ => apply elem_of_cons in H as [->|?] end; done.
  - intros k' row' Hin. cbn [fst]. rewrite lookup_insert_ne; [by apply Hm; right|].
    intros ->. by eapply Hrest.
Qed.

(** Reading the returned rows of a healthy connection. *)
Lemma scan_rows_total (rows : list (string * DeliveryRow)) (D W : db) n :
  (∀ id row, (id, row) ∈ rows → is_Some (d_locked_at row)) →
  scan_rows (map (λ '(id, row), (id, d_attempt_count row, d_locked_at row, now)) rows)
    (mkConn _ D W [] n)
  = (Ok (map (λ '(id, row), mkRecoveredLease id (d_attempt_count row)
                (time_of_ts (default 0 (d_locked_at row))) (time_of_ts now)) rows),
     mkConn _ D W [] n).
Proof.
  induction rows as [|[id row] rows IH]; intros Hl; cbn [map scan_rows]; [done|].
  destruct (Hl id row) as [l Hlock]; [left|]. rewrite Hlock. cbn [scan_recovered].
  run_eval. rewrite IH by (intros id' row' Hin; apply (Hl id'); by right). done.
Qed.

Definition lease_item (kv : string * DeliveryRow) : recoveredLease :=
  mkRecoveredLease kv.1 (d_attempt_count kv.2) (time_of_ts (default 0 (d_locked_at kv.2))) (time_of_ts now).

Lemma insert_expired_total k item miss (W : db) a u :
  db_ok_mod (item_key item :: miss) [] W → 
  delivery_attempts W !! NewString k = None →
  rl_startedAt item = time_of_ts a → rl_completedAt item = time_of_ts u → a <= u →
  ∃ row, a_delivery_id row = rl_deliveryID item ∧ a_attempt_number row = rl_attempt item
    ∧ a_status_code row = None ∧ a_error_message row = "delivery lease expired"%string
    ∧ insert_expired_attempt (NewString k) item W
      = Ok (set_attempts (<[NewString k := row]> (delivery_attempts W)) W).
Proof.
  intros Hok Hn Ha Hu Hau. unfold insert_expired_attempt.
  destruct (ok_miss _ _ _ Hok (rl_deliveryID item) (rl_attempt item)) as (r & Hr & Hrec); [left|].
  destruct (ok_deliveries _ _ _ Hok _ _ Hr) as (Hcan & (Hcheck & _) & _).
  pose proof (check_delivery_counts _ Hcheck) as (Hcnt & Hmax & _).
  rewrite sql_uuid_new. cbn [mbind res_bind].
  rewrite (canonical_sql_uuid _ Hcan). cbn [mbind res_bind].
  set (row := mkAttemptRow _ _ _ _ _ _ _ _).
  assert (rl_attempt item <= MaxInt32).
  { unfold recorded in Hrec. case_bool_decide; lia. }
  assert (Hrow : check_attempt row = true).
  { apply check_attempt_intro; [lia|done| | |by right].
    - apply durationMilliseconds_range, Sub_nonneg. rewrite Ha, Hu. unfold Before, readings. cbn.
      apply Z.ltb_ge. unfold Microsecond. lia.
    - rewrite Ha, Hu. apply timestamptz_mono. cbn. unfold Microsecond. lia. }
  destruct (insert_attempt_total miss [] W (NewString k) row Hok Hn Hrow) as [Hfree Hins].
  cbn [a_delivery_id a_attempt_number row] in Hfree. rewrite Hfree.
  exists row. repeat split. exact Hins.
Qed.

(** What recording the recovered leases leaves: the attempts table grew, by
    one row for each lease. *)
Record recorded_all (items : list recoveredLease) (n : nat) (W W' : db) (n' : nat) : Prop := {
  ra_same : endpoints W' = endpoints W ∧ events W' = events W ∧ deliveries W' = deliveries W;
  ra_grows : delivery_attempts W ⊆ delivery_attempts W';
  ra_fresh : fresh_uuids n' W';
  ra_ok : db_ok W';
  ra_next : (n <= n')%nat;
}.

Lemma record_recovered_total items (D W : db) n :
  db_ok_mod (map item_key items) [] W → fresh_uuids n W →
  Forall (λ i, ∃ a u, rl_startedAt i = time_of_ts a ∧ rl_completedAt i = time_of_ts u ∧ a <= u) items →
  ∃ W' n', record_recovered items (mkConn _ D W [] n) = (Ok tt, mkConn _ D W' [] n')
           ∧ recorded_all items n W W' n'.
Proof.
  revert W n. induction items as [|i items IH]; intros W n Hok Hfr HF; cbn [record_recovered].
  { exists W, n. split; [done|]. split; try done. }
  apply Forall_cons in HF as [(a & u & Ha & Hu & Hau) HF].
  destruct (insert_expired_total n i (map item_key items) W a u Hok (Hfr n (le_n n)) Ha Hu Hau)
    as (row & Hrd & Hrn & _ & _ & Hins).
  destruct (insert_expired_safe (NewString n) i (map item_key items) W _ Hok Hins) as [Hok1 _].
  destruct (IH (set_attempts (<[NewString n := row]> (delivery_attempts W)) W) (S n)) as (W' & n' & Hrun & Hra);
    [done| |done|].
  { intros k Hk. cbn. rewrite lookup_insert_ne; [apply Hfr; lia|]. intros E%NewString_inj. lia. }
  exists W', n'. run_eval. rewrite Hins. cbn [map_err]. split; [exact Hrun|].
  destruct Hra as [[? ?] Hg ? ? ?]. split; try done; [|lia].
  etrans; [|exact Hg]. apply insert_subseteq, Hfr. lia.
Qed.

(** The database after recovery: every expired row the scan took is back in
    the queue or dead, and nothing else of the four tables changed except
    for the new attempts. *)
Record recovered_db (D W : db) : Prop := {
  rd_same : endpoints W = endpoints D ∧ events W = events D;
  rd_grows : delivery_attempts D ⊆ delivery_attempts W;
  rd_deliveries : ∀ id, deliveries W !! id =
    if bool_decide (id ∈ map fst (expired_rows D)) then recovered_row <$> deliveries D !! id
    else deliveries D !! id;
  rd_ok : db_ok W;
}.

Lemma expired_rows_facts (D : db) id row :
  db_ok D → (id, row) ∈ expired_rows D →
  deliveries D !! id = Some row ∧ check_delivery row = true ∧ d_status row = StatusProcessing
  ∧ ∃ l, d_locked_at row = Some l ∧ l < now.
Proof.
  intros Hok (Hr & He & _)%expired_rows_spec.
  destruct (ok_deliveries _ _ _ Hok _ _ Hr) as (_ & (Hc & _) & _).
  unfold lease_expired in He. zbool. split_and!; try done.
  destruct (check_processing_locks _ Hc) as (w & t & l & u & _ & _ & Hl & Hu & Hlu); [done|].
  exists l. split; [done|]. rewrite Hu in *. zbool. lia.
Qed.

Lemma recoverExpiredLeases_total (D : db) n :
  db_ok D → fresh_uuids n D →
  ∃ W n', recoverExpiredLeases (mkConn _ D D [] n) = (Ok tt, mkConn _ D W [] n')
          ∧ recovered_db D W ∧ fresh_uuids n' W ∧ (n <= n')%nat.
Proof.
  intros Hok Hfr. set (rows := expired_rows D).
  assert (Hq : recoverExpiredQuery D = Ok (set_deliveries (recover_all rows (deliveries D)) D,
    map (λ '(id, row), (id, d_attempt_count row, d_locked_at row, now)) rows)).
  { unfold recoverExpiredQuery. fold rows. rewrite update_recovered_total; [done|].
    intros id row Hin. by eapply expired_rows_facts. }
  destruct (recover_query_safe _ _ _ Hok Hq) as [Hok1 Hev1].
  set (W0 := set_deliveries (recover_all rows (deliveries D)) D) in *.
  assert (Hkeys : map row_key (map (λ '(id, row), (id, d_attempt_count row, d_locked_at row, now)) rows)
                  = map item_key (map lease_item rows)).
  { rewrite !map_map. apply map_ext. by intros [id row]. }
  destruct (record_recovered_total (map lease_item rows) D W0 n) as (W & n' & Hrun & Hra).
  { eapply db_ok_perm; [|exact Hok1]. rewrite Hkeys. symmetry. apply Permutation_rev. }
  { done. }
  { apply Forall_forall. intros i Hin. apply list_elem_of_fmap in Hin as ([id row] & -> & Hin).
    destruct (expired_rows_facts _ _ _ Hok Hin) as (_ & _ & _ & l & Hl & Hlt).
    exists l, now. cbn. rewrite Hl. split_and!; done || lia. }
  exists W, n'. split; [|split; [|split; [apply Hra|apply Hra]]].
  - unfold recoverExpiredLeases. run_eval. rewrite Hq. run_eval.
    rewrite scan_rows_total; [run_eval; cbn [map_err]|].
    + assert (map (λ '(id, row), mkRecoveredLease id (d_attempt_count row)
        (time_of_ts (default 0 (d_locked_at row))) (time_of_ts now)) rows = map lease_item rows) as ->
        by (apply map_ext; by intros [id row]).
      exact Hrun.
    + intros id row Hin. destruct (expired_rows_facts _ _ _ Hok Hin) as (_ & _ & _ & l & Hl & _). eauto.
  - destruct Hra as [(E1 & E2 & E3) Hg Hf Hok2 _]. split; try done.
    intros id. rewrite E3. cbn. apply recover_all_lookup; [apply expired_rows_nodup|].
    intros k row Hin. by eapply expired_rows_facts.
Qed.

(** Recovery, as its contract has it: at most 32 expired leases, the longest
    expired first and none that a concurrent transaction holds, are recovered
    and their attempt recorded; nothing else of the deliveries changes. *)
Record recovery (D W : db) : Prop := {
  rv_tables : endpoints W = endpoints D ∧ events W = events D;
  rv_attempts : delivery_attempts D ⊆ delivery_attempts W;
  rv_taken : ∃ ids : list string, NoDup ids ∧ (length ids <= 32)%nat
    ∧ (∀ id, id ∈ ids → ∃ row row', deliveries D !! id = Some row ∧ deliveries W !! id = Some row'
         ∧ row_recovered row row' ∧ id ∉ locked_recover ∧ has_attempt W id (d_attempt_count row))
    ∧ (∀ id, id ∉ ids → deliveries W !! id = deliveries D !! id)
    ∧ (∀ id row u, deliveries D !! id = Some row → d_status row = StatusProcessing →
         d_locked_until row = Some u → u <= now → id ∉ locked_recover → id ∉ ids →
         length ids = 32%nat
         ∧ ∀ id' row' u', id' ∈ ids → deliveries D !! id' = Some row' → d_locked_until row' = Some u' → u' <= u);
}.

#[local] Instance by_locked_until_total : Total by_locked_until.
Proof. intros a b. unfold by_locked_until. lia. Qed.
#[local] Instance by_locked_until_trans : Transitive by_locked_until.
Proof. intros a b c. unfold by_locked_until. lia. Qed.

(** What the scan leaves behind: the limit was reached, with rows no younger. *)
Lemma expired_rows_rest (D : db) id row :
  deliveries D !! id = Some row → lease_expired row = true → id ∉ locked_recover → id ∉ map fst (expired_rows D) →
  length (expired_rows D) = 32%nat ∧ ∀ kv, kv ∈ expired_rows D → by_locked_until kv (id, row).
Proof.
  intros Hr He Hl Hn. unfold expired_rows in *. set (l := merge_sort _ _) in *.
  assert (Hin : (id, row) ∈ l).
  { unfold l. rewrite merge_sort_Permutation. apply list_elem_of_In, filter_In. cbn.
    rewrite He, bool_decide_eq_false_2 by done. split; [|done].
    apply list_elem_of_In. rewrite (scan_order_perm _ (deliveries D)). by apply elem_of_map_to_list. }
  pose proof (StronglySorted_merge_sort by_locked_until
    (List.filter (λ kv, lease_expired kv.2 && negb (bool_decide (kv.1 ∈ locked_recover))) (scan_order _ (deliveries D)))) as Hs.
  fold l in Hs. rewrite <- (take_drop 32 l) in Hs, Hin. apply elem_of_app in Hin as [Hin|Hin].
  { exfalso. apply Hn. apply list_elem_of_fmap. by exists (id, row). }
  assert (drop 32 l ≠ []) as Hne by (intros E; rewrite E in Hin; by apply elem_of_nil in Hin).
  split.
  - rewrite length_take. apply Nat.min_l. destruct (Nat.le_gt_cases 32 (length l)); [done|]. by rewrite drop_ge in Hne by lia.
  - intros kv Hkv. revert Hs Hkv Hin. generalize (take 32 l) as a, (drop 32 l) as b. clear. intros a b Hs Ha Hb.
    induction a as [|x a IH]; [by apply elem_of_nil in Ha|]. cbn in Hs. apply StronglySorted_inv in Hs as [Hs Hx].
    apply elem_of_cons in Ha as [->|Ha]; [|by apply IH]. rewrite Forall_forall in Hx. apply Hx, elem_of_app. by right.
Qed.

Lemma recovered_db_recovery (D W : db) : db_ok D → recovered_db D W → recovery D W.
Proof.
  intros Hok [Hsame Hg Hd HokW]. split; [done|done|]. exists (map fst (expired_rows D)).
  split; [apply expired_rows_nodup|]. split; [rewrite length_map; apply firstn_le_length|]. split_and!.
  - intros id Hin. pose proof (Hd id) as Hid. rewrite bool_decide_eq_true_2 in Hid by done.
    apply list_elem_of_fmap in Hin as ([k row] & -> & Hin). cbn [fst] in *.
    destruct (expired_rows_facts _ _ _ Hok Hin) as (Hr & _ & Hp & _). pose proof Hin as (_ & He & Hl)%expired_rows_spec.
    rewrite Hr in Hid. exists row, (recovered_row row). split_and!; [done|done|by apply recovered_row_recovers|done|].
    apply (ok_history _ _ _ HokW _ _ _ Hid). split; [|apply not_elem_of_nil].
    destruct (ok_deliveries _ _ _ Hok _ _ Hr) as (_ & (_ & _ & H1) & _). specialize (H1 Hp).
    rewrite recorded_idle; [cbn; lia|]. cbn. by destruct (_ <? _).
  - intros id Hn. rewrite Hd, bool_decide_eq_false_2 by done. done.
  - intros id row u Hr Hp Hu Hle Hl Hn. destruct (expired_rows_rest D id row) as [H32 Hby]; [done| |done|done|].
    { unfold lease_expired. rewrite Hp, Hu. by apply Z.leb_le. }
    split; [by rewrite length_map|]. intros id' row' u' Hin Hr' Hu'.
    apply list_elem_of_fmap in Hin as ([k r] & -> & Hin). cbn [fst] in *.
    pose proof Hin as (Hr2 & _)%expired_rows_spec. assert (r = row') as -> by congruence.
    specialize (Hby _ Hin). unfold by_locked_until in Hby. cbn in Hby. by rewrite Hu, Hu' in Hby.
Qed.

(** ** Claiming *)

#[local] Instance by_next_attempt_total : Total by_next_attempt.
Proof. intros a b. unfold by_next_attempt. lia. Qed.
#[local] Instance by_next_attempt_trans : Transitive by_next_attempt.
Proof. intros a b c. unfold by_next_attempt. lia. Qed.

Lemma waiting_rows_spec (d : db) id row :
  (id, row) ∈ List.filter (λ kv, claimable d kv.2 && negb (bool_decide (kv.1 ∈ locked_claim)))
                (scan_order _ (deliveries d))
  ↔ deliveries d !! id = Some row ∧ claimable d row = true ∧ id ∉ locked_claim.
Proof.
  rewrite list_elem_of_In, filter_In, <- list_elem_of_In, (scan_order_perm _ (deliveries d)).
  rewrite elem_of_map_to_list, andb_true_iff, negb_true_iff, bool_decide_eq_false. done.
Qed.

(** The candidate is the oldest claimable delivery nobody holds locked. *)
Lemma candidate_oldest (d : db) id row id' row' :
  candidate d = Some (id, row) → deliveries d !! id' = Some row' → claimable d row' = true →
  id' ∉ locked_claim → by_next_attempt (id, row) (id', row').
Proof.
  unfold candidate. set (l := List.filter _ _). intros Hc Hr Hcl Hlock.
  assert ((id', row') ∈ merge_sort by_next_attempt l) as Hin.
  { rewrite merge_sort_Permutation. by apply waiting_rows_spec. }
  pose proof (StronglySorted_merge_sort by_next_attempt l) as Hs.
  destruct (merge_sort by_next_attempt l) as [|x xs]; [done|]. cbn in Hc. injection Hc as ->.
  apply elem_of_cons in Hin as [->|Hin]; [unfold by_next_attempt; lia|].
  apply StronglySorted_inv in Hs as [_ Hs]. rewrite Forall_forall in Hs. by apply Hs.
Qed.

Lemma candidate_None (d : db) :
  candidate d = None ↔
  ∀ id row, deliveries d !! id = Some row → claimable d row = true → id ∈ locked_claim.
Proof.
  unfold candidate. set (l := List.filter _ _). split.
  - intros Hn id row Hr Hc. destruct (decide (id ∈ locked_claim)) as [|Hnl]; [done|]. exfalso.
    assert ((id, row) ∈ merge_sort by_next_attempt l) as Hin.
    { rewrite merge_sort_Permutation. by apply waiting_rows_spec. }
    destruct (merge_sort by_next_attempt l); [by apply elem_of_nil in Hin|done].
  - intros Hall. destruct (merge_sort by_next_attempt l) as [|[id row] xs] eqn:E; [done|]. exfalso.
    assert ((id, row) ∈ l) as Hin.
    { rewrite <- (merge_sort_Permutation by_next_attempt l), E. left. }
    apply waiting_rows_spec in Hin as (Hr & Hc & Hn). by eapply Hn, Hall.
Qed.

Lemma claimed_row_check worker token ms row (d : db) :
  check_delivery row = true → claimable d row = true → 1 <= ms →
  check_delivery (claimed_row worker token ms row) = true.
Proof.
  intros (Hc & Hm & Hl)%check_delivery_counts (_ & _ & Hlt & _)%claimable_spec Hms.
  apply check_locked; try done; [lia|]. unfold interval_ms. lia.
Qed.

Lemma claimDeliveryQuery_total worker token ms (W : db) :
  db_ok W → text_in worker = true → canonical token → 1 <= ms →
  claimDeliveryQuery worker token ms W =
  match candidate W with
  | None => Ok (W, [])
  | Some (id, row) =>
      let row' := claimed_row worker token ms row in
      Ok (set_deliveries (<[id := row']> (deliveries W)) W,
          match events W !! d_event_id row, endpoints W !! d_endpoint_id row with
          | Some ev, Some ep => [((id, row'), (d_event_id row, ev), (d_endpoint_id row, ep))]
          | _, _ => []
          end)
  end.
Proof.
  intros Hok Ht Hcan Hms. unfold claimDeliveryQuery, sql_text. rewrite Ht.
  rewrite (canonical_sql_uuid _ Hcan). cbn [mbind res_bind].
  destruct (candidate W) as [[id row]|] eqn:E; [|done].
  apply candidate_spec in E as (Hr & Hcl & _).
  destruct (ok_deliveries _ _ _ Hok _ _ Hr) as (_ & (Hc & _) & _).
  pose proof (check_delivery_counts _ Hc) as (Hcnt & Hmax & _).
  pose proof (claimable_spec _ _ Hcl) as (_ & _ & Hlt & _).
  assert (int4 (d_attempt_count row + 1) = true) as ->.
  { unfold int4, in_range, MinInt32, MaxInt32 in *. rewrite andb_true_iff, !Z.leb_le. lia. }
  cbn [sql_guard mbind res_bind]. rewrite update_delivery_total; [done|].
  by eapply claimed_row_check.
Qed.

(** The whole claim on a healthy connection. *)
Lemma ClaimDelivery_total workerID lease (D : db) n :
  db_ok D → fresh_uuids n D → TrimSpace workerID ≠ ""%string → Millisecond <= lease →
  text_in (TrimSpace workerID) = true →
  ∃ W n', recovered_db D W ∧ (n <= n')%nat ∧
  match candidate W with
  | None =>
      ClaimDelivery workerID lease (mkConn _ D D [] n) = (Ok None, mkConn _ W W [] (S n'))
  | Some (id, row) =>
      ∃ job ev ep,
      let row' := claimed_row (TrimSpace workerID) (NewString n') (Milliseconds lease) row in
      let W' := set_deliveries (<[id := row']> (deliveries W)) W in
      ClaimDelivery workerID lease (mkConn _ D D [] n) = (Ok (Some job), mkConn _ W' W' [] (S n'))
      ∧ events W !! d_event_id row = Some ev ∧ endpoints W !! d_endpoint_id row = Some ep
      ∧ scanJob ((id, row'), (d_event_id row, ev), (d_endpoint_id row, ep)) = Ok job
  end.
Proof.
  intros Hok Hfr Hw Hl Ht.
  destruct (recoverExpiredLeases_total D n Hok Hfr) as (W & n' & Hrec & Hrd & _ & Hn).
  exists W, n'. split; [done|]. split; [done|].
  pose proof (rd_ok _ _ Hrd) as HokW.
  assert (Hms : 1 <= Milliseconds lease) by (by apply Milliseconds_pos).
  assert (Hstart : ∀ K : unit → M (option Job),
    (_ ← wrapping "begin claim transaction" BeginTx; _ ← recoverExpiredLeases; K tt) (mkConn _ D D [] n)
    = K tt (mkConn _ D W [] n')).
  { intros K. run_eval. rewrite Hrec. done. }
  unfold ClaimDelivery. cbn zeta. rewrite (bool_decide_eq_false_2 _ Hw).
  destruct (Z.ltb_spec lease Millisecond); [lia|].
  pose proof (claimDeliveryQuery_total (TrimSpace workerID) (NewString n') (Milliseconds lease) W HokW Ht
    (NewString_canonical n') Hms) as Hq.
  destruct (candidate W) as [[id row]|] eqn:E.
  - apply candidate_spec in E as (Hr & Hcl & _).
    destruct (ok_deliveries _ _ _ HokW _ _ Hr) as (_ & _ & ev & Hev & _).
    apply claimable_spec in Hcl as (_ & _ & _ & ep & Hep & _).
    rewrite Hev, Hep in Hq. eexists _, ev, ep. cbn zeta. split; [|split; [done|split; [done|reflexivity]]].
    rewrite (Hstart (λ _, token ← new_uuid; _)). run_eval. rewrite Hq. run_eval. done.
  - rewrite (Hstart (λ _, token ← new_uuid; _)). run_eval. rewrite Hq. run_eval. done.
Qed.

(** ** Finishing *)

(** A failure comes with a cooldown of a millisecond or more. *)
Definition valid_outcome (r : AttemptResult) : Prop := AR_CircuitOutcome r = CircuitFailure → Millisecond <= AR_CircuitCooldown r.

(** The effect of an attempt on the circuit of its endpoint. *)
Definition circuit_effect (r : AttemptResult) (ep : string) (m : gmap string EndpointRow)
    : gmap string EndpointRow :=
  match AR_CircuitOutcome r with
  | CircuitFailure =>
      alter (failed_circuit (AR_CircuitThreshold r) (Milliseconds (AR_CircuitCooldown r))) ep m
  | CircuitSuccess => alter (set_circuit 0 None) ep m
  | _ => m
  end.

Lemma circuit_effect_change r ep m e :
  valid_outcome r → m !! ep = Some e →
  ∃ e', circuit_effect r ep m = <[ep := e']> m ∧ circuit_change r e e'.
Proof.
  intros Hv He. unfold circuit_effect, circuit_change.
  assert (Halter : ∀ f, alter f ep m = <[ep := f e]> m).
  { intros f. apply map_eq. intros i. destruct (decide (i = ep)) as [->|Hne].
    - by rewrite lookup_insert_eq, lookup_alter_eq, He.
    - by rewrite lookup_insert_ne, lookup_alter_ne by done. }
  destruct (AR_CircuitOutcome r) eqn:Eo.
  - exists e. split; [|done]. by rewrite insert_id.
  - eexists. split; [apply Halter|]. by apply failed_circuit_fails, Hv.
  - eexists. split; [apply Halter|]. apply set_circuit_succeeds.
  - exists e. split; [|done]. by rewrite insert_id.
Qed.

(** What the database asks of a result beyond [validateAttemptResult]: legal
    text and identifiers, wall clock readings in order, and counters in the
    range of their columns. *)
Record storable (r : AttemptResult) (did token : string) (D : db) : Prop := {
  so_delivery : uuid_in (AR_DeliveryID r) = Some did;
  so_token : uuid_in (AR_LeaseToken r) = Some token;
  so_worker : text_in (AR_WorkerID r) = true;
  so_error : text_in (AR_ErrorMessage r) = true;
  so_body : text_in (AR_ResponseBody r) = true;
  so_wall : wall (AR_StartedAt r) <= wall (AR_CompletedAt r);
  so_threshold : AR_CircuitOutcome r = CircuitFailure → AR_CircuitThreshold r <= MaxInt32;
  so_failures : AR_CircuitOutcome r = CircuitFailure →
    ∀ id e, endpoints D !! id = Some e → ep_consecutive_failures e < MaxInt32;
}.
End QueueSpec.

(** ** validateAttemptResult *)

(** The conjunction [validateAttemptResult] decides. *)
Record valid_result (r : AttemptResult) : Prop := {
  vr_delivery : blank (AR_DeliveryID r) = false;
  vr_worker : blank (AR_WorkerID r) = false;
  vr_token : blank (AR_LeaseToken r) = false;
  vr_number : 1 <= AR_AttemptNumber r <= MaxInt32;
  vr_decision : AR_Decision r = DecisionSucceed ∨ AR_Decision r = DecisionRetry ∨ AR_Decision r = DecisionDiscard;
  vr_status : ∀ c, AR_StatusCode r = Some c → 100 <= c <= 599 ∧ Evaluate c None = AR_Decision r;
  vr_no_status : AR_StatusCode r = None →
    blank (AR_ErrorMessage r) = false ∧ AR_Decision r ≠ DecisionSucceed;
  vr_duration : 0 <= AR_Duration r;
  vr_times : IsZero (AR_StartedAt r) = false ∧ IsZero (AR_CompletedAt r) = false
    ∧ Before (AR_CompletedAt r) (AR_StartedAt r) = false;
  vr_next : AR_Decision r = DecisionRetry → After (AR_NextAttemptAt r) (AR_CompletedAt r) = true;
  vr_outcome : AR_CircuitOutcome r = CircuitNone ∨ AR_CircuitOutcome r = CircuitFailure
    ∨ AR_CircuitOutcome r = CircuitSuccess;
  vr_circuit : AR_CircuitOutcome r = CircuitFailure →
    1 <= AR_CircuitThreshold r ∧ Millisecond <= AR_CircuitCooldown r;
}.

Lemma validate_ok_valid r : validateAttemptResult r = Ok tt → valid_result r.
Proof.
  unfold validateAttemptResult. intros H.
  repeat match type of H with
  | (if ?b then Err _ else _) = Ok _ => destruct b eqn:?; [discriminate H|]
  end.
  zbool. split; try done.
  - repeat case_bool_decide; auto; cbn in *; intuition discriminate.
  - intros c Hc. rewrite Hc in *. zbool. split; [lia|done].
  - intros Hn. rewrite Hn in *. cbn in *.
    split; [intuition discriminate|]. apply (bool_decide_eq_false (AR_Decision r = DecisionSucceed)).
    intuition discriminate.
  - intros Hr. apply negb_false_iff. rewrite (bool_decide_eq_true_2 (AR_Decision r = DecisionRetry)) in * by done.
    intuition discriminate.
  - repeat case_bool_decide; auto; cbn in *; intuition discriminate.
  - intros Hf. rewrite (bool_decide_eq_true_2 (AR_CircuitOutcome r = CircuitFailure)) in * by done.
    match goal with H : _ ∨ (_ || _) = false |- _ => destruct H as [H|H]; [discriminate H|] end.
    zbool. lia.
Qed.

Lemma valid_validate_ok r : valid_result r → validateAttemptResult r = Ok tt.
Proof.
  intros [H1 H2 H3 H4 H5 H6 H7 H8 (H9 & H10 & H11) H12 H13 H14]. unfold validateAttemptResult.
  rewrite H1, H2, H3, H9, H10, H11.
  destruct (Z.ltb_spec (AR_AttemptNumber r) 1), (Z.ltb_spec MaxInt32 (AR_AttemptNumber r)); try lia. cbn [orb].
  destruct (Z.ltb_spec (AR_Duration r) 0); [lia|].
  assert (negb (bool_decide (AR_Decision r = DecisionSucceed)) && negb (bool_decide (AR_Decision r = DecisionRetry))
          && negb (bool_decide (AR_Decision r = DecisionDiscard)) = false) as ->
    by (destruct H5 as [->|[->| ->]]; done).
  assert (negb (bool_decide (AR_CircuitOutcome r = CircuitNone))
          && negb (bool_decide (AR_CircuitOutcome r = CircuitFailure))
          && negb (bool_decide (AR_CircuitOutcome r = CircuitSuccess)) = false) as ->
    by (destruct H13 as [->|[->| ->]]; done).
  assert (bool_decide (AR_Decision r = DecisionRetry)
          && negb (After (AR_NextAttemptAt r) (AR_CompletedAt r)) = false) as ->
    by (case_bool_decide; [by rewrite H12|done]).
  assert (bool_decide (AR_CircuitOutcome r = CircuitFailure)
          && ((AR_CircuitThreshold r <? 1) || (AR_CircuitCooldown r <? Millisecond)) = false) as ->.
  { case_bool_decide; [|done]. destruct H14 as [? ?]; [done|]. cbn.
    destruct (Z.ltb_spec (AR_CircuitThreshold r) 1), (Z.ltb_spec (AR_CircuitCooldown r) Millisecond); lia || done. }
  destruct (AR_StatusCode r) as [c|].
  - destruct (H6 c eq_refl) as [Hc He]. cbn [is_null andb]. rewrite bool_decide_eq_true_2 by done.
    destruct (Z.ltb_spec c 100), (Z.ltb_spec 599 c); try lia. done.
  - destruct (H7 eq_refl) as [Hb Hd]. cbn [is_null andb]. rewrite Hb, bool_decide_eq_false_2 by done. done.
Qed.

Section FinishSpec.
Context `{PG : Postgres} {PL : PostgresLaws} `{UU : Uuids} {UL : UuidsLaws} `{TE : TxEnv}.

Lemma finished_row_check r row :
  valid_result r → check_delivery row = true → check_delivery (finished_row r row) = true.
Proof.
  intros Hv (Hc & Hm & Hl)%check_delivery_counts. unfold finished_row. cbn zeta.
  apply check_unlocked; try done.
  - by repeat case_bool_decide; cbn; try done; destruct (_ <? _).
  - destruct (AR_StatusCode r) as [c|] eqn:E; [|done]. destruct (vr_status _ Hv c E) as [? _].
    cbn. unfold in_range. rewrite andb_true_iff, !Z.leb_le. lia.
Qed.

Lemma finished_attempt_check r did token (D : db) :
  valid_result r → storable r did token D → check_attempt (finished_attempt did r) = true.
Proof.
  intros Hv Hs. apply check_attempt_intro.
  - apply (vr_number _ Hv).
  - destruct (AR_StatusCode r) as [c|] eqn:E; [|done]. destruct (vr_status _ Hv c E) as [? _].
    cbn. unfold in_range. rewrite andb_true_iff, !Z.leb_le. lia.
  - apply durationMilliseconds_range, (vr_duration _ Hv).
  - apply timestamptz_mono, (so_wall _ _ _ _ Hs).
  - destruct (AR_StatusCode r) as [c|] eqn:E; [by left|right].
    destruct (vr_no_status _ Hv E) as [Hb _]. intros Hm. by rewrite Hm in Hb.
Qed.

Lemma finishQuery_total r did token (D : db) :
  valid_result r → storable r did token D → db_ok D →
  finishQuery r D =
  match deliveries D !! did with
  | Some row =>
      if holds_lease (AR_WorkerID r) token (AR_AttemptNumber r) row
      then Ok (set_deliveries (<[did := finished_row r row]> (deliveries D)) D,
               [(d_status (finished_row r row), d_endpoint_id row)])
      else Ok (D, [])
  | None => Ok (D, [])
  end.
Proof.
  intros Hv [Hd Ht Hw He Hb _ _ _] Hok. unfold finishQuery, sql_uuid, sql_text. rewrite Hd, Ht, Hw, He.
  cbn [mbind res_bind]. destruct (deliveries D !! did) as [row|] eqn:Hr; [|done].
  destruct (holds_lease _ _ _ row); [|done].
  rewrite update_delivery_total; [done|].
  destruct (ok_deliveries _ _ _ Hok _ _ Hr) as (_ & (Hc & _) & _). by apply finished_row_check.
Qed.

Lemma recordQuery_total n r did token (D W : db) :
  valid_result r → storable r did token D →
  db_ok_mod [(did, AR_AttemptNumber r)] [] W → delivery_attempts W !! NewString n = None →
  recordQuery (NewString n) r W
  = Ok (set_attempts (<[NewString n := finished_attempt did r]> (delivery_attempts W)) W).
Proof.
  intros Hv Hs Hok Hn. unfold recordQuery. rewrite sql_uuid_new. cbn [mbind res_bind].
  unfold sql_uuid, sql_text.
  rewrite (so_delivery _ _ _ _ Hs), (so_body _ _ _ _ Hs), (so_error _ _ _ _ Hs). cbn [mbind res_bind].
  by apply (insert_attempt_total [] [] W (NewString n) (finished_attempt did r) Hok Hn),
    (finished_attempt_check r did token D).
Qed.

Lemma check_circuit n o e :
  check_endpoint e = true → 0 <= n <= MaxInt32 → check_endpoint (set_circuit n o e) = true.
Proof.
  unfold check_endpoint, int4, in_range. cbn. intros H Hn. unfold MinInt32, MaxInt32 in *. zbool.
  rewrite !andb_true_iff, !Z.leb_le. lia.
Qed.

Lemma set_endpoints_id (W : db) : set_endpoints (endpoints W) W = W.
Proof. by destruct W. Qed.

Lemma updateCircuit_total r ep row_id token (D0 D W : db) n :
  valid_result r → storable r row_id token D0 → endpoints W = endpoints D0 →
  canonical ep → (∀ id e, endpoints W !! id = Some e → check_endpoint e = true) →
  updateCircuit r ep (mkConn _ D W [] n)
  = (Ok tt, mkConn _ D (set_endpoints (circuit_effect r ep (endpoints W)) W) [] n).
Proof.
  intros Hv Hs HE Hcan Hchk. unfold updateCircuit, circuit_effect.
  assert (Halter : ∀ f e, endpoints W !! ep = Some e → check_endpoint (f e) = true →
    update_endpoint ep (f e) W = Ok (set_endpoints (alter f ep (endpoints W)) W)).
  { intros f e He Hc. unfold update_endpoint. rewrite Hc. cbn. do 2 f_equal.
    apply map_eq. intros i. destruct (decide (i = ep)) as [->|Hne].
    - by rewrite lookup_insert_eq, lookup_alter_eq, He.
    - by rewrite lookup_insert_ne, lookup_alter_ne by done. }
  assert (Hnone : ∀ f, endpoints W !! ep = None → W = set_endpoints (alter f ep (endpoints W)) W).
  { intros f Hn. rewrite <- (set_endpoints_id W) at 1. f_equal. apply map_eq. intros i.
    destruct (decide (i = ep)) as [->|Hne]; [by rewrite lookup_alter_eq, Hn|by rewrite lookup_alter_ne]. }
  destruct (AR_CircuitOutcome r) eqn:Eo; run_eval; [by rewrite set_endpoints_id| | |by rewrite set_endpoints_id].
  - unfold circuitFailureQuery. rewrite (canonical_sql_uuid _ Hcan). cbn [mbind res_bind].
    assert (int4 (AR_CircuitThreshold r) = true) as ->.
    { destruct (vr_circuit _ Hv Eo) as [? _]. pose proof (so_threshold _ _ _ _ Hs Eo).
      unfold int4, in_range, MinInt32, MaxInt32 in *. rewrite andb_true_iff, !Z.leb_le. lia. }
    cbn [sql_guard mbind res_bind].
    destruct (endpoints W !! ep) as [e|] eqn:He; [|by rewrite <- Hnone].
    assert (0 <= ep_consecutive_failures e + 1 <= MaxInt32) as Hf.
    { rewrite HE in He. pose proof (so_failures _ _ _ _ Hs Eo _ _ He).
      rewrite <- HE in He. pose proof (Hchk _ _ He) as Hc. unfold check_endpoint in Hc. zbool. lia. }
    assert (int4 (ep_consecutive_failures e + 1) = true) as ->.
    { unfold int4, in_range, MinInt32, MaxInt32 in *. rewrite andb_true_iff, !Z.leb_le. lia. }
    cbn [sql_guard mbind res_bind]. rewrite (Halter _ e eq_refl); [done|].
    apply check_circuit; [by eapply Hchk|done].
  - unfold circuitSuccessQuery. rewrite (canonical_sql_uuid _ Hcan). cbn [mbind res_bind].
    destruct (endpoints W !! ep) as [e|] eqn:He; [|by rewrite <- Hnone].
    rewrite (Halter _ e eq_refl); [done|]. apply check_circuit; [by eapply Hchk|unfold MaxInt32; lia].
Qed.

(** The whole of [FinishAttempt] on a healthy connection. *)
Lemma FinishAttempt_total r did token (D : db) n :
  db_ok D → fresh_uuids n D → validateAttemptResult r = Ok tt → storable r did token D →
  match deliveries D !! did with
  | Some row =>
      if holds_lease (AR_WorkerID r) token (AR_AttemptNumber r) row
      then
        let W := mkDb _ (circuit_effect r (d_endpoint_id row) (endpoints D)) (events D)
                   (<[did := finished_row r row]> (deliveries D))
                   (<[NewString n := finished_attempt did r]> (delivery_attempts D)) in
        FinishAttempt r (mkConn _ D D [] n)
        = (Ok (d_status (finished_row r row)), mkConn _ W W [] (S n))
      else FinishAttempt r (mkConn _ D D [] n) = (Err ErrLeaseLost, mkConn _ D D [] n)
  | None => FinishAttempt r (mkConn _ D D [] n) = (Err ErrLeaseLost, mkConn _ D D [] n)
  end.
Proof.
  intros Hok Hfr Hval Hs. pose proof (validate_ok_valid _ Hval) as Hv.
  pose proof (finishQuery_total r did token D Hv Hs Hok) as Hq.
  destruct (deliveries D !! did) as [row|] eqn:Hr;
    [destruct (holds_lease (AR_WorkerID r) token (AR_AttemptNumber r) row) eqn:Hl|].
  - cbn zeta. destruct (finish_query_safe _ _ _ _ Hok Hq) as (did' & Edid & [[? _]|(_ & HokW & _)]); [done|].
    unfold sql_uuid in Edid. rewrite (so_delivery _ _ _ _ Hs) in Edid. injection Edid as <-.
    set (W1 := set_deliveries _ D) in *.
    pose proof (recordQuery_total n r did token D W1 Hv Hs HokW (Hfr n (le_n n))) as Hrec.
    set (W2 := set_attempts _ W1) in Hrec.
    destruct (ok_deliveries _ _ _ Hok _ _ Hr) as (_ & _ & ev & Hev & Hep).
    destruct (ok_events _ _ _ Hok _ _ Hev) as (_ & e & He). rewrite Hep in He.
    pose proof (updateCircuit_total r (d_endpoint_id row) did token D D W2 (S n) Hv Hs eq_refl
      (proj2 (ok_endpoints _ _ _ Hok _ _ He))
      (λ id e H, proj1 (ok_endpoints _ _ _ Hok id e H))) as Hcirc.
    unfold FinishAttempt. rewrite Hval. run_eval. rewrite Hq. run_eval. rewrite Hrec. run_eval.
    rewrite Hcirc. run_eval. done.
  - unfold FinishAttempt. rewrite Hval. run_eval. rewrite Hq. run_eval. done.
  - unfold FinishAttempt. rewrite Hval. run_eval. rewrite Hq. run_eval. done.
Qed.
End FinishSpec.
