(* ===== verification/QueueRuns.v ===== *)
(** * What a run of a queue operation leaves behind

    Inversion of [ClaimDelivery] and [FinishAttempt] under any faults: a claim
    that returns a job committed the lease of exactly that job, and an attempt
    that finished held the lease it names. *)

From S2P Require Import Prelude GoErrors GoTime GoText Delivery Schema Tx Invariant TxLogic Queue.
From S2P Require Import QueueSafety QueueSpec.

Section QueueRuns.
Context `{PG : Postgres} {PL : PostgresLaws} `{UU : Uuids} `{TE : TxEnv}.

(** The database [D] a claim returning [job] left, started from [d0]: [W] is
    the database after recovery. *)
Record claimed_from (d0 : db) (workerID : string) (lease : Duration) (job : Job) (D : db) : Prop := {
  cf_witness : ∃ W id row token ev ep,
    db_ok W ∧ evolves d0 W ∧ candidate W = Some (id, row) ∧ canonical token
    ∧ let row' := claimed_row (TrimSpace workerID) token (Milliseconds lease) row in
      D = set_deliveries (<[id := row']> (deliveries W)) W
      ∧ scanJob ((id, row'), (d_event_id row, ev), (d_endpoint_id row, ep)) = Ok job
      ∧ events W !! d_event_id row = Some ev ∧ endpoints W !! d_endpoint_id row = Some ep;
  cf_ok : db_ok D;
  cf_evolves : evolves d0 D;
}.

Lemma claim_query_runs d0 worker lease token (W W' : db) r l job :
  db_ok W → evolves d0 W →
  claimDeliveryQuery (TrimSpace worker) token (Milliseconds lease) W = Ok (W', r :: l) →
  scanJob r = Ok job → claimed_from d0 worker lease job W'.
Proof.
  intros Hok Hev Hq Hj. destruct (claim_query_safe _ _ _ _ _ _ Hok Hq) as [Hok' Hev'].
  split; [|done|by etrans].
  unfold claimDeliveryQuery in Hq. apply res_bind_Ok in Hq as (w & Ew & Hq).
  unfold sql_text in Ew. destruct (text_in _); [|done]. injection Ew as <-.
  apply res_bind_Ok in Hq as (t & Et & Hq). apply sql_uuid_canonical in Et.
  destruct (candidate W) as [[id row]|] eqn:Ec; [|by injection Hq].
  apply res_bind_Ok in Hq as (? & _ & Hq). apply res_bind_Ok in Hq as (d1 & Hu & Hq).
  apply update_delivery_Ok in Hu as [_ ->]. injection Hq as <- Hl. cbn in Hl.
  destruct (events W !! d_event_id row) as [ev|] eqn:E1; [|done].
  destruct (endpoints W !! d_endpoint_id row) as [ep|] eqn:E2; [|done].
  injection Hl as <- <-. exists W, id, row, t, ev, ep. split_and!; done.
Qed.

Lemma ClaimDelivery_triple workerID lease (d0 : db) : db_ok d0 →
  triple (λ D _, D = d0) (ClaimDelivery workerID lease)
    (λ o D _, match o with
              | Some job => claimed_from d0 workerID lease job D
              | None => closed d0 D D end) (closed d0).
Proof.
  intros Hd0. unfold ClaimDelivery. cbn zeta.
  assert (Hstop : ∀ D W, D = d0 → closed d0 D W) by (intros D W ->; by split).
  case_bool_decide; [by apply triple_throw|].
  destruct (lease <? Millisecond); [by apply triple_throw|].
  eapply triple_bind; [by apply begin_triple|]. intros [].
  eapply triple_bind; [apply recoverExpiredLeases_triple|]. intros [].
  eapply triple_bind; [apply triple_new_uuid|]. intros token.
  set (Q := λ r D W, open_tx d0 [] [] D W ∧ ∀ job, scanJob r = Ok job → claimed_from d0 workerID lease job W).
  set (J := λ (job : Job) D W, D = d0 ∧ claimed_from d0 workerID lease job W).
  eapply (triple_bind _ _ _ (λ x, match x with Ok job => J job | Err _ => open_tx d0 [] [] end)).
  - eapply (triple_try _ _ J (closed d0) (open_tx d0 [] [])).
    apply (triple_bind _ _ _ Q).
    + apply triple_QueryRow; [| |done]; intros D W W'.
      * intros r l (-> & _ & Hok & Hev) Hq.
        destruct (claim_query_safe _ _ _ _ _ _ Hok Hq). split; [unfold open_tx; split_and!; try done; by etrans|].
        intros job Hj. eapply claim_query_runs; [exact Hok|exact Hev|exact Hq|exact Hj].
      * intros (-> & _ & Hok & Hev) Hq.
        destruct (claim_query_safe _ _ _ _ _ _ Hok Hq). unfold open_tx. split_and!; try done. by etrans.
    + intros r. destruct (scanJob r) as [job|] eqn:E; [apply triple_ret|apply triple_throw]; intros D W [HP HQ].
      * split; [apply HP|by apply HQ].
      * exact HP.
  - intros [job|err].
    + eapply (triple_bind _ _ _ (λ _ D _, claimed_from d0 workerID lease job D)).
      * apply triple_wrapping, triple_Commit; intros D W W' [-> HJ]; [done|].
        split; [by apply Hstop|]. by split; apply HJ.
      * intros []. by apply triple_ret.
    + destruct (errors_is err pgx_ErrNoRows).
      * eapply triple_bind; [apply commit_triple|]. intros []. apply triple_ret. intros D W [? ?]. by split.
      * apply triple_throw. intros. by eapply open_closed.
Qed.

(** The database [D] an attempt that finished with status [st] left, started
    from [d0]. *)
Record finished_from (d0 : db) (r : AttemptResult) (st : Status) (D : db) : Prop := {
  ff_valid : valid_result r;
  ff_lease : ∃ did token row aid,
    uuid_in (AR_DeliveryID r) = Some did ∧ uuid_in (AR_LeaseToken r) = Some token
    ∧ deliveries d0 !! did = Some row
    ∧ holds_lease (AR_WorkerID r) token (AR_AttemptNumber r) row = true
    ∧ deliveries D = <[did := finished_row r row]> (deliveries d0)
    ∧ delivery_attempts d0 !! aid = None
    ∧ delivery_attempts D = <[aid := finished_attempt did r]> (delivery_attempts d0)
    ∧ endpoints D = circuit_effect r (d_endpoint_id row) (endpoints d0)
    ∧ st = d_status (finished_row r row);
  ff_events : events D = events d0;
}.

Lemma update_endpoint_alter (f : EndpointRow → EndpointRow) ep e (W W' : db) :
  endpoints W !! ep = Some e → update_endpoint ep (f e) W = Ok W' →
  W' = set_endpoints (alter f ep (endpoints W)) W.
Proof.
  intros He Hu. unfold update_endpoint in Hu. inv_stmt Hu. injection Hu as <-. f_equal.
  apply map_eq. intros i. destruct (decide (i = ep)) as [->|Hne].
  - by rewrite lookup_insert_eq, lookup_alter_eq, He.
  - by rewrite lookup_insert_ne, lookup_alter_ne by done.
Qed.

Lemma alter_missing (f : EndpointRow → EndpointRow) ep (W : db) :
  endpoints W !! ep = None → W = set_endpoints (alter f ep (endpoints W)) W.
Proof.
  intros Hn. rewrite <- (set_endpoints_id W) at 1. f_equal. apply map_eq. intros i.
  destruct (decide (i = ep)) as [->|Hne]; [by rewrite lookup_alter_eq, Hn|by rewrite lookup_alter_ne].
Qed.

Lemma updateCircuit_runs r ep (P : db → db → Prop) (Q E : db → db → Prop) :
  canonical ep →
  (∀ D W, P D W → Q D (set_endpoints (circuit_effect r ep (endpoints W)) W)) →
  (∀ D W, P D W → E D W) → triple P (updateCircuit r ep) (λ _, Q) E.
Proof.
  intros Hcan HQ HE. unfold updateCircuit. unfold circuit_effect in HQ.
  destruct (AR_CircuitOutcome r).
  1, 4: apply triple_ret; intros D W HP; rewrite <- (set_endpoints_id W); by apply HQ.
  - apply triple_Exec; [|done]. intros D W W' HP Hq. unfold circuitFailureQuery in Hq. inv_stmt Hq.
    rewrite (canonical_sql_uuid _ Hcan) in E0. injection E0 as <-.
    destruct (endpoints W !! ep) as [e|] eqn:He.
    + inv_stmt Hq. rewrite (update_endpoint_alter _ _ _ _ _ He Hq). by apply HQ.
    + injection Hq as <-. erewrite (alter_missing _ ep W He). by apply HQ.
  - apply triple_Exec; [|done]. intros D W W' HP Hq. unfold circuitSuccessQuery in Hq. inv_stmt Hq.
    rewrite (canonical_sql_uuid _ Hcan) in E0. injection E0 as <-.
    destruct (endpoints W !! ep) as [e|] eqn:He.
    + rewrite (update_endpoint_alter _ _ _ _ _ He Hq). by apply HQ.
    + injection Hq as <-. erewrite (alter_missing _ ep W He). by apply HQ.
Qed.

(** The database between the statements of [FinishAttempt]. *)
Definition after_finish (d0 : db) (r : AttemptResult) (st : Status) (ep : string)
    (did token : string) (row : DeliveryRow) : Prop :=
  uuid_in (AR_DeliveryID r) = Some did ∧ uuid_in (AR_LeaseToken r) = Some token
  ∧ deliveries d0 !! did = Some row
  ∧ holds_lease (AR_WorkerID r) token (AR_AttemptNumber r) row = true
  ∧ st = d_status (finished_row r row) ∧ ep = d_endpoint_id row.

Lemma finishQuery_runs r (W W' : db) st ep l :
  finishQuery r W = Ok (W', (st, ep) :: l) →
  ∃ did token row, after_finish W r st ep did token row
    ∧ W' = set_deliveries (<[did := finished_row r row]> (deliveries W)) W.
Proof.
  unfold finishQuery. intros Hq. inv_stmt Hq.
  unfold sql_uuid, sql_text in *.
  destruct (uuid_in (AR_DeliveryID r)) as [did|] eqn:Ed; [|done].
  destruct (uuid_in (AR_LeaseToken r)) as [token|] eqn:Et; [|done].
  destruct (text_in (AR_WorkerID r)); [|done].
  repeat match goal with H : Ok _ = Ok _ |- _ => injection H as <- end.
  destruct (deliveries W !! did) as [row|] eqn:Hr; [|by injection Hq].
  destruct (holds_lease _ _ _ row) eqn:Hl; [|by injection Hq].
  apply res_bind_Ok in Hq as (d1 & Hu & Hq). apply update_delivery_Ok in Hu as [_ ->].
  injection Hq as <- <- <- _. exists did, token, row. by split_and!.
Qed.

Lemma recordQuery_runs id r did (W W' : db) :
  uuid_in (AR_DeliveryID r) = Some did → recordQuery id r W = Ok W' →
  ∃ aid, delivery_attempts W !! aid = None
         ∧ W' = set_attempts (<[aid := finished_attempt did r]> (delivery_attempts W)) W.
Proof.
  intros Hd Hq. unfold recordQuery in Hq. inv_stmt Hq. unfold sql_uuid in E0. rewrite Hd in E0.
  injection E0 as <-. unfold insert_attempt in Hq. inv_stmt Hq. injection Hq as <-.
  exists x. split; [by apply is_null_None|done].
Qed.

Lemma FinishAttempt_triple r (d0 : db) : db_ok d0 →
  triple (λ D _, D = d0) (FinishAttempt r) (λ st D _, finished_from d0 r st D) (λ _ _, True).
Proof.
  intros Hd0. unfold FinishAttempt.
  destruct (validateAttemptResult r) as [[]|e] eqn:Hv; [|by apply triple_throw].
  apply validate_ok_valid in Hv.
  apply (triple_bind _ _ _ (λ _ D W, D = d0 ∧ W = d0)).
  { apply triple_wrapping, triple_BeginTx; [by intros D W ->|done]. }
  intros [].
  set (S1 := λ x D W, ∃ did token row, after_finish d0 r x.1 x.2 did token row
    ∧ W = set_deliveries (<[did := finished_row r row]> (deliveries d0)) d0 ∧ (D : db) = D).
  apply (triple_bind _ _ _ (λ x, match x with Ok y => S1 y | Err _ => λ _ _, True end)).
  { eapply (triple_try _ _ S1). apply triple_QueryRow; [|done|done].
    intros D W W' [st ep] l [-> ->] Hq. apply finishQuery_runs in Hq as (did & token & row & Ha & ->).
    by exists did, token, row. }
  intros [[st ep]|err]; [|by destruct (errors_is err pgx_ErrNoRows); apply triple_throw].
  apply (triple_bind _ _ _ (λ _, S1 (st, ep))); [apply triple_new_uuid|]. intros id.
  set (S2 := λ (D W : db), ∃ did token row aid, after_finish d0 r st ep did token row
    ∧ delivery_attempts d0 !! aid = None ∧ deliveries W = <[did := finished_row r row]> (deliveries d0)
    ∧ delivery_attempts W = <[aid := finished_attempt did r]> (delivery_attempts d0)
    ∧ events W = events d0 ∧ canonical ep).
  apply (triple_bind _ _ _ (λ _ D W, S2 D W ∧ endpoints W = endpoints d0)).
  { apply triple_wrapping, triple_Exec; [|done]. intros D W W' (did & token & row & Ha & -> & _) Hq.
    apply (recordQuery_runs _ _ did) in Hq as (aid & Hn & ->); [|apply Ha]. split; [|done].
    exists did, token, row, aid. split_and!; try done. destruct Ha as (_ & _ & Hr & _ & _ & Eep); cbn in Eep; subst ep.
    destruct (ok_deliveries _ _ _ Hd0 _ _ Hr) as (_ & _ & ev & Hev & Hep).
    destruct (ok_events _ _ _ Hd0 _ _ Hev) as (_ & e & He). rewrite Hep in He.
    by destruct (ok_endpoints _ _ _ Hd0 _ _ He). }
  intros [].
  apply (triple_bind _ _ _ (λ _ D W, S2 D W ∧ endpoints W = circuit_effect r ep (endpoints d0))).
  { apply (triple_known (canonical ep)); [by intros D W [(? & ? & ? & ? & ? & ? & ? & ? & ? & Hcan) _]|].
    intros Hcan. apply triple_wrapping, updateCircuit_runs; [done| |done]. intros D W [HS HE]. split; [exact HS|]. cbn. by rewrite HE. }
  intros []. apply (triple_bind _ _ _ (λ _ D _, finished_from d0 r st D)); [|intros []; by apply triple_ret].
  apply triple_wrapping, triple_Commit; [|done].
  intros D W _ [(did & token & row & aid & (? & ? & ? & ? & ? & Eep) & ? & ? & ? & ? & ?) HE].
  split; [done| |done]. exists did, token, row, aid. subst ep. split_and!; done.
Qed.

(** ** The two operations, run by run *)

Lemma ClaimDelivery_runs workerID lease (s s' : conn) job :
  db_ok (durable s) → runs (ClaimDelivery workerID lease) s (Ok (Some job)) s' →
  claimed_from (durable s) workerID lease job (durable s').
Proof. intros Hok Hr. exact (ClaimDelivery_triple workerID lease _ Hok s _ s' eq_refl Hr). Qed.

Lemma FinishAttempt_runs r (s s' : conn) st :
  db_ok (durable s) → runs (FinishAttempt r) s (Ok st) s' →
  finished_from (durable s) r st (durable s').
Proof. intros Hok Hr. exact (FinishAttempt_triple r _ Hok s _ s' eq_refl Hr). Qed.
End QueueRuns.
