(* ===== verification/Eventing.v ===== *)
(** * Package eventing: types shared with the store

    The data of [src/internal/eventing/service.go] and its [Repository]
    interface, which the store implements in [StoreEvents.v]. *)

From S2P Require Import Prelude GoErrors GoTime GoText Delivery Schema Tx.

Definition eventing_ErrInvalid : error := Sentinel "eventing.ErrInvalid" "invalid event".
Definition ErrIdempotencyConflict : error :=
  Sentinel "eventing.ErrIdempotencyConflict" "idempotency conflict".
Definition eventing_ErrEndpointDisabled : error :=
  Sentinel "eventing.ErrEndpointDisabled" "endpoint disabled".

(** [endpoint.ErrInvalid] and [endpoint.ErrNotFound]. *)
Definition endpoint_ErrInvalid : error := Sentinel "endpoint.ErrInvalid" "invalid endpoint".
Definition endpoint_ErrNotFound : error := Sentinel "endpoint.ErrNotFound" "endpoint not found".

Record EnqueueParams : Type := mkEnqueueParams {
  EP_EventID : string;
  EP_DeliveryID : string;
  EP_EndpointID : string;
  EP_Type : string;
  EP_Payload : bytes;
  EP_IdempotencyKey : string;
}.

Record Enqueued : Type := mkEnqueued {
  Enqueued_Event : Event;
  Enqueued_Delivery : Delivery;
  Enqueued_Duplicate : bool;
}.

(** The interface [eventing.Repository]. *)
Class EventRepository `{Postgres} := {
  EnqueueEvent : EnqueueParams → M Enqueued;
}.
