(* ===== verification/StoreEvents.v ===== *)
(** * Enqueueing events

    [src/internal/store/events.go]: the transaction that locks the endpoint,
    upserts the event under its idempotency key and upserts its delivery. *)

From S2P Require Import Prelude GoErrors GoTime GoText Delivery Schema Tx Eventing.

(** A delivery row as [scanDelivery] (deliveries.go) and the scan of
    [EnqueueEvent] read it: a null lock holder or token becomes "". *)
Definition delivery_of_row (id : string) (d : DeliveryRow) : Delivery :=
  mkDelivery id (d_event_id d) (d_endpoint_id d) (d_status d) (d_attempt_count d)
    (d_max_attempts d) (time_of_ts (d_next_attempt_at d))
    (default ""%string (d_locked_by d)) (default ""%string (d_lease_token d))
    (option_map time_of_ts (d_locked_at d)) (option_map time_of_ts (d_locked_until d))
    (d_last_status_code d) (d_last_error d) (option_map time_of_ts (d_last_completed_at d))
    (time_of_ts (d_created_at d)) (time_of_ts (d_updated_at d)).

Section StoreEvents.
Context `{PG : Postgres} `{TE : TxEnv}.

Definition event_of_row (id : string) (e : EventRow) : Event :=
  mkEvent id (ev_endpoint_id e) (ev_event_type e) (jsonb_out (ev_payload e))
    (ev_idempotency_key e) (time_of_ts (ev_created_at e)).

(** SELECT max_attempts, disabled_at ... FOR SHARE. *)
Definition lockEndpointQuery (endpointID : string) (d : db) : res (db * list (Z * option Z)) :=
  id ← sql_uuid endpointID;
  Ok (d, match endpoints d !! id with
         | Some e => [(ep_max_attempts e, ep_disabled_at e)]
         | None => []
         end).

(** The row of the unique index on (endpoint_id, idempotency_key). *)
Definition event_with_key (endpoint_id key : string) (d : db) : option (string * EventRow) :=
  map_find (λ _ e, bool_decide (ev_endpoint_id e = endpoint_id)
                   && bool_decide (ev_idempotency_key e = key)) (events d).

(** The row of the unique index on event_id. *)
Definition delivery_of_event (event_id : string) (d : db) : option (string * DeliveryRow) :=
  map_find (λ _ r, bool_decide (d_event_id r = event_id)) (deliveries d).

Definition rekeyed (key : string) (e : EventRow) : EventRow :=
  mkEventRow _ (ev_endpoint_id e) (ev_event_type e) (ev_payload e) key (ev_created_at e).

(** INSERT INTO events ... ON CONFLICT (endpoint_id, idempotency_key) DO
    UPDATE SET idempotency_key = EXCLUDED.idempotency_key RETURNING the row
    and whether type and payload are those given. *)
Definition upsertEventQuery (p : EnqueueParams) (d : db)
    : res (db * list (string * EventRow * bool)) :=
  id ← sql_uuid (EP_EventID p);
  endpoint_id ← sql_uuid (EP_EndpointID p);
  event_type ← sql_text (EP_Type p);
  payload ← sql_jsonb (EP_Payload p);
  key ← sql_text (EP_IdempotencyKey p);
  let same e := bool_decide (ev_event_type e = event_type) && bool_decide (ev_payload e = payload) in
  match event_with_key endpoint_id key d with
  | Some (old_id, e) =>
      let e' := rekeyed key e in
      Ok (set_events (<[old_id := e']> (events d)) d, [(old_id, e', same e')])
  | None =>
      let e := mkEventRow _ endpoint_id event_type payload key now in
      d' ← insert_event id e d;
      Ok (d', [(id, e, same e)])
  end.

Definition new_delivery (event_id endpoint_id : string) (max_attempts : Z) : DeliveryRow :=
  mkDeliveryRow event_id endpoint_id StatusPending 0 max_attempts now
    None None None None None "" None now now.

(** INSERT INTO deliveries ... ON CONFLICT (event_id) DO UPDATE SET event_id
    = EXCLUDED.event_id RETURNING the row. *)
Definition upsertDeliveryQuery (deliveryID event_id endpointID : string) (max_attempts : Z)
    (d : db) : res (db * list (string * DeliveryRow)) :=
  id ← sql_uuid deliveryID;
  event_id ← sql_uuid event_id;
  endpoint_id ← sql_uuid endpointID;
  _ ← sql_guard (int4 max_attempts) out_of_range;
  match delivery_of_event event_id d with
  | Some (old_id, r) => Ok (set_deliveries (<[old_id := r]> (deliveries d)) d, [(old_id, r)])
  | None =>
      let r := new_delivery event_id endpoint_id max_attempts in
      d' ← insert_delivery id r d;
      Ok (d', [(id, r)])
  end.

Definition EnqueueEvent_store (p : EnqueueParams) : M Enqueued :=
  _ ← wrapping "begin enqueue transaction" BeginTx;
  locked ← try (QueryRow (lockEndpointQuery (EP_EndpointID p)));
  match locked with
  | Err err =>
      if errors_is err pgx_ErrNoRows then throw endpoint_ErrNotFound
      else throw (wrapf "lock endpoint" err)
  | Ok (_, Some _) => throw eventing_ErrEndpointDisabled
  | Ok (endpointMaxAttempts, None) =>
      upserted ← wrapping "upsert event" (QueryRow (upsertEventQuery p));
      let '(event_id, e, payloadMatches) := upserted in
      if negb payloadMatches then throw ErrIdempotencyConflict
      else
        let duplicate := negb (bool_decide (event_id = EP_EventID p)) in
        delivery ← wrapping "upsert delivery"
          (QueryRow (upsertDeliveryQuery (EP_DeliveryID p) event_id (EP_EndpointID p)
                       endpointMaxAttempts));
        let '(delivery_id, r) := delivery in
        _ ← wrapping "commit event enqueue" Commit;
        mret (mkEnqueued (event_of_row event_id e) (delivery_of_row delivery_id r) duplicate)
  end.

#[export] Instance store_event_repository : EventRepository :=
  {| EnqueueEvent := EnqueueEvent_store |}.
End StoreEvents.
