(* ===== verification/StoreDeliveries.v ===== *)
(** * Reading and replaying deliveries

    [src/internal/store/deliveries.go]. *)

From S2P Require Import Prelude GoErrors GoTime GoText Delivery Schema Tx StoreEvents.

Definition delivery_ErrInvalid : error := Sentinel "delivery.ErrInvalid" "invalid delivery".
Definition delivery_ErrNotFound : error := Sentinel "delivery.ErrNotFound" "delivery not found".
Definition ErrNotReplayable : error :=
  Sentinel "delivery.ErrNotReplayable" "delivery is not replayable".
Definition delivery_ErrEndpointDisabled : error :=
  Sentinel "delivery.ErrEndpointDisabled" "delivery endpoint is disabled".

Record Details : Type := mkDetails {
  Details_Delivery : Delivery;
  Details_Event : Event;
  Details_Attempts : list Attempt;
}.

Definition attempt_of_row (id : string) (a : AttemptRow) : Attempt :=
  mkAttempt id (a_delivery_id a) (a_attempt_number a) (a_status_code a) (a_response_body a)
    (a_error_message a) (a_duration_ms a * Millisecond)
    (time_of_ts (a_started_at a)) (time_of_ts (a_completed_at a)).

Section StoreDeliveries.
Context `{PG : Postgres} `{TE : TxEnv}.

Definition deliveryQuery (id : string) (d : db)
    : res (db * list ((string * DeliveryRow) * (string * EventRow))) :=
  id ← sql_uuid id;
  Ok (d, match deliveries d !! id with
         | Some r =>
             match events d !! d_event_id r with
             | Some e => [((id, r), (d_event_id r, e))]
             | None => []
             end
         | None => []
         end).

Definition by_attempt_number (a b : string * AttemptRow) : Prop :=
  a_attempt_number a.2 <= a_attempt_number b.2.
#[export] Instance by_attempt_number_dec : RelDecision by_attempt_number.
Proof. intros a b. unfold by_attempt_number. apply _. Defined.

(** SELECT ... FROM delivery_attempts WHERE delivery_id = $1 ORDER BY attempt_number. *)
Definition attemptsQuery (id : string) (d : db) : res (db * list (string * AttemptRow)) :=
  id ← sql_uuid id;
  Ok (d, merge_sort by_attempt_number
           (List.filter (λ kv, bool_decide (a_delivery_id kv.2 = id))
              (scan_order _ (delivery_attempts d)))).

Fixpoint scan_attempts (rows : list (string * AttemptRow)) : M (list Attempt) :=
  match rows with
  | [] => mret []
  | (id, a) :: rows' =>
      _ ← wrapping "scan delivery attempt" io;
      rest ← scan_attempts rows';
      mret (attempt_of_row id a :: rest)
  end.

Definition GetDelivery (id : string) : M Details :=
  _ ← wrapping "begin delivery read" BeginTx;
  scanned ← try (QueryRow (deliveryQuery id));
  match scanned with
  | Err err =>
      if errors_is err pgx_ErrNoRows then throw delivery_ErrNotFound
      else throw (wrapf "query delivery" err)
  | Ok ((delivery_id, r), (event_id, e)) =>
      rows ← wrapping "query delivery attempts" (statement (attemptsQuery id));
      attempts ← scan_attempts rows;
      _ ← wrapping "iterate delivery attempts" io;
      _ ← wrapping "commit delivery read" Commit;
      mret (mkDetails (delivery_of_row delivery_id r) (event_of_row event_id e) attempts)
  end.

(** SELECT d.status, d.max_attempts, e.max_attempts, e.disabled_at ... FOR UPDATE OF d, e. *)
Definition lockReplayQuery (id : string) (d : db) : res (db * list (Status * Z * Z * option Z)) :=
  id ← sql_uuid id;
  Ok (d, match deliveries d !! id with
         | Some r =>
             match endpoints d !! d_endpoint_id r with
             | Some e => [(d_status r, d_max_attempts r, ep_max_attempts e, ep_disabled_at e)]
             | None => []
             end
         | None => []
         end).

Definition replayed_row (max_attempts : Z) (r : DeliveryRow) : DeliveryRow :=
  mkDeliveryRow (d_event_id r) (d_endpoint_id r) StatusPending (d_attempt_count r)
    max_attempts now (d_locked_by r) (d_lease_token r) (d_locked_at r) (d_locked_until r)
    (d_last_status_code r) (d_last_error r) (d_last_completed_at r) (d_created_at r) now.

Definition replayQuery (id : string) (max_attempts : Z) (d : db)
    : res (db * list (string * DeliveryRow)) :=
  id ← sql_uuid id;
  _ ← sql_guard (int4 max_attempts) out_of_range;
  match deliveries d !! id with
  | None => Ok (d, [])
  | Some r =>
      let r' := replayed_row max_attempts r in
      d' ← update_delivery id r' d;
      Ok (d', [(id, r')])
  end.

Definition ReplayDelivery (id : string) : M Delivery :=
  _ ← wrapping "begin delivery replay" BeginTx;
  scanned ← try (QueryRow (lockReplayQuery id));
  match scanned with
  | Err err =>
      if errors_is err pgx_ErrNoRows then throw delivery_ErrNotFound
      else throw (wrapf "lock delivery for replay" err)
  | Ok (status, currentLimit, replayBudget, disabledAt) =>
      if negb (is_null disabledAt) then throw delivery_ErrEndpointDisabled
      else if negb (bool_decide (status = StatusDead)) || (wrap64 (MaxInt32 - replayBudget) <? currentLimit)
      then throw ErrNotReplayable
      else
        row ← wrapping "replay delivery"
          (QueryRow (replayQuery id (wrap64 (currentLimit + replayBudget))));
        let '(delivery_id, r) := row in
        _ ← wrapping "commit delivery replay" Commit;
        mret (delivery_of_row delivery_id r)
  end.
End StoreDeliveries.
