(* ===== verification/StoreEndpoints.v ===== *)
(** * Endpoints and operational statistics

    [src/internal/store/endpoints.go] and [stats.go]. *)

From S2P Require Import Prelude GoErrors GoTime GoText Delivery Schema Tx Eventing.

Definition endpoint_of_row (id : string) (e : EndpointRow) : Endpoint :=
  mkEndpoint id (ep_name e) (ep_url e) (ep_secret_ciphertext e) (ep_timeout_ms e * Millisecond)
    (ep_max_attempts e) (ep_consecutive_failures e) (option_map time_of_ts (ep_disabled_at e))
    (option_map time_of_ts (ep_circuit_open_until e))
    (time_of_ts (ep_created_at e)) (time_of_ts (ep_updated_at e)).

(** [store.OperationalStats]. *)
Record OperationalStats : Type := mkOperationalStats {
  Stats_Pending : Z;
  Stats_Processing : Z;
  Stats_Retrying : Z;
  Stats_Succeeded : Z;
  Stats_Dead : Z;
  Stats_OpenCircuits : Z;
}.

Section StoreEndpoints.
Context `{PG : Postgres} `{TE : TxEnv}.

Definition createEndpointQuery (v : Endpoint) (d : db) : res (db * list (string * EndpointRow)) :=
  id ← sql_uuid (Endpoint_ID v);
  name ← sql_text (Endpoint_Name v);
  url ← sql_text (Endpoint_URL v);
  _ ← sql_guard (int4 (Milliseconds (Endpoint_Timeout v))) out_of_range;
  _ ← sql_guard (int2 (Endpoint_MaxAttempts v)) out_of_range;
  let e := mkEndpointRow name url (Endpoint_SecretCiphertext v)
    (Milliseconds (Endpoint_Timeout v)) (Endpoint_MaxAttempts v) 0 None None now now in
  d' ← insert_endpoint id e d;
  Ok (d', [(id, e)]).

Definition CreateEndpoint (v : Endpoint) : M Endpoint :=
  row ← wrapping "insert endpoint" (autocommit (QueryRow (createEndpointQuery v)));
  mret (endpoint_of_row row.1 row.2).

(** ORDER BY created_at DESC, id DESC. Canonical uuid texts compare as their
    bytes do. *)
Definition newest_first (a b : string * EndpointRow) : Prop :=
  ep_created_at b.2 < ep_created_at a.2
  ∨ (ep_created_at a.2 = ep_created_at b.2 ∧ String.leb b.1 a.1 = true).
#[export] Instance newest_first_dec : RelDecision newest_first.
Proof. intros a b. unfold newest_first. apply _. Defined.

Definition listEndpointsQuery (limit : Z) (d : db) : res (db * list (string * EndpointRow)) :=
  _ ← sql_guard (0 <=? limit) (New "LIMIT must not be negative");
  Ok (d, take (Z.to_nat limit) (merge_sort newest_first (scan_order _ (endpoints d)))).

Fixpoint scan_endpoints (rows : list (string * EndpointRow)) : M (list Endpoint) :=
  match rows with
  | [] => mret []
  | (id, e) :: rows' =>
      _ ← wrapping "scan endpoint" io;
      rest ← scan_endpoints rows';
      mret (endpoint_of_row id e :: rest)
  end.

Definition ListEndpoints (limit : Z) : M (list Endpoint) :=
  rows ← wrapping "query endpoints" (_ ← BeginTx; statement (listEndpointsQuery limit));
  result ← scan_endpoints rows;
  _ ← wrapping "iterate endpoints" io;
  mret result.

Definition endpointQuery (id : string) (d : db) : res (db * list (string * EndpointRow)) :=
  id ← sql_uuid id;
  Ok (d, match endpoints d !! id with Some e => [(id, e)] | None => [] end).

Definition GetEndpoint (id : string) : M Endpoint :=
  scanned ← try (_ ← BeginTx; QueryRow (endpointQuery id));
  match scanned with
  | Err err =>
      if errors_is err pgx_ErrNoRows then throw endpoint_ErrNotFound
      else throw (wrapf "query endpoint" err)
  | Ok (id, e) => mret (endpoint_of_row id e)
  end.

Definition disabled_row (e : EndpointRow) : EndpointRow :=
  mkEndpointRow (ep_name e) (ep_url e) (ep_secret_ciphertext e) (ep_timeout_ms e)
    (ep_max_attempts e) (ep_consecutive_failures e) (ep_circuit_open_until e)
    (Some (default now (ep_disabled_at e))) (ep_created_at e)
    (if is_null (ep_disabled_at e) then now else ep_updated_at e).

Definition disableEndpointQuery (id : string) (d : db) : res (db * list (string * EndpointRow)) :=
  id ← sql_uuid id;
  match endpoints d !! id with
  | None => Ok (d, [])
  | Some e => d' ← update_endpoint id (disabled_row e) d; Ok (d', [(id, disabled_row e)])
  end.

Definition DisableEndpoint (id : string) : M Endpoint :=
  scanned ← try (autocommit (QueryRow (disableEndpointQuery id)));
  match scanned with
  | Err err =>
      if errors_is err pgx_ErrNoRows then throw endpoint_ErrNotFound
      else throw (wrapf "disable endpoint" err)
  | Ok (id, e) => mret (endpoint_of_row id e)
  end.

(** ** stats.go *)

Definition count_status (s : Status) (d : db) : Z :=
  Z.of_nat (length (List.filter (λ kv, bool_decide (d_status kv.2 = s))
                      (scan_order _ (deliveries d)))).

Definition circuit_open (e : EndpointRow) : bool :=
  match ep_circuit_open_until e with Some t => now <? t | None => false end.

Definition statsQuery (d : db) : res (db * list OperationalStats) :=
  Ok (d, [mkOperationalStats (count_status StatusPending d) (count_status StatusProcessing d)
            (count_status StatusRetrying d) (count_status StatusSucceeded d)
            (count_status StatusDead d)
            (Z.of_nat (length (List.filter (λ kv, circuit_open kv.2)
                                 (scan_order _ (endpoints d)))))]).

Definition GetOperationalStats : M OperationalStats :=
  wrapping "query operational stats" (_ ← BeginTx; QueryRow statsQuery).
End StoreEndpoints.
