(* ===== verification/Minting.v ===== *)
(** * Where attempt identifiers come from

    Every stored attempt has an identifier that [uuid.NewString] produced
    earlier, so a new one is always free: the hypothesis [fresh_uuids] of the
    functional specifications holds in every reachable state. *)

From S2P Require Import Prelude GoErrors GoTime GoText Delivery Schema Tx Invariant TxLogic Queue.
From S2P Require Import QueueSpec Eventing StoreEvents StoreDeliveries StoreEndpoints.

Section Minting.
Context `{PG : Postgres} `{UU : Uuids}.

Definition minted (n : nat) (d : db) : Prop :=
  ∀ aid, is_Some (delivery_attempts d !! aid) → ∃ k, (k < n)%nat ∧ aid = NewString k.

Lemma minted_mono n n' d : (n <= n')%nat → minted n d → minted n' d.
Proof. intros Hle Hm aid (k & Hk & ->)%Hm. exists k. split; [lia|done]. Qed.

Lemma minted_fresh {PL : PostgresLaws} {UL : UuidsLaws} n d : minted n d → fresh_uuids n d.
Proof.
  intros Hm k Hk. destruct (delivery_attempts d !! NewString k) eqn:E; [|done].
  destruct (Hm (NewString k)) as (j & Hj & Ej); [by rewrite E|]. apply NewString_inj in Ej. lia.
Qed.

(** [mints k m]: run after [k] identifiers were produced, [m] stores attempts
    under produced identifiers only. *)
Definition mints {A} (k : nat) (m : M A) : Prop :=
  ∀ s r s', (k <= next_uuid s)%nat → minted (next_uuid s) (durable s) →
  minted (next_uuid s) (work s) → runs m s r s' →
  (next_uuid s <= next_uuid s')%nat ∧ minted (next_uuid s') (durable s')
  ∧ minted (next_uuid s') (work s').

Lemma mints_pure {A} k (g : conn → res A * conn) :
  (∀ s, next_uuid (g s).2 = next_uuid s ∧ durable (g s).2 = durable s
        ∧ (work (g s).2 = work s ∨ work (g s).2 = durable s)) → mints k g.
Proof.
  intros Hg s r s' _ Hd Hw E. destruct (Hg s) as (H1 & H2 & H3). unfold runs in E.
  rewrite E in H1, H2, H3. cbn in H1, H2, H3. rewrite H1, H2. by destruct H3 as [-> | ->].
Qed.

Lemma mints_ret {A} k (a : A) : mints k (mret a).
Proof. apply mints_pure. intros s. cbn. auto. Qed.

Lemma mints_throw {A} k e : mints k (throw (A := A) e).
Proof. apply mints_pure. intros s. cbn. auto. Qed.

Lemma mints_bind {A B} k (m : M A) (f : A → M B) :
  mints k m → (∀ a, mints k (f a)) → mints k (m ≫= f).
Proof.
  intros Hm Hf s r s' Hk Hd Hw [(e & H & ->)|(a & s1 & H1 & H)]%runs_bind.
  - by apply (Hm _ _ _ Hk Hd Hw H).
  - destruct (Hm _ _ _ Hk Hd Hw H1) as (L1 & Hd1 & Hw1).
    destruct (Hf a s1 r s' ltac:(lia) Hd1 Hw1 H) as (L2 & Hd2 & Hw2). split_and!; [lia|done|done].
Qed.

Lemma mints_try {A} k (m : M A) : mints k m → mints k (try m).
Proof. intros Hm s r s' Hk Hd Hw (r' & H & ->)%runs_try. by apply (Hm _ _ _ Hk Hd Hw H). Qed.

Lemma mints_wrapping {A} k msg (m : M A) : mints k m → mints k (wrapping msg m).
Proof. intros Hm s r s' Hk Hd Hw (r' & H & ->)%runs_wrapping. by apply (Hm _ _ _ Hk Hd Hw H). Qed.

Lemma mints_next_fault k : mints k next_fault.
Proof. apply mints_pure. intros s. unfold next_fault. destruct (faults s); cbn; auto. Qed.

Lemma mints_io k : mints k io.
Proof. apply mints_bind; [apply mints_next_fault|]. intros []; [apply mints_ret|apply mints_throw..]. Qed.

Lemma mints_BeginTx k : mints k BeginTx.
Proof. apply mints_bind; [apply mints_io|]. intros _. apply mints_pure. intros s. cbn. auto. Qed.

Lemma mints_publish k : mints k publish.
Proof. intros s r s' Hk Hd Hw [= <- <-]. done. Qed.

Lemma mints_Commit k : mints k Commit.
Proof.
  apply mints_bind; [apply mints_next_fault|].
  intros [|e|e]; [apply mints_publish|apply mints_throw|].
  apply mints_bind; [apply mints_publish|]. intros. apply mints_throw.
Qed.

(** What a statement may do to the table of attempts. *)
Definition mints_rows (k : nat) (d d' : db) : Prop :=
  delivery_attempts d' = delivery_attempts d
  ∨ ∃ j a, (j < k)%nat ∧ delivery_attempts d' = <[NewString j := a]> (delivery_attempts d).

Lemma mints_rows_minted k n d d' : (k <= n)%nat → mints_rows k d d' → minted n d → minted n d'.
Proof.
  unfold minted. intros Hk [-> | (j & a & Hj & ->)] Hm aid; [apply Hm|].
  intros [x [[<- <-]|[Hne H]]%lookup_insert_Some]; [exists j; split; [lia|done]|]. apply Hm. by exists x.
Qed.

Lemma mints_statement {A} k (f : db → res (db * A)) :
  (∀ d d' a, f d = Ok (d', a) → mints_rows k d d') → mints k (statement f).
Proof.
  intros Hf s r s' Hk Hd Hw ([Hs1 Hs2] & Hn & [(e & -> & Hw' & _)|(a & d' & E & -> & Hw' & _)])%runs_statement;
    rewrite Hs1, Hw', Hn; [done|]. split_and!; [done|done|]. by eapply mints_rows_minted; [exact Hk|eapply Hf|].
Qed.

Lemma mints_QueryRow {A} k (f : db → res (db * list A)) :
  (∀ d d' a, f d = Ok (d', a) → mints_rows k d d') → mints k (QueryRow f).
Proof.
  intros Hf. apply mints_bind; [by apply mints_statement|]. intros [|]; [apply mints_throw|apply mints_ret].
Qed.

Lemma mints_Exec k (f : db → res db) :
  (∀ d d', f d = Ok d' → mints_rows k d d') → mints k (Exec f).
Proof.
  intros Hf. apply mints_statement. intros d d' a E. apply (Hf d d').
  destruct (f d); cbn in E; congruence.
Qed.

Lemma mints_new_uuid {B} k (f : string → M B) :
  (∀ j, mints (S j) (f (NewString j))) → mints k (new_uuid ≫= f).
Proof.
  intros Hf s r s' Hk Hd Hw H. change (runs (f (NewString (next_uuid s)))
    (mkConn _ (durable s) (work s) (faults s) (S (next_uuid s))) r s') in H.
  apply Hf in H; [|done|by apply (minted_mono (next_uuid s)); [cbn; lia|]..].
  cbn in H. destruct H as (? & ? & ?). split_and!; [lia|done|done].
Qed.

Lemma mints_weaken {A} k (m : M A) : mints 0 m → mints k m.
Proof. intros Hm s r s' _. apply Hm. lia. Qed.
End Minting.

#[export] Hint Resolve mints_ret mints_throw mints_io mints_BeginTx mints_Commit : relay.

(** A statement that leaves the attempts table alone, by inversion of its guards. *)
Ltac keeps_attempts :=
  left; cbn zeta in *;
  repeat match goal with
         | H : (_ ≫= _) = Ok _ |- _ => inv_stmt H
         | H : match ?x with _ => _ end = Ok _ |- _ => destruct x
         | H : update_delivery _ _ _ = Ok _ |- _ => unfold update_delivery in H
         | H : update_endpoint _ _ _ = Ok _ |- _ => unfold update_endpoint in H
         | H : insert_endpoint _ _ _ = Ok _ |- _ => unfold insert_endpoint in H
         | H : insert_event _ _ _ = Ok _ |- _ => unfold insert_event in H
         | H : insert_delivery _ _ _ = Ok _ |- _ => unfold insert_delivery in H
         end;
  crush; done.

(** Proves [mints] goals by following the program; what is left are the
    statements. *)
Ltac solve_mints :=
  repeat first
    [ match goal with |- ∀ _, _ => intros ? end
    | solve [eauto 1 with relay]
    | match goal with
      | |- mints _ (new_uuid ≫= _) => apply mints_new_uuid
      | |- mints _ (_ ≫= _) => apply mints_bind
      | |- mints _ (try _) => apply mints_try
      | |- mints _ (wrapping _ _) => apply mints_wrapping
      | |- mints _ (QueryRow _) => apply mints_QueryRow
      | |- mints _ (Exec _) => apply mints_Exec
      | |- mints _ (statement _) => apply mints_statement
      | |- mints _ (match ?x with _ => _ end) => destruct x
      | |- mints _ (let '_ := ?x in _) => destruct x
      end ].

Section Operations.
Context `{PG : Postgres} {PL : PostgresLaws} `{UU : Uuids} {UL : UuidsLaws} `{TE : TxEnv}.

Lemma mints_insert_attempt j k aid a (d d' : db) :
  sql_uuid (NewString j) = Ok aid → (j < k)%nat → insert_attempt aid a d = Ok d' → mints_rows k d d'.
Proof.
  intros Ej Hj H. rewrite sql_uuid_new in Ej. injection Ej as <-.
  unfold insert_attempt in H. inv_stmt H. injection H as <-. right. by exists j, a.
Qed.

Lemma mints_update_recovered rows (d d' : db) :
  update_recovered rows d = Ok d' → delivery_attempts d' = delivery_attempts d.
Proof.
  revert d. induction rows as [|[id row] rows IH]; cbn [update_recovered]; intros d H;
    [by injection H as <-|]. inv_stmt H. unfold update_delivery in E. inv_stmt E. injection E as <-.
  by apply IH in H.
Qed.

Lemma mints_scan_rows k rows : mints k (scan_rows rows).
Proof. induction rows as [|x rows IH]; cbn [scan_rows]; solve_mints. Qed.

Lemma mints_record_recovered k items : mints k (record_recovered items).
Proof.
  revert k. induction items as [|x items IH]; intros k; cbn [record_recovered]; solve_mints.
  unfold insert_expired_attempt in *.
  match goal with H : _ = Ok _ |- _ => apply res_bind_Ok in H as (id & Eid & H);
    apply res_bind_Ok in H as (did & _ & H) end.
  destruct (attempt_of _ _ _); [|by eapply mints_insert_attempt; [exact Eid|lia|]].
  left. match goal with H : _ = Ok _ |- _ => inv_stmt H; by injection H as <- end.
Qed.

Lemma mints_recoverExpiredLeases k : mints k recoverExpiredLeases.
Proof.
  unfold recoverExpiredLeases. apply mints_bind.
  { apply mints_wrapping, mints_statement. intros d d' a H. unfold recoverExpiredQuery in H. inv_stmt H.
    injection H as <- _. left. by eapply mints_update_recovered. }
  intros rows. apply mints_bind; [apply mints_scan_rows|]. intros items.
  solve_mints. apply mints_record_recovered.
Qed.

Lemma mints_ClaimDelivery workerID lease : mints 0 (ClaimDelivery workerID lease).
Proof.
  unfold ClaimDelivery. cbn zeta. case_bool_decide; [solve_mints|].
  destruct (lease <? Millisecond); [solve_mints|].
  apply mints_bind; [solve_mints|]. intros _.
  apply mints_bind; [apply mints_recoverExpiredLeases|]. intros _.
  solve_mints. unfold claimDeliveryQuery in *.
  keeps_attempts.
Qed.

Lemma mints_FinishAttempt r : mints 0 (FinishAttempt r).
Proof.
  unfold FinishAttempt, updateCircuit. solve_mints.
  all: unfold finishQuery, recordQuery, circuitFailureQuery, circuitSuccessQuery in *;
    try keeps_attempts.
  inv_stmt H. by eapply mints_insert_attempt; [exact E|lia|].
Qed.

Lemma mints_EnqueueEvent p : mints 0 (EnqueueEvent_store p).
Proof.
  unfold EnqueueEvent_store. solve_mints.
  all: unfold lockEndpointQuery, upsertEventQuery, upsertDeliveryQuery in *; keeps_attempts.
Qed.

Lemma mints_ReplayDelivery id : mints 0 (ReplayDelivery id).
Proof.
  unfold ReplayDelivery. solve_mints. all: unfold lockReplayQuery, replayQuery in *; keeps_attempts.
Qed.

Lemma mints_CreateEndpoint v : mints 0 (CreateEndpoint v).
Proof. unfold CreateEndpoint, autocommit. solve_mints. unfold createEndpointQuery in *. keeps_attempts. Qed.

Lemma mints_DisableEndpoint id : mints 0 (DisableEndpoint id).
Proof. unfold DisableEndpoint, autocommit. solve_mints. unfold disableEndpointQuery in *. keeps_attempts. Qed.

Lemma mints_GetDelivery id : mints 0 (GetDelivery id).
Proof.
  assert (Hscan : ∀ rows, mints 0 (scan_attempts rows)).
  { induction rows as [|[x a] rows IH]; cbn [scan_attempts]; solve_mints. }
  unfold GetDelivery. solve_mints. all: unfold deliveryQuery, attemptsQuery in *; keeps_attempts.
Qed.
End Operations.
