(* ===== verification/StoreSafety.v ===== *)
(** * Safety of the remaining store operations

    [EnqueueEvent], [ReplayDelivery], [CreateEndpoint] and [DisableEndpoint]
    keep the invariant and only let rows evolve; the reads commit nothing. *)

From S2P Require Import Prelude GoErrors GoTime GoText Delivery Schema Tx Invariant TxLogic Queue QueueSafety.
From S2P Require Import Eventing StoreEvents StoreDeliveries StoreEndpoints.

Section StoreSafety.
Context `{PG : Postgres} {PL : PostgresLaws} `{UU : Uuids} `{TE : TxEnv}.

(** A statement that keeps the invariant of an open transaction. *)
Lemma query_triple {A} d0 miss orph miss' (orph' : A → list string) (f : db → res (db * list A))
    (Φ : A → Prop) :
  (∀ W W' a l, db_ok_mod miss orph W → f W = Ok (W', a :: l) →
     Φ a ∧ db_ok_mod miss' (orph' a) W' ∧ evolves W W') →
  triple (open_tx d0 miss orph) (QueryRow f)
    (λ a D W, Φ a ∧ open_tx d0 miss' (orph' a) D W) (closed d0).
Proof.
  intros Hf. apply triple_QueryRow.
  - intros D W W' a l (-> & Hd0 & Hok & Hev) Hq. destruct (Hf _ _ _ _ Hok Hq) as (? & ? & ?).
    split; [done|]. unfold open_tx. split_and!; try done. by etrans.
  - intros. by eapply open_closed.
  - intros. by eapply open_closed.
Qed.

(** A whole transaction of one statement. *)
Lemma autocommit_safe {A} (f : db → res (db * list A)) :
  (∀ W W' rows, db_ok W → f W = Ok (W', rows) → db_ok W' ∧ evolves W W') →
  safe (autocommit (QueryRow f)).
Proof.
  intros Hf d0 Hd0. unfold autocommit.
  eapply (triple_bind _ _ _ (λ _, open_tx d0 [] [])).
  { apply triple_BeginTx; intros D W; [intros ->; by split|intros W' ->; by split]. }
  intros []. eapply (triple_bind _ _ _ (λ _, open_tx d0 [] [])).
  { eapply triple_consequence;
      [apply (query_triple d0 [] [] [] (λ _, []) f (λ _, True))|done|by intros a D W [_ ?]].
    intros W W' a l Hok Hq. by destruct (Hf _ _ _ Hok Hq). }
  intros a. eapply (triple_bind _ _ _ (λ _, closed d0)); [|intros []; by apply triple_ret].
  apply triple_Commit; intros D W W' H; by eapply open_commit.
Qed.

Lemma safe_map {A B} (m : M A) (f : A → M B) :
  safe m → (∀ a, ∀ d0, triple (closed d0) (f a) (λ _, closed d0) (closed d0)) → safe (m ≫= f).
Proof. intros Hm Hf d0 Hd0. eapply triple_bind; [by apply Hm|]. intros a. apply Hf. Qed.

Lemma safe_wrapping {A} msg (m : M A) : safe m → safe (wrapping msg m).
Proof. intros Hm d0 Hd0. by apply triple_wrapping, Hm. Qed.

(** ** EnqueueEvent *)

Lemma rekeyed_id key e : ev_idempotency_key e = key → rekeyed key e = e.
Proof. intros <-. by destruct e. Qed.

Lemma event_with_key_spec endpoint_id key (d : db) id e :
  event_with_key endpoint_id key d = Some (id, e) →
  events d !! id = Some e ∧ ev_endpoint_id e = endpoint_id ∧ ev_idempotency_key e = key.
Proof. intros [He Hp]%map_find_Some. zbool. done. Qed.

Lemma event_with_key_None endpoint_id key (d : db) id e :
  event_with_key endpoint_id key d = None → events d !! id = Some e →
  ev_endpoint_id e = endpoint_id → ev_idempotency_key e = key → False.
Proof.
  intros Hn He <- <-. pose proof (map_find_None _ _ _ _ Hn He) as Hp. cbn in Hp.
  by rewrite !bool_decide_eq_true_2 in Hp.
Qed.

Lemma set_events_id (d : db) id e : events d !! id = Some e → set_events (<[id:=e]> (events d)) d = d.
Proof. intros He. unfold set_events. rewrite insert_id by done. by destruct d. Qed.

Lemma set_deliveries_id (d : db) id r :
  deliveries d !! id = Some r → set_deliveries (<[id:=r]> (deliveries d)) d = d.
Proof. intros He. unfold set_deliveries. rewrite insert_id by done. by destruct d. Qed.

(** The event the upsert returns, stored or found. *)
Lemma upsert_event_safe p (d d' : db) id e same l :
  db_ok d → upsertEventQuery p d = Ok (d', (id, e, same) :: l) →
  (∃ ep, sql_uuid (EP_EndpointID p) = Ok ep ∧ ev_endpoint_id e = ep)
  ∧ events d' !! id = Some e ∧ db_ok_mod [] [id] d' ∧ evolves d d'
  ∧ (event_with_key (ev_endpoint_id e) (ev_idempotency_key e) d = Some (id, e) ∧ d' = d
     ∨ deliveries d' = deliveries d ∧ events d !! id = None).
Proof.
  unfold upsertEventQuery. intros Hok Hq. inv_stmt Hq.
  destruct (event_with_key x0 x3 d) as [[old e0]|] eqn:Ekey.
  - pose proof Ekey as Ek2. apply event_with_key_spec in Ekey as (He & Hep & Hk).
    rewrite (rekeyed_id _ _ Hk), (set_events_id _ _ _ He) in Hq. injection Hq as <- <- <- _ _.
    split; [eauto|]. split; [done|]. split; [|split; [reflexivity|left; split; [|done]; congruence]].
    destruct Hok as [H1 H2 H3 H4 H5 H6 H7 H8 H9 H10 H11]. split; try done.
    intros id' e' G _. eapply H9; [done|]. apply not_elem_of_nil.
  - apply res_bind_Ok in Hq as (d1 & Hi & Hq). injection Hq as <- <- <- _ _.
    pose proof Hi as Hi'. unfold insert_event in Hi'. inv_stmt Hi'. injection Hi' as <-.
    apply is_null_None in E4. cbn. split; [eauto|]. rewrite lookup_insert_eq. split; [done|].
    split; [|split; [by eapply evolves_insert_event|by right]].
    eapply (ok_insert_event [] []); [done|by eapply sql_uuid_canonical| |exact Hi].
    cbn. intros id' e' G Hep Hk. by eapply event_with_key_None.
Qed.

Lemma delivery_of_event_spec ev (d : db) id r :
  delivery_of_event ev d = Some (id, r) → deliveries d !! id = Some r ∧ d_event_id r = ev.
Proof. intros [He Hp]%map_find_Some. zbool. done. Qed.

Lemma delivery_of_event_None ev (d : db) id r :
  delivery_of_event ev d = None → deliveries d !! id = Some r → d_event_id r = ev → False.
Proof.
  intros Hn He <-. pose proof (map_find_None _ _ _ _ Hn He) as Hp. cbn in Hp.
  by rewrite bool_decide_eq_true_2 in Hp.
Qed.

Lemma ok_drop_orphan miss ev (d : db) did r :
  db_ok_mod miss [ev] d → deliveries d !! did = Some r → d_event_id r = ev → db_ok_mod miss [] d.
Proof.
  intros [H1 H2 H3 H4 H5 H6 H7 H8 H9 H10 H11] Hr <-. split; try done.
  intros id e He _. destruct (decide (id = d_event_id r)) as [->|Hne]; [eauto|].
  eapply H9; [done|]. by apply not_elem_of_cons; split; [|apply not_elem_of_nil].
Qed.

Lemma upsert_delivery_safe deliveryID ev endpointID max_attempts (d d' : db) x l e :
  db_ok_mod [] [ev] d → events d !! ev = Some e → 
  (∃ ep, sql_uuid endpointID = Ok ep ∧ ev_endpoint_id e = ep) → 
  upsertDeliveryQuery deliveryID ev endpointID max_attempts d = Ok (d', x :: l) →
  1 <= max_attempts → db_ok d' ∧ evolves d d'.
Proof.
  unfold upsertDeliveryQuery. intros Hok He (ep & Eep & Hep) Hq Hmax. inv_stmt Hq.
  destruct (ok_events _ _ _ Hok _ _ He) as [Hcan _].
  rewrite (canonical_sql_uuid _ Hcan) in E0. injection E0 as <-.
  rewrite Eep in E1. injection E1 as <-.
  destruct (delivery_of_event ev d) as [[old r]|] eqn:Ed.
  - apply delivery_of_event_spec in Ed as [Hr Hev].
    rewrite (set_deliveries_id _ _ _ Hr) in Hq. injection Hq as <- _ _.
    split; [|reflexivity]. by eapply ok_drop_orphan.
  - apply res_bind_Ok in Hq as (d1 & Hi & Hq). injection Hq as <- _ _.
    split; [|by eapply evolves_insert_delivery].
    assert (Hrow : row_ok (new_delivery ev ep max_attempts)).
    { pose proof Hi as Hi'. unfold insert_delivery in Hi'. inv_stmt Hi'.
      split; [done|]. split; cbn; [lia|done]. }
    eapply (ok_insert_delivery [] [] d d1 x0 (new_delivery ev ep max_attempts) e);
      [done|by eapply sql_uuid_canonical|done|by rewrite recorded_idle|done|done| |exact Hi].
    intros id' r' Hr' Hev'. by eapply delivery_of_event_None.
Qed.

Lemma lock_endpoint_spec ep (d d' : db) m dis l :
  lockEndpointQuery ep d = Ok (d', (m, dis) :: l) →
  d' = d ∧ ∃ id e, sql_uuid ep = Ok id ∧ endpoints d !! id = Some e
                   ∧ m = ep_max_attempts e ∧ dis = ep_disabled_at e.
Proof.
  unfold lockEndpointQuery. intros Hq. inv_stmt Hq. injection Hq as <- Hl.
  destruct (endpoints d !! x) as [e|] eqn:He; [|done]. injection Hl as <- <- _. eauto 10.
Qed.

Lemma check_endpoint_max e : check_endpoint e = true → 1 <= ep_max_attempts e <= 100.
Proof. unfold check_endpoint, in_range. intros Hc. zbool. lia. Qed.

Lemma EnqueueEvent_safe p : safe (EnqueueEvent_store p).
Proof.
  intros d0 Hd0. unfold EnqueueEvent_store.
  eapply triple_bind; [by apply begin_triple|]. intros [].
  eapply (triple_bind _ _ _ (λ locked D W,
    match locked with
    | Ok (m, _) => 1 <= m ∧ open_tx d0 [] [] D W
    | Err _ => closed d0 D W end)).
  { eapply triple_consequence;
      [apply (triple_try _ (open_tx d0 [] []) (λ (x : Z * option Z) D W, 1 <= x.1 ∧ open_tx d0 [] [] D W)
                (closed d0) (closed d0))|done|by intros [[m o]|e] D W].
    eapply (query_triple d0 [] [] [] (λ _, []) _ (λ x, 1 <= x.1)).
    intros W W' [m o] l Hok Hq. apply lock_endpoint_spec in Hq as (-> & id & e & _ & He & -> & _).
    destruct (ok_endpoints _ _ _ Hok _ _ He) as [Hc _]. apply check_endpoint_max in Hc.
    split; [cbn; lia|]. split; [done|reflexivity]. }
  intros [[m [t|]]|err].
  - apply triple_throw. intros D W [_ HP]. by eapply open_closed.
  - eapply (triple_bind _ _ _ (λ (x : string * EventRow * bool) D W,
      1 <= m ∧ (∃ ep, sql_uuid (EP_EndpointID p) = Ok ep ∧ ev_endpoint_id x.1.2 = ep)
      ∧ events W !! x.1.1 = Some x.1.2 ∧ open_tx d0 [] [x.1.1] D W)).
    { apply triple_wrapping, triple_QueryRow; [| |]; intros D W.
      - intros W' [[id e] same] l (Hm & -> & _ & Hok & Hev) Hq.
        destruct (upsert_event_safe _ _ _ _ _ _ _ Hok Hq) as (Hep & He & Hok' & Hev' & _).
        split; [done|]. split; [done|]. split; [done|]. unfold open_tx. split_and!; try done. by etrans.
      - intros W' (Hm & HP) _. by eapply open_closed.
      - intros (Hm & HP). by eapply open_closed. }
    intros [[id e] same]. cbn.
    destruct same; cbn; [|apply triple_throw; intros D W (_ & _ & _ & HP); by eapply open_closed].
    eapply (triple_bind _ _ _ (λ _, open_tx d0 [] [])).
    { apply triple_wrapping, triple_QueryRow; intros D W.
      - intros W' x l (Hm & Hep & He & -> & _ & Hok & Hev) Hq.
        destruct (upsert_delivery_safe _ _ _ _ _ _ _ _ _ Hok He Hep Hq Hm).
        unfold open_tx. split_and!; try done. by etrans.
      - intros W' (Hm & _ & _ & HP) _. by eapply open_closed.
      - intros (Hm & _ & _ & HP). by eapply open_closed. }
    intros [did r]. eapply triple_bind; [apply commit_triple|]. intros []. by apply triple_ret.
  - by destruct (errors_is err pgx_ErrNoRows); apply triple_throw.
Qed.

(** ** ReplayDelivery *)

Lemma lock_replay_spec id (d d' : db) st lim budget dis l :
  lockReplayQuery id d = Ok (d', (st, lim, budget, dis) :: l) →
  d' = d ∧ ∃ did r e, sql_uuid id = Ok did ∧ deliveries d !! did = Some r
    ∧ endpoints d !! d_endpoint_id r = Some e ∧ st = d_status r ∧ lim = d_max_attempts r
    ∧ budget = ep_max_attempts e ∧ dis = ep_disabled_at e.
Proof.
  unfold lockReplayQuery. intros Hq. inv_stmt Hq. injection Hq as <- Hl.
  destruct (deliveries d !! x) as [r|] eqn:Hr; [|done].
  destruct (endpoints d !! d_endpoint_id r) as [e|] eqn:He; [|done].
  injection Hl as <- <- <- <- _. split; [done|]. exists x, r, e. split_and!; done.
Qed.

Lemma replayed_row_ok m (r : DeliveryRow) :
  row_ok r → d_status r = StatusDead → d_max_attempts r < m →
  check_delivery (replayed_row m r) = true →
  row_ok (replayed_row m r) ∧ recorded (replayed_row m r) = recorded r
  ∧ row_evolves r (replayed_row m r).
Proof.
  intros (Hc & Hl & Hp) Hs Hm Hc'. split_and!.
  - split; [done|]. split; [|done]. cbn. intros _. unfold check_delivery in Hc. zbool. lia.
  - by rewrite !recorded_idle by (cbn; congruence).
  - split; try done; cbn; [|lia|congruence]. rewrite Hs. by apply transitions_step.
Qed.

Lemma ReplayDelivery_safe id : safe (ReplayDelivery id).
Proof.
  intros d0 Hd0. unfold ReplayDelivery.
  eapply triple_bind; [by apply begin_triple|]. intros [].
  eapply (triple_bind _ _ _ (λ scanned D W,
    match scanned with
    | Ok (st, lim, budget, _) => open_tx d0 [] [] D W ∧ ∃ did r, sql_uuid id = Ok did
        ∧ deliveries W !! did = Some r ∧ d_status r = st ∧ d_max_attempts r = lim
        ∧ 1 <= lim <= MaxInt32 ∧ 1 <= budget <= 100
    | Err _ => closed d0 D W end)).
  { eapply triple_consequence;
      [apply (triple_try _ (open_tx d0 [] []) (λ (x : Status * Z * Z * option Z) D W,
         let '(st, lim, budget, _) := x in open_tx d0 [] [] D W ∧ ∃ did r, sql_uuid id = Ok did
        ∧ deliveries W !! did = Some r ∧ d_status r = st ∧ d_max_attempts r = lim
        ∧ 1 <= lim <= MaxInt32 ∧ 1 <= budget <= 100)
                (closed d0) (closed d0))|done|by intros [[[[st lim] b] o]|e] D W].
    apply triple_QueryRow; intros D W.
    - intros W' [[[st lim] b] o] l HP Hq.
      apply lock_replay_spec in Hq as (-> & did & r & e & Ed & Hr & He & -> & -> & -> & _).
      split; [done|]. exists did, r. destruct HP as (_ & _ & Hok & _).
      destruct (ok_endpoints _ _ _ Hok _ _ He) as [Hce _]. apply check_endpoint_max in Hce.
      destruct (ok_deliveries _ _ _ Hok _ _ Hr) as (_ & (Hc & _) & _).
      unfold check_delivery, int4, in_range in Hc. zbool. split_and!; done || lia.
    - intros. by eapply open_closed.
    - intros. by eapply open_closed. }
  intros [[[[st lim] budget] dis]|err].
  - destruct (negb (is_null dis)); [apply triple_throw; intros D W [HP _]; by eapply open_closed|].
    destruct (negb (bool_decide (st = StatusDead)) || (wrap64 (MaxInt32 - budget) <? lim)) eqn:Eg;
      [apply triple_throw; intros D W [HP _]; by eapply open_closed|].
    zbool. eapply (triple_bind _ _ _ (λ _, open_tx d0 [] [])).
    { apply triple_wrapping, triple_QueryRow; intros D W.
      - intros W' x l ((-> & _ & Hok & Hev) & did & r & Ed & Hr & Hst & Hlim & Hl1 & Hb) Hq.
        unfold replayQuery in Hq. inv_stmt Hq. rewrite Ed in E. injection E as <-.
        rewrite Hr in Hq. apply res_bind_Ok in Hq as (d1 & Hu & Hq). injection Hq as <- _ _.
        apply update_delivery_Ok in Hu as [Hc ->].
        destruct (ok_deliveries _ _ _ Hok _ _ Hr) as (_ & Hrok & _).
        rewrite wrap64_id in * by (unfold in_int64, MinInt64, MaxInt64, MaxInt32 in *; lia).
        destruct (replayed_row_ok (lim + budget) r Hrok ltac:(congruence) ltac:(lia) Hc) as (H1 & H2 & H3).
        unfold open_tx. split_and!; try done.
        + eapply (ok_update_delivery [] [] []); try done. by left.
        + etrans; [done|]. by eapply evolves_set_delivery.
      - intros W' [HP _] _. by eapply open_closed.
      - intros [HP _]. by eapply open_closed. }
    intros [did r]. eapply triple_bind; [apply commit_triple|]. intros []. by apply triple_ret.
  - by destruct (errors_is err pgx_ErrNoRows); apply triple_throw.
Qed.

(** ** Endpoints *)

Lemma CreateEndpoint_safe v : safe (CreateEndpoint v).
Proof.
  unfold CreateEndpoint. apply safe_map; [|intros [id e] d0; by apply triple_ret].
  apply safe_wrapping, autocommit_safe. intros W W' rows Hok Hq.
  unfold createEndpointQuery in Hq. inv_stmt Hq. injection Hq as <- _.
  split; [|by eapply evolves_insert_endpoint].
  eapply ok_insert_endpoint; [done|by eapply sql_uuid_canonical|done].
Qed.

Lemma disabled_row_evolves (e : EndpointRow) : endpoint_evolves e (disabled_row e).
Proof. split; [by split_and!|]. cbn. by intros t ->. Qed.

Lemma DisableEndpoint_safe id : safe (DisableEndpoint id).
Proof.
  unfold DisableEndpoint. intros d0 Hd0.
  eapply (triple_bind _ _ _ (λ _, closed d0)).
  - eapply triple_consequence;
      [apply (triple_try _ (λ D _, D = d0) (λ _, closed d0) (closed d0) (closed d0))|done|by intros [?|?] D W].
    apply autocommit_safe; [|done]. intros W W' rows Hok Hq.
    unfold disableEndpointQuery in Hq. inv_stmt Hq.
    destruct (endpoints W !! x) as [e|] eqn:He; [|injection Hq as <- _; by split].
    apply res_bind_Ok in Hq as (d1 & Hu & Hq). injection Hq as <- _.
    refine (circuit_query_safe _ _ _ _ _ _ _ Hok He _ Hu). apply disabled_row_evolves.
  - intros [[id' e]|err]; [by apply triple_ret|].
    by destruct (errors_is err pgx_ErrNoRows); apply triple_throw.
Qed.
End StoreSafety.
