(* ===== verification/Frame.v ===== *)
(** * What an operation may do to one delivery

    [frames id φ m]: a run of [m] that starts with the row of [id] in [φ] ends
    with it in [φ], in the durable database and in the working one, whatever
    faults it meets. Proved for every operation from what [φ] must be closed
    under: recovery for an expired lease, the claim, the finish and the replay.
    Two instances serve the theorems: the row itself, for a lease that holds,
    and the changes an operation may make. *)

From S2P Require Import Prelude GoErrors GoTime GoText Delivery Schema Tx Invariant TxLogic Queue QueueSafety.
From S2P Require Import QueueSpec Eventing StoreEvents StoreDeliveries StoreEndpoints StoreSafety.

Section Frame.
Context `{PG : Postgres}.
Variables (id : string) (φ : DeliveryRow → Prop).

Definition has_row (d : db) : Prop := ∃ row, deliveries d !! id = Some row ∧ φ row.
Definition held (D W : db) : Prop := has_row D ∧ has_row W.

Definition frames {A} (m : M A) : Prop := triple held m (λ _, held) held.

Lemma frames_ret {A} (a : A) : frames (mret a).
Proof. by apply triple_ret. Qed.

Lemma frames_throw {A} e : frames (throw (A := A) e).
Proof. by apply triple_throw. Qed.

Lemma frames_bind {A B} (m : M A) (f : A → M B) : frames m → (∀ a, frames (f a)) → frames (m ≫= f).
Proof. intros Hm Hf. eapply triple_bind; [exact Hm|]. intros a. apply Hf. Qed.

Lemma frames_try {A} (m : M A) : frames m → frames (try m).
Proof.
  intros Hm. eapply triple_consequence; [by apply (triple_try m held (λ _, held) held held)|done|].
  by intros [a|e] D W.
Qed.

Lemma frames_wrapping {A} msg (m : M A) : frames m → frames (wrapping msg m).
Proof. apply triple_wrapping. Qed.

Lemma frames_io : frames io.
Proof. by apply triple_io. Qed.

Lemma frames_new_uuid `{Uuids} : frames new_uuid.
Proof. apply triple_new_uuid. Qed.

Lemma frames_next_fault : frames next_fault.
Proof.
  intros s r s' Hh Hr. unfold runs, next_fault in Hr.
  destruct (faults s); injection Hr as <- <-; exact Hh.
Qed.

Lemma frames_BeginTx : frames BeginTx.
Proof. apply frames_bind; [apply frames_io|]. intros _ s r s' [HD HW] [= <- <-]. by split. Qed.

Lemma frames_publish : frames publish.
Proof. intros s r s' [HD HW] [= <- <-]. by split. Qed.

Lemma frames_Commit : frames Commit.
Proof.
  apply frames_bind; [apply frames_next_fault|].
  intros [|e|e]; [apply frames_publish|apply frames_throw|].
  apply frames_bind; [apply frames_publish|]. intros _. apply frames_throw.
Qed.

Lemma frames_statement {A} (f : db → res (db * A)) :
  (∀ d d' a, has_row d → f d = Ok (d', a) → has_row d') → frames (statement f).
Proof. intros Hf. apply triple_statement; [|done]. intros D W W' a [HD HW] E. split; [done|eauto]. Qed.

Lemma frames_QueryRow {A} (f : db → res (db * list A)) :
  (∀ d d' a, has_row d → f d = Ok (d', a) → has_row d') → frames (QueryRow f).
Proof.
  intros Hf. apply frames_bind; [by apply frames_statement|].
  intros [|x l]; [apply frames_throw|apply frames_ret].
Qed.

Lemma frames_Exec (f : db → res db) :
  (∀ d d', has_row d → f d = Ok d' → has_row d') → frames (Exec f).
Proof.
  intros Hf. apply frames_statement. intros d d' a Hd E. apply (Hf d); [done|].
  destruct (f d); cbn in E; congruence.
Qed.

Lemma has_row_other id' row' d :
  id' ≠ id → has_row d → has_row (set_deliveries (<[id' := row']> (deliveries d)) d).
Proof. unfold has_row. cbn. intros Hne. by rewrite lookup_insert_ne. Qed.

Lemma has_row_write id' row' d :
  (id' = id → φ row') → has_row d → has_row (set_deliveries (<[id' := row']> (deliveries d)) d).
Proof.
  intros Hw Hd. destruct (decide (id' = id)) as [->|Hne]; [|by apply has_row_other].
  exists row'. cbn. rewrite lookup_insert_eq. auto.
Qed.

Lemma has_row_insert id' row' (d d' : db) :
  insert_delivery id' row' d = Ok d' → has_row d → has_row d'.
Proof.
  unfold insert_delivery. intros H Hd. inv_stmt H. injection H as <-. apply has_row_other; [|done].
  intros ->. destruct Hd as (r & Hr & _). apply is_null_None in E. congruence.
Qed.

(** Statements on the other tables. *)
Lemma has_row_events (d d' : db) : deliveries d' = deliveries d → has_row d → has_row d'.
Proof. unfold has_row. by intros ->. Qed.
End Frame.

#[export] Hint Resolve frames_ret frames_throw frames_io frames_new_uuid frames_BeginTx frames_Commit : relay.

Ltac solve_frames :=
  repeat first
    [ match goal with |- ∀ _, _ => intros ? end
    | solve [eauto 1 with relay]
    | match goal with
      | |- frames _ _ (_ ≫= _) => apply frames_bind
      | |- frames _ _ (try _) => apply frames_try
      | |- frames _ _ (wrapping _ _) => apply frames_wrapping
      | |- frames _ _ (QueryRow _) => apply frames_QueryRow
      | |- frames _ _ (Exec _) => apply frames_Exec
      | |- frames _ _ (statement _) => apply frames_statement
      | |- frames _ _ (match ?x with _ => _ end) => destruct x eqn:?
      end ].

(** A statement that writes no delivery, by inversion of its guards. *)
Ltac keeps_deliveries :=
  cbn zeta in *;
  repeat match goal with
         | H : (_ ≫= _) = Ok _ |- _ => inv_stmt H
         | H : match ?x with _ => _ end = Ok _ |- _ => destruct x
         | H : update_endpoint _ _ _ = Ok _ |- _ => unfold update_endpoint in H
         | H : insert_endpoint _ _ _ = Ok _ |- _ => unfold insert_endpoint in H
         | H : insert_event _ _ _ = Ok _ |- _ => unfold insert_event in H
         | H : insert_attempt _ _ _ = Ok _ |- _ => unfold insert_attempt in H
         end;
  crush; done.

Section Operations.
Context `{PG : Postgres} {PL : PostgresLaws} `{UU : Uuids} `{TE : TxEnv}.
Variables (id : string) (φ : DeliveryRow → Prop).

Lemma frames_CreateEndpoint v : frames id φ (CreateEndpoint v).
Proof.
  unfold CreateEndpoint, autocommit. solve_frames. unfold createEndpointQuery in *. keeps_deliveries.
Qed.

Lemma frames_DisableEndpoint ep : frames id φ (DisableEndpoint ep).
Proof.
  unfold DisableEndpoint, autocommit. solve_frames. unfold disableEndpointQuery in *. keeps_deliveries.
Qed.

Lemma frames_GetDelivery did : frames id φ (GetDelivery did).
Proof.
  assert (Hscan : ∀ rows, frames id φ (scan_attempts rows)).
  { induction rows as [|[x a] rows IH]; cbn [scan_attempts]; solve_frames. }
  unfold GetDelivery. solve_frames. all: unfold deliveryQuery, attemptsQuery in *; keeps_deliveries.
Qed.

Lemma frames_EnqueueEvent p : frames id φ (EnqueueEvent_store p).
Proof.
  unfold EnqueueEvent_store. solve_frames.
  - unfold lockEndpointQuery in *. keeps_deliveries.
  - unfold upsertEventQuery in *. keeps_deliveries.
  - unfold upsertDeliveryQuery in *. inv_stmt H0.
    destruct (delivery_of_event _ _) as [[old r]|] eqn:Ed.
    + apply delivery_of_event_spec in Ed as [Hr _]. rewrite (set_deliveries_id _ _ _ Hr) in H0. by crush.
    + inv_stmt H0. injection H0 as <- _. by eapply has_row_insert.
Qed.

(** ** Recovery and claims *)

Hypothesis φ_recovered : ∀ row, φ row → lease_expired row = true → φ (recovered_row row).

Lemma frames_recover_rows rows (d d' : db) :
  (∀ row, (id, row) ∈ rows → φ (recovered_row row)) →
  update_recovered rows d = Ok d' → has_row id φ d → has_row id φ d'.
Proof.
  revert d. induction rows as [|[k r] rows IH]; intros d Hn H Hd; cbn [update_recovered] in H.
  { by injection H as <-. }
  inv_stmt H. apply update_delivery_Ok in E as [_ ->].
  eapply IH; [|exact H|].
  - intros row Hin. apply Hn. by right.
  - apply has_row_write; [|done]. intros ->. apply Hn. left.
Qed.

Lemma frames_recoverExpiredLeases : frames id φ recoverExpiredLeases.
Proof.
  assert (Hscan : ∀ rows, frames id φ (scan_rows rows)).
  { induction rows as [|x rows IH]; cbn [scan_rows]; solve_frames. }
  assert (Hrec : ∀ items, frames id φ (record_recovered items)).
  { induction items as [|x items IH]; cbn [record_recovered]; solve_frames.
    unfold insert_expired_attempt in *. keeps_deliveries. }
  unfold recoverExpiredLeases. apply frames_bind; [|solve_frames].
  apply frames_wrapping, frames_statement. intros d d' a Hd H. unfold recoverExpiredQuery in H. inv_stmt H.
  injection H as <- _. eapply frames_recover_rows; [|exact E|done].
  intros row (Hr & He & _)%expired_rows_spec. destruct Hd as (r & Hr' & Hφ).
  assert (r = row) as -> by congruence. by apply φ_recovered.
Qed.

Lemma frames_ClaimDelivery workerID lease :
  (∀ row token, φ row → Millisecond <= lease → live row → d_next_attempt_at row <= now →
     d_attempt_count row < d_max_attempts row →
     φ (claimed_row (TrimSpace workerID) token (Milliseconds lease) row)) →
  frames id φ (ClaimDelivery workerID lease).
Proof.
  intros φ_claimed. unfold ClaimDelivery. cbn zeta. case_bool_decide; [solve_frames|].
  destruct (Z.ltb_spec lease Millisecond); [solve_frames|].
  apply frames_bind; [solve_frames|]. intros _.
  apply frames_bind; [apply frames_recoverExpiredLeases|]. intros _. solve_frames.
  unfold claimDeliveryQuery in *. inv_stmt H2. unfold sql_text in E. destruct (text_in _); [|done]. injection E as <-.
  destruct (candidate d) as [[k r]|] eqn:Ec; [|by injection H2 as <- _].
  inv_stmt H2. apply update_delivery_Ok in E1 as [_ ->]. injection H2 as <- _.
  apply candidate_spec in Ec as (Hr & Hc & _). apply claimable_spec in Hc as (Hlive & Hn & Hlt & _).
  apply has_row_write; [|done]. intros ->. destruct H1 as (r' & Hr' & Hφ).
  assert (r' = r) as -> by congruence. by apply φ_claimed.
Qed.

(** ** Finishing *)

Lemma frames_FinishAttempt r :
  (∀ row token, φ row → uuid_in (AR_DeliveryID r) = Some id → uuid_in (AR_LeaseToken r) = Some token →
     holds_lease (AR_WorkerID r) token (AR_AttemptNumber r) row = true → φ (finished_row r row)) →
  frames id φ (FinishAttempt r).
Proof.
  intros φ_finished. unfold FinishAttempt, updateCircuit. solve_frames.
  all: unfold recordQuery, circuitFailureQuery, circuitSuccessQuery in *; try keeps_deliveries.
  unfold finishQuery in *. inv_stmt H0. unfold sql_uuid, sql_text in *.
  destruct (uuid_in (AR_DeliveryID r)) as [did|] eqn:Ed; [|done].
  destruct (uuid_in (AR_LeaseToken r)) as [token|] eqn:Et; [|done].
  destruct (text_in (AR_WorkerID r)); [|done].
  repeat match goal with H : Ok _ = Ok _ |- _ => injection H as <- end.
  destruct (deliveries d !! did) as [row'|] eqn:Hr; [|by injection H0 as <- _].
  destruct (holds_lease _ _ _ row') eqn:Hl; [|by injection H0 as <- _].
  inv_stmt H0. match goal with H : update_delivery _ _ _ = _ |- _ => apply update_delivery_Ok in H as [_ ->] end.
  injection H0 as <- _. apply has_row_write; [|done]. intros ->.
  match goal with H : has_row _ _ _ |- _ => destruct H as (r' & Hr' & Hφ) end.
  assert (r' = row') as -> by congruence. by eapply φ_finished.
Qed.

(** ** Replaying *)

Lemma frames_ReplayDelivery did :
  (∀ row m, φ row → uuid_in did = Some id → d_status row = StatusDead → φ (replayed_row m row)) →
  frames id φ (ReplayDelivery did).
Proof.
  intros φ_replayed. unfold ReplayDelivery, frames.
  eapply triple_bind; [apply frames_wrapping, frames_BeginTx|]. intros [].
  set (J := λ (x : Status * Z * Z * option Z) D W, held id φ D W
    ∧ (uuid_in did = Some id → ∃ r, deliveries W !! id = Some r ∧ φ r ∧ x.1.1.1 = d_status r)).
  apply (triple_bind _ _ _ (λ x, match x with Ok y => J y | Err _ => held id φ end)).
  { apply (triple_try _ _ J (held id φ) (held id φ)). apply triple_QueryRow; [| |done].
    - intros D W W' [[[st lim] b] o] l [HD HW] Hq.
      apply lock_replay_spec in Hq as (-> & k & r & e & Ek & Hr & _ & -> & _). split; [done|]. cbn.
      intros Eid. unfold sql_uuid in Ek. rewrite Eid in Ek. injection Ek as <-.
      destruct HW as (r' & Hr' & Hφ). assert (r' = r) as -> by congruence. by exists r.
    - intros D W W' [HD HW] Hq. unfold lockReplayQuery in Hq. inv_stmt Hq. by injection Hq as <- _. }
  intros [[[[st lim] budget] dis]|err];
    [|destruct (errors_is err pgx_ErrNoRows); apply frames_throw].
  assert (Hj : ∀ D W, J (st, lim, budget, dis) D W → held id φ D W) by (by intros D W [? _]).
  destruct (negb (is_null dis)); [by apply triple_throw|].
  destruct (negb (bool_decide (st = StatusDead)) || _) eqn:Eg; [by apply triple_throw|]. zbool.
  apply (triple_bind _ _ _ (λ _, held id φ)); [|intros [x r]; solve_frames; apply frames_bind; solve_frames].
  assert (Hrep : ∀ D W W' rows m, J (st, lim, budget, dis) D W →
    replayQuery did m W = Ok (W', rows) → held id φ D W').
  { intros D W W' rows m [[HD HW] HJ] Hq. cbn in HJ. split; [done|]. unfold replayQuery in Hq. inv_stmt Hq.
    unfold sql_uuid in E. destruct (uuid_in did) as [k|]; [|done]. injection E as <-.
    destruct (deliveries W !! k) as [r|] eqn:Hr; [|by injection Hq as <- _]. inv_stmt Hq.
    apply update_delivery_Ok in E as [_ ->]. injection Hq as <- _. apply has_row_write; [|done].
    intros ->. destruct (HJ eq_refl) as (r' & Hr' & Hφ & Hst). assert (r' = r) as -> by congruence.
    apply φ_replayed; congruence. }
  apply triple_wrapping, triple_QueryRow; [| |done]; intros; by eapply Hrep.
Qed.
End Operations.

(** ** The row under a lease that holds *)

(** The result does not present the lease the row is under. *)
Definition not_holder `{PG : Postgres} (id : string) (row : DeliveryRow) (r : AttemptResult) : Prop :=
  uuid_in (AR_DeliveryID r) = Some id →
  ∀ token, uuid_in (AR_LeaseToken r) = Some token →
  holds_lease (AR_WorkerID r) token (AR_AttemptNumber r) row = false.

(** ** The changes of one operation *)

Section Changes.
Context `{PG : Postgres} {PL : PostgresLaws} `{UU : Uuids} `{TE : TxEnv}.
Variables (id : string) (row : DeliveryRow).

(** A claim may recover the delivery, take it, or do one after the other. *)
Definition claim_change (worker : string) (lease : Duration) (row' : DeliveryRow) : Prop :=
  ∃ mid, (mid = row ∨ row_recovered row mid)
    ∧ (row' = mid ∨ ∃ token, row_claimed (TrimSpace worker) token lease mid row').

Lemma claim_changes worker lease : frames id (claim_change worker lease) (ClaimDelivery worker lease).
Proof.
  assert (Hsmall : ∀ token mid r, Millisecond <= lease → row_claimed (TrimSpace worker) token lease mid r → lease_expired r = false).
  { intros token mid r Hl Hc. unfold lease_expired. destruct (rc_lease _ _ _ _ _ Hc) as (_ & _ & _ & ->).
    assert (1 <= lease / Millisecond) by (apply Z.div_le_lower_bound; unfold Millisecond, Microsecond in *; lia).
    apply andb_false_intro2, Z.leb_gt. lia. }
  destruct (Z.lt_ge_cases lease Millisecond) as [Hlt|Hge].
  { unfold ClaimDelivery. cbn zeta. case_bool_decide; [solve_frames|].
    by rewrite (proj2 (Z.ltb_lt _ _) Hlt); solve_frames. }
  apply frames_ClaimDelivery.
  - intros r (mid & Hmid & [->|(token & Hc)]) He; [|by rewrite (Hsmall _ _ _ Hge Hc) in He].
    destruct Hmid as [->|Hrec].
    + exists (recovered_row row). split; [right; by apply recovered_row_recovers|by left].
    + exfalso. unfold lease_expired in He. zbool. destruct (rr_was _ _ Hrec) as [_ _].
      destruct (Z.lt_ge_cases (d_attempt_count row) (d_max_attempts row)) as [Hc|Hc];
        [destruct (rr_again _ _ Hrec Hc)|destruct (rr_spent _ _ Hrec Hc)]; congruence.
  - intros r token (mid & Hmid & [->|(token' & Hc)]) _ Hlive Hn Hlt.
    + exists mid. split; [done|]. right. exists token. apply claimed_row_claims; try done. unfold Millisecond, Microsecond in *. lia.
    + exfalso. pose proof (rc_status _ _ _ _ _ Hc). destruct Hlive; congruence.
Qed.

Lemma finish_changes res :
  frames id (λ row', row' = row ∨ ∃ token, uuid_in (AR_DeliveryID res) = Some id ∧ uuid_in (AR_LeaseToken res) = Some token
                                       ∧ row_finished res token row row') (FinishAttempt res).
Proof.
  apply frames_FinishAttempt. intros r token [->|(token' & _ & _ & Hf)] Hid Ht Hl.
  - right. exists token. split; [done|]. split; [done|]. by apply finished_row_finishes.
  - exfalso. apply holds_lease_spec in Hl as (Hp & _). rewrite (rf_status _ _ _ _ Hf) in Hp. unfold next_status in Hp.
    destruct (AR_Decision res); try done. by destruct (_ <? _).
Qed.

Lemma replay_changes did :
  frames id (λ row', row' = row ∨ uuid_in did = Some id ∧ row_replayed row row') (ReplayDelivery did).
Proof.
  apply frames_ReplayDelivery. intros r m [->|[_ Hr]] Hid Hd.
  - right. by split.
  - exfalso. rewrite (rp_status _ _ Hr) in Hd. done.
Qed.
End Changes.
