(* ===== verification/System.v ===== *)
(** * The system: operations, steps and reachable states

    Every operation of package store that the services and the workers call,
    run one transaction after another from an empty schema, under any
    environment and any faults. *)

From S2P Require Import Prelude GoErrors GoTime GoText Delivery Schema Tx Invariant TxLogic Queue QueueSafety.
From S2P Require Import QueueSpec Eventing StoreEvents StoreDeliveries StoreEndpoints Minting StoreSafety.
From S2P Require Import Frame.

Section System.
Context `{PG : Postgres} `{UU : Uuids}.

Inductive op : Type :=
  | OpCreateEndpoint (value : Endpoint)
  | OpDisableEndpoint (id : string)
  | OpEnqueueEvent (params : EnqueueParams)
  | OpClaimDelivery (workerID : string) (lease : Duration)
  | OpFinishAttempt (result : AttemptResult)
  | OpReplayDelivery (id : string)
  | OpGetDelivery (id : string).

(** The result of an operation, forgetting the value it returns. *)
Definition run_op (TE : TxEnv) (o : op) : M unit :=
  match o with
  | OpCreateEndpoint v => _ ← CreateEndpoint v; mret tt
  | OpDisableEndpoint id => _ ← DisableEndpoint id; mret tt
  | OpEnqueueEvent p => _ ← EnqueueEvent_store p; mret tt
  | OpClaimDelivery w l => _ ← ClaimDelivery w l; mret tt
  | OpFinishAttempt r => _ ← FinishAttempt r; mret tt
  | OpReplayDelivery id => _ ← ReplayDelivery id; mret tt
  | OpGetDelivery id => _ ← GetDelivery id; mret tt
  end.

Record state : Type := mkState { st_db : db; st_next : nat }.

Definition connect (s : state) (fs : list fault) : conn :=
  mkConn _ (st_db s) (st_db s) fs (st_next s).

Inductive step : state → state → Prop :=
  | step_op TE o fs s r c :
      runs (run_op TE o) (connect s fs) r c →
      step s (mkState (durable c) (next_uuid c)).

Definition initial : state := mkState empty_db 0.

Definition reachable (s : state) : Prop := rtc step initial s.

(** Running a script of operations. *)
Definition exec_op (x : TxEnv * op * list fault) (s : state) : state :=
  let c := (run_op x.1.1 x.1.2 (connect s x.2)).2 in mkState (durable c) (next_uuid c).

Definition exec (xs : list (TxEnv * op * list fault)) (s : state) : state :=
  fold_left (λ s x, exec_op x s) xs s.

Lemma exec_op_step x s : step s (exec_op x s).
Proof.
  destruct x as [[TE o] fs]. unfold exec_op. cbn.
  destruct (run_op TE o (connect s fs)) as [r c] eqn:E. by apply (step_op TE o fs s r c).
Qed.

Lemma exec_steps xs s : rtc step s (exec xs s).
Proof.
  revert s. induction xs as [|x xs IH]; intros s; cbn; [done|].
  eapply rtc_l; [apply exec_op_step|apply IH].
Qed.

(** ** Safety of every step *)

Context {PL : PostgresLaws}.

Lemma scan_attempts_triple `{TE : TxEnv} d0 rows :
  triple (open_tx d0 [] []) (scan_attempts rows) (λ _, open_tx d0 [] []) (closed d0).
Proof.
  induction rows as [|[id a] rows IH]; cbn [scan_attempts]; [by apply triple_ret|].
  eapply triple_bind; [apply io_triple|]. intros [].
  eapply triple_bind; [exact IH|]. intros rest. by apply triple_ret.
Qed.

Lemma GetDelivery_safe `{TE : TxEnv} id : safe (GetDelivery id).
Proof.
  intros d0 Hd0. unfold GetDelivery.
  eapply triple_bind; [by apply begin_triple|]. intros [].
  eapply (triple_bind _ _ _ (λ _, open_tx d0 [] [])).
  - eapply triple_consequence;
      [apply (triple_try _ (open_tx d0 [] []) (λ _, open_tx d0 [] []) (closed d0) (open_tx d0 [] []))
      |done|by intros [?|?] D W].
    apply triple_QueryRow; [| |done]; intros D W W'; [intros x l|];
      intros HP Hq; unfold deliveryQuery in Hq; inv_stmt Hq; by injection Hq as <- _.
  - intros [[[did r] [eid e]]|err].
    + eapply (triple_bind _ _ _ (λ _, open_tx d0 [] [])).
      { apply triple_wrapping, triple_statement; [|intros; by eapply open_closed].
        intros D W W' rows HP Hq. unfold attemptsQuery in Hq. inv_stmt Hq. by injection Hq as <- _. }
      intros rows. eapply triple_bind; [apply scan_attempts_triple|]. intros attempts.
      eapply triple_bind; [apply io_triple|]. intros [].
      eapply triple_bind; [apply commit_triple|]. intros []. by apply triple_ret.
    + destruct (errors_is err pgx_ErrNoRows); apply triple_throw; intros; by eapply open_closed.
Qed.

Lemma run_op_safe (TE : TxEnv) o : safe (run_op TE o).
Proof.
  assert (Hret : ∀ {A} (m : M A), safe m → safe (_ ← m; mret tt)).
  { intros A m Hm. apply safe_map; [done|]. intros a d0. by apply triple_ret. }
  destruct o; cbn; apply Hret;
    [apply CreateEndpoint_safe|apply DisableEndpoint_safe|apply EnqueueEvent_safe
    |apply ClaimDelivery_safe|apply FinishAttempt_safe|apply ReplayDelivery_safe|apply GetDelivery_safe].
Qed.

Lemma step_safe s s' : step s s' → db_ok (st_db s) → db_ok (st_db s') ∧ evolves (st_db s) (st_db s').
Proof.
  intros [TE o fs s0 r c Hr] Hok.
  exact (safe_run (run_op TE o) (connect s0 fs) r c (run_op_safe TE o) Hok Hr).
Qed.

Lemma steps_safe s s' :
  rtc step s s' → db_ok (st_db s) → db_ok (st_db s') ∧ evolves (st_db s) (st_db s').
Proof.
  induction 1 as [|s1 s2 s3 H12 _ IH]; intros Hok; [split; [done|reflexivity]|].
  destruct (step_safe _ _ H12 Hok) as [Hok2 He]. destruct (IH Hok2). split; [done|]. by etrans.
Qed.

Lemma reachable_db_ok s : reachable s → db_ok (st_db s).
Proof. intros Hr. eapply steps_safe; [exact Hr|]. apply ok_empty. Qed.

(** ** Atomicity of every operation *)

Lemma quiet_scan_rows rows : quiet (scan_rows rows).
Proof.
  induction rows as [|x rows IH]; cbn [scan_rows]; [apply quiet_ret|].
  apply quiet_bind; [|intros; apply quiet_bind; [done|intros; apply quiet_ret]].
  apply quiet_wrapping, quiet_bind; [apply quiet_io|]. intros _.
  destruct (scan_recovered x); [apply quiet_ret|apply quiet_throw].
Qed.

Lemma quiet_record_recovered items : quiet (record_recovered items).
Proof.
  induction items as [|x items IH]; cbn [record_recovered]; [apply quiet_ret|].
  solve_atomic.
Qed.

Lemma quiet_recoverExpiredLeases `{TE : TxEnv} : quiet recoverExpiredLeases.
Proof.
  unfold recoverExpiredLeases. apply quiet_bind; [solve_atomic|]. intros rows.
  apply quiet_bind; [apply quiet_scan_rows|]. intros items.
  apply quiet_bind; [solve_atomic|]. intros _. apply quiet_record_recovered.
Qed.

Lemma quiet_scan_attempts rows : quiet (scan_attempts rows).
Proof. induction rows as [|[id a] rows IH]; cbn [scan_attempts]; solve_atomic. Qed.

Lemma atomic_autocommit {A} (m : M A) : quiet m → atomic (autocommit m).
Proof.
  intros Hm. unfold autocommit. apply atomic_bind; [apply quiet_BeginTx|]. intros _.
  apply atomic_bind; [done|]. intros a. apply (atomic_ret_after _ (λ _, a)), atomic_Commit.
Qed.

Lemma atomic_CreateEndpoint `{TE : TxEnv} v : atomic (CreateEndpoint v).
Proof.
  unfold CreateEndpoint. apply atomic_ret_after, atomic_wrapping, atomic_autocommit, quiet_QueryRow.
Qed.

Lemma atomic_DisableEndpoint `{TE : TxEnv} id : atomic (DisableEndpoint id).
Proof.
  intros s r s' Hn Hr e ->. unfold DisableEndpoint in Hr.
  apply runs_bind in Hr as [(e' & Hr & ?)|(scanned & s1 & Hr & Hk)].
  { apply runs_try in Hr as (r' & _ & ?). done. }
  apply runs_try in Hr as (r' & Hr & [= ->]). destruct r' as [[id' e0]|err].
  { by apply runs_ret in Hk as [? _]. }
  assert (s1 = s') as <- by (destruct (errors_is err pgx_ErrNoRows); by apply runs_throw in Hk as [_ ->]).
  by eapply (atomic_autocommit (QueryRow (disableEndpointQuery id)) (quiet_QueryRow _) _ _ _ Hn Hr).
Qed.

Lemma run_op_atomic (TE : TxEnv) o : atomic (run_op TE o).
Proof.
  assert (Hret : ∀ {A} (m : M A), atomic m → atomic (_ ← m; mret tt)).
  { intros A m Hm. by apply (atomic_ret_after m (λ _, tt)). }
  destruct o; cbn; apply Hret.
  - apply atomic_CreateEndpoint.
  - apply atomic_DisableEndpoint.
  - unfold EnqueueEvent_store. solve_atomic.
  - unfold ClaimDelivery. cbn zeta. case_bool_decide; [apply atomic_throw|].
    destruct (lease <? Millisecond); [apply atomic_throw|].
    apply atomic_bind; [solve_atomic|]. intros _.
    apply atomic_bind; [apply quiet_recoverExpiredLeases|]. intros _. solve_atomic.
  - unfold FinishAttempt, updateCircuit. solve_atomic.
  - unfold ReplayDelivery. solve_atomic.
  - unfold GetDelivery. apply atomic_bind; [solve_atomic|]. intros _.
    apply atomic_bind; [solve_atomic|]. intros [[[did r] [eid e]]|err]; [|solve_atomic].
    apply atomic_bind; [solve_atomic|]. intros rows.
    apply atomic_bind; [apply quiet_scan_attempts|]. intros attempts. solve_atomic.
Qed.

(** ** Identifiers of attempts *)

Lemma run_op_mints {UL : UuidsLaws} (TE : TxEnv) o : mints 0 (run_op TE o).
Proof.
  destruct o; cbn; (apply mints_bind; [|intros; apply mints_ret]);
    [apply mints_CreateEndpoint|apply mints_DisableEndpoint|apply mints_EnqueueEvent
    |apply mints_ClaimDelivery|apply mints_FinishAttempt|apply mints_ReplayDelivery|apply mints_GetDelivery].
Qed.

Lemma reachable_fresh {UL : UuidsLaws} s : reachable s → fresh_uuids (st_next s) (st_db s).
Proof.
  intros Hr. apply minted_fresh. unfold reachable in Hr.
  assert (Hind : ∀ s1 s2, rtc step s1 s2 → minted (st_next s1) (st_db s1) → minted (st_next s2) (st_db s2)).
  { induction 1 as [|s1 s2 s3 [TE o fs s0 r c Hrun] _ IH]; intros Hm; [done|]. apply IH. cbn.
    by eapply (run_op_mints TE o (connect s0 fs)); [lia|..]. }
  apply (Hind _ _ Hr). intros aid [a Ha]. cbn in Ha. by rewrite lookup_empty in Ha.
Qed.

(** ** What every operation may do to one delivery *)

Lemma run_op_frames (TE : TxEnv) o id row :
  d_status row = StatusProcessing → lease_expired row = false →
  (∀ r, o = OpFinishAttempt r → not_holder id row r) → frames id (λ r, r = row) (run_op TE o).
Proof.
  intros Hp He Hn. destruct o; cbn; (apply frames_bind; [|intros; apply frames_ret]);
    [apply frames_CreateEndpoint|apply frames_DisableEndpoint|apply frames_EnqueueEvent
    |apply frames_ClaimDelivery|apply frames_FinishAttempt|apply frames_ReplayDelivery|apply frames_GetDelivery].
  - intros r ->. congruence.
  - intros r token -> _ [|]; congruence.
  - intros r token -> Hid Ht Hl. by rewrite (Hn _ eq_refl Hid token Ht) in Hl.
  - intros r m ->. congruence.
Qed.

(** The changes an operation may make to the delivery [id]; the others leave
    every delivery as it is. *)
Definition op_change (TE : TxEnv) (o : op) (id : string) (row row' : DeliveryRow) : Prop :=
  match o with
  | OpClaimDelivery w l => claim_change row w l row'
  | OpFinishAttempt r =>
      row' = row ∨ ∃ token, uuid_in (AR_DeliveryID r) = Some id ∧ uuid_in (AR_LeaseToken r) = Some token
                            ∧ row_finished r token row row'
  | OpReplayDelivery did => row' = row ∨ uuid_in did = Some id ∧ row_replayed row row'
  | _ => row' = row
  end.

Lemma run_op_changes (TE : TxEnv) o id row : frames id (op_change TE o id row) (run_op TE o).
Proof.
  destruct o; cbn; (apply frames_bind; [|intros; apply frames_ret]);
    [apply frames_CreateEndpoint|apply frames_DisableEndpoint|apply frames_EnqueueEvent
    |apply claim_changes|apply finish_changes|apply replay_changes|apply frames_GetDelivery].
Qed.

Lemma op_change_refl (TE : TxEnv) o id row : op_change TE o id row row.
Proof. destruct o; cbn; auto. exists row. auto. Qed.

Lemma run_op_change (TE : TxEnv) o fs s r c id row :
  runs (run_op TE o) (connect s fs) r c → deliveries (st_db s) !! id = Some row →
  ∃ row', deliveries (durable c) !! id = Some row' ∧ op_change TE o id row row'.
Proof.
  intros Hr Hrow. assert (Hh : held id (op_change TE o id row) (st_db s) (st_db s)).
  { split; exists row; (split; [done|apply op_change_refl]). }
  pose proof (run_op_changes TE o id row (connect s fs) r c Hh Hr) as Hf. by destruct r; apply Hf.
Qed.
End System.
