(* ===== verification/Demo.v ===== *)
(** * A concrete execution

    The states the witnesses use: an endpoint is created, an event is
    enqueued, a worker claims its delivery and finishes it with a retryable
    response, claims it again and finishes it for good. *)

From S2P Require Import Prelude GoErrors GoTime GoText Delivery Schema Tx Invariant TxLogic Queue.
From S2P Require Import QueueSafety QueueSpec Eventing StoreEvents StoreDeliveries StoreEndpoints Minting.
From S2P Require Import StoreSafety Frame System.

#[local] Existing Instances sim_postgres sim_uuids.

Definition demo_endpoint : Endpoint :=
  mkEndpoint "ep" "billing" "https://example.com/hook" [] (5 * Second) 3 0 None None zero_time zero_time.

Definition demo_event (id did key : string) : EnqueueParams :=
  mkEnqueueParams id did "ep" "invoice.paid" [x7b; x7d] key.

(** A result at second [t]; the database clock is in microseconds. *)
Definition demo_result (token : string) (number t : Z) (decision : Decision) (code : Z) : AttemptResult :=
  mkAttemptResult "dl" "worker" token number decision (Some code) "" "" Second
    (mkTime (t * Second) None) (mkTime ((t + 1) * Second) None) (mkTime ((t + 2) * Second) None)
    CircuitNone 5 Minute.

Definition at_second (t : Z) : TxEnv := sim_env (t * 1000000).

Definition demo_enqueued : list (TxEnv * op * list fault) :=
  [(at_second 1, OpCreateEndpoint demo_endpoint, []);
   (at_second 2, OpEnqueueEvent (demo_event "ev" "dl" "key"), [])].

Definition demo_claimed : list (TxEnv * op * list fault) :=
  demo_enqueued ++ [(at_second 10, OpClaimDelivery "worker" Minute, [])].

Definition demo_retrying : list (TxEnv * op * list fault) :=
  demo_claimed ++ [(at_second 12, OpFinishAttempt (demo_result "uuid-0" 1 10 DecisionRetry 503), [])].

Definition demo_reclaimed : list (TxEnv * op * list fault) :=
  demo_retrying ++ [(at_second 20, OpClaimDelivery "worker" Minute, [])].

Definition demo_finished : list (TxEnv * op * list fault) :=
  demo_reclaimed ++ [(at_second 22, OpFinishAttempt (demo_result "uuid-2" 2 20 DecisionDiscard 404), [])].

Definition demo (xs : list (TxEnv * op * list fault)) : state := exec xs initial.

Lemma demo_reachable xs : reachable (demo xs).
Proof. apply exec_steps. Qed.

(** The delivery of the demo. *)
Definition demo_row (xs : list (TxEnv * op * list fault)) : option DeliveryRow :=
  deliveries (st_db (demo xs)) !! "dl".

Example demo_statuses :
  (option_map (λ r, (d_status r, d_attempt_count r)) (demo_row demo_enqueued),
   option_map (λ r, (d_status r, d_attempt_count r)) (demo_row demo_claimed),
   option_map (λ r, (d_status r, d_attempt_count r)) (demo_row demo_retrying),
   option_map (λ r, (d_status r, d_attempt_count r)) (demo_row demo_reclaimed),
   option_map (λ r, (d_status r, d_attempt_count r)) (demo_row demo_finished))
  = (Some (StatusPending, 0), Some (StatusProcessing, 1), Some (StatusRetrying, 1),
     Some (StatusProcessing, 2), Some (StatusDead, 2)).
Proof. vm_compute. reflexivity. Qed.

(** A claim that loses its connection after the first statement. *)
Definition demo_broken_conn : conn := connect (demo demo_enqueued) [NoFault; NoFault; Fault (New "broken pipe")].
Definition demo_broken : res unit * conn :=
  run_op (at_second 10) (OpClaimDelivery "worker" Minute) demo_broken_conn.
