(* ===== verification/Sha256.v ===== *)
(** * crypto/sha256 and crypto/hmac

    FIPS 180-4 SHA-256 and the HMAC of RFC 2104 over it, as the standard
    library computes them; words are integers modulo 2^32. *)

From S2P Require Import Prelude GoText.

Definition w32 (z : Z) : Z := z mod 2 ^ 32.
Definition rotr (x n : Z) : Z := w32 (Z.lor (Z.shiftr x n) (Z.shiftl x (32 - n))).

(** The largest [x < 2^n] with [x^3 <= z], bit by bit. *)
Fixpoint cube_root (n : nat) (z acc : Z) : Z :=
  match n with
  | O => acc
  | S n' => let x := acc + 2 ^ Z.of_nat n' in cube_root n' z (if x ^ 3 <=? z then x else acc)
  end.

Definition is_prime (p : nat) : bool :=
  (2 <=? p)%nat && forallb (λ d, negb (p mod d =? 0)%nat) (seq 2 (p - 2)).

(** The first sixty-four primes. *)
Definition small_primes : list Z := Eval vm_compute in map Z.of_nat (List.filter is_prime (seq 0 312)).

(** The constants of the rounds and of the initial state: the first 32 bits of
    the fractional parts of the cube and square roots of the primes. *)
Definition round_constants : list Z :=
  Eval vm_compute in map (λ p, cube_root 36 (p * 2 ^ 96) 0 mod 2 ^ 32) small_primes.
Definition initial_constants : list Z :=
  Eval vm_compute in map (λ p, Z.sqrt (p * 2 ^ 64) mod 2 ^ 32) (take 8 small_primes).

(** The state: eight words. *)
Record words : Type := mkWords { wa : Z; wb : Z; wc : Z; wd : Z; we : Z; wf : Z; wg : Z; wh : Z }.

Definition initial_words : words :=
  let h i := nth i initial_constants 0 in mkWords (h 0%nat) (h 1%nat) (h 2%nat) (h 3%nat) (h 4%nat) (h 5%nat) (h 6%nat) (h 7%nat).

Definition compress (s : words) (k w : Z) : words :=
  let '(mkWords a b c d e f g h) := s in
  let s1 := Z.lxor (rotr e 6) (Z.lxor (rotr e 11) (rotr e 25)) in
  let ch := Z.lxor (Z.land e f) (Z.land (Z.lxor e (2 ^ 32 - 1)) g) in
  let t1 := h + s1 + ch + k + w in
  let s0 := Z.lxor (rotr a 2) (Z.lxor (rotr a 13) (rotr a 22)) in
  let maj := Z.lxor (Z.land a b) (Z.lxor (Z.land a c) (Z.land b c)) in
  mkWords (w32 (t1 + s0 + maj)) a b c (w32 (d + t1)) e f g.

(** The next word of the message schedule, from the last sixteen. *)
Definition next_word (l : list Z) : Z :=
  let w15 := nth 1 l 0 in
  let w2 := nth 14 l 0 in
  let s0 := Z.lxor (rotr w15 7) (Z.lxor (rotr w15 18) (Z.shiftr w15 3)) in
  let s1 := Z.lxor (rotr w2 17) (Z.lxor (rotr w2 19) (Z.shiftr w2 10)) in
  w32 (nth 0 l 0 + s0 + nth 9 l 0 + s1).

Fixpoint rounds (ks window : list Z) (s : words) : words :=
  match ks with
  | [] => s
  | k :: ks' =>
      rounds ks' (drop 1 window ++ [next_word window]) (compress s k (nth 0 window 0))
  end.

Definition add_words (s t : words) : words :=
  mkWords (w32 (wa s + wa t)) (w32 (wb s + wb t)) (w32 (wc s + wc t)) (w32 (wd s + wd t))
    (w32 (we s + we t)) (w32 (wf s + wf t)) (w32 (wg s + wg t)) (w32 (wh s + wh t)).

(** Big-endian integers of a list of byte values. *)
Definition be (l : list byte) : Z :=
  fold_left (λ acc b, acc * 256 + zb b) l 0.

Definition byte_of_Z (z : Z) : byte := default x00 (Byte.of_N (Z.to_N (z mod 256))).

(** [n] bytes of [z], most significant first. *)
Fixpoint be_bytes (n : nat) (z : Z) : bytes :=
  match n with O => [] | S n' => be_bytes n' (z / 256) ++ [byte_of_Z z] end.

Fixpoint words_of (n : nat) (l : bytes) : list Z :=
  match n with O => [] | S n' => be (take 4 l) :: words_of n' (drop 4 l) end.

Definition block (s : words) (b : bytes) : words :=
  add_words s (rounds round_constants (words_of 16 b) s).

Fixpoint blocks (n : nat) (b : bytes) (s : words) : words :=
  match n with O => s | S n' => blocks n' (drop 64 b) (block s (take 64 b)) end.

(** The padding: 0x80, zeros up to 56 modulo 64, the bit length. *)
Definition padded (m : bytes) : bytes :=
  m ++ [x80] ++ repeat x00 (Z.to_nat ((55 - len m) mod 64)) ++ be_bytes 8 (8 * len m).

Definition digest_bytes (s : words) : bytes :=
  concat (map (be_bytes 4) [wa s; wb s; wc s; wd s; we s; wf s; wg s; wh s]).

Definition Sum256 (m : bytes) : bytes :=
  let p := padded m in digest_bytes (blocks (Nat.div (length p) 64) p initial_words).

#[global] Arguments Sum256 : simpl never.

(** ** HMAC *)

Definition xor_pad (c : Z) (key : bytes) : bytes :=
  map (λ b, byte_of_Z (Z.lxor (zb b) c)) (key ++ repeat x00 (64 - length key)).

Definition hmac_sha256 (key msg : bytes) : bytes :=
  let key := if 64 <? len key then Sum256 key else key in
  Sum256 (xor_pad 0x5c key ++ Sum256 (xor_pad 0x36 key ++ msg)).

Example sha256_abc : EncodeToString (Sum256 (bytes_of "abc"))
  = "ba7816bf8f01cfea414140de5dae2223b00361a396177a9cb410ff61f20015ad"%string.
Proof. vm_compute. reflexivity. Qed.

Lemma length_be_bytes n z : length (be_bytes n z) = n.
Proof. revert z. induction n as [|n IH]; intros z; [done|]. cbn. rewrite length_app, IH. cbn. lia. Qed.

Lemma length_Sum256 m : length (Sum256 m) = 32%nat.
Proof. unfold Sum256, digest_bytes. cbn [map concat]. by rewrite !length_app, !length_be_bytes. Qed.

Lemma length_hmac_sha256 key msg : length (hmac_sha256 key msg) = 32%nat.
Proof. apply length_Sum256. Qed.
