(* ===== verification/Signature.v ===== *)
(** * Signing webhook requests

    [src/internal/webhook/signature.go], over the real HMAC-SHA256. *)

From S2P Require Import Prelude GoText Sha256.

(** What is written to the MAC. *)
Definition signed_message (timestamp : Z) (deliveryID : string) (body : bytes) : bytes :=
  bytes_of (FormatInt timestamp) ++ bytes_of "." ++ bytes_of deliveryID ++ bytes_of "." ++ body.

Definition Sign (secret : bytes) (timestamp : Z) (deliveryID : string) (body : bytes) : string :=
  "v1=" +:+ EncodeToString (hmac_sha256 secret (signed_message timestamp deliveryID body)).

(** The vector of [signature_test.go]. *)
Example Sign_test :
  Sign (bytes_of "secret") 1700000000 "delivery-id" (map byte_of_Z [123; 34; 105; 100; 34; 58; 49; 125])
  = "v1=ed0c732f9901e93553032aed58373b7990604734f9bc8dd89717d5e83e86e7bc"%string.
Proof. vm_compute. reflexivity. Qed.

(** ** Decimal digits *)

Definition decimal_byte (b : byte) : bool := between 48 57 b || (zb b =? 45).

Lemma pretty_N_char_decimal x : decimal_byte (Ascii.byte_of_ascii (pretty_N_char x)) = true.
Proof. unfold pretty_N_char. by repeat case_match. Qed.

Lemma pretty_N_go_decimal x s :
  forallb decimal_byte (bytes_of s) = true → forallb decimal_byte (bytes_of (pretty_N_go x s)) = true.
Proof.
  revert s. induction (N.lt_wf_0 x) as [x _ IH]; intros s Hs.
  destruct (decide (x = 0%N)) as [->|Hx]; [by rewrite pretty_N_go_0|].
  rewrite pretty_N_go_step by lia. apply IH; [apply N.div_lt; lia|].
  unfold bytes_of, list_byte_of_string in *. cbn [list_ascii_of_string map forallb].
  by rewrite pretty_N_char_decimal.
Qed.

Lemma FormatInt_decimal z : forallb decimal_byte (bytes_of (FormatInt z)) = true.
Proof.
  assert (HN : ∀ n : N, forallb decimal_byte (bytes_of (pretty n)) = true).
  { intros n. unfold pretty, pretty_N. case_decide; [done|]. by apply pretty_N_go_decimal. }
  destruct z as [|p|p]; [done|apply HN|].
  change (FormatInt (Z.neg p)) with ("-" +:+ pretty (N.pos p)). by rewrite bytes_of_app, forallb_app, HN.
Qed.

Lemma FormatInt_inj a b : FormatInt a = FormatInt b → a = b.
Proof. apply (inj pretty). Qed.

(** ** Hexadecimal digits *)

Lemma hex_digit_inj a b : 0 <= a < 16 → 0 <= b < 16 → hex_digit a = hex_digit b → a = b.
Proof.
  intros Ha Hb.
  assert (Hall : ∀ z, 0 <= z < 16 →
    In z [0; 1; 2; 3; 4; 5; 6; 7; 8; 9; 10; 11; 12; 13; 14; 15]) by (intros z Hz; cbn; lia).
  apply Hall in Ha, Hb. cbn in Ha, Hb.
  repeat match goal with H : _ ∨ _ |- _ => destruct H as [<-|H] | H : False |- _ => destruct H end;
    (reflexivity || (intros H; discriminate H)).
Qed.

Lemma EncodeToString_inj a b : EncodeToString a = EncodeToString b → a = b.
Proof.
  unfold EncodeToString. intros H. apply (f_equal bytes_of) in H. rewrite !bytes_of_string_of in H.
  revert b H. induction a as [|x a IH]; intros [|y b] H; cbn in H; try discriminate H; [done|].
  injection H as H1 H2 H3. pose proof (zb_range x). pose proof (zb_range y).
  apply hex_digit_inj in H1; [|pose proof (Z.div_lt_upper_bound (zb x) 16 16); pose proof (Z.div_pos (zb x) 16); lia
    |pose proof (Z.div_lt_upper_bound (zb y) 16 16); pose proof (Z.div_pos (zb y) 16); lia].
  apply hex_digit_inj in H2; [|apply Z.mod_pos_bound; lia|apply Z.mod_pos_bound; lia].
  f_equal; [|by apply IH]. assert (zb x = zb y) as E.
  { rewrite (Z.div_mod (zb x) 16), (Z.div_mod (zb y) 16) by lia. congruence. }
  unfold zb in E. apply N2Z.inj in E. apply (f_equal Byte.of_N) in E. rewrite !Byte.of_to_N in E. congruence.
Qed.

(** ** Splitting the message *)

Definition no_dot (l : bytes) : bool := forallb (λ b, negb (zb b =? 46)) l.

Lemma split_at_dot (a b x y : bytes) :
  no_dot a = true → no_dot b = true → a ++ bytes_of "." ++ x = b ++ bytes_of "." ++ y → a = b ∧ x = y.
Proof.
  revert b. induction a as [|p a IH]; intros [|q b] Ha Hb H; cbn in H.
  - by injection H as ->.
  - injection H as <- _. discriminate Hb.
  - injection H as -> _. discriminate Ha.
  - injection H as -> H. cbn [no_dot forallb] in Ha, Hb. apply andb_true_iff in Ha as [_ Ha], Hb as [_ Hb].
    destruct (IH b Ha Hb H) as [-> ->]. done.
Qed.

Lemma FormatInt_no_dot z : no_dot (bytes_of (FormatInt z)) = true.
Proof.
  pose proof (FormatInt_decimal z) as H. unfold no_dot. induction (bytes_of (FormatInt z)) as [|b l IH]; [done|].
  cbn [forallb] in *. apply andb_true_iff in H as [Hb Hl]. rewrite (IH Hl), andb_true_r.
  unfold decimal_byte, between in Hb. apply negb_true_iff, Z.eqb_neq. zbool. destruct Hb; zbool; lia.
Qed.

Lemma signed_message_inj t1 t2 i1 i2 b1 b2 :
  no_dot (bytes_of i1) = true → no_dot (bytes_of i2) = true →
  signed_message t1 i1 b1 = signed_message t2 i2 b2 → t1 = t2 ∧ i1 = i2 ∧ b1 = b2.
Proof.
  intros H1 H2 H. unfold signed_message in H.
  apply split_at_dot in H as [Ht H]; [|apply FormatInt_no_dot..].
  apply split_at_dot in H as [Hi ->]; [|done..].
  apply bytes_of_inj, FormatInt_inj in Ht. by apply bytes_of_inj in Hi.
Qed.

(** [C28] A signature binds the timestamp, the delivery and the body: two
    requests signed alike under one secret are the same request, or their own
    signed messages differ and are a collision of HMAC-SHA256. *)
Theorem Sign_binding secret t1 t2 i1 i2 b1 b2 :
  no_dot (bytes_of i1) = true → no_dot (bytes_of i2) = true →
  Sign secret t1 i1 b1 = Sign secret t2 i2 b2 →
  (t1 = t2 ∧ i1 = i2 ∧ b1 = b2)
  ∨ (signed_message t1 i1 b1 ≠ signed_message t2 i2 b2
     ∧ hmac_sha256 secret (signed_message t1 i1 b1) = hmac_sha256 secret (signed_message t2 i2 b2)).
Proof.
  intros H1 H2 H. unfold Sign in H.
  apply (inj (String.append "v1=")), EncodeToString_inj in H.
  destruct (decide (signed_message t1 i1 b1 = signed_message t2 i2 b2)) as [E|E]; [left|by right].
  by eapply signed_message_inj.
Qed.

Lemma Sign_binding_witness :
  (7 = 7 ∧ "a"%string = "a"%string ∧ [x01] = [x01])
  ∨ (signed_message 7 "a" [x01] ≠ signed_message 7 "a" [x01]
     ∧ hmac_sha256 [x02] (signed_message 7 "a" [x01]) = hmac_sha256 [x02] (signed_message 7 "a" [x01])).
Proof. apply (Sign_binding [x02] 7 7 "a" "a" [x01] [x01]); reflexivity. Defined.

(** A signature is ["v1="] and sixty-four lowercase hexadecimal digits. *)
Theorem Sign_format secret t i b :
  ∃ h, Sign secret t i b = "v1=" +:+ h ∧ String.length h = 64%nat
  ∧ forallb (λ c, between 48 57 c || between 97 102 c) (bytes_of h) = true.
Proof.
  eexists. split; [reflexivity|]. set (d := hmac_sha256 _ _).
  assert (Hd : length d = 32%nat) by apply length_hmac_sha256.
  unfold EncodeToString. rewrite <- length_bytes_of, bytes_of_string_of. split.
  - rewrite <- (Nat.mul_1_r 64). clearbody d. change 64%nat with (2 * 32)%nat. rewrite <- Hd.
    clear Hd. induction d as [|x d IH]; [done|]. cbn [map concat app length] in *. lia.
  - clearbody d. clear Hd. induction d as [|x d IH]; [done|]. cbn [map concat app forallb].
    rewrite IH, andb_true_r. pose proof (zb_range x).
    assert (Hdig : ∀ z, 0 <= z < 16 → between 48 57 (hex_digit z) || between 97 102 (hex_digit z) = true).
    { intros z Hz. assert (In z [0; 1; 2; 3; 4; 5; 6; 7; 8; 9; 10; 11; 12; 13; 14; 15]) as Hin by (cbn; lia).
      cbn in Hin. repeat destruct Hin as [<-|Hin]; try reflexivity. destruct Hin. }
    rewrite !Hdig; [done|apply Z.mod_pos_bound; lia|].
    split; [apply Z.div_pos; lia|apply Z.div_lt_upper_bound; lia].
Qed.
