(* ===== verification/Secure.v ===== *)
(** * Sealed endpoint secrets

    [src/internal/secure/box.go]. AES-GCM itself (package crypto/cipher) is
    the operations record [AEAD] with the law of an authenticated cipher:
    [Open] returns exactly the plaintext that [Seal] would seal to the given
    bytes. What [rand.Reader] delivers is an argument. *)

From S2P Require Import Prelude GoErrors GoText Sha256.

Record AEAD : Type := mkAEAD {
  NonceSize : nat;
  Overhead : nat;
  Seal : bytes → bytes → bytes → bytes;          (* nonce, plaintext, additional data *)
  Open : bytes → bytes → bytes → option bytes;   (* nonce, ciphertext, additional data *)
}.

Class AEADLaws (a : AEAD) : Prop := {
  Open_Seal : ∀ n c ad p, length n = NonceSize a → Open a n c ad = Some p ↔ c = Seal a n p ad;
  length_Seal : ∀ n p ad, length (Seal a n p ad) = (length p + Overhead a)%nat;
}.

Definition envelopeVersion : byte := x01.
Definition ErrInvalidCiphertext : error := Sentinel "secure.ErrInvalidCiphertext" "invalid ciphertext".

Record Box : Type := mkBox { box_aead : AEAD }.

Section Box.
(** [cipher.NewGCM] over [aes.NewCipher] for a key of a legal size. *)
Variable aes_gcm : bytes → AEAD.

(** A 32-byte key is one [aes.NewCipher] and [cipher.NewGCM] accept. *)
Definition NewBox (key : bytes) : res Box :=
  if negb (len key =? 32) then Err (New "encryption key must be 32 bytes")
  else Ok (mkBox (aes_gcm key)).

(** [random]: what [io.ReadFull(rand.Reader, nonce)] reads. *)
Definition Encrypt (b : Box) (random : res bytes) (plaintext additionalData : bytes) : res bytes :=
  match random with
  | Err err => Err (wrapf "generate nonce" err)
  | Ok nonce =>
      let envelope := envelopeVersion :: nonce in
      Ok (envelope ++ Seal (box_aead b) nonce plaintext additionalData)
  end.

Definition Decrypt (b : Box) (envelope additionalData : bytes) : res bytes :=
  let nonceSize := NonceSize (box_aead b) in
  match envelope with
  | [] => Err ErrInvalidCiphertext
  | version :: rest =>
      if (Z.of_nat (length envelope) <? Z.of_nat (1 + nonceSize + Overhead (box_aead b)))
         || negb (bool_decide (version = envelopeVersion))
      then Err ErrInvalidCiphertext
      else
        let nonce := take nonceSize rest in
        let ciphertext := drop nonceSize rest in
        match Open (box_aead b) nonce ciphertext additionalData with
        | None => Err ErrInvalidCiphertext
        | Some plaintext => Ok plaintext
        end
  end.
End Box.

(** ** A concrete cipher for the witnesses: the plaintext and a keyed tag *)

Definition sim_tag (key n p ad : bytes) : bytes := take 16 (Sum256 (key ++ n ++ ad ++ p)).

#[global] Arguments sim_tag : simpl never.

Definition sim_aead (key : bytes) : AEAD := {|
  NonceSize := 12;
  Overhead := 16;
  Seal := λ n p ad, p ++ sim_tag key n p ad;
  Open := λ n c ad,
    let p := take (length c - 16) c in
    if bool_decide (c = p ++ sim_tag key n p ad) then Some p else None;
|}.

Lemma length_sim_tag key n p ad : length (sim_tag key n p ad) = 16%nat.
Proof. unfold sim_tag. rewrite length_take, length_Sum256. done. Qed.

#[export] Instance sim_aead_laws key : AEADLaws (sim_aead key).
Proof.
  split; cbn.
  - intros n c ad p _.
    assert (Htake : take (length (p ++ sim_tag key n p ad) - 16) (p ++ sim_tag key n p ad) = p).
    { rewrite length_app, length_sim_tag, Nat.add_sub. apply take_app_length. }
    case_bool_decide as E; split.
    + intros [= <-]. exact E.
    + intros ->. by rewrite Htake.
    + done.
    + intros ->. exfalso. apply E. by rewrite Htake.
  - intros n p ad. by rewrite length_app, length_sim_tag.
Qed.

(** ** Theorems *)

Lemma Decrypt_err b e ad err : Decrypt b e ad = Err err → err = ErrInvalidCiphertext.
Proof.
  unfold Decrypt. destruct e as [|v e]; [congruence|]. destruct (_ || _); [congruence|].
  destruct (Open _ _ _ _); congruence.
Qed.

Lemma Decrypt_Ok b e ad p (HL : AEADLaws (box_aead b)) :
  Decrypt b e ad = Ok p ↔
  ∃ n, length n = NonceSize (box_aead b) ∧ e = envelopeVersion :: n ++ Seal (box_aead b) n p ad.
Proof.
  set (a := box_aead b) in *. split.
  - unfold Decrypt. fold a. destruct e as [|v e]; [done|].
    destruct (Z.ltb_spec (Z.of_nat (length (v :: e))) (Z.of_nat (1 + NonceSize a + Overhead a))) as [|Hlen];
      [done|]. cbn [orb]. case_bool_decide as Hv; cbn [negb]; [|done].
    cbn [length] in Hlen.
    assert (Hn : length (take (NonceSize a) e) = NonceSize a) by (rewrite length_take; lia).
    destruct (Open a _ _ ad) as [q|] eqn:Ho; [|done]. intros [= ->].
    apply Open_Seal in Ho; [|done]. exists (take (NonceSize a) e). split; [done|].
    rewrite <- Ho, take_drop, Hv. done.
  - intros (n & Hn & ->). unfold Decrypt. fold a.
    assert (Hl : length (envelopeVersion :: n ++ Seal a n p ad) = (1 + NonceSize a + length p + Overhead a)%nat).
    { cbn [length]. rewrite length_app, length_Seal, Hn. lia. }
    rewrite Hl. destruct (Z.ltb_spec (Z.of_nat (1 + NonceSize a + length p + Overhead a))
      (Z.of_nat (1 + NonceSize a + Overhead a))); [lia|].
    rewrite bool_decide_eq_true_2 by done. cbn [orb negb]. rewrite <- Hn, take_app_length, drop_app_length.
    assert (Open a n (Seal a n p ad) ad = Some p) as -> by (by apply Open_Seal). done.
Qed.

(** [C27] [Decrypt] accepts exactly the envelopes [Encrypt] produces for the
    same additional data, and returns the plaintext that was sealed; anything
    else (a short envelope, another version, other bytes) is
    [ErrInvalidCiphertext]. *)
Theorem Decrypt_exact (b : Box) (envelope ad : bytes) :
  AEADLaws (box_aead b) →
  match Decrypt b envelope ad with
  | Ok p => ∃ nonce, length nonce = NonceSize (box_aead b) ∧ Encrypt b (Ok nonce) p ad = Ok envelope
  | Err err => err = ErrInvalidCiphertext
               ∧ ∀ nonce p, length nonce = NonceSize (box_aead b) → Encrypt b (Ok nonce) p ad ≠ Ok envelope
  end.
Proof.
  intros HL. destruct (Decrypt b envelope ad) as [p|err] eqn:E.
  - apply (Decrypt_Ok b _ _ _ HL) in E as (n & Hn & ->). exists n. done.
  - split; [by eapply Decrypt_err|]. intros nonce p Hn [= <-].
    assert (Decrypt b (envelopeVersion :: nonce ++ Seal (box_aead b) nonce p ad) ad = Ok p) as E2.
    { apply (Decrypt_Ok b _ _ _ HL). by exists nonce. }
    congruence.
Qed.

Lemma Decrypt_exact_witness :
  ∃ nonce, length nonce = 12%nat ∧
    Encrypt (mkBox (sim_aead [x07])) (Ok nonce) [x61; x62] [x63]
    = Ok (x01 :: repeat x00 12 ++ Seal (sim_aead [x07]) (repeat x00 12) [x61; x62] [x63]).
Proof.
  pose proof (Decrypt_exact (mkBox (sim_aead [x07]))
    (x01 :: repeat x00 12 ++ Seal (sim_aead [x07]) (repeat x00 12) [x61; x62] [x63]) [x63] _) as H.
  assert (Decrypt (mkBox (sim_aead [x07]))
    (x01 :: repeat x00 12 ++ Seal (sim_aead [x07]) (repeat x00 12) [x61; x62] [x63]) [x63] = Ok [x61; x62]) as E
    by (vm_compute; reflexivity).
  rewrite E in H. exact H.
Defined.

(** An envelope opened under other additional data than it was sealed
    under is refused, unless the cipher itself seals two different messages
    to the same bytes. *)
Theorem Decrypt_context (b : Box) nonce p ad envelope ad' p' :
  AEADLaws (box_aead b) → length nonce = NonceSize (box_aead b) →
  Encrypt b (Ok nonce) p ad = Ok envelope → Decrypt b envelope ad' = Ok p' →
  (p' = p ∧ ad' = ad)
  ∨ ((p, ad) ≠ (p', ad') ∧ Seal (box_aead b) nonce p ad = Seal (box_aead b) nonce p' ad').
Proof.
  intros HL Hn [= <-] (n' & Hn' & [= E])%(Decrypt_Ok b _ _ _ HL).
  apply app_inj_1 in E as [-> E]; [|lia].
  destruct (decide ((p, ad) = (p', ad'))) as [[= -> ->]|]; [by left|by right].
Qed.

Lemma Decrypt_context_witness :
  ([x61] = [x61] ∧ [x63] = [x63])
  ∨ (([x61], [x63]) ≠ ([x61], [x63]) ∧ Seal (sim_aead []) (repeat x00 12) [x61] [x63]
                                       = Seal (sim_aead []) (repeat x00 12) [x61] [x63]).
Proof.
  apply (Decrypt_context (mkBox (sim_aead [])) (repeat x00 12) [x61] [x63]
    (x01 :: repeat x00 12 ++ Seal (sim_aead []) (repeat x00 12) [x61] [x63]) [x63] [x61]);
    [apply _|reflexivity|reflexivity|vm_compute; reflexivity].
Defined.
