(* ===== verification/Netip.v ===== *)
(** * IP addresses

    The parts of packages net and net/netip that the target checks use:
    addresses as integers, [ParseAddr], [String], the address classes,
    [Prefix.Contains], and the host:port syntax. *)

From S2P Require Import Prelude GoErrors GoText.

(** A 32-bit IPv4 address, or a 128-bit IPv6 address with its zone. *)
Inductive Addr : Type :=
  | AddrInvalid
  | Addr4 (a : Z)
  | Addr6 (a : Z) (zone : string).

#[export] Instance Addr_eq_dec : EqDecision Addr.
Proof. solve_decision. Defined.

(** ** Parsing *)

Definition digit_value (b : byte) : option Z :=
  if between 48 57 b then Some (zb b - 48) else None.

Definition hex_value (b : byte) : option Z :=
  if between 48 57 b then Some (zb b - 48)
  else if between 97 102 b then Some (zb b - 87)
  else if between 65 70 b then Some (zb b - 55)
  else None.

(** The loop of [parseIPv4Fields]: the fields already complete, the value and
    the number of digits of the current one. *)
Fixpoint parseIPv4Fields (s : bytes) (fields : list Z) (val digLen : Z) : option (list Z) :=
  match s with
  | [] => if Z.of_nat (length fields) <? 3 then None else Some (fields ++ [val])
  | c :: s' =>
      match digit_value c with
      | Some d =>
          if (digLen =? 1) && (val =? 0) then None
          else let val := val * 10 + d in
               if 255 <? val then None else parseIPv4Fields s' fields val (digLen + 1)
      | None =>
          if negb (zb c =? 46) then None
          else if (digLen =? 0) || bool_decide (s' = []) then None
          else if Z.of_nat (length fields) =? 3 then None
          else parseIPv4Fields s' (fields ++ [val]) 0 0
      end
  end.

Definition number_of (base : Z) (fields : list Z) : Z := fold_left (λ acc f, acc * base + f) fields 0.

Definition parseIPv4 (s : bytes) : option Addr :=
  fields ← parseIPv4Fields s [] 0 0; Some (Addr4 (number_of 256 fields)).

(** At most four hexadecimal digits: their value, how many, and the rest. *)
Fixpoint hex_group (s : bytes) (off acc : Z) : option (Z * Z * bytes) :=
  match s with
  | [] => Some (acc, off, s)
  | c :: s' =>
      match hex_value c with
      | None => Some (acc, off, s)
      | Some d => if 3 <? off then None else hex_group s' (off + 1) (acc * 16 + d)
      end
  end.

(** The loop of [parseIPv6] over groups of 16 bits: what it returns is the
    groups, where the ellipsis was, and the unread rest. *)
Fixpoint parse_groups (fuel : nat) (s : bytes) (groups : list Z) (ellipsis : option nat)
    : option (list Z * option nat * bytes) :=
  match fuel with
  | O => Some (groups, ellipsis, s)
  | S fuel' =>
      '(acc, off, rest) ← hex_group s 0 0;
      if off =? 0 then None
      else match rest with
           | c :: _ =>
               if zb c =? 46 then
                 if bool_decide (ellipsis = None) && negb (Nat.eqb (length groups) 6) then None
                 else if Nat.ltb 6 (length groups) then None
                 else
                   fields ← parseIPv4Fields s [] 0 0;
                   Some (groups ++ [number_of 256 (take 2 fields); number_of 256 (drop 2 fields)], ellipsis, [])
               else if negb (zb c =? 58) then None
               else
                 match rest with
                 | _ :: c1 :: s2 =>
                     let groups := groups ++ [acc] in
                     if zb c1 =? 58 then
                       if negb (bool_decide (ellipsis = None)) then None
                       else if bool_decide (s2 = []) then Some (groups, Some (length groups), [])
                       else parse_groups fuel' s2 groups (Some (length groups))
                     else parse_groups fuel' (c1 :: s2) groups ellipsis
                 | _ => None
                 end
           | [] => Some (groups ++ [acc], ellipsis, [])
           end
  end.

(** The ellipsis stands for the groups that are missing, at least one. *)
Definition expand_groups (groups : list Z) (ellipsis : option nat) : option (list Z) :=
  if Nat.ltb (length groups) 8 then
    k ← ellipsis;
    Some (take k groups ++ repeat 0 (8 - length groups) ++ drop k groups)
  else if bool_decide (ellipsis = None) then Some groups else None.

(** The part before the first ['%'], and what follows it. *)
Fixpoint cut_zone (s : bytes) : bytes * option bytes :=
  match s with
  | [] => ([], None)
  | c :: s' => if zb c =? 37 then ([], Some s') else let '(a, z) := cut_zone s' in (c :: a, z)
  end.

Definition parseIPv6 (s : bytes) : option Addr :=
  let '(s, zone) := cut_zone s in
  if bool_decide (zone = Some []) then None
  else
    let zone := string_of (default [] zone) in
    match s with
    | c0 :: c1 :: s' =>
        let leading := (zb c0 =? 58) && (zb c1 =? 58) in
        if leading && bool_decide (s' = []) then Some (Addr6 0 zone)
        else
          '(groups, ellipsis, rest) ←
            (if leading then parse_groups 8 s' [] (Some 0%nat) else parse_groups 8 s [] None);
          if negb (bool_decide (rest = [])) then None
          else
            groups ← expand_groups groups ellipsis;
            Some (Addr6 (number_of 65536 groups) zone)
    | _ =>
        '(groups, ellipsis, rest) ← parse_groups 8 s [] None;
        if negb (bool_decide (rest = [])) then None
        else groups ← expand_groups groups ellipsis; Some (Addr6 (number_of 65536 groups) zone)
    end.

Fixpoint parse_kind (all s : bytes) : option Addr :=
  match s with
  | [] => None
  | c :: s' =>
      if zb c =? 46 then parseIPv4 all
      else if zb c =? 58 then parseIPv6 all
      else if zb c =? 37 then None
      else parse_kind all s'
  end.

Definition ParseAddr (s : string) : option Addr := parse_kind (bytes_of s) (bytes_of s).

(** ** Formatting *)

Definition octets (a : Z) : list Z := [a / 2 ^ 24; (a / 2 ^ 16) mod 256; (a / 2 ^ 8) mod 256; a mod 256].
Definition groups_of (a : Z) : list Z := map (λ i, (a / 2 ^ (16 * (7 - Z.of_nat i))) mod 65536) (seq 0 8).

Definition string4 (a : Z) : string := String.concat "." (map FormatInt (octets a)).

Definition hex_string (z : Z) : string :=
  string_of (map hex_digit
    (if z <? 16 then [z]
     else if z <? 256 then [z / 16; z mod 16]
     else if z <? 4096 then [z / 256; (z / 16) mod 16; z mod 16]
     else [z / 4096; (z / 256) mod 16; (z / 16) mod 16; z mod 16])).

(** How many of the groups from here on are zero. *)
Fixpoint zero_run (l : list Z) : nat :=
  match l with 0 :: l' => S (zero_run l') | _ => O end.

(** The first longest run of at least two zero groups: start and length. *)
Fixpoint longest_run (i : nat) (l : list Z) (best : option (nat * nat)) : option (nat * nat) :=
  match l with
  | [] => best
  | _ :: l' =>
      let n := zero_run l in
      longest_run (S i) l'
        (if Nat.leb 2 n && Nat.ltb (match best with Some (_, m) => m | None => 0 end) n
         then Some (i, n) else best)
  end.

Definition string6 (a : Z) : string :=
  let gs := groups_of a in
  match longest_run 0 gs None with
  | None => String.concat ":" (map hex_string gs)
  | Some (i, n) =>
      String.concat ":" (map hex_string (take i gs)) +:+ "::"
      +:+ String.concat ":" (map hex_string (drop (i + n) gs))
  end.

(** ** Classes of addresses *)

Definition IsValid (a : Addr) : bool := match a with AddrInvalid => false | _ => true end.
Definition Is4 (a : Addr) : bool := match a with Addr4 _ => true | _ => false end.
Definition Is6 (a : Addr) : bool := match a with Addr6 _ _ => true | _ => false end.

(** [Unmap] drops the ::ffff:0:0/96 prefix of an IPv4-mapped address. *)
Definition Is4In6 (a : Addr) : bool :=
  match a with Addr6 a _ => Z.shiftr a 32 =? 0xffff | _ => false end.
Definition Unmap (a : Addr) : Addr :=
  match a with
  | Addr6 v _ => if Z.shiftr v 32 =? 0xffff then Addr4 (Z.land v (2 ^ 32 - 1)) else a
  | _ => a
  end.

Definition with_zone (s zone : string) : string :=
  if bool_decide (zone = ""%string) then s else s +:+ "%" +:+ zone.

(** [a.String()]. *)
Definition Addr_String (a : Addr) : string :=
  match a with
  | AddrInvalid => "invalid IP"
  | Addr4 v => string4 v
  | Addr6 v zone =>
      if Z.shiftr v 32 =? 0xffff then with_zone ("::ffff:" +:+ string4 (Z.land v (2 ^ 32 - 1))) zone
      else with_zone (string6 v) zone
  end.

Definition v4 (i : Z) (a : Z) : Z := Z.land (Z.shiftr a (24 - 8 * i)) 255.

Definition IsUnspecified (a : Addr) : bool :=
  bool_decide (a = Addr4 0) || bool_decide (a = Addr6 0 "").

(** The classes below are those of an address that is already unmapped. *)
Definition IsLoopback (a : Addr) : bool :=
  match a with Addr4 v => v4 0 v =? 127 | Addr6 v _ => v =? 1 | AddrInvalid => false end.

Definition IsMulticast (a : Addr) : bool :=
  match a with
  | Addr4 v => Z.land (v4 0 v) 0xf0 =? 0xe0
  | Addr6 v _ => Z.shiftr v 120 =? 0xff
  | AddrInvalid => false
  end.

Definition IsLinkLocalUnicast (a : Addr) : bool :=
  match a with
  | Addr4 v => (v4 0 v =? 169) && (v4 1 v =? 254)
  | Addr6 v _ => Z.land (Z.shiftr v 112) 0xffc0 =? 0xfe80
  | AddrInvalid => false
  end.

Definition IsPrivate (a : Addr) : bool :=
  match a with
  | Addr4 v =>
      (v4 0 v =? 10) || ((v4 0 v =? 172) && (Z.land (v4 1 v) 0xf0 =? 16))
      || ((v4 0 v =? 192) && (v4 1 v =? 168))
  | Addr6 v _ => Z.land (Z.shiftr v 120) 0xfe =? 0xfc
  | AddrInvalid => false
  end.

Definition IsGlobalUnicast (a : Addr) : bool :=
  match a with
  | AddrInvalid => false
  | _ =>
      negb (bool_decide (a = Addr4 0)) && negb (bool_decide (a = Addr4 (2 ^ 32 - 1)))
      && negb (bool_decide (a = Addr6 0 "")) && negb (IsLoopback a) && negb (IsMulticast a)
      && negb (IsLinkLocalUnicast a)
  end.

(** ** Prefixes *)

Inductive Prefix : Type :=
  | Prefix4 (a bits : Z)
  | Prefix6 (a bits : Z).

(** A zoned address is in no prefix, and the families must agree. *)
Definition Contains (p : Prefix) (a : Addr) : bool :=
  match p, a with
  | Prefix4 b n, Addr4 v => Z.shiftr (Z.lxor v b) (32 - n) =? 0
  | Prefix6 b n, Addr6 v zone => bool_decide (zone = ""%string) && (Z.shiftr (Z.lxor v b) (128 - n) =? 0)
  | _, _ => false
  end.

(** ** host:port *)

Definition index_byte (c : Z) (s : bytes) : option nat := fst <$> list_find (λ b, zb b = c) s.
Definition last_index_byte (c : Z) (s : bytes) : option nat :=
  i ← index_byte c (rev s); Some (length s - S i)%nat.
Definition contains_byte (c : Z) (s : bytes) : bool := existsb (λ b, zb b =? c) s.

(** [net.JoinHostPort]. *)
Definition JoinHostPort (host port : string) : string :=
  if contains_byte 58 (bytes_of host) then "[" +:+ host +:+ "]:" +:+ port else host +:+ ":" +:+ port.

Definition addr_error (addr why : string) : error := New ("address " +:+ addr +:+ ": " +:+ why).

(** [net.SplitHostPort]. *)
Definition SplitHostPort (hostport : string) : res (string * string) :=
  let s := bytes_of hostport in
  let fail why := Err (addr_error hostport why) in
  match last_index_byte 58 s with
  | None => fail "missing port in address"
  | Some i =>
      let finish (host : bytes) (j k : nat) :=
        if contains_byte 91 (drop j s) then fail "unexpected '[' in address"
        else if contains_byte 93 (drop k s) then fail "unexpected ']' in address"
        else Ok (string_of host, string_of (drop (S i) s)) in
      match s with
      | c :: _ =>
          if zb c =? 91 then
            match index_byte 93 s with
            | None => fail "missing ']' in address"
            | Some e =>
                if Nat.eqb (S e) (length s) then fail "missing port in address"
                else if Nat.eqb (S e) i then finish (drop 1 (take e s)) 1%nat (S e)
                else if bool_decide ((zb <$> s !! S e) = Some 58) then fail "too many colons in address"
                else fail "missing port in address"
            end
          else if contains_byte 58 (take i s) then fail "too many colons in address"
          else finish (take i s) 0%nat 0%nat
      | [] => fail "missing port in address"
      end
  end.

(** [strings.Trim(s, cutset)] for a cutset of ASCII characters. *)
Definition trim_bytes (p : byte → bool) (s : bytes) : bytes := rev (drop_while p (rev (drop_while p s))).

Example ParseAddr_tests :
  (ParseAddr "192.168.1.10", ParseAddr "::1", ParseAddr "2001:db8::ff00:42:8329", ParseAddr "::ffff:10.0.0.1",
   ParseAddr "01.2.3.4", ParseAddr "1.2.3", ParseAddr "fe80::1%eth0", ParseAddr "1::2::3", ParseAddr "example.com")
  = (Some (Addr4 0xc0a8010a), Some (Addr6 1 ""), Some (Addr6 0x20010db8000000000000ff0000428329 ""),
     Some (Addr6 0xffff0a000001 ""), None, None, Some (Addr6 0xfe800000000000000000000000000001 "eth0"), None, None).
Proof. vm_compute. reflexivity. Qed.

Example Addr_String_tests :
  (Addr_String (Addr4 0xc0a8010a), Addr_String (Addr6 1 ""), Addr_String (Addr6 0x20010db8000000000000ff0000428329 ""),
   Addr_String (Addr6 0xffff0a000001 ""), Addr_String (Addr6 0 "z"))
  = ("192.168.1.10", "::1", "2001:db8::ff00:42:8329", "::ffff:10.0.0.1", "::%z")%string.
Proof. vm_compute. reflexivity. Qed.

Example SplitHostPort_tests :
  (SplitHostPort "example.com:443", SplitHostPort "[::1]:80", is_ok (SplitHostPort "::1:80"), is_ok (SplitHostPort "[::1]"))
  = (Ok ("example.com", "443"), Ok ("::1", "80"), false, false)%string.
Proof. vm_compute. reflexivity. Qed.

(** ** Lemmas *)

Lemma contains_byte_app c (a b : bytes) : contains_byte c (a ++ b) = contains_byte c a || contains_byte c b.
Proof. apply existsb_app. Qed.

Lemma index_byte_None c (s : bytes) : contains_byte c s = false → index_byte c s = None.
Proof.
  unfold index_byte, contains_byte. intros H. destruct (list_find _ s) as [[i b]|] eqn:E; [|done]. exfalso.
  apply list_find_Some in E as (Hi & Hb & _). apply not_true_iff_false in H. apply H, existsb_exists.
  exists b. split; [by eapply list_elem_of_In, list_elem_of_lookup_2|by apply Z.eqb_eq].
Qed.

Lemma index_byte_app c (a b : bytes) (x : byte) :
  contains_byte c a = false → zb x = c → index_byte c (a ++ x :: b) = Some (length a).
Proof.
  intros Ha Hx. pose proof (index_byte_None _ _ Ha) as Hn. unfold index_byte in *.
  destruct (list_find (λ b, zb b = c) a) eqn:E; [done|].
  rewrite list_find_app_r by done. cbn. rewrite decide_True by done. cbn. by rewrite ?Nat.add_0_r.
Qed.

Lemma contains_byte_rev c (s : bytes) : contains_byte c (rev s) = contains_byte c s.
Proof.
  unfold contains_byte. induction s as [|x s IH]; [done|]. cbn. rewrite existsb_app, IH. cbn.
  rewrite orb_false_r. apply orb_comm.
Qed.

Lemma last_index_byte_app c (a b : bytes) (x : byte) :
  contains_byte c b = false → zb x = c → last_index_byte c (a ++ x :: b) = Some (length a).
Proof.
  intros Hb Hx. unfold last_index_byte. rewrite rev_app_distr. cbn [rev]. rewrite <- app_assoc. cbn [app].
  rewrite index_byte_app; [|by rewrite contains_byte_rev|done]. cbn. f_equal.
  rewrite length_app, length_rev. cbn. lia.
Qed.

Lemma last_index_byte_None c (s : bytes) : contains_byte c s = false → last_index_byte c s = None.
Proof. intros H. unfold last_index_byte. rewrite index_byte_None; [done|]. by rewrite contains_byte_rev. Qed.
