(* ===== verification/Url.v ===== *)
(** * net/url

    The parser and the printer of URLs and of query strings, as the endpoint
    service, the dispatcher, the API and the load generator use them: percent
    encoding by the component it stands in, the authority with user, host and
    port, paths with the encoding they came in, queries and fragments. A
    component is a string of bytes, as in Go. *)

From S2P Require Import Prelude GoErrors GoText GoStrings GoParse Netip.

Inductive encoding : Type :=
  | encodePath
  | encodePathSegment
  | encodeHost
  | encodeZone
  | encodeUserPassword
  | encodeQueryComponent
  | encodeFragment.

#[export] Instance encoding_eq_dec : EqDecision encoding.
Proof. solve_decision. Defined.

(** One of the characters of [cs]. *)
Definition one_of (cs : string) (c : byte) : bool := existsb (λ b, zb b =? zb c) (bytes_of cs).

Definition alphanumeric (c : byte) : bool := between 97 122 c || between 65 90 c || between 48 57 c.

Definition host_mode (mode : encoding) : bool :=
  match mode with encodeHost | encodeZone => true | _ => false end.

Definition shouldEscape (c : byte) (mode : encoding) : bool :=
  if alphanumeric c then false
  else if host_mode mode && (one_of "!$&'()*+,;=:[]<>" c || (zb c =? 34)) then false
  else if one_of "-_.~" c then false
  else if one_of "$&+,/:;=?@" c then
    match mode with
    | encodePath => zb c =? 63
    | encodePathSegment => one_of "/;,?" c
    | encodeUserPassword => one_of "@/?:" c
    | encodeQueryComponent => true
    | encodeFragment => false
    | encodeHost | encodeZone => true
    end
  else match mode with
  | encodeFragment => negb (one_of "!()*" c)
  | _ => true
  end.

(** A digit of the hexadecimal digits in upper case. *)
Definition upperhex (z : Z) : byte := byte_of (if z <? 10 then 48 + z else 55 + z).

Definition percent (c : byte) : bytes := [x25; upperhex (zb c / 16); upperhex (zb c mod 16)].

Definition escape_byte (mode : encoding) (c : byte) : bytes :=
  if shouldEscape c mode then
    if (zb c =? 32) && bool_decide (mode = encodeQueryComponent) then [x2b] else percent c
  else [c].

Definition escape (s : bytes) (mode : encoding) : bytes := concat (map (escape_byte mode) s).

Section Parse.
Context `{UX : UnicodeText}.

Definition EscapeError (s : bytes) : error := New ("invalid URL escape " +:+ Quote (string_of s)).
Definition InvalidHostError (s : bytes) : error :=
  New ("invalid character " +:+ Quote (string_of s) +:+ " in host name").

(** Whether an escape that stands for [v] is refused: a host escapes only
    bytes beyond ASCII and the percent sign, a zone also what a host may hold. *)
Definition bad_escape (mode : encoding) (v : Z) : bool :=
  match mode with
  | encodeHost => (v <? 128) && negb (v =? 37)
  | encodeZone => negb (v =? 37) && negb (v =? 32) && shouldEscape (byte_of v) encodeHost
  | _ => false
  end.

Fixpoint unescape (mode : encoding) (s : bytes) : res bytes :=
  match s with
  | [] => Ok []
  | c :: s' =>
      if zb c =? 37 then
        match s' with
        | h :: l :: rest =>
            match hex_value h, hex_value l with
            | Some a, Some b =>
                if bad_escape mode (16 * a + b) then Err (EscapeError [c; h; l])
                else r ← unescape mode rest; Ok (byte_of (16 * a + b) :: r)
            | _, _ => Err (EscapeError [c; h; l])
            end
        | _ => Err (EscapeError s)
        end
      else if host_mode mode && (zb c <? 128) && shouldEscape c mode then Err (InvalidHostError [c])
      else
        r ← unescape mode s';
        Ok ((if (zb c =? 43) && bool_decide (mode = encodeQueryComponent) then x20 else c) :: r)
  end.

(** ** URLs *)

Record Userinfo : Type := mkUserinfo {
  User_username : string;
  User_password : option string;
}.

Record URL : Type := mkURL {
  URL_Scheme : string;
  URL_Opaque : string;
  URL_User : option Userinfo;
  URL_Host : string;
  URL_Path : string;
  URL_RawPath : string;
  URL_OmitHost : bool;
  URL_ForceQuery : bool;
  URL_RawQuery : string;
  URL_Fragment : string;
  URL_RawFragment : string;
}.

(** [validOptionalPort]: empty, or a colon and decimal digits. *)
Definition validOptionalPort (port : bytes) : bool :=
  match port with
  | [] => true
  | c :: ds => (zb c =? 58) && forallb (between 48 57) ds
  end.

Definition scheme_letter (c : byte) : bool := between 97 122 c || between 65 90 c.
Definition scheme_other (c : byte) : bool := between 48 57 c || one_of "+-." c.

(** [getScheme]: the scheme, empty when there is none, and the rest; [seen] is
    what the loop has read. *)
Fixpoint get_scheme (seen s : bytes) : res (bytes * bytes) :=
  match s with
  | [] => Ok ([], seen)
  | c :: s' =>
      if scheme_letter c then get_scheme (seen ++ [c]) s'
      else if scheme_other c then
        match seen with [] => Ok ([], s) | _ => get_scheme (seen ++ [c]) s' end
      else if zb c =? 58 then
        match seen with [] => Err (New "missing protocol scheme") | _ => Ok (seen, s') end
      else Ok ([], seen ++ s)
  end.
Definition getScheme (s : bytes) : res (bytes * bytes) := get_scheme [] s.

Definition invalid_port (colonPort : bytes) : error :=
  New ("invalid port " +:+ Quote (string_of colonPort) +:+ " after host").

(** The index of the first ["%25"]. *)
Fixpoint zone_index (s : bytes) : option nat :=
  match s with
  | [] => None
  | _ :: s' => if prefix_of [x25; x32; x35] s then Some O else S <$> zone_index s'
  end.

(** The host of an IP literal, without its brackets. *)
Definition unescape_literal (hostname : bytes) : res bytes :=
  match zone_index hostname with
  | Some z =>
      hostPart ← unescape encodeHost (take z hostname);
      zonePart ← unescape encodeZone (drop z hostname);
      Ok (hostPart ++ zonePart)
  | None => unescape encodeHost hostname
  end.

(** [parseHost]; the reason package netip gives for a bad literal is left out. *)
Definition parseHost (scheme host : bytes) : res bytes :=
  match last_index_byte 91 host with
  | Some (S _) => Err (New "invalid IP-literal")
  | Some O =>
      match last_index_byte 93 host with
      | None => Err (New "missing ']' in host")
      | Some close =>
          let colonPort := drop (S close) host in
          if negb (validOptionalPort colonPort) then Err (invalid_port colonPort)
          else
            unescapedColonPort ← unescape encodeHost colonPort;
            unescapedHostname ← unescape_literal (drop 1 (take close host));
            match ParseAddr (string_of unescapedHostname) with
            | None => Err (New "invalid host")
            | Some addr =>
                if Is4 addr then Err (New "invalid IP-literal")
                else Ok (x5b :: unescapedHostname ++ x5d :: unescapedColonPort)
            end
      end
  | None =>
      match index_byte 58 host, last_index_byte 58 host with
      | Some first, Some last =>
          let i := if bool_decide (scheme ∈ [bytes_of "http"; bytes_of "https"]) then first else last in
          if negb (validOptionalPort (drop i host)) then Err (invalid_port (drop i host))
          else unescape encodeHost host
      | _, _ => unescape encodeHost host
      end
  end.

Definition validUserinfo (s : bytes) : bool :=
  forallb (λ c, alphanumeric c || one_of "-._:~!$&'()*+,;=%@" c) s.

Definition parseAuthority (scheme authority : bytes) : res (option Userinfo * bytes) :=
  match last_index_byte 64 authority with
  | None => host ← parseHost scheme authority; Ok (None, host)
  | Some i =>
      host ← parseHost scheme (drop (S i) authority);
      let userinfo := take i authority in
      if negb (validUserinfo userinfo) then Err (New "net/url: invalid userinfo")
      else match cut_bytes x3a userinfo with
      | None => user ← unescape encodeUserPassword userinfo; Ok (Some (mkUserinfo (string_of user) None), host)
      | Some (username, password) =>
          username ← unescape encodeUserPassword username;
          password ← unescape encodeUserPassword password;
          Ok (Some (mkUserinfo (string_of username) (Some (string_of password))), host)
      end
  end.

(** [setPath] and [setFragment]: the decoded text, and the text itself when it
    is not the encoding the printer would choose. *)
Definition set_encoded (mode : encoding) (p : bytes) : res (bytes * bytes) :=
  path ← unescape mode p;
  Ok (path, if bool_decide (escape path mode = p) then [] else p).

(** The query is cut off at the first question mark; a single final one is
    remembered by [ForceQuery]. *)
Definition cut_query (rest : bytes) : bytes * bytes * bool :=
  match cut_bytes x3f rest with
  | Some (before, []) => (before, [], true)
  | Some (before, query) => (before, query, false)
  | None => (rest, [], false)
  end.

(** A slash, and two of them, at the start. *)
Definition rooted (s : bytes) : bool := match s with c :: _ => zb c =? 47 | [] => false end.
Definition with_authority (s : bytes) : bool :=
  match s with c :: d :: _ => (zb c =? 47) && (zb d =? 47) | _ => false end.

(** Splits the authority from the path. *)
Definition cut_path (s : bytes) : bytes * bytes :=
  match cut_bytes x2f s with
  | Some (authority, path) => (authority, x2f :: path)
  | None => (s, [])
  end.

Definition first_segment_colon (rest : bytes) : bool := contains_byte 58 (cut_path rest).1.

(** [parse(rawURL, false)]. *)
Definition parse (rawURL : bytes) : res URL :=
  if existsb (λ c, (zb c <? 32) || (zb c =? 127)) rawURL
  then Err (New "net/url: invalid control character in URL")
  else if bool_decide (rawURL = [x2a]) then Ok (mkURL "" "" None "" "*" "" false false "" "" "")
  else
    '(scheme, rest) ← getScheme rawURL;
    let scheme := map lower_ascii scheme in
    let has_scheme := negb (bool_decide (scheme = [])) in
    let '(rest, query, force) := cut_query rest in
    if negb (rooted rest) && has_scheme
    then Ok (mkURL (string_of scheme) (string_of rest) None "" "" "" false force (string_of query) "" "")
    else if negb (rooted rest) && first_segment_colon rest
    then Err (New "first path segment in URL cannot contain colon")
    else
      '(user, host, path, omit) ←
        (if (has_scheme || negb (with_authority (drop 1 rest))) && with_authority rest then
           let '(authority, path) := cut_path (drop 2 rest) in
           '(user, host) ← parseAuthority scheme authority;
           Ok (user, host, path, false)
         else Ok (None, [], rest, has_scheme && rooted rest));
      '(path, rawpath) ← set_encoded encodePath path;
      Ok (mkURL (string_of scheme) "" user (string_of host) (string_of path) (string_of rawpath)
            omit force (string_of query) "" "").

(** [*url.Error]. *)
Definition url_Error (op : string) (url : bytes) (err : error) : error :=
  Wrap (op +:+ " " +:+ Quote (string_of url) +:+ ": ") err "".

Definition with_fragment (fragment raw : bytes) (u : URL) : URL :=
  mkURL (URL_Scheme u) (URL_Opaque u) (URL_User u) (URL_Host u) (URL_Path u) (URL_RawPath u) (URL_OmitHost u)
    (URL_ForceQuery u) (URL_RawQuery u) (string_of fragment) (string_of raw).

Definition url_Parse (rawURL : string) : res URL :=
  let raw := bytes_of rawURL in
  let '(u, frag) := match cut_bytes x23 raw with Some (u, frag) => (u, frag) | None => (raw, []) end in
  url ← map_err (url_Error "parse" u) (parse u);
  if bool_decide (frag = []) then Ok url
  else '(fragment, rawfragment) ← map_err (url_Error "parse" raw) (set_encoded encodeFragment frag);
       Ok (with_fragment fragment rawfragment url).

(** ** Printing *)

(** [validEncoded]: an encoding the printer may keep. *)
Definition validEncoded (s : bytes) (mode : encoding) : bool :=
  forallb (λ c, one_of "!$&'()*+,;=:@[]%" c || negb (shouldEscape c mode)) s.

(** The text kept from the parser if it still is an encoding of [v]. *)
Definition encoded_as (raw v : string) (mode : encoding) : option bytes :=
  let r := bytes_of raw in
  if negb (bool_decide (r = [])) && validEncoded r mode then
    match unescape mode r with
    | Ok p => if bool_decide (p = bytes_of v) then Some r else None
    | Err _ => None
    end
  else None.

Definition EscapedPath (u : URL) : bytes :=
  match encoded_as (URL_RawPath u) (URL_Path u) encodePath with
  | Some p => p
  | None => if bool_decide (URL_Path u = "*"%string) then [x2a] else escape (bytes_of (URL_Path u)) encodePath
  end.

Definition EscapedFragment (u : URL) : bytes :=
  match encoded_as (URL_RawFragment u) (URL_Fragment u) encodeFragment with
  | Some f => f
  | None => escape (bytes_of (URL_Fragment u)) encodeFragment
  end.

Definition Userinfo_String (i : Userinfo) : bytes :=
  escape (bytes_of (User_username i)) encodeUserPassword
  ++ match User_password i with
     | Some p => x3a :: escape (bytes_of p) encodeUserPassword
     | None => []
     end.

Definition nonempty (s : string) : bool := negb (bool_decide (s = ""%string)).
Definition when {A} (b : bool) (l : list A) : list A := if b then l else [].

(** The part from the slashes to the end of the host. *)
Definition authority_text (u : URL) : bytes :=
  let has_user := match URL_User u with Some _ => true | None => false end in
  if negb (nonempty (URL_Scheme u) || nonempty (URL_Host u) || has_user) then []
  else if URL_OmitHost u && negb (nonempty (URL_Host u)) && negb has_user then []
  else
    when (nonempty (URL_Host u) || nonempty (URL_Path u) || has_user) [x2f; x2f]
    ++ match URL_User u with Some i => Userinfo_String i ++ [x40] | None => [] end
    ++ escape (bytes_of (URL_Host u)) encodeHost.

Definition url_bytes (u : URL) : bytes :=
  let scheme := when (nonempty (URL_Scheme u)) (bytes_of (URL_Scheme u) ++ [x3a]) in
  let body :=
    if nonempty (URL_Opaque u) then bytes_of (URL_Opaque u)
    else
      let authority := authority_text u in
      let path := EscapedPath u in
      authority
      ++ when (negb (bool_decide (path = [])) && negb (rooted path) && nonempty (URL_Host u)) [x2f]
      ++ when (bool_decide (scheme ++ authority = []) && first_segment_colon path) (bytes_of "./")
      ++ path in
  scheme ++ body
  ++ when (URL_ForceQuery u || nonempty (URL_RawQuery u)) (x3f :: bytes_of (URL_RawQuery u))
  ++ when (nonempty (URL_Fragment u)) (x23 :: EscapedFragment u).

Definition url_String (u : URL) : string := string_of (url_bytes u).

(** ** Queries *)

(** The pairs of [ParseQuery] in their order: a pair that does not decode, or
    that holds a semicolon, is skipped. *)
Fixpoint parse_query (fuel : nat) (query : bytes) : list (bytes * bytes) :=
  match fuel with
  | O => []
  | S fuel' =>
      match query with
      | [] => []
      | _ =>
          let '(key, rest) := match cut_bytes x26 query with Some (k, r) => (k, r) | None => (query, []) end in
          let more := parse_query fuel' rest in
          if contains_byte 59 key || bool_decide (key = []) then more
          else
            let '(key, value) := match cut_bytes x3d key with Some (k, v) => (k, v) | None => (key, []) end in
            match unescape encodeQueryComponent key, unescape encodeQueryComponent value with
            | Ok k, Ok v => (k, v) :: more
            | _, _ => more
            end
      end
  end.

Definition defaultMaxParams : Z := 10000.

Definition Query (u : URL) : list (bytes * bytes) :=
  let q := bytes_of (URL_RawQuery u) in
  if defaultMaxParams <? len (List.filter (λ b, zb b =? 38) q) + 1 then [] else parse_query (length q) q.

(** [Values.Get]: the first value, or the empty string. *)
Definition Query_Get (key : string) (u : URL) : string :=
  match List.find (λ kv, bool_decide (kv.1 = bytes_of key)) (Query u) with
  | Some (_, v) => string_of v
  | None => ""
  end.

(** [url.PathUnescape], and the text itself when it does not decode. *)
Definition pathUnescape (s : bytes) : bytes :=
  match unescape encodePathSegment s with Ok u => u | Err _ => s end.
End Parse.

(** ** The parts of a host *)

(** [splitHostPort]: the host without its brackets, and the port. *)
Definition splitHostPort (hostPort : string) : string * string :=
  let b := bytes_of hostPort in
  let '(host, port) :=
    match last_index_byte 58 b with
    | Some colon => if validOptionalPort (drop colon b) then (take colon b, drop (S colon) b) else (b, [])
    | None => (b, [])
    end in
  let host :=
    match host with
    | first :: rest =>
        if bool_decide (first = x5b) && bool_decide (List.last rest x00 = x5d) then removelast rest else host
    | [] => host
    end in
  (string_of host, string_of port).

Definition Hostname (u : URL) : string := (splitHostPort (URL_Host u)).1.
Definition Port (u : URL) : string := (splitHostPort (URL_Host u)).2.

#[global] Arguments shouldEscape : simpl never.

(** ** Tests *)

#[local] Instance quoted : UnicodeText := {| Quote := λ s, "'" +:+ s +:+ "'"; unicode_ToUpper := λ r, r |}.

Definition roundtrip_test (s : string) : option string := match url_Parse s with Ok u => Some (url_String u) | Err _ => None end.

Example url_String_tests :
  map roundtrip_test
    ["https://Example.com:8443/a b?x=1#f"; "HTTP://[::1]:80/%7Ea/%2F"; "http://h"; "http://h?"; "mailto:x@y"; "/p?q"; "*";
     "http://u:p@h/"; "http://%c3%a9.com/"; "file:///etc"; "http://[fe80::1%25en0]/"; "//h/p"; "http://h/a%20b"; "x:"]%string
  = [Some "https://Example.com:8443/a%20b?x=1#f"; Some "http://[::1]:80/%7Ea/%2F"; Some "http://h"; Some "http://h?";
     Some "mailto:x@y"; Some "/p?q"; Some "*"; Some "http://u:p@h/"; Some "http://%C3%A9.com/"; Some "file:///etc";
     Some "http://[fe80::1%25en0]/"; Some "//h/p"; Some "http://h/a%20b"; Some "x:"]%string.
Proof. vm_compute. reflexivity. Qed.

Example url_Parse_refusals :
  map (λ s, match url_Parse s with Ok _ => "" | Err e => error_text e end)
    ["http://a b/"; "http://::1/"; "http://localhost:80:80/"; "http://h:x/"; "://h"; "a:b@c/d"; "1:b"; "http://[1.2.3.4]/";
     "http://%41/"; "http://h/%zz"; "http://[::1"; "http://a[::1]/"]%string
  = ["parse 'http://a b/': invalid character ' ' in host name"; "parse 'http://::1/': invalid port '::1' after host";
     "parse 'http://localhost:80:80/': invalid port ':80:80' after host"; "parse 'http://h:x/': invalid port ':x' after host";
     "parse '://h': missing protocol scheme"; ""; "parse '1:b': first path segment in URL cannot contain colon";
     "parse 'http://[1.2.3.4]/': invalid IP-literal"; "parse 'http://%41/': invalid URL escape '%41'";
     "parse 'http://h/%zz': invalid URL escape '%zz'"; "parse 'http://[::1': missing ']' in host";
     "parse 'http://a[::1]/': invalid IP-literal"]%string.
Proof. vm_compute. reflexivity. Qed.

Example Query_tests :
  match url_Parse "/p?limit=5&a=%20+x&a=2&bad=%zz&s;t=1&&flag" with
  | Ok u => map (λ k, Query_Get k u) ["limit"; "a"; "bad"; "s"; "flag"; "none"]%string
  | Err _ => []
  end = ["5"; "  x"; ""; ""; ""; ""]%string.
Proof. vm_compute. reflexivity. Qed.

Example splitHostPort_tests :
  (splitHostPort "example.com:8443", splitHostPort "[::1]:80", splitHostPort "[::1]", splitHostPort "a:b", splitHostPort "h:")
  = (("example.com", "8443"), ("::1", "80"), ("::1", ""), ("a:b", ""), ("h", ""))%string.
Proof. vm_compute. reflexivity. Qed.
