(* ===== verification/UrlTheorems.v ===== *)
(** * Theorems on net/url

    Percent encoding is undone by decoding, the parts a parsed URL over HTTP
    has, and that the printed form of such a URL parses back to it. *)

From S2P Require Import Prelude GoErrors GoText GoStrings GoParse Netip Url.

(** Decides a closed membership. *)
Ltac decide_in := apply (bool_decide_unpack _); vm_compute; exact I.

(** ** Bytes *)

Lemma hex_upperhex c : hex_value (upperhex (zb c / 16)) = Some (zb c / 16) ∧ hex_value (upperhex (zb c mod 16)) = Some (zb c mod 16).
Proof. by destruct c. Qed.

Lemma hex_value_range c v : hex_value c = Some v → 0 <= v < 16.
Proof.
  unfold hex_value. repeat case_match; intros [= <-]; unfold between in *; zbool; lia.
Qed.

Lemma byte_of_zb c : byte_of (zb c) = c.
Proof. by destruct c. Qed.

Lemma zb_byte_of z : 0 <= z < 256 → zb (byte_of z) = z.
Proof.
  intros Hz. unfold byte_of, zb. rewrite Z.mod_small by lia.
  destruct (Byte.of_N (Z.to_N z)) as [b|] eqn:E; cbn.
  - apply Byte.to_of_N in E. rewrite E. lia.
  - apply Byte.of_N_None_iff in E. lia.
Qed.

Lemma zb_div c : 16 * (zb c / 16) + zb c mod 16 = zb c.
Proof. symmetry. apply Z.div_mod. lia. Qed.

Lemma one_of_app cs ds c : one_of (cs +:+ ds) c = one_of cs c || one_of ds c.
Proof. unfold one_of. by rewrite bytes_of_app, existsb_app. Qed.

Lemma escapes_special c mode : zb c = 37 ∨ zb c < 33 ∨ zb c = 34 ∨ zb c = 35 ∨ 127 <= zb c →
  mode ∉ [encodeHost; encodeZone] → shouldEscape c mode = true.
Proof.
  intros H Hm. destruct mode; try (exfalso; apply Hm; rewrite !elem_of_cons; tauto);
    revert H; clear; destruct c; vm_compute; intuition congruence.
Qed.

(** A byte a host holds as it is. *)
Definition host_byte (c : byte) : bool := (128 <=? zb c) || negb (shouldEscape c encodeHost).

Lemma host_byte_spec c : host_byte c = true →
  zb c ≠ 35 ∧ zb c ≠ 37 ∧ zb c ≠ 47 ∧ zb c ≠ 63 ∧ zb c ≠ 64 ∧ zb c ≠ 127 ∧ 33 <= zb c.
Proof. destruct c; vm_compute; intros; repeat split; congruence. Qed.

Lemma host_ascii_not_escaped c : host_byte c = true → zb c < 128 → shouldEscape c encodeHost = false.
Proof. destruct c; vm_compute; congruence. Qed.

Lemma host_beyond_escaped c : 128 <= zb c → shouldEscape c encodeHost = true.
Proof. destruct c; vm_compute; congruence. Qed.

(** ** Percent encoding *)

Section Escape.
Context `{UX : UnicodeText}.

(** What may be escaped and read back. *)
Definition printable_in (mode : encoding) (c : byte) : bool :=
  match mode with encodeHost => host_byte c | encodeZone => false | _ => true end.

Lemma unescape_percent mode c l : bad_escape mode (zb c) = false →
  unescape mode (percent c ++ l) = (r ← unescape mode l; Ok (c :: r)).
Proof.
  intros Hb. cbn [percent app unescape]. change (zb x25 =? 37) with true. cbv iota.
  destruct (hex_upperhex c) as [-> ->]. by rewrite zb_div, Hb, byte_of_zb.
Qed.

Lemma unescape_escape_byte mode c l : printable_in mode c = true →
  unescape mode (escape_byte mode c ++ l) = (r ← unescape mode l; Ok (c :: r)).
Proof.
  intros Hp. unfold escape_byte. destruct (shouldEscape c mode) eqn:E.
  - destruct ((zb c =? 32) && bool_decide (mode = encodeQueryComponent)) eqn:Eq.
    + zbool. subst mode. assert (c = x20) as -> by (destruct c; try discriminate; done). reflexivity.
    + apply unescape_percent. destruct mode; try done. cbn in Hp |- *.
      destruct (Z.ltb_spec (zb c) 128); [|done]. apply host_ascii_not_escaped in Hp; [congruence|done].
  - cbn [app unescape]. assert (H37 : (zb c =? 37) = false).
    { apply Z.eqb_neq. intros Hc. destruct mode; try done; revert E Hc; clear; destruct c; vm_compute; congruence. }
    rewrite H37. destruct (host_mode mode && (zb c <? 128) && shouldEscape c mode) eqn:Eh.
    { zbool. congruence. }
    destruct ((zb c =? 43) && _) eqn:Eq; [|done]. exfalso. zbool. subst mode.
    revert E. assert (c = x2b) as -> by (destruct c; try discriminate; done). done.
Qed.

(** Decoding undoes encoding. *)
Lemma unescape_escape mode s : forallb (printable_in mode) s = true → unescape mode (escape s mode) = Ok s.
Proof.
  induction s as [|c s IH]; [done|]. cbn [forallb]. intros [Hc Hs]%andb_true_iff. unfold escape. cbn [map concat].
  rewrite unescape_escape_byte by done. fold (escape s mode). by rewrite IH.
Qed.

Lemma printable_path s : forallb (printable_in encodePath) s = true.
Proof. by induction s. Qed.

Lemma unescape_cons mode c s l : unescape mode (c :: s) = Ok l → zb c ≠ 37 →
  ∃ l', unescape mode s = Ok l' ∧ (mode ≠ encodeQueryComponent → l = c :: l').
Proof.
  intros H Hc. cbn [unescape] in H. rewrite (proj2 (Z.eqb_neq _ _) Hc) in H.
  destruct (_ && _) in H; [done|]. apply res_bind_Ok in H as (l' & Hl & [= <-]). exists l'. split; [done|].
  intros Hm. by rewrite (bool_decide_eq_false_2 _ Hm), andb_false_r.
Qed.

(** What the bytes of a decoded host can be. *)
Lemma unescape_host_byte s l c : unescape encodeHost s = Ok l → c ∈ l → host_byte c = true ∨ zb c = 37.
Proof.
  revert l. induction s as [s IH] using (induction_ltof1 _ length). unfold ltof in IH. intros l H Hin.
  destruct s as [|x s]; [by injection H as <-; apply elem_of_nil in Hin|]. cbn [unescape] in H.
  destruct (zb x =? 37) eqn:Ex.
  - destruct s as [|h [|d rest]]; [done..|]. destruct (hex_value h) as [a|] eqn:Eh; [|done].
    destruct (hex_value d) as [b|] eqn:Ed; [|done]. destruct (bad_escape _ _) eqn:Eb; [done|].
    apply res_bind_Ok in H as (r & Hr & [= <-]). apply elem_of_cons in Hin as [->|Hin].
    + assert (Hv : 0 <= 16 * a + b < 256).
      { apply hex_value_range in Eh, Ed. lia. }
      cbn [bad_escape] in Eb. unfold host_byte. rewrite zb_byte_of by done.
      destruct (Z.ltb_spec (16 * a + b) 128); cbn in Eb; zbool; [by right|left]. by rewrite (proj2 (Z.leb_le _ _)).
    + eapply (IH rest); [cbn; lia|exact Hr|done].
  - destruct (host_mode _ && _ && _) eqn:Eh in H; [done|]. apply res_bind_Ok in H as (r & Hr & [= <-]).
    rewrite andb_false_r in Hin. apply elem_of_cons in Hin as [->|Hin]; [left|by eapply (IH s); [cbn; lia|..]].
    cbn [host_mode andb] in Eh. unfold host_byte. destruct (Z.ltb_spec (zb x) 128); cbn [andb] in Eh.
    + by rewrite Eh, orb_true_r.
    + by rewrite (proj2 (Z.leb_le _ _)).
Qed.
End Escape.

(** ** The shape of a URL over HTTP *)

Section Target.
Context `{UX : UnicodeText}.

Definition control (c : byte) : bool := (zb c <? 32) || (zb c =? 127).

(** No control character and none of the given ones. *)
Definition clean (stops : list byte) (s : bytes) : Prop :=
  existsb control s = false ∧ ∀ c, c ∈ stops → c ∉ s.

Lemma clean_app stops a b : clean stops (a ++ b) ↔ clean stops a ∧ clean stops b.
Proof.
  unfold clean. rewrite existsb_app, orb_false_iff. split.
  - intros [[Ha Hb] H]. split; (split; [done|]); intros c Hc; by apply H, not_elem_of_app in Hc as [? ?].
  - intros [[Ha HA] [Hb HB]]. split; [done|]. intros c Hc. rewrite not_elem_of_app. by split; [apply HA|apply HB].
Qed.

Lemma clean_cons stops c s : clean stops (c :: s) ↔ control c = false ∧ (c ∉ stops) ∧ clean stops s.
Proof.
  unfold clean. cbn [existsb]. rewrite orb_false_iff. split.
  - intros [[Hc Hs] H]. split_and!; [done| |done|].
    + intros Hin. by apply (H c Hin); left.
    + intros d Hd Hin. by apply (H d Hd); right.
  - intros (Hc & Hn & Hs & H). split; [done|]. intros d Hd [->|Hin]%elem_of_cons; [done|]. by apply (H d).
Qed.

Lemma clean_nil stops : clean stops [].
Proof. split; [done|]. intros c _. apply not_elem_of_nil. Qed.

Lemma clean_weaken stops stops' s : stops' ⊆ stops → clean stops s → clean stops' s.
Proof. intros Hs [Hc Hn]. split; [done|]. intros c Hin. by apply Hn, Hs. Qed.

Lemma clean_Forall stops s : clean stops s ↔ Forall (λ c, control c = false ∧ c ∉ stops) s.
Proof.
  induction s as [|c s IH]; [split; [done|intros _; apply clean_nil]|].
  rewrite clean_cons, Forall_cons, IH. tauto.
Qed.

Definition http_scheme (scheme : bytes) : Prop := scheme = bytes_of "http" ∨ scheme = bytes_of "https".

(** The text of a URL with a host: its authority, an absolute path and maybe a
    query. *)
Definition target_bytes (scheme authority path query : bytes) (force : bool) : bytes :=
  scheme ++ [x3a; x2f; x2f] ++ authority ++ path ++ when (force || negb (bool_decide (query = []))) (x3f :: query).

Lemma getScheme_http scheme rest : http_scheme scheme → getScheme (scheme ++ x3a :: rest) = Ok (scheme, rest).
Proof. by intros [->| ->]. Qed.

Lemma cut_query_target body query force :
  x3f ∉ body → (force = true → query = []) →
  cut_query (body ++ when (force || negb (bool_decide (query = []))) (x3f :: query)) = (body, query, force).
Proof.
  intros Hb Hf. unfold cut_query. destruct force; cbn [orb when].
  - rewrite (proj2 (cut_bytes_spec x3f _ body [])) by (by rewrite Hf). by rewrite Hf.
  - destruct query as [|q query]; cbn [bool_decide negb when].
    + rewrite bool_decide_eq_true_2 by done. cbn [negb when]. rewrite app_nil_r. by rewrite (proj2 (cut_bytes_None x3f body)).
    + rewrite bool_decide_eq_false_2 by done. cbn [negb when]. by rewrite (proj2 (cut_bytes_spec x3f _ body (q :: query))).
Qed.

Lemma cut_path_rooted authority path : x2f ∉ authority → rooted path = true → cut_path (authority ++ path) = (authority, path).
Proof.
  intros Ha Hp. destruct path as [|c path]; [done|]. cbn [rooted] in Hp.
  assert (c = x2f) as -> by (apply Z.eqb_eq in Hp; revert Hp; destruct c; vm_compute; congruence).
  unfold cut_path. by rewrite (proj2 (cut_bytes_spec x2f _ authority path)).
Qed.

Lemma last_index_byte_absent c (s : bytes) : (∀ b, zb b = c → b ∉ s) → last_index_byte c s = None.
Proof.
  intros Hn. unfold last_index_byte, index_byte. rewrite (proj2 (list_find_None _ (rev s))); [done|].
  apply Forall_forall. intros b Hb Hz. apply (Hn b Hz). apply list_elem_of_In, in_rev in Hb. by apply list_elem_of_In.
Qed.

Lemma control_scheme scheme : http_scheme scheme → existsb control scheme = false ∧ x23 ∉ scheme.
Proof. by intros [->| ->]; (split; [done|decide_in]). Qed.

(** A text of this shape parses to its parts. *)
Lemma parse_target scheme authority host path decoded rawpath query force :
  http_scheme scheme → clean [x23; x2f; x3f; x40] authority → clean [x23; x3f] path → clean [x23] query →
  rooted path = true → (force = true → query = []) →
  parseHost scheme authority = Ok host → set_encoded encodePath path = Ok (decoded, rawpath) →
  url_Parse (string_of (target_bytes scheme authority path query force))
  = Ok (mkURL (string_of scheme) "" None (string_of host) (string_of decoded) (string_of rawpath) false force
          (string_of query) "" "").
Proof.
  intros Hs Ha Hp Hq Hr Hf Hhost Hpath. unfold url_Parse. rewrite bytes_of_string_of.
  set (raw := target_bytes _ _ _ _ _).
  destruct (control_scheme _ Hs) as [Hc Hh].
  assert (Hclean : clean [x23] raw).
  { subst raw. unfold target_bytes. rewrite !clean_app. split_and!.
    - split; [done|]. by intros c ->%list_elem_of_singleton.
    - split; [done|]. intros c ->%list_elem_of_singleton. decide_in.
    - eapply clean_weaken; [|exact Ha]. set_solver.
    - eapply clean_weaken; [|exact Hp]. set_solver.
    - destruct (force || _); [|apply clean_nil]. apply clean_cons. split_and!; [done|decide_in|done]. }
  destruct Hclean as [Hctl Hno].
  rewrite (proj2 (cut_bytes_None x23 raw)) by (apply Hno; left). unfold parse.
  change (existsb _ raw) with (existsb control raw). rewrite Hctl.
  rewrite (bool_decide_eq_false_2 (raw = [x2a])) by (subst raw; unfold target_bytes; destruct Hs as [->| ->]; discriminate).
  subst raw. unfold target_bytes. cbn [app]. rewrite getScheme_http by done.
  cbn [mbind res_bind].
  assert (Hlow : map lower_ascii scheme = scheme) by (by destruct Hs as [->| ->]).
  assert (Hne : scheme ≠ []) by (destruct Hs as [->| ->]; discriminate).
  cbv zeta. rewrite Hlow, (bool_decide_eq_false_2 _ Hne). cbn [negb].
  assert (E : x2f :: x2f :: authority ++ path ++ when (force || negb (bool_decide (query = []))) (x3f :: query)
          = (x2f :: x2f :: authority ++ path) ++ when (force || negb (bool_decide (query = []))) (x3f :: query)).
  { cbn [app]. by rewrite <- app_assoc. }
  rewrite E, cut_query_target; [|rewrite !not_elem_of_cons, not_elem_of_app; destruct Ha as [_ Ha], Hp as [_ Hp];
    split_and!; [done|done|apply Ha|apply Hp]; set_solver|done].
  cbn [rooted negb andb orb with_authority]. change (zb x2f =? 47) with true. cbn [negb andb orb drop].
  rewrite drop_0, cut_path_rooted; [|apply Ha; set_solver|done].
  unfold parseAuthority. rewrite last_index_byte_absent.
  2: { intros b Hb Hin. apply (proj2 Ha b); [|done]. rewrite (zb_inj b x40 Hb). set_solver. }
  rewrite Hhost. cbn [mbind res_bind]. rewrite Hpath. reflexivity.
Qed.

(** ** The printer *)

Lemma rooted_split s : rooted s = true → ∃ s', s = x2f :: s'.
Proof.
  destruct s as [|c s]; [done|]. cbn [rooted]. intros H%Z.eqb_eq. exists s. f_equal. by apply zb_inj.
Qed.

Lemma escape_byte_path_clean c : clean [x23; x3f] (escape_byte encodePath c).
Proof. apply clean_Forall. destruct c; decide_in. Qed.

Lemma escape_path_clean s : clean [x23; x3f] (escape s encodePath).
Proof.
  unfold escape. induction s as [|c s IH]; [apply clean_nil|]. cbn [map concat]. apply clean_app.
  split; [apply escape_byte_path_clean|done].
Qed.

Lemma validEncoded_clean s : validEncoded s encodePath = true → clean [x23; x3f] s.
Proof.
  unfold validEncoded. rewrite clean_Forall. intros H%Is_true_true_2%forallb_True. eapply Forall_impl; [exact H|].
  intros c Hc%Is_true_true_1. clear -Hc. destruct c; first [discriminate Hc|decide_in].
Qed.

Lemma EscapedPath_spec u :
  rooted (bytes_of (URL_Path u)) = true → (URL_RawPath u = ""%string ∨ rooted (bytes_of (URL_RawPath u)) = true) →
  rooted (EscapedPath u) = true ∧ clean [x23; x3f] (EscapedPath u)
  ∧ ∃ rawpath, set_encoded encodePath (EscapedPath u) = Ok (bytes_of (URL_Path u), rawpath).
Proof.
  intros Hp Hr. unfold EscapedPath, set_encoded.
  destruct (encoded_as _ _ _) as [r|] eqn:E; unfold encoded_as in E.
  - destruct (negb _ && _) eqn:Ev in E; [|done]. zbool.
    destruct (unescape encodePath (bytes_of (URL_RawPath u))) as [p|] eqn:Eu; [|done].
    destruct (bool_decide_reflect (p = bytes_of (URL_Path u))) as [->|]; [|done]. injection E as <-.
    split_and!; [|by apply validEncoded_clean|].
    + destruct Hr as [Hr|Hr]; [|done]. by rewrite Hr in *.
    + rewrite Eu. cbn. eauto.
  - rewrite bool_decide_eq_false_2 by (intros Hs; by rewrite Hs in Hp). split_and!; [|apply escape_path_clean|].
    + apply rooted_split in Hp as [s' ->]. reflexivity.
    + rewrite unescape_escape by apply printable_path. cbn. eauto.
Qed.

Lemma url_bytes_target u :
  http_scheme (bytes_of (URL_Scheme u)) → URL_Opaque u = ""%string → URL_User u = None → URL_Host u ≠ ""%string →
  URL_Fragment u = ""%string → rooted (EscapedPath u) = true →
  url_bytes u = target_bytes (bytes_of (URL_Scheme u)) (escape (bytes_of (URL_Host u)) encodeHost) (EscapedPath u)
                  (bytes_of (URL_RawQuery u)) (URL_ForceQuery u).
Proof.
  intros Hs Ho Hu Hh Hf Hr. unfold url_bytes, authority_text, target_bytes. rewrite Ho, Hu, Hf, Hr.
  unfold nonempty. rewrite (bool_decide_eq_false_2 (URL_Host u = ""%string)) by done.
  assert (Hne : URL_Scheme u ≠ ""%string) by (intros E; rewrite E in Hs; by destruct Hs).
  rewrite (bool_decide_eq_false_2 (URL_Scheme u = ""%string)) by done.
  rewrite (bool_decide_eq_true_2 (""%string = ""%string)) by done.
  cbn [negb andb orb when]. rewrite !andb_false_r. cbn [when app]. rewrite <- !app_assoc. cbn [app].
  rewrite bool_decide_eq_false_2 by (intros E; apply (f_equal length) in E; rewrite length_app in E; cbn in E; lia).
  cbn [andb when app]. rewrite app_nil_r.
  do 6 f_equal. apply (f_equal2 when); [|done]. f_equal. f_equal.
  apply bool_decide_ext. split; intros E; [by rewrite E|by apply bytes_of_inj].
Qed.

(** ** What was parsed *)

Lemma cut_bytes_app sep s a b : cut_bytes sep s = Some (a, b) → s = a ++ sep :: b.
Proof. by intros [-> _]%cut_bytes_spec. Qed.

Lemma get_scheme_suffix seen s scheme rest : get_scheme seen s = Ok (scheme, rest) → ∃ front, seen ++ s = front ++ rest.
Proof.
  revert seen. induction s as [|c s IH]; intros seen; cbn [get_scheme]; [intros [= <- <-]; by exists []; rewrite app_nil_r|].
  assert (Hstep : get_scheme (seen ++ [c]) s = Ok (scheme, rest) → ∃ front, seen ++ c :: s = front ++ rest).
  { intros [f Hf]%IH. exists f. by rewrite <- Hf, <- app_assoc. }
  destruct (scheme_letter c); [done|]. destruct (scheme_other c).
  { destruct seen; [intros [= <- <-]; by exists []|done]. }
  destruct (zb c =? 58).
  - destruct seen as [|x seen]; [done|]. intros [= <- <-]. exists ((x :: seen) ++ [c]). by rewrite <- app_assoc.
  - intros [= <- <-]. by exists [].
Qed.

Lemma get_scheme_ascii seen s scheme rest : get_scheme seen s = Ok (scheme, rest) →
  Forall (λ c, zb c < 128) seen → Forall (λ c, zb c < 128) scheme.
Proof.
  revert seen. induction s as [|c s IH]; intros seen; cbn [get_scheme]; [by intros [= <- <-]|].
  assert (Hc : scheme_letter c = true ∨ scheme_other c = true → zb c < 128).
  { clear. destruct c; vm_compute; (done || by intros [[=]|[=]]). }
  assert (Hstep : scheme_letter c = true ∨ scheme_other c = true → get_scheme (seen ++ [c]) s = Ok (scheme, rest) →
    Forall (λ c, zb c < 128) seen → Forall (λ c, zb c < 128) scheme).
  { intros H1 H2 H3. apply (IH _ H2), Forall_app. split; [done|]. constructor; [by apply Hc|done]. }
  destruct (scheme_letter c); [by apply Hstep; left|]. destruct (scheme_other c).
  { destruct seen; [by intros [= <- <-]|by apply Hstep; right]. }
  destruct (zb c =? 58); [|by intros [= <- <-]]. destruct seen; [done|]. by intros [= <- <-].
Qed.

Lemma lower_ascii_fixed c : zb c < 128 → zb (lower_ascii c) < 128 ∧ lower_ascii (lower_ascii c) = lower_ascii c.
Proof. clear. destruct c; vm_compute; (done || by intros [=]). Qed.

Lemma cut_query_spec rest body query force :
  cut_query rest = (body, query, force) → (force = true → query = []) ∧ (∀ stops, clean stops rest → clean stops query).
Proof.
  unfold cut_query. destruct (cut_bytes x3f rest) as [[b q]|] eqn:E.
  - apply cut_bytes_app in E as ->. destruct q as [|c q]; intros [= <- <- <-]; (split; [done|]).
    + intros stops _. apply clean_nil.
    + intros stops [_ H]%clean_app. by apply clean_cons in H as (_ & _ & H).
  - intros [= <- <- <-]. split; [done|]. intros stops _. apply clean_nil.
Qed.

Lemma set_encoded_rooted p path rawpath :
  set_encoded encodePath p = Ok (path, rawpath) → p = [] ∨ rooted p = true →
  (path = [] ∧ rawpath = []) ∨ (rooted path = true ∧ (rawpath = [] ∨ rooted rawpath = true)).
Proof.
  unfold set_encoded. intros (q & Hq & [= <- <-])%res_bind_Ok [->|Hr].
  - injection Hq as <-. by left.
  - right. pose proof Hr as Hr'. apply rooted_split in Hr' as [p' ->].
    apply unescape_cons in Hq as (q' & _ & ->); [|done|done]. split; [done|]. case_bool_decide; [by left|by right].
Qed.

Lemma cut_path_path s : (cut_path s).2 = [] ∨ rooted (cut_path s).2 = true.
Proof. unfold cut_path. destruct (cut_bytes x2f s) as [[a p]|]; [by right|by left]. Qed.

(** The parts of a parsed URL that has a host, and no user. *)
Record parsed_target (u : URL) : Prop := {
  pt_scheme : Forall (λ c, zb c < 128 ∧ lower_ascii c = c) (bytes_of (URL_Scheme u));
  pt_host : ∃ authority, parseHost (bytes_of (URL_Scheme u)) authority = Ok (bytes_of (URL_Host u));
  pt_path : URL_Path u = ""%string ∧ URL_RawPath u = ""%string
            ∨ rooted (bytes_of (URL_Path u)) = true
              ∧ (URL_RawPath u = ""%string ∨ rooted (bytes_of (URL_RawPath u)) = true);
  pt_query : clean [x23] (bytes_of (URL_RawQuery u));
  pt_force : URL_ForceQuery u = true → URL_RawQuery u = ""%string;
}.

Lemma parse_parsed raw u :
  x23 ∉ raw → parse raw = Ok u → URL_Host u ≠ ""%string → parsed_target u.
Proof.
  intros Hn Hp Hh. unfold parse in Hp. destruct (existsb _ raw) eqn:Hctl; [done|].
  assert (Hc : clean [x23] raw) by (split; [exact Hctl|by intros c ->%list_elem_of_singleton]).
  destruct (bool_decide (raw = [x2a])); [by injection Hp as <-|].
  apply res_bind_Ok in Hp as ([scheme rest] & Hs & Hp). pose proof (get_scheme_ascii _ _ _ _ Hs (Forall_nil_2 _)) as Hascii.
  apply get_scheme_suffix in Hs as [front Hs]. cbn [app] in Hs.
  rewrite Hs in Hc. apply clean_app in Hc as [_ Hc]. cbv zeta in Hp.
  destruct (cut_query rest) as [[body query] force] eqn:Eq. apply cut_query_spec in Eq as [Hf Hq].
  destruct (_ && _) in Hp; [by injection Hp as <-|]. destruct (_ && _) in Hp; [done|].
  apply res_bind_Ok in Hp as ([[[user host] path] omit] & Ha & Hp).
  apply res_bind_Ok in Hp as ([decoded rawpath] & He & [= <-]). cbn [URL_Host] in Hh.
  destruct (_ && _) in Ha; [|by injection Ha as <- <- <- <-].
  pose proof (cut_path_path (drop 2 body)) as Hroot. destruct (cut_path _) as [authority path']. cbn [snd] in Hroot.
  apply res_bind_Ok in Ha as ([user' host'] & Ha & [= -> -> -> <-]).
  apply (set_encoded_rooted _ _ _ He) in Hroot.
  assert (Hhost : ∃ a, parseHost (map lower_ascii scheme) a = Ok host).
  { unfold parseAuthority in Ha. destruct (last_index_byte 64 authority); apply res_bind_Ok in Ha as (h & Hh' & Ha).
    - destruct (negb _) in Ha; [done|]. destruct (cut_bytes _ _) as [[a b]|].
      + apply res_bind_Ok in Ha as (? & _ & Ha). apply res_bind_Ok in Ha as (? & _ & [= <- <-]). eauto.
      + apply res_bind_Ok in Ha as (? & _ & [= <- <-]). eauto.
    - injection Ha as <- <-. eauto. }
  split; cbn [URL_Scheme URL_Host URL_Path URL_RawPath URL_RawQuery URL_ForceQuery]; rewrite ?bytes_of_string_of.
  - apply Forall_map. eapply Forall_impl; [exact Hascii|]. intros c Hlt. by apply lower_ascii_fixed.
  - exact Hhost.
  - destruct Hroot as [[-> ->]|[Hr [->|Hr']]]; [by left|right..]; (split; [done|]); [by left|by right].
  - by apply Hq.
  - intros F. by rewrite (Hf F).
Qed.

Lemma url_Parse_parsed raw u : url_Parse raw = Ok u → URL_Host u ≠ ""%string → parsed_target u.
Proof.
  unfold url_Parse. intros Hp Hh.
  destruct (match cut_bytes x23 (bytes_of raw) with Some (u, frag) => (u, frag) | None => (bytes_of raw, []) end)
    as [front frag] eqn:Ec.
  assert (Hcl : x23 ∉ front).
  { destruct (cut_bytes x23 (bytes_of raw)) as [[a b]|] eqn:E; injection Ec as <- <-.
    - by apply cut_bytes_spec in E as [_ ?].
    - by apply cut_bytes_None in E. }
  apply res_bind_Ok in Hp as (v & Hv & Hp). destruct (parse front) as [v'|] eqn:Ev; [|done]. injection Hv as <-.
  destruct (bool_decide (frag = [])); [injection Hp as <-; by eapply parse_parsed|].
  apply res_bind_Ok in Hp as ([f rf] & _ & [= <-]). cbn [with_fragment URL_Host] in Hh.
  destruct (parse_parsed _ _ Hcl Ev Hh) as [H0 H1 H2 H3 H4]. by split.
Qed.
End Target.
