(* ===== verification/UrlHost.v ===== *)
(** * Hosts

    The host of a parsed URL: a name or an IP literal in brackets, with a port.
    What lower-casing does to either, and that a host that is printed parses
    back to itself. *)

From S2P Require Import Prelude GoErrors GoText GoStrings GoParse Netip Url UrlTheorems.

(** ** The parts of a host *)

(** A text with a colon, at its last colon. *)
Lemma split_last_colon (s : bytes) :
  contains_byte 58 s = true → ∃ a b, s = a ++ x3a :: b ∧ contains_byte 58 b = false.
Proof.
  induction s as [|x s IH]; [done|]. cbn. intros H. destruct (contains_byte 58 s) eqn:Hs.
  - destruct IH as (a & b & -> & Hb); [done|]. by exists (x :: a), b.
  - fold (contains_byte 58 s) in H. rewrite Hs, orb_false_r in H. zbool.
    exists [], s. split; [|done]. cbn. f_equal. destruct x; vm_compute in H; done.
Qed.

Lemma port_no_colon (p : bytes) : forallb (between 48 57) p = true → contains_byte 58 p = false.
Proof.
  intros H. apply not_true_iff_false. intros (b & Hb & E)%existsb_exists.
  rewrite forallb_forall in H. apply H in Hb. unfold between in Hb. zbool. lia.
Qed.

(** The port of any host is a string of digits. *)
Lemma splitHostPort_digits s : forallb (between 48 57) (bytes_of (splitHostPort s).2) = true.
Proof.
  unfold splitHostPort. destruct (last_index_byte 58 (bytes_of s)) as [colon|]; [|done].
  destruct (validOptionalPort (drop colon (bytes_of s))) eqn:E; [|done].
  change (forallb (between 48 57) (bytes_of (string_of (drop (S colon) (bytes_of s)))) = true).
  rewrite bytes_of_string_of, <- Nat.add_1_r, <- drop_drop.
  destruct (drop colon (bytes_of s)) as [|c ds]; [done|]. cbn in E. zbool. done.
Qed.

(** The last step of [splitHostPort]. *)
Definition strip_brackets (host : bytes) : bytes :=
  match host with
  | first :: rest =>
      if bool_decide (first = x5b) && bool_decide (List.last rest x00 = x5d) then removelast rest else host
  | [] => host
  end.

Lemma splitHostPort_at (s : string) (h p : bytes) :
  bytes_of s = h ++ x3a :: p → forallb (between 48 57) p = true →
  splitHostPort s = (string_of (strip_brackets h), string_of p).
Proof.
  intros E Hp. unfold splitHostPort. rewrite E, last_index_byte_app by (done || by apply port_no_colon).
  rewrite drop_app_length. cbn [validOptionalPort]. rewrite Hp. cbn [bool_decide andb].
  change (zb x3a =? 58) with true. cbn [andb]. rewrite take_app_length, <- Nat.add_1_r, <- drop_drop, drop_app_length.
  reflexivity.
Qed.

Lemma splitHostPort_none (s : string) :
  contains_byte 58 (bytes_of s) = false →
  splitHostPort s = (string_of (strip_brackets (bytes_of s)), ""%string).
Proof. intros H. unfold splitHostPort. by rewrite last_index_byte_None. Qed.

Lemma strip_brackets_wrap (h : bytes) : strip_brackets (x5b :: h ++ [x5d]) = h.
Proof.
  unfold strip_brackets. rewrite bool_decide_eq_true_2 by done. rewrite last_last.
  rewrite bool_decide_eq_true_2 by done. cbn [andb]. apply removelast_last.
Qed.

Lemma strip_brackets_plain (h : bytes) : head h ≠ Some x5b → strip_brackets h = h.
Proof.
  intros H. destruct h as [|x h]; [done|]. unfold strip_brackets.
  rewrite bool_decide_eq_false_2; [done|]. intros ->. by apply H.
Qed.

Lemma splitHostPort_bracketed (s : string) (h : bytes) :
  bytes_of s = x5b :: h ++ [x5d] → splitHostPort s = (string_of h, ""%string).
Proof.
  intros E. destruct (contains_byte 58 h) eqn:Hc.
  - apply split_last_colon in Hc as (a & b & -> & Hb).
    assert (E2 : bytes_of s = (x5b :: a) ++ x3a :: (b ++ [x5d])) by (rewrite E, <- app_assoc; done).
    unfold splitHostPort. rewrite E2, last_index_byte_app; [|by rewrite contains_byte_app, Hb|done].
    rewrite drop_app_length. cbn [validOptionalPort]. rewrite forallb_app. cbn [forallb].
    rewrite !andb_false_r. rewrite <- E2, E.
    change ((string_of (strip_brackets (x5b :: (a ++ x3a :: b) ++ [x5d])), ""%string) = (string_of (a ++ x3a :: b), ""%string)).
    by rewrite strip_brackets_wrap.
  - rewrite splitHostPort_none; rewrite E; [by rewrite strip_brackets_wrap|].
    cbn. change (contains_byte 58 (h ++ [x5d]) = false). by rewrite contains_byte_app, Hc.
Qed.

Lemma ContainsByte_colon s : ContainsByte s x3a = contains_byte 58 (bytes_of s).
Proof.
  unfold ContainsByte, contains_byte. induction (bytes_of s) as [|b l IH]; [done|]. cbn. rewrite IH. f_equal.
  destruct b; reflexivity.
Qed.


(** ** Lower case *)

Lemma lower_ascii_bytes (P : byte → Prop) c :
  (∀ d, between 97 122 d = true → P d) → P c → P (lower_ascii c).
Proof.
  intros Hl Hc. unfold lower_ascii. destruct (between 65 90 c) eqn:E; [|done]. apply Hl.
  unfold between in *. zbool. rewrite zb_byte_of by lia. apply andb_true_iff. split; apply Z.leb_le; lia.
Qed.

Lemma encode_rune_beyond r : 128 <= r <= 1114111 → Forall (λ c, 128 <= zb c) (encode_rune r).
Proof.
  intros Hr. unfold encode_rune. destruct (Z.ltb_spec r 128); [lia|].
  destruct (Z.ltb_spec r 2048); [|destruct (Z.ltb_spec r 65536)]; repeat constructor;
    rewrite zb_byte_of; pose proof (Z.mod_pos_bound r 64 ltac:(lia)); pose proof (Z.mod_pos_bound (r / 64) 64 ltac:(lia));
    pose proof (Z.mod_pos_bound (r / 4096) 64 ltac:(lia)); try lia;
    Z.div_mod_to_equations; lia.
Qed.

Section Lower.
Context `{UT : UnicodeTables} {UL : UnicodeLaws}.

Lemma lower_rune_bytes (P : byte → Prop) r :
  (∀ d, between 97 122 d = true → P d) → (∀ d, 128 <= zb d → P d) → 128 <= r <= 1114111 →
  Forall P (encode_rune (unicode_ToLower r)).
Proof.
  intros Hl Hb Hr. destruct (ToLower_beyond r Hr) as [H|H].
  - unfold encode_rune. rewrite (proj2 (Z.ltb_lt _ _)) by lia. constructor; [|constructor]. apply Hl.
    unfold between. rewrite zb_byte_of by lia. apply andb_true_iff. split; apply Z.leb_le; lia.
  - eapply Forall_impl; [by apply encode_rune_beyond|]. done.
Qed.

(** Lower-casing keeps a property of bytes that small letters and bytes beyond
    ASCII have. *)
Lemma ToLower_bytes (P : byte → Prop) s :
  (∀ d, between 97 122 d = true → P d) → (∀ d, 128 <= zb d → P d) →
  Forall P (bytes_of s) → Forall P (bytes_of (ToLower s)).
Proof.
  intros Hl Hb Hs. unfold ToLower. destruct (forallb _ _); rewrite bytes_of_string_of.
  { apply Forall_map. eapply Forall_impl; [exact Hs|]. intros c Hc. by apply lower_ascii_bytes. }
  revert Hs. pose proof (decode_good (bytes_of s)) as Hg. rewrite <- (encode_decode (bytes_of s)) at 1.
  unfold encode. induction Hg as [|c cs Hc _ IH]; [done|]. cbn [map concat]. rewrite !Forall_app. intros [H1 H2].
  split; [|by apply IH]. destruct c as [r enc|b]; cbn [chunk_rune chunk_bytes] in *.
  - destruct (good_rune_bytes r enc Hc) as [(b & -> & -> & Hlt)|[Hhigh Hlen]].
    + rewrite ToLower_ascii by (pose proof (zb_range b); lia).
      destruct ((65 <=? zb b) && (zb b <=? 90)) eqn:E.
      * zbool. unfold encode_rune. rewrite (proj2 (Z.ltb_lt _ _)) by lia. constructor; [|constructor]. apply Hl.
        unfold between. rewrite zb_byte_of by lia. apply andb_true_iff. split; apply Z.leb_le; lia.
      * unfold encode_rune. rewrite (proj2 (Z.ltb_lt _ _)) by lia. by rewrite byte_of_zb.
    + apply lower_rune_bytes; try done. split; [|by eapply good_rune_range].
      by eapply good_rune_high.
  - apply lower_rune_bytes; [done..|]. unfold RuneError. lia.
Qed.

(** A byte that is neither a letter nor beyond ASCII is kept. *)
Lemma ToLower_keeps c s : zb c < 65 → c ∈ bytes_of s → c ∈ bytes_of (ToLower s).
Proof.
  intros Hc Hin. assert (Hlc : lower_ascii c = c).
  { unfold lower_ascii, between. by rewrite (proj2 (Z.leb_gt _ _)). }
  unfold ToLower. destruct (forallb _ _); rewrite bytes_of_string_of.
  { apply list_elem_of_In, in_map_iff. exists c. split; [done|by apply list_elem_of_In]. }
  revert Hin. pose proof (decode_good (bytes_of s)) as Hg. pose proof (decode_bad (bytes_of s)) as Hbad.
  rewrite <- (encode_decode (bytes_of s)) at 1. revert Hbad.
  unfold encode. induction Hg as [|x cs Hx _ IH]; [done|]. cbn [map concat]. rewrite !elem_of_app.
  intros [Hb Hbad]%Forall_cons [Hin|Hin]; [left|by right; apply IH]. destruct x as [r enc|b]; cbn [chunk_rune chunk_bytes] in *.
  - destruct (good_rune_bytes r enc Hx) as [(b & -> & -> & Hlt)|[Hhigh _]].
    + apply list_elem_of_singleton in Hin as <-. rewrite ToLower_ascii by (pose proof (zb_range c); lia).
      rewrite (proj2 (Z.leb_gt 65 (zb c))) by lia. cbn [andb]. unfold encode_rune. rewrite (proj2 (Z.ltb_lt _ _)) by lia.
      rewrite byte_of_zb. left.
    + exfalso. rewrite forallb_forall in Hhigh. apply list_elem_of_In in Hin. apply Hhigh in Hin. zbool. lia.
  - exfalso. apply list_elem_of_singleton in Hin as ->. lia.
Qed.
End Lower.

(** ** IP literals *)

(** The bytes of an IPv6 literal without a zone. *)
Definition literal_byte (c : byte) : bool :=
  match hex_value c with Some _ => true | None => (zb c =? 58) || (zb c =? 46) end.

Lemma lower_values c : hex_value (lower_ascii c) = hex_value c ∧ digit_value (lower_ascii c) = digit_value c.
Proof. by destruct c. Qed.

Lemma lower_marks c :
  (zb (lower_ascii c) =? 46) = (zb c =? 46) ∧ (zb (lower_ascii c) =? 58) = (zb c =? 58)
  ∧ (zb (lower_ascii c) =? 37) = (zb c =? 37).
Proof. by destruct c. Qed.

Lemma map_nil_decide {A B} `{EqDecision A} `{EqDecision B} (f : A → B) l : bool_decide (map f l = []) = bool_decide (l = []).
Proof. by destruct l. Qed.

Lemma parseIPv4Fields_lower s fields val n :
  parseIPv4Fields (map lower_ascii s) fields val n = parseIPv4Fields s fields val n.
Proof.
  revert fields val n. induction s as [|c s IH]; intros fields val n; [done|]. cbn [map parseIPv4Fields].
  destruct (lower_values c) as [_ ->], (lower_marks c) as (-> & _ & _). destruct (digit_value c).
  - repeat case_match; first [done|apply IH].
  - rewrite map_nil_decide. repeat case_match; first [done|apply IH].
Qed.

Definition lower_rest {A} (x : A * bytes) : A * bytes := (x.1, map lower_ascii x.2).

Lemma hex_group_lower s off acc : hex_group (map lower_ascii s) off acc = lower_rest <$> hex_group s off acc.
Proof.
  revert off acc. induction s as [|c s IH]; intros off acc; [done|]. cbn [map hex_group].
  destruct (lower_values c) as [-> _]. destruct (hex_value c); [|done]. destruct (3 <? off); [done|]. apply IH.
Qed.

Lemma parse_groups_lower fuel s groups ellipsis :
  parse_groups fuel (map lower_ascii s) groups ellipsis = lower_rest <$> parse_groups fuel s groups ellipsis.
Proof.
  revert s groups ellipsis. induction fuel as [|fuel IH]; intros s groups ellipsis; [done|]. cbn [parse_groups].
  rewrite hex_group_lower. destruct (hex_group s 0 0) as [[[acc off] rest]|]; [|done]. cbn.
  destruct (off =? 0); [done|]. destruct rest as [|c rest]; [done|]. cbn [map].
  destruct (lower_marks c) as (-> & -> & _). destruct (zb c =? 46).
  { rewrite parseIPv4Fields_lower. destruct (parseIPv4Fields s [] 0 0); by repeat case_match. }
  destruct (negb (zb c =? 58)); [done|]. destruct rest as [|c1 s2]; [done|]. cbn [map].
  destruct (lower_marks c1) as (_ & -> & _). destruct (zb c1 =? 58); [|apply (IH (c1 :: s2))].
  rewrite map_nil_decide. repeat case_match; first [done|apply IH].
Qed.

Lemma cut_zone_none s : contains_byte 37 s = false → cut_zone s = (s, None).
Proof.
  induction s as [|c s IH]; [done|]. cbn. intros [Hc Hs]%orb_false_iff. rewrite Hc. by rewrite IH.
Qed.

Lemma contains_byte_lower c s : c ∈ [37; 46; 58] → contains_byte c (map lower_ascii s) = contains_byte c s.
Proof.
  intros Hc. unfold contains_byte. induction s as [|x s IH]; [done|]. cbn [map existsb]. rewrite IH. f_equal.
  destruct (lower_marks x) as (E1 & E2 & E3). rewrite !elem_of_cons, elem_of_nil in Hc.
  by destruct Hc as [->|[->|[->|[]]]].
Qed.

Lemma parseIPv6_lower s : contains_byte 37 s = false → parseIPv6 (map lower_ascii s) = parseIPv6 s.
Proof.
  intros Hs. unfold parseIPv6. rewrite !cut_zone_none by (done || by rewrite contains_byte_lower by decide_in).
  rewrite (bool_decide_eq_false_2 (@None bytes = Some [])) by done. cbn zeta.
  destruct s as [|c0 [|c1 s]]; [done| |]; cbn [map].
  - change [lower_ascii c0] with (map lower_ascii [c0]). rewrite parse_groups_lower.
    destruct (parse_groups 8 [c0] [] None) as [[[g e] rest]|]; [|done]. cbn. by rewrite map_nil_decide.
  - destruct (lower_marks c0) as (_ & -> & _), (lower_marks c1) as (_ & -> & _). rewrite map_nil_decide.
    destruct (_ && bool_decide (s = [])); [done|].
    destruct ((zb c0 =? 58) && (zb c1 =? 58)).
    + rewrite parse_groups_lower. destruct (parse_groups _ _ _ _) as [[[g e] rest]|]; [|done]. cbn. by rewrite map_nil_decide.
    + change (lower_ascii c0 :: lower_ascii c1 :: map lower_ascii s) with (map lower_ascii (c0 :: c1 :: s)).
      rewrite parse_groups_lower. destruct (parse_groups _ _ _ _) as [[[g e] rest]|]; [|done]. cbn. by rewrite map_nil_decide.
Qed.

Lemma parseIPv4_Is4 s a : parseIPv4 s = Some a → Is4 a = true.
Proof. unfold parseIPv4. destruct (parseIPv4Fields s [] 0 0); [|done]. by intros [= <-]. Qed.

(** A literal that is not an IPv4 address goes through the parser of IPv6. *)
Lemma ParseAddr_six s a : parse_kind s s = Some a → Is4 a = false → contains_byte 58 s = true ∧ parseIPv6 s = Some a.
Proof.
  assert (H : ∀ l, parse_kind s l = Some a → Is4 a = false → contains_byte 58 l = true ∧ parseIPv6 s = Some a); [|apply H].
  induction l as [|c l IH]; [done|]. cbn. destruct (zb c =? 46); [by intros ->%parseIPv4_Is4|].
  destruct (zb c =? 58); [done|]. by destruct (zb c =? 37).
Qed.

Lemma parse_kind_lower all l a :
  contains_byte 37 all = false → Is4 a = false → parse_kind all l = Some a →
  parse_kind (map lower_ascii all) (map lower_ascii l) = Some a.
Proof.
  intros Hall H4. induction l as [|c l IH]; [done|]. cbn [map parse_kind].
  destruct (lower_marks c) as (-> & -> & ->). destruct (zb c =? 46).
  { intros H%parseIPv4_Is4. congruence. }
  destruct (zb c =? 58); [by rewrite parseIPv6_lower|]. by destruct (zb c =? 37).
Qed.

Lemma parseIPv4Fields_dot s fields val n : parseIPv4Fields (s ++ [x2e]) fields val n = None.
Proof.
  revert fields val n. induction s as [|c s IH]; intros fields val n; cbn [app parseIPv4Fields].
  - cbn. by rewrite orb_true_r.
  - destruct (digit_value c); repeat case_match; first [done|apply IH].
Qed.

Lemma hex_group_split s off acc a o r : hex_group s off acc = Some (a, o, r) →
  ∃ h, s = h ++ r ∧ Forall (λ c, literal_byte c = true) h.
Proof.
  revert off acc. induction s as [|c s IH]; intros off acc; cbn [hex_group]; [by intros [= <- <- <-]; exists []|].
  destruct (hex_value c) eqn:Ec; [|by intros [= <- <- <-]; exists []]. destruct (3 <? off); [done|].
  intros (h & -> & Hh)%IH. exists (c :: h). split; [done|]. constructor; [|done]. unfold literal_byte. by rewrite Ec.
Qed.

Lemma hex_group_dot s off acc a o r : hex_group (s ++ [x2e]) off acc = Some (a, o, r) → ∃ r', r = r' ++ [x2e].
Proof.
  revert off acc. induction s as [|c s IH]; intros off acc; cbn [app hex_group]; [by intros [= <- <- <-]; exists []|].
  destruct (hex_value c); [|by intros [= <- <- <-]; exists (c :: s)]. destruct (3 <? off); [done|]. apply IH.
Qed.

Lemma parse_groups_dot fuel s groups ellipsis g e rest :
  parse_groups fuel (s ++ [x2e]) groups ellipsis = Some (g, e, rest) → rest ≠ [].
Proof.
  revert s groups ellipsis. induction fuel as [|fuel IH]; intros s groups ellipsis; cbn [parse_groups].
  { intros [= <- <- <-]. by destruct s. }
  destruct (hex_group (s ++ [x2e]) 0 0) as [[[acc off] r]|] eqn:Eh; [|done]. cbn.
  apply hex_group_dot in Eh as [r' ->]. destruct (off =? 0); [done|].
  destruct r' as [|c r']; cbn [app].
  { change (zb x2e =? 46) with true. cbv iota. rewrite parseIPv4Fields_dot. by repeat case_match. }
  destruct (zb c =? 46). { rewrite parseIPv4Fields_dot. by repeat case_match. }
  destruct (negb (zb c =? 58)); [done|].
  destruct r' as [|c1 r']; cbn [app].
  { change (zb x2e =? 58) with false. cbv iota. apply (IH []). }
  destruct (zb c1 =? 58); [|apply (IH (c1 :: r'))].
  destruct (negb _); [done|]. rewrite bool_decide_eq_false_2 by (by destruct r'). apply IH.
Qed.

(** No address ends in a dot. *)
Lemma parseIPv6_dot s : contains_byte 37 s = false → parseIPv6 (s ++ [x2e]) = None.
Proof.
  intros Hs. unfold parseIPv6. rewrite cut_zone_none by (by rewrite contains_byte_app, Hs).
  rewrite (bool_decide_eq_false_2 (@None bytes = Some [])) by done. cbn zeta.
  assert (H : ∀ s g e, ('(groups, ellipsis, rest) ← parse_groups 8 (s ++ [x2e]) g e;
    if negb (bool_decide (rest = [])) then None
    else gs ← expand_groups groups ellipsis; Some (Addr6 (number_of 65536 gs) (string_of (default [] None)))) = None).
  { intros t g e. destruct (parse_groups 8 (t ++ [x2e]) g e) as [[[g' e'] r]|] eqn:E; [|done]. cbn.
    apply parse_groups_dot in E. by rewrite bool_decide_eq_false_2. }
  destruct s as [|c0 [|c1 s]]; cbn [app].
  - apply (H []).
  - change (zb x2e =? 58) with false. rewrite andb_false_r. cbn [andb]. apply (H [c0]).
  - rewrite (bool_decide_eq_false_2 (s ++ [x2e] = [])) by (by destruct s). rewrite andb_false_r.
    destruct (_ && _); [apply H|apply (H (c0 :: c1 :: s))].
Qed.

Lemma parseIPv4Fields_literal s fields val n l : parseIPv4Fields s fields val n = Some l → Forall (λ c, literal_byte c = true) s.
Proof.
  revert fields val n. induction s as [|c s IH]; intros fields val n; cbn [parseIPv4Fields]; [done|]. intros H. constructor.
  - unfold literal_byte. destruct (digit_value c) eqn:Ed; [by revert Ed; clear; destruct c|].
    destruct (negb (zb c =? 46)) eqn:E; [done|]. zbool. rewrite (proj2 (Z.eqb_eq _ _) E), orb_true_r. by destruct (hex_value c).
  - destruct (digit_value c); repeat case_match; try done; by eapply IH.
Qed.

Lemma parse_groups_literal fuel s groups ellipsis g e :
  parse_groups fuel s groups ellipsis = Some (g, e, []) → Forall (λ c, literal_byte c = true) s.
Proof.
  revert s groups ellipsis. induction fuel as [|fuel IH]; intros s groups ellipsis; cbn [parse_groups]; [by intros [= <- <- ->]|].
  destruct (hex_group s 0 0) as [[[acc off] r]|] eqn:Eh; [|done]. cbn. destruct (off =? 0); [done|].
  destruct r as [|c r].
  { apply hex_group_split in Eh as (h & -> & Hh). by rewrite app_nil_r. }
  destruct (zb c =? 46).
  { destruct (parseIPv4Fields s [] 0 0) eqn:E4; [intros _; by apply parseIPv4Fields_literal in E4|by repeat case_match]. }
  apply hex_group_split in Eh as (h & -> & Hh).
  assert (Hcolon : ∀ x, (zb x =? 58) = true → literal_byte x = true).
  { intros x Hx. unfold literal_byte. rewrite Hx. by destruct (hex_value x). }
  destruct (zb c =? 58) eqn:Ec; cbn [negb]; [|done]. destruct r as [|c1 r]; [done|].
  intros H. apply Forall_app. split; [done|]. constructor; [by apply Hcolon|].
  destruct (zb c1 =? 58) eqn:Ec1; [|by eapply IH]. constructor; [by apply Hcolon|].
  destruct (negb _) in H; [done|]. destruct (bool_decide_reflect (r = [])) as [->|]; [done|]. by eapply IH.
Qed.

Lemma parseIPv6_literal s a : contains_byte 37 s = false → parseIPv6 s = Some a → Forall (λ c, literal_byte c = true) s.
Proof.
  intros Hs. unfold parseIPv6. rewrite cut_zone_none by done.
  rewrite (bool_decide_eq_false_2 (@None bytes = Some [])) by done. cbn zeta.
  assert (H : ∀ s g e, ('(groups, ellipsis, rest) ← parse_groups 8 s g e;
    if negb (bool_decide (rest = [])) then None
    else gs ← expand_groups groups ellipsis; Some (Addr6 (number_of 65536 gs) (string_of (default [] None)))) = Some a →
    Forall (λ c, literal_byte c = true) s).
  { intros t g e. destruct (parse_groups 8 t g e) as [[[g' e'] r]|] eqn:E; [|done]. cbn.
    destruct (bool_decide_reflect (r = [])) as [->|]; [|done]. intros _. by eapply parse_groups_literal. }
  destruct s as [|c0 [|c1 s]]; [apply (H [])|apply (H [c0])|].
  destruct ((zb c0 =? 58) && (zb c1 =? 58)) eqn:E; [|apply (H (c0 :: c1 :: s))]. zbool. intros Ha.
  assert (Hc : ∀ x, zb x = 58 → literal_byte x = true).
  { intros x Hx. unfold literal_byte. rewrite Hx. by destruct (hex_value x). }
  constructor; [by apply Hc|]. constructor; [by apply Hc|]. cbn [andb] in Ha.
  destruct (bool_decide_reflect (s = [])) as [->|]; [done|]. by eapply H.
Qed.

(** ** The two forms of a host *)

Section Forms.
Context `{UX : UnicodeText}.

(** The bytes of a name, decoded: no bracket and no colon. *)
Definition name_byte (c : byte) : bool := host_byte c && negb (zb c =? 58) && negb (zb c =? 91).

Definition literal_ok (l : bytes) : Prop := ∃ a, ParseAddr (string_of l) = Some a ∧ Is4 a = false.

Definition name_host (host name port : bytes) : Prop :=
  host = name ++ port ∧ Forall (λ c, name_byte c = true ∨ zb c = 37) name.
Definition literal_host (host lit port : bytes) : Prop :=
  host = x5b :: lit ++ x5d :: port ∧ literal_ok lit.

Lemma port_cases port : validOptionalPort port = true → port = [] ∨ ∃ ds, port = x3a :: ds ∧ forallb (between 48 57) ds = true.
Proof.
  destruct port as [|c ds]; [by left|]. cbn. intros H. zbool. right. exists ds. split; [|done]. f_equal. by apply zb_inj.
Qed.

Lemma port_bytes port c : validOptionalPort port = true → c ∈ port → host_byte c = true ∧ shouldEscape c encodeHost = false ∧ zb c <= 58.
Proof.
  intros [->|(ds & -> & Hd)]%port_cases; [by intros ?%elem_of_nil|]. intros [->|Hin]%elem_of_cons; [done|].
  rewrite forallb_forall in Hd. apply list_elem_of_In, Hd in Hin. revert Hin. clear. destruct c; vm_compute; (done || by intros [=]).
Qed.

Lemma unescape_plain s : Forall (λ c, zb c ≠ 37 ∧ shouldEscape c encodeHost = false) s → unescape encodeHost s = Ok s.
Proof.
  induction 1 as [|c s [H1 H2] _ IH]; [done|]. cbn [unescape]. rewrite (proj2 (Z.eqb_neq _ _) H1), H2, andb_false_r, IH.
  cbn. by rewrite andb_false_r.
Qed.

Lemma unescape_port port : validOptionalPort port = true → unescape encodeHost port = Ok port.
Proof.
  intros Hp. apply unescape_plain, Forall_forall. intros c Hc. destruct (port_bytes _ _ Hp Hc) as (_ & H & Hz). split; [|done].
  intros E. apply zb_inj with (b := x25) in E as ->. done.
Qed.

(** Decoding stops at a byte that is no hexadecimal digit. *)
Lemma unescape_app a c b l : zb c ≠ 37 → hex_value c = None → unescape encodeHost (a ++ c :: b) = Ok l →
  ∃ la lb, unescape encodeHost a = Ok la ∧ unescape encodeHost (c :: b) = Ok lb ∧ l = la ++ lb.
Proof.
  intros Hc Hx. revert l. induction a as [a IH] using (induction_ltof1 _ length). unfold ltof in IH. intros l.
  destruct a as [|x a]; [intros H; by exists [], l|]. cbn [app]. cbn [unescape]. destruct (zb x =? 37) eqn:Ex.
  - destruct a as [|h a].
    { cbn [app]. rewrite Hx. by destruct b. }
    destruct a as [|d a].
    { cbn [app]. rewrite Hx. by destruct (hex_value h). }
    cbn [app]. destruct (hex_value h) as [vh|]; [|done]. destruct (hex_value d) as [vd|]; [|done].
    destruct (bad_escape _ _); [done|]. intros (r & Hr & [= <-])%res_bind_Ok.
    apply IH in Hr as (la & lb & H1 & H2 & ->); [|cbn; lia]. rewrite H1. cbn. eauto.
  - destruct (_ && _); [done|]. intros (r & Hr & [= <-])%res_bind_Ok.
    apply IH in Hr as (la & lb & H1 & H2 & ->); [|cbn; lia]. rewrite H1. cbn. eauto.
Qed.

(** An ASCII byte other than the percent sign was there before decoding. *)
Lemma unescape_elem a l c : unescape encodeHost a = Ok l → c ∈ l → zb c < 128 → zb c ≠ 37 → c ∈ a.
Proof.
  revert l. induction a as [a IH] using (induction_ltof1 _ length). unfold ltof in IH. intros l H Hin Hc Hp.
  destruct a as [|x a]; [by injection H as <-|]. cbn [unescape] in H. destruct (zb x =? 37) eqn:Ex.
  - destruct a as [|h [|d a]]; [done..|]. destruct (hex_value h) as [vh|] eqn:Eh; [|done].
    destruct (hex_value d) as [vd|] eqn:Ed; [|done]. apply hex_value_range in Eh, Ed.
    destruct (bad_escape _ _) eqn:Eb; [done|]. apply res_bind_Ok in H as (r & Hr & [= <-]).
    apply elem_of_cons in Hin as [->|Hin].
    + exfalso. rewrite zb_byte_of in * by lia. cbn in Eb. rewrite (proj2 (Z.ltb_lt _ _) Hc) in Eb. cbn in Eb. zbool. done.
    + do 3 apply elem_of_cons, or_intror. by eapply (IH a); [cbn; lia|..].
  - destruct (_ && _) in H; [done|]. apply res_bind_Ok in H as (r & Hr & [= <-]). rewrite andb_false_r in Hin.
    apply elem_of_cons in Hin as [->|Hin]; [left|right]. by eapply (IH a); [cbn; lia|..].
Qed.

Lemma contains_byte_spec z s : contains_byte z s = true ↔ ∃ c, c ∈ s ∧ zb c = z.
Proof.
  unfold contains_byte. rewrite existsb_exists. split; intros (c & H1 & H2); exists c; rewrite list_elem_of_In in *; by zbool || (split; [done|by apply Z.eqb_eq]).
Qed.

Lemma contains_byte_absent c s : c ∉ s ↔ contains_byte (zb c) s = false.
Proof.
  rewrite <- not_true_iff_false, contains_byte_spec. split; [|intros H Hin; apply H; by exists c].
  intros H (d & Hd & E). apply zb_inj in E as ->. done.
Qed.

Lemma name_bytes_of authority name :
  unescape encodeHost authority = Ok name → contains_byte 58 authority = false → contains_byte 91 authority = false →
  Forall (λ c, name_byte c = true ∨ zb c = 37) name.
Proof.
  intros Hu H58 H91. apply Forall_forall. intros c Hc. destruct (unescape_host_byte _ _ _ Hu Hc) as [Hb|]; [|by right].
  assert (Hin : zb c < 128 → zb c ≠ 37 → c ∈ authority) by (intros; by eapply unescape_elem).
  destruct (Z.eqb_spec (zb c) 37); [by right|left]. unfold name_byte. rewrite Hb. cbn [andb].
  apply andb_true_iff. split; apply negb_true_iff, Z.eqb_neq; intros E;
    (rewrite E in Hin; specialize (Hin ltac:(lia) ltac:(lia)); apply contains_byte_absent in Hin; [done|]; by rewrite E).
Qed.

Lemma index_byte_split z s i : index_byte z s = Some i → ∃ a c b, s = a ++ c :: b ∧ zb c = z ∧ length a = i ∧ contains_byte z a = false.
Proof.
  unfold index_byte. destruct (list_find _ s) as [[j c]|] eqn:E; [|done]. intros [= <-].
  apply list_find_Some in E as (Hj & Hc & Hn). exists (take j s), c, (drop (S j) s). split_and!.
  - symmetry. by apply take_drop_middle.
  - done.
  - rewrite length_take. apply lookup_lt_Some in Hj. lia.
  - apply not_true_iff_false. intros (d & Hd & Hz)%contains_byte_spec.
    apply list_elem_of_lookup in Hd as [k Hk]. rewrite lookup_take_Some in Hk. destruct Hk as [Hk Hlt].
    by eapply (Hn k d).
Qed.

Lemma index_byte_absent_None z s : index_byte z s = None → contains_byte z s = false.
Proof.
  intros H. apply not_true_iff_false. intros (c & Hc & Hz)%contains_byte_spec. unfold index_byte in H.
  destruct (list_find _ s) eqn:E; [done|]. apply list_find_None in E. rewrite Forall_forall in E. by apply (E c).
Qed.

Lemma last_index_byte_split z s i : last_index_byte z s = Some i →
  ∃ a c b, s = a ++ c :: b ∧ zb c = z ∧ length a = i ∧ contains_byte z b = false.
Proof.
  unfold last_index_byte. destruct (index_byte z (rev s)) as [j|] eqn:E; [|done]. intros [= <-].
  apply index_byte_split in E as (a & c & b & E & Hz & Hl & Hn). exists (rev b), c, (rev a).
  apply (f_equal (@rev byte)) in E. rewrite rev_involutive, rev_app_distr in E. cbn [rev] in E. rewrite <- app_assoc in E.
  split_and!; [done|done| |by rewrite contains_byte_rev]. rewrite E, !length_app, !length_rev. cbn. lia.
Qed.

Lemma last_index_byte_absent_None z s : last_index_byte z s = None → contains_byte z s = false.
Proof.
  unfold last_index_byte. destruct (index_byte z (rev s)) eqn:E; [done|]. intros _.
  apply index_byte_absent_None in E. by rewrite contains_byte_rev in E.
Qed.

Lemma parseHost_name_form scheme authority host :
  http_scheme scheme → last_index_byte 91 authority = None → parseHost scheme authority = Ok host →
  ∃ name port, name_host host name port ∧ validOptionalPort port = true.
Proof.
  intros Hs E91. unfold parseHost. rewrite E91. apply last_index_byte_absent_None in E91.
  assert (Hin : scheme ∈ [bytes_of "http"; bytes_of "https"]) by (destruct Hs as [->| ->]; decide_in).
  destruct (index_byte 58 authority) as [first|] eqn:E58.
  - destruct (last_index_byte 58 authority) as [last|] eqn:El.
    + rewrite bool_decide_eq_true_2 by done. cbv zeta. destruct (validOptionalPort (drop first authority)) eqn:Ep; [|done].
      cbn [negb]. apply index_byte_split in E58 as (a & c & b & -> & Hc & <- & Ha). rewrite drop_app_length in Ep.
      intros Hu. apply unescape_app in Hu as (la & lb & H1 & H2 & ->); [|lia|apply zb_inj with (b := x3a) in Hc as ->; done].
      rewrite (unescape_port _ Ep) in H2. injection H2 as <-. exists la, (c :: b). split; [|done]. split; [done|].
      rewrite contains_byte_app in E91. apply orb_false_iff in E91 as [E91 _]. by eapply name_bytes_of.
    + apply last_index_byte_absent_None in El. apply index_byte_split in E58 as (a & c & b & -> & Hc & _ & _).
      rewrite contains_byte_app in El. apply orb_false_iff in El as [_ El]. cbn in El. by rewrite Hc in El.
  - apply index_byte_absent_None in E58. intros Hu. exists host, []. split; [|done]. split; [by rewrite app_nil_r|].
    by eapply name_bytes_of.
Qed.

Lemma parseHost_literal_form scheme authority host i :
  last_index_byte 91 authority = Some i → parseHost scheme authority = Ok host →
  ∃ lit port, literal_host host lit port ∧ validOptionalPort port = true.
Proof.
  intros E91. unfold parseHost. rewrite E91. destruct i; [|done].
  destruct (last_index_byte 93 authority) as [close|]; [|done]. destruct (validOptionalPort _) eqn:Ep; [|done]. cbn [negb].
  rewrite (unescape_port _ Ep). intros (p & [= <-] & H)%res_bind_Ok. apply res_bind_Ok in H as (lit & _ & H).
  destruct (ParseAddr (string_of lit)) as [a|] eqn:Ea; [|done]. destruct (Is4 a) eqn:E4; [done|]. injection H as <-.
  exists lit, (drop (S close) authority). split; [|done]. split; [done|]. by exists a.
Qed.

(** ** Hosts that parse back *)

Lemma escape_app a b mode : escape (a ++ b) mode = escape a mode ++ escape b mode.
Proof. unfold escape. by rewrite map_app, concat_app. Qed.

Lemma escape_plain s mode : Forall (λ c, shouldEscape c mode = false) s → escape s mode = s.
Proof.
  unfold escape. induction 1 as [|c s Hc _ IH]; [done|]. cbn [map concat]. unfold escape_byte at 1. rewrite Hc. cbn. by rewrite IH.
Qed.

Lemma escape_port port : validOptionalPort port = true → escape port encodeHost = port.
Proof. intros Hp. apply escape_plain, Forall_forall. intros c Hc. by apply (port_bytes port). Qed.

Lemma port_contains z port : validOptionalPort port = true → 58 < z → contains_byte z port = false.
Proof.
  intros Hp Hz. apply not_true_iff_false. intros (c & Hc & E)%contains_byte_spec. apply (port_bytes _ _ Hp) in Hc. lia.
Qed.

Lemma escape_name_byte c : name_byte c = true →
  clean [x23; x2f; x3f; x40; x3a; x5b] (escape_byte encodeHost c) ∧ printable_in encodeHost c = true.
Proof.
  intros H. split; [|by unfold name_byte in H; zbool]. apply clean_Forall. revert H. clear.
  destruct c; first [intros H; discriminate H|intros _; decide_in].
Qed.

Lemma escape_name_clean name : Forall (λ c, name_byte c = true) name →
  clean [x23; x2f; x3f; x40; x3a; x5b] (escape name encodeHost) ∧ forallb (printable_in encodeHost) name = true.
Proof.
  unfold escape. induction 1 as [|c name Hc _ [IH1 IH2]]; [split; [apply clean_nil|done]|]. cbn [map concat forallb].
  destruct (escape_name_byte c Hc) as [H1 H2]. split; [by apply clean_app|by rewrite H2].
Qed.

Lemma port_clean port : validOptionalPort port = true → clean [x23; x2f; x3f; x40] port.
Proof.
  intros [->|(ds & -> & Hd)]%port_cases; [apply clean_nil|]. apply clean_cons. split_and!; [done|decide_in|].
  apply clean_Forall, Forall_forall. intros c Hc. rewrite forallb_forall in Hd. apply list_elem_of_In, Hd in Hc.
  revert Hc. clear. destruct c; first [intros H; discriminate H|intros _; decide_in].
Qed.

Lemma port_printable port : validOptionalPort port = true → forallb (printable_in encodeHost) port = true.
Proof. intros Hp. apply forallb_forall. intros c Hc. by apply (port_bytes port c Hp), list_elem_of_In. Qed.

Lemma parseHost_name scheme name port :
  http_scheme scheme → Forall (λ c, name_byte c = true) name → validOptionalPort port = true →
  parseHost scheme (escape (name ++ port) encodeHost) = Ok (name ++ port)
  ∧ clean [x23; x2f; x3f; x40] (escape (name ++ port) encodeHost).
Proof.
  intros Hs Hn Hp. destruct (escape_name_clean _ Hn) as [Hc Hpr].
  assert (Hu : unescape encodeHost (escape (name ++ port) encodeHost) = Ok (name ++ port)).
  { apply unescape_escape. rewrite forallb_app, Hpr. by apply port_printable. }
  rewrite escape_app, (escape_port port Hp) in *. split.
  - unfold parseHost. destruct Hc as [_ Hc].
    assert (H58 : contains_byte 58 (escape name encodeHost) = false) by (apply (contains_byte_absent x3a), Hc; decide_in).
    rewrite last_index_byte_None.
    2: { rewrite contains_byte_app, (port_contains _ _ Hp), orb_false_r by lia. apply (contains_byte_absent x5b), Hc. decide_in. }
    rewrite bool_decide_eq_true_2 by (destruct Hs as [->| ->]; decide_in).
    destruct (port_cases _ Hp) as [->|(ds & -> & Hd)].
    + rewrite app_nil_r in *. by rewrite index_byte_None by done.
    + rewrite index_byte_app, last_index_byte_app; [|by apply port_no_colon|done|done|done].
      cbv zeta. rewrite drop_app_length, Hp. done.
  - apply clean_app. split; [eapply clean_weaken; [|exact Hc]; set_solver|by apply port_clean].
Qed.

Lemma zone_index_none s : contains_byte 37 s = false → zone_index s = None.
Proof.
  induction s as [|c s IH]; [done|]. cbn. intros [Hc Hs]%orb_false_iff. zbool. unfold prefix_of.
  rewrite bool_decide_eq_false_2 by (cbn [length take]; intros [= -> _]; done). by rewrite IH.
Qed.

Lemma literal_byte_plain c : literal_byte c = true →
  zb c ≠ 37 ∧ zb c ≠ 91 ∧ zb c ≠ 93 ∧ shouldEscape c encodeHost = false ∧ printable_in encodeHost c = true
  ∧ control c = false ∧ c ∉ [x23; x2f; x3f; x40].
Proof.
  destruct c; first [intros H; discriminate H|intros _; split_and!; first [discriminate|reflexivity|decide_in]].
Qed.

Lemma parseHost_literal scheme lit port :
  Forall (λ c, literal_byte c = true) lit → literal_ok lit → validOptionalPort port = true →
  let host := x5b :: lit ++ x5d :: port in
  parseHost scheme (escape host encodeHost) = Ok host ∧ clean [x23; x2f; x3f; x40] (escape host encodeHost).
Proof.
  intros Hl (a & Ha & H4) Hp host.
  assert (Hno : ∀ z, z ∈ [37; 91; 93] → contains_byte z lit = false).
  { intros z Hz. apply not_true_iff_false. intros (c & Hc & E)%contains_byte_spec. rewrite Forall_forall in Hl.
    apply Hl, literal_byte_plain in Hc as (H1 & H2 & H3 & _). rewrite !elem_of_cons, elem_of_nil in Hz. intuition congruence. }
  assert (Hesc : escape host encodeHost = host).
  { apply escape_plain. subst host. constructor; [done|]. apply Forall_app. split.
    - eapply Forall_impl; [exact Hl|]. intros c Hc. by apply literal_byte_plain.
    - constructor; [done|]. apply Forall_forall. intros c Hc. by apply (port_bytes port). }
  rewrite Hesc. subst host. split.
  - unfold parseHost. change (x5b :: lit ++ x5d :: port) with ([] ++ x5b :: (lit ++ x5d :: port)).
    rewrite last_index_byte_app; [|rewrite contains_byte_app, Hno by decide_in; cbn; by apply port_contains|done].
    cbn [app length]. change (x5b :: lit ++ x5d :: port) with ((x5b :: lit) ++ x5d :: port).
    rewrite last_index_byte_app; [|by apply port_contains|done].
    rewrite take_app_length, <- Nat.add_1_r, <- drop_drop, drop_app_length. cbn [drop skipn]. rewrite drop_0, Hp. cbn [negb].
    rewrite (unescape_port _ Hp). cbn [mbind res_bind]. unfold unescape_literal.
    rewrite zone_index_none by (apply Hno; decide_in). rewrite unescape_plain.
    2: { eapply Forall_impl; [exact Hl|]. intros c Hc. apply literal_byte_plain in Hc. tauto. }
    cbn [mbind res_bind]. by rewrite !drop_0, Ha, H4.
  - apply clean_cons. split_and!; [done|decide_in|]. apply clean_app. split.
    + apply clean_Forall. eapply Forall_impl; [exact Hl|]. intros c Hc. apply literal_byte_plain in Hc. tauto.
    + apply clean_cons. split_and!; [done|decide_in|by apply port_clean].
Qed.

(** ** What the normalisation of a host keeps *)

Context `{UT : UnicodeTables} {UL : UnicodeLaws}.

Lemma TrimSuffix_dot s : TrimSuffix s "." = s ∨ bytes_of s = bytes_of (TrimSuffix s ".") ++ [x2e].
Proof.
  unfold TrimSuffix. destruct (HasSuffix s ".") eqn:E; [right|by left]. unfold HasSuffix, prefix_of in E. zbool.
  cbn in E. rewrite bytes_of_string_of. rewrite <- (rev_involutive (bytes_of s)).
  destruct (rev (bytes_of s)) as [|c r] eqn:Er; [done|]. cbn in E. injection E as ->. cbn [rev].
  assert (Hl : String.length s = S (length r)) by (rewrite <- length_bytes_of, <- (length_rev (bytes_of s)), Er; done).
  rewrite Hl. cbn [String.length]. rewrite Nat.sub_succ, Nat.sub_0_r. rewrite <- (length_rev r), take_app_length. done.
Qed.

Lemma TrimSuffix_Forall (P : byte → Prop) s : Forall P (bytes_of s) → Forall P (bytes_of (TrimSuffix s ".")).
Proof. destruct (TrimSuffix_dot s) as [->|E]; [done|]. rewrite E. by intros [? _]%Forall_app. Qed.

(** A percent sign in a host is still there after trimming and lower-casing. *)
Lemma no_percent s : ContainsByte (ToLower (TrimSuffix s ".")) x25 = false → x25 ∉ bytes_of s.
Proof.
  unfold ContainsByte. intros H Hin. apply not_true_iff_false in H. apply H, existsb_exists. exists x25.
  split; [|by apply bool_decide_eq_true]. apply list_elem_of_In, ToLower_keeps; [done|].
  destruct (TrimSuffix_dot s) as [->|E]; [done|]. rewrite E in Hin. apply elem_of_app in Hin as [?|Hin]; [done|].
  by apply list_elem_of_singleton in Hin.
Qed.

Lemma lower_name s :
  Forall (λ c, name_byte c = true ∨ zb c = 37) (bytes_of s) → x25 ∉ bytes_of s →
  Forall (λ c, name_byte c = true) (bytes_of (ToLower (TrimSuffix s "."))).
Proof.
  intros Hs Hn. apply ToLower_bytes.
  - clear. intros d. destruct d; (discriminate || reflexivity).
  - clear. intros d. destruct d; first [intros H; exfalso; apply H; reflexivity|reflexivity].
  - apply TrimSuffix_Forall, Forall_forall. intros c Hc. rewrite Forall_forall in Hs. destruct (Hs c Hc) as [|E]; [done|].
    by apply zb_inj with (b := x25) in E as ->.
Qed.

Lemma ToLower_literal s : Forall (λ c, literal_byte c = true) (bytes_of s) → bytes_of (ToLower s) = map lower_ascii (bytes_of s).
Proof.
  intros H. unfold ToLower. assert (Ha : forallb (λ x, zb x <? 128) (bytes_of s) = true).
  { apply forallb_forall. intros c Hc%list_elem_of_In. rewrite Forall_forall in H. apply H in Hc. revert Hc. clear.
    destruct c; (discriminate || reflexivity). }
  by rewrite Ha, bytes_of_string_of.
Qed.

Lemma lower_literal s : literal_ok (bytes_of s) → x25 ∉ bytes_of s →
  let h := bytes_of (ToLower (TrimSuffix s ".")) in
  Forall (λ c, literal_byte c = true) h ∧ literal_ok h ∧ contains_byte 58 h = true.
Proof.
  intros (a & Ha & H4) Hn. unfold ParseAddr in Ha. rewrite bytes_of_string_of in Ha.
  destruct (ParseAddr_six _ _ Ha H4) as [H58 H6]. apply (contains_byte_absent x25) in Hn. change (zb x25) with 37 in Hn.
  pose proof (parseIPv6_literal _ _ Hn H6) as Hl.
  assert (Ht : TrimSuffix s "." = s).
  { destruct (TrimSuffix_dot s) as [|E]; [done|]. exfalso. rewrite E in H6, Hn.
    rewrite contains_byte_app in Hn. apply orb_false_iff in Hn as [Hn _]. by rewrite parseIPv6_dot in H6. }
  cbv zeta. rewrite Ht, ToLower_literal by done. split_and!.
  - apply Forall_map. eapply Forall_impl; [exact Hl|]. intros c Hc. revert Hc. clear. destruct c; (discriminate || reflexivity).
  - exists a. split; [|done]. unfold ParseAddr. rewrite bytes_of_string_of.
    by apply parse_kind_lower.
  - by rewrite contains_byte_lower by decide_in.
Qed.
End Forms.
