(* ===== verification/Mux.v ===== *)
(** * http.ServeMux

    The multiplexer of package net/http for patterns without a host, as the API
    registers them: "[METHOD ]/path" with [{name}] wildcards and a final slash
    for a whole subtree. Patterns become a tree of segments; a request is
    matched by its method and its escaped path, cleaned first, or redirected to
    its clean form, or refused. Registering two patterns that conflict panics;
    the API's do not. *)

From S2P Require Import Prelude GoErrors GoText GoStrings GoParse Netip Url.

(** ** Patterns *)

Inductive segment : Type :=
  | Literal (s : bytes)
  | Wild (name : bytes)
  | Multi.                    (* a final slash: any rest *)

#[export] Instance segment_eq_dec : EqDecision segment.
Proof. solve_decision. Defined.

Record pattern : Type := mkPattern {
  pattern_text : string;
  pattern_method : bytes;     (* empty: any method *)
  pattern_segments : list segment;
}.

Definition is_multi (s : segment) : bool := match s with Multi => true | _ => false end.

(** The parts of a path after its first slash, cut at the slashes. *)
Fixpoint split_slash (s : bytes) : list bytes :=
  match s with
  | [] => [[]]
  | c :: s' =>
      if zb c =? 47 then [] :: split_slash s'
      else match split_slash s' with p :: ps => (c :: p) :: ps | [] => [[c]] end
  end.

Section Mux.
Context `{UX : UnicodeText}.

Definition parse_segment (s : bytes) : segment :=
  match s with
  | c :: name => if (zb c =? 123) && bool_decide (List.last name x00 = x7d) then Wild (removelast name)
                 else Literal (pathUnescape s)
  | [] => Literal []
  end.

Fixpoint parse_segments (parts : list bytes) : list segment :=
  match parts with
  | [] => []
  | [[]] => [Multi]
  | part :: parts' => parse_segment part :: parse_segments parts'
  end.

Definition parsePattern (s : string) : pattern :=
  let '(method, path) := match cut_bytes x20 (bytes_of s) with Some (m, p) => (m, p) | None => ([], bytes_of s) end in
  mkPattern s method (parse_segments (split_slash (drop 1 path))).

(** ** The tree *)

(** A node: the pattern that ends here, the children by literal, the child of a
    wildcard and the pattern of a final slash. *)
Inductive node : Type :=
  | Node (pat : option pattern) (children : list (bytes * node)) (emptyChild : option node) (multi : option pattern).

Definition empty_node : node := Node None [] None None.

(** Applies [f] to the child for a literal, which is made if there is none. *)
Fixpoint at_child (key : bytes) (f : node → node) (children : list (bytes * node)) : list (bytes * node) :=
  match children with
  | [] => [(key, f empty_node)]
  | (k, c) :: cs => if bool_decide (k = key) then (k, f c) :: cs else (k, c) :: at_child key f cs
  end.

Fixpoint addSegments (segs : list segment) (p : pattern) (n : node) : node :=
  let '(Node pat children emptyChild multi) := n in
  match segs with
  | [] => Node (Some p) children emptyChild multi
  | Multi :: _ => Node pat children emptyChild (Some p)
  | Wild _ :: segs' => Node pat children (Some (addSegments segs' p (default empty_node emptyChild))) multi
  | Literal s :: segs' => Node pat (at_child s (addSegments segs' p) children) emptyChild multi
  end.

(** The level of the methods: the tree of each method, and the one of any. *)
Record methods : Type := mkMethods {
  by_method : list (bytes * node);
  any_method : node;
}.

Definition addPattern (t : methods) (p : pattern) : methods :=
  match pattern_method p with
  | [] => mkMethods (by_method t) (addSegments (pattern_segments p) p (any_method t))
  | m => mkMethods (at_child m (addSegments (pattern_segments p) p) (by_method t)) (any_method t)
  end.

Definition tree (patterns : list string) : methods :=
  fold_left addPattern (map parsePattern patterns) (mkMethods [] empty_node).

(** ** Matching *)

(** [firstSegment]: the first segment of a path that begins with a slash,
    unescaped, and the rest; a single slash is its own segment. *)
Definition firstSegment (path : bytes) : bytes * bytes :=
  if bool_decide (path = [x2f]) then ([x2f], [])
  else let '(seg, rest) := cut_path (drop 1 path) in (pathUnescape seg, rest).

Definition or_else {A} (a b : option A) : option A := match a with Some _ => a | None => b end.

Fixpoint matchPath (n : node) (path : bytes) (matches : list bytes) : option (pattern * list bytes) :=
  let '(Node pat children emptyChild multi) := n in
  match path with
  | [] => option_map (λ p, (p, matches)) pat
  | _ =>
      let '(seg, rest) := firstSegment path in
      let fix literal cs :=
        match cs with
        | [] => None
        | (k, c) :: cs' => if bool_decide (k = seg) then matchPath c rest matches else literal cs'
        end in
      let wildcard matches := match emptyChild with Some c => matchPath c rest matches | None => None end in
      or_else (if bool_decide (seg = []) then wildcard matches else literal children)
        (or_else (if bool_decide (seg = [x2f]) then None else wildcard (matches ++ [seg]))
           (option_map (λ p, (p, matches)) multi))
  end.

Definition find_child (key : bytes) (cs : list (bytes * node)) : option node :=
  snd <$> List.find (λ kv, bool_decide (kv.1 = key)) cs.

Definition match_child (key : bytes) (path : bytes) (t : methods) : option (pattern * list bytes) :=
  c ← find_child key (by_method t); matchPath c path [].

Definition matchMethodAndPath (t : methods) (method path : bytes) : option (pattern * list bytes) :=
  or_else (match_child method path t)
    (or_else (if bool_decide (method = bytes_of "HEAD") then match_child (bytes_of "GET") path t else None)
       (matchPath (any_method t) path [])).

Definition ends_in_slash (path : bytes) : bool := bool_decide (List.last path x00 = x2f).

(** Whether nothing is left for the final slash of the pattern. *)
Definition exactMatch (m : option (pattern * list bytes)) (path : bytes) : bool :=
  match m with
  | None => false
  | Some (p, _) =>
      if negb (ends_in_slash path)
      then match last (pattern_segments p) with Some s => negb (is_multi s) | None => true end
      else Nat.eqb (length (pattern_segments p)) (length (List.filter (λ c, zb c =? 47) path))
  end.

(** ** Paths *)

(** [path.Clean] of a rooted path: its elements after the last one read. *)
Fixpoint clean_elements (parts stack : list bytes) : list bytes :=
  match parts with
  | [] => rev stack
  | part :: parts' =>
      if bool_decide (part = []) || bool_decide (part = [x2e]) then clean_elements parts' stack
      else if bool_decide (part = [x2e; x2e]) then clean_elements parts' (tail stack)
      else clean_elements parts' (part :: stack)
  end.

Definition join_slash (parts : list bytes) : bytes := concat (map (λ p, x2f :: p) parts).

Definition path_Clean (p : bytes) : bytes :=
  match clean_elements (split_slash p) [] with [] => [x2f] | parts => join_slash parts end.

Definition cleanPath (p : bytes) : bytes :=
  match p with
  | [] => [x2f]
  | _ =>
      let p := if rooted p then p else x2f :: p in
      let np := path_Clean p in
      if ends_in_slash p && negb (bool_decide (np = [x2f])) then np ++ [x2f] else np
  end.

(** ** Finding a handler *)

Inductive found : Type :=
  | Matched (p : pattern) (matches : list bytes)
  | Redirected (pattern : string) (location : URL)
  | Refused (allowed : list bytes).

(** A URL of a path and a query only. *)
Definition local_URL (path query : string) : URL := mkURL "" "" None "" path "" false false query "" "".

(** [matchOrRedirect] with a URL: the match, or the pattern with a final slash
    to redirect to. *)
Definition matchOrRedirect (t : methods) (method path : bytes) (u : URL) : option (pattern * list bytes) * option (pattern * URL) :=
  let n := matchMethodAndPath t method path in
  if negb (exactMatch n path) && negb (ends_in_slash path) then
    let n2 := matchMethodAndPath t method (path ++ [x2f]) in
    match n2 with
    | Some (p, _) =>
        if exactMatch n2 (path ++ [x2f])
        then (n2, Some (p, local_URL (string_of (cleanPath (bytes_of (URL_Path u)) ++ [x2f])) (URL_RawQuery u)))
        else (n, None)
    | None => (n, None)
    end
  else (n, None).

(** Sorting by bytes. *)
Fixpoint text_leb (a b : bytes) : bool :=
  match a, b with
  | [], _ => true
  | _, [] => false
  | x :: a', y :: b' => (zb x <? zb y) || ((zb x =? zb y) && text_leb a' b')
  end.

Fixpoint insert_text (x : bytes) (l : list bytes) : list bytes :=
  match l with
  | [] => [x]
  | y :: l' => if text_leb x y then x :: l else y :: insert_text x l'
  end.
Definition sort_texts (l : list bytes) : list bytes := fold_right insert_text [] l.

(** The methods for which the path, or the path with a slash, has a pattern. *)
Definition matching (t : methods) (path : bytes) : list bytes :=
  let matches m := match match_child m path t with
                   | Some _ => true
                   | None => if ends_in_slash path then false
                             else match match_child m (path ++ [x2f]) t with Some _ => true | None => false end
                   end in
  let ms := List.filter matches (map fst (by_method t)) in
  sort_texts
    (if bool_decide (bytes_of "GET" ∈ ms) && negb (bool_decide (bytes_of "HEAD" ∈ ms)) then bytes_of "HEAD" :: ms else ms).

Definition find_route (t : methods) (method : string) (u : URL) : found :=
  let m := bytes_of method in
  let escapedPath := EscapedPath u in
  let finish (n : option (pattern * list bytes)) path :=
    match n with Some (p, matches) => Matched p matches | None => Refused (matching t path) end in
  if bool_decide (method = "CONNECT"%string) then
    match matchOrRedirect t m escapedPath u with
    | (_, Some (_, v)) => Redirected (URL_Path v) v
    | _ => finish (matchMethodAndPath t m escapedPath) escapedPath
    end
  else
    let path := cleanPath escapedPath in
    match matchOrRedirect t m path u with
    | (_, Some (p, v)) => Redirected (pattern_text p) v
    | (n, None) =>
        if negb (bool_decide (path = escapedPath))
        then Redirected (match n with Some (p, _) => pattern_text p | None => "" end)
               (local_URL (string_of path) (URL_RawQuery u))
        else finish n path
    end.

(** The value of a wildcard: its position among those of the pattern. *)
Fixpoint wild_value (segs : list segment) (matches : list bytes) (name : bytes) : bytes :=
  match segs, matches with
  | Wild n :: segs', v :: matches' => if bool_decide (n = name) then v else wild_value segs' matches' name
  | Wild _ :: _, [] => []
  | _ :: segs', _ => wild_value segs' matches name
  | [], _ => []
  end.

Definition PathValue (p : pattern) (matches : list bytes) (name : string) : string :=
  string_of (wild_value (pattern_segments p) matches (bytes_of name)).
End Mux.

(** ** Tests *)

#[local] Instance quoted : UnicodeText := {| Quote := λ s, s; unicode_ToUpper := λ r, r |}.

Definition test_tree : methods :=
  tree ["GET /health/live"; "POST /v1/endpoints"; "GET /v1/endpoints"; "GET /v1/endpoints/{endpoint_id}";
        "POST /v1/deliveries/{delivery_id}/replay"; "/v1/"]%string.

Definition test_route (method path : string) : string * string * list string :=
  match url_Parse path with
  | Err _ => ("error", "", [])
  | Ok u =>
      match find_route test_tree method u with
      | Matched p ms => (pattern_text p, PathValue p ms "endpoint_id", [])
      | Redirected p v => ("->" +:+ p, url_String v, [])
      | Refused allowed => ("", "", map string_of allowed)
      end
  end%string.

Example find_route_tests :
  map (λ '(m, p), test_route m p)
    [("GET", "/health/live"); ("HEAD", "/health/live"); ("POST", "/health/live"); ("GET", "/health"); ("GET", "/v1/endpoints/7");
     ("GET", "/v1/endpoints/a%2Fb"); ("PUT", "/v1/endpoints"); ("GET", "/v1"); ("GET", "/v1/"); ("GET", "//v1/../v1/./endpoints?x=1");
     ("GET", "/v1/endpoints/"); ("POST", "/v1/deliveries/d/replay"); ("CONNECT", "/v1"); ("GET", "/%761"); ("GET", "/health/live/")]%string
  = [("GET /health/live", "", []); ("GET /health/live", "", []); ("", "", ["GET"; "HEAD"]); ("", "", []);
     ("GET /v1/endpoints/{endpoint_id}", "7", []); ("GET /v1/endpoints/{endpoint_id}", "a/b", []); ("/v1/", "", []);
     ("->/v1/", "/v1/", []); ("/v1/", "", []); ("->GET /v1/endpoints", "/v1/endpoints?x=1", []); ("/v1/", "", []);
     ("POST /v1/deliveries/{delivery_id}/replay", "", []); ("->/v1/", "/v1/", []); ("->/v1/", "/v1/", []); ("", "", [])]%string.
Proof. vm_compute. reflexivity. Qed.
