(* ===== verification/MuxTheorems.v ===== *)
(** * Theorems on http.ServeMux

    A request is only matched by a registered pattern that admits its method.
    For a path that is clean already, matching is a walk of the tree along the
    decoded segments. *)

From S2P Require Import Prelude GoErrors GoText GoStrings GoParse Netip Url UrlTheorems Mux.

Section Mux.
Context `{UX : UnicodeText}.

(** ** Trees *)

(** Induction over a tree and its list of children. *)
Lemma node_ind' (P : node → Prop) :
  (∀ pat children emptyChild multi, Forall (λ kv, P kv.2) children → (∀ c, emptyChild = Some c → P c) →
     P (Node pat children emptyChild multi)) → ∀ n, P n.
Proof.
  intros H. fix IH 1. intros [pat children emptyChild multi]. apply H.
  - induction children as [|[k c] cs IHcs]; constructor; [apply IH|exact IHcs].
  - intros c E. destruct emptyChild as [c'|]; [|discriminate E]. injection E as <-. apply IH.
Qed.

(** Every pattern of the tree has the property. *)
Inductive all_patterns (P : pattern → Prop) : node → Prop :=
  | all_patterns_node pat children emptyChild multi :
      (∀ p, pat = Some p → P p) → Forall (λ kv, all_patterns P kv.2) children →
      (∀ c, emptyChild = Some c → all_patterns P c) → (∀ p, multi = Some p → P p) →
      all_patterns P (Node pat children emptyChild multi).

Lemma all_patterns_empty P : all_patterns P empty_node.
Proof. by constructor. Qed.

Lemma at_child_all P key f cs :
  (∀ n, all_patterns P n → all_patterns P (f n)) → Forall (λ kv, all_patterns P kv.2) cs →
  Forall (λ kv, all_patterns P kv.2) (at_child key f cs).
Proof.
  intros Hf. induction cs as [|[k c] cs IH]; cbn [at_child].
  - intros _. constructor; [apply Hf, all_patterns_empty|done].
  - intros [Hc Hcs]%Forall_cons. case_bool_decide; constructor; try done; [by apply Hf|by apply IH].
Qed.

Lemma addSegments_all (P : pattern → Prop) segs p n : P p → all_patterns P n → all_patterns P (addSegments segs p n).
Proof.
  intros Hp. revert n. induction segs as [|[l|w|] segs IH]; intros [pat children emptyChild multi] Hn;
    inversion Hn; subst; cbn [addSegments]; constructor; try done.
  - by intros q [= <-].
  - by apply at_child_all.
  - intros c [= <-]. apply IH. destruct emptyChild as [c|]; cbn; [auto|apply all_patterns_empty].
  - by intros q [= <-].
Qed.

Lemma or_else_Some {A} (a b : option A) x : or_else a b = Some x → a = Some x ∨ a = None ∧ b = Some x.
Proof. destruct a; cbn; [by left|by right]. Qed.

Lemma or_else_l {A} (a b : option A) : is_Some a → is_Some (or_else a b).
Proof. intros [x ->]. by exists x. Qed.

Lemma or_else_r {A} (a b : option A) : is_Some b → is_Some (or_else a b).
Proof. destruct a; [by eexists|done]. Qed.

Lemma matchPath_all P n path matches p ms : all_patterns P n → matchPath n path matches = Some (p, ms) → P p.
Proof.
  revert path matches. induction n as [pat children emptyChild multi IHc IHe] using node_ind'. intros path matches Hn.
  inversion Hn as [? ? ? ? Hpat Hch He Hm]; subst. destruct path as [|c path]; cbn [matchPath].
  { destruct pat; [|done]. intros [= -> _]. by apply Hpat. }
  destruct (firstSegment (c :: path)) as [seg rest].
  assert (Hw : ∀ ms0, match emptyChild with Some c => matchPath c rest ms0 | None => None end = Some (p, ms) → P p).
  { intros ms0. destruct emptyChild as [n|]; [|done]. apply IHe; [done|by apply He]. }
  intros [H|[_ [H|[_ H]]%or_else_Some]]%or_else_Some.
  - destruct (bool_decide (seg = [])); [by apply Hw in H|]. clear -H IHc Hch.
    induction children as [|[k n] cs IHcs]; [done|]. apply Forall_cons in IHc as [IHn IHc], Hch as [Hn Hch].
    case_bool_decide; [by eapply IHn|by apply IHcs].
  - destruct (bool_decide (seg = [x2f])); [done|by apply Hw in H].
  - destruct multi; [|done]. injection H as -> _. by apply Hm.
Qed.

(** ** Methods *)

Definition registered (patterns : list string) (p : pattern) : Prop := ∃ s, s ∈ patterns ∧ p = parsePattern s.

Record methods_ok (P : pattern → Prop) (t : methods) : Prop := {
  mo_method : Forall (λ kv, all_patterns (λ p, P p ∧ pattern_method p = kv.1) kv.2) (by_method t);
  mo_any : all_patterns (λ p, P p ∧ pattern_method p = []) (any_method t);
}.

Lemma addPattern_ok P t p : P p → methods_ok P t → methods_ok P (addPattern t p).
Proof.
  intros Hp [H1 H2]. unfold addPattern. destruct (pattern_method p) as [|c m] eqn:E; split; cbn [by_method any_method]; try done.
  - by apply addSegments_all.
  - clear H2. induction H1 as [|[k n] cs Hn Hcs IH]; cbn [at_child].
    + constructor; [|done]. apply addSegments_all; [done|apply all_patterns_empty].
    + case_bool_decide as Ek; constructor; try done. cbn [fst snd] in *. subst k. by apply addSegments_all.
Qed.

Lemma tree_ok patterns : methods_ok (registered patterns) (tree patterns).
Proof.
  unfold tree. assert (H : ∀ l t, l ⊆ patterns → methods_ok (registered patterns) t →
    methods_ok (registered patterns) (fold_left addPattern (map parsePattern l) t)).
  { induction l as [|s l IH]; intros t Hl Ht; [done|]. cbn [map fold_left]. apply IH; [set_solver|].
    apply addPattern_ok; [|done]. exists s. split; [set_solver|done]. }
  apply H; [done|]. split; [done|apply all_patterns_empty].
Qed.

(** The methods a pattern admits: [GET] also admits [HEAD]. *)
Definition admits (p : pattern) (method : bytes) : Prop :=
  pattern_method p = [] ∨ pattern_method p = method ∨ pattern_method p = bytes_of "GET" ∧ method = bytes_of "HEAD".

Lemma match_child_ok P t m path p ms : methods_ok P t → match_child m path t = Some (p, ms) → P p ∧ pattern_method p = m.
Proof.
  intros [H _]. unfold match_child, find_child. destruct (List.find _ _) as [[k c]|] eqn:E; [|done]. cbn.
  apply List.find_some in E as [Hin Hk]. zbool. cbn in Hk. subst k. apply list_elem_of_In in Hin. rewrite Forall_forall in H.
  intros Hm. exact (matchPath_all _ _ _ _ _ _ (H _ Hin) Hm).
Qed.

Lemma matchMethodAndPath_ok P t m path p ms :
  methods_ok P t → matchMethodAndPath t m path = Some (p, ms) → P p ∧ admits p m.
Proof.
  intros Ht. unfold matchMethodAndPath, admits. intros [H|[_ [H|[_ H]]%or_else_Some]]%or_else_Some.
  - apply (match_child_ok _ _ _ _ _ _ Ht) in H as [? ?]. auto.
  - destruct (bool_decide_reflect (m = bytes_of "HEAD")); [|done].
    apply (match_child_ok _ _ _ _ _ _ Ht) in H as [? ?]. auto.
  - destruct Ht as [_ Ht]. apply (matchPath_all _ _ _ _ _ _ Ht) in H as [? ?]. auto.
Qed.

Lemma matchOrRedirect_ok P t m path u n redirect :
  methods_ok P t → matchOrRedirect t m path u = (n, redirect) →
  (∀ p ms, n = Some (p, ms) → P p ∧ admits p m) ∧ (∀ p v, redirect = Some (p, v) → P p ∧ admits p m).
Proof.
  intros Ht. unfold matchOrRedirect.
  pose proof (λ p ms, matchMethodAndPath_ok P t m path p ms Ht) as H1.
  pose proof (λ p ms, matchMethodAndPath_ok P t m (path ++ [x2f]) p ms Ht) as H2.
  destruct (_ && _); [|intros [= <- <-]; by split].
  destruct (matchMethodAndPath t m (path ++ [x2f])) as [[p ms]|]; [|intros [= <- <-]; by split].
  destruct (exactMatch _ _); intros [= <- <-]; (split; [done|]); [|done].
  intros q v [= <- <-]. by eapply H2.
Qed.

(** Only a registered pattern that admits the method is matched; a redirect
    carries one too, or none, unless the method is CONNECT. *)
Lemma find_route_registered patterns method u :
  match find_route (tree patterns) method u with
  | Matched p _ => registered patterns p ∧ admits p (bytes_of method)
  | Redirected p _ => method ≠ "CONNECT"%string → p = ""%string ∨ ∃ q, registered patterns q ∧ p = pattern_text q
  | Refused _ => True
  end.
Proof.
  pose proof (tree_ok patterns) as Ht. unfold find_route. case_bool_decide as Hc.
  - destruct (matchOrRedirect _ _ _ u) as [n [[q v]|]] eqn:E; [done|].
    destruct (matchMethodAndPath _ _ _) as [[p ms]|] eqn:Em; [|done]. by eapply matchMethodAndPath_ok.
  - destruct (matchOrRedirect _ _ _ u) as [n [[q v]|]] eqn:E; apply (matchOrRedirect_ok _ _ _ _ _ _ _ Ht) in E as [H1 H2].
    + intros _. right. exists q. by destruct (H2 _ _ eq_refl).
    + destruct (negb _).
      * intros _. destruct n as [[p ms]|]; [right|by left]. exists p. by destruct (H1 _ _ eq_refl).
      * destruct n as [[p ms]|]; [|done]. by eapply H1.
Qed.

Lemma parsePattern_text s : pattern_text (parsePattern s) = s.
Proof. unfold parsePattern. by destruct (cut_bytes _ _) as [[]|]. Qed.

(** ** Paths as segments *)

(** [matchPath] over the segments that [firstSegment] yields, one after the
    other; the slash alone is the last of a path that ends in one. *)
Fixpoint match_segments (n : node) (segs : list bytes) (matches : list bytes) : option (pattern * list bytes) :=
  let '(Node pat cs e m) := n in
  match segs with
  | [] => option_map (λ p, (p, matches)) pat
  | seg :: rest =>
      or_else (if bool_decide (seg = []) then c ← e; match_segments c rest matches
               else c ← find_child seg cs; match_segments c rest matches)
        (or_else (if bool_decide (seg = [x2f]) then None else c ← e; match_segments c rest (matches ++ [seg]))
           (option_map (λ p, (p, matches)) m))
  end.

Definition child_segments (key : bytes) (segs : list bytes) (t : methods) : option (pattern * list bytes) :=
  c ← find_child key (by_method t); match_segments c segs [].

Definition route_segments (t : methods) (method : bytes) (segs : list bytes) : option (pattern * list bytes) :=
  or_else (child_segments method segs t)
    (or_else (if bool_decide (method = bytes_of "HEAD") then child_segments (bytes_of "GET") segs t else None)
       (match_segments (any_method t) segs [])).

Lemma matchPath_step pat cs e m path matches : path ≠ [] →
  matchPath (Node pat cs e m) path matches =
  let '(seg, rest) := firstSegment path in
  or_else (if bool_decide (seg = []) then c ← e; matchPath c rest matches else c ← find_child seg cs; matchPath c rest matches)
    (or_else (if bool_decide (seg = [x2f]) then None else c ← e; matchPath c rest (matches ++ [seg]))
       (option_map (λ p, (p, matches)) m)).
Proof.
  intros Hp. destruct path as [|c path]; [done|]. cbn [matchPath]. destruct (firstSegment (c :: path)) as [seg rest].
  cbn zeta. f_equal.
  destruct (bool_decide (seg = [])); [by destruct e|]. unfold find_child.
  induction cs as [|[k n] cs IH]; [done|]. cbn [List.find fst]. by destruct (bool_decide (k = seg)).
Qed.

(** A path of the raw segments [raws], with a final slash or without: only
    with one may its last segment be empty. *)
Definition slash (final : bool) : bytes := if final then [x2f] else [].

Definition raw_segments (final : bool) (raws : list bytes) : Prop :=
  Forall (λ raw, x2f ∉ raw) raws ∧ (final = false → last raws ≠ Some []).

Definition segments_of (final : bool) (raws : list bytes) : list bytes :=
  map pathUnescape raws ++ (if final then [[x2f]] else []).

Lemma raw_segments_cons final raw raws : raw_segments final (raw :: raws) →
  (x2f ∉ raw) ∧ raw_segments final raws ∧ (raws = [] → final = false → raw ≠ []).
Proof.
  intros [[H1 H2]%Forall_cons H3]. split_and!; [done|split; [done|]|].
  - intros Hf. destruct raws; [done|]. by apply H3.
  - intros -> Hf ->. by apply H3.
Qed.

Lemma firstSegment_raw final raw raws : raw_segments final (raw :: raws) →
  firstSegment (join_slash (raw :: raws) ++ slash final) = (pathUnescape raw, join_slash raws ++ slash final).
Proof.
  intros (H1 & _ & H3)%raw_segments_cons. unfold firstSegment, join_slash. cbn [map concat]. fold (join_slash raws).
  rewrite bool_decide_eq_false_2.
  - cbn [drop app]. rewrite drop_0, <- app_assoc. destruct raws as [|raw' raws]; [destruct final|].
    + by rewrite cut_path_rooted.
    + cbn. rewrite app_nil_r. unfold cut_path. by rewrite (proj2 (cut_bytes_None _ _)).
    + by rewrite cut_path_rooted.
  - cbn [app]. intros [= [[-> Hr]%app_nil Hf]%app_nil]. destruct raws as [|raw' raws]; [|done].
    destruct final; [done|]. by apply H3.
Qed.

Lemma matchPath_raws n final raws matches : raw_segments final raws →
  matchPath n (join_slash raws ++ slash final) matches = match_segments n (segments_of final raws) matches.
Proof.
  revert n matches. induction raws as [|raw raws IH]; intros [pat cs e m] matches Hr.
  - destruct final; [|done]. rewrite matchPath_step by done. cbn -[find_child]. f_equal. by destruct (find_child _ cs) as [[]|].
  - pose proof (firstSegment_raw _ _ _ Hr) as Hf. apply raw_segments_cons in Hr as (_ & Hr & _).
    rewrite matchPath_step by done. rewrite Hf. unfold segments_of in *. cbn [map app match_segments].
    f_equal; [|f_equal]; repeat case_bool_decide; try done;
      match goal with |- ?o ≫= _ = _ => destruct o as [c|]; [|done] end; by apply IH.
Qed.

Lemma match_child_raws key final raws t : raw_segments final raws →
  match_child key (join_slash raws ++ slash final) t = child_segments key (segments_of final raws) t.
Proof.
  intros Hr. unfold match_child, child_segments. destruct (find_child _ _) as [c|]; [|done]. by apply matchPath_raws.
Qed.

Lemma matchMethodAndPath_raws t method final raws : raw_segments final raws →
  matchMethodAndPath t method (join_slash raws ++ slash final) = route_segments t method (segments_of final raws).
Proof. intros Hr. unfold matchMethodAndPath, route_segments. by rewrite !match_child_raws, matchPath_raws. Qed.

(** ** Clean paths *)

Lemma unescape_nonempty raw : raw ≠ [] → pathUnescape raw ≠ [].
Proof.
  intros H. unfold pathUnescape. destruct (unescape _ raw) as [[|]|] eqn:E; [|done..].
  destruct raw as [|c raw]; [done|]. exfalso. revert E. cbn [unescape].
  destruct (zb c =? 37).
  - destruct raw as [|h [|l raw]]; [done..|]. destruct (hex_value h), (hex_value l); try done.
    destruct (bad_escape encodePathSegment _); [done|]. by destruct (unescape encodePathSegment raw).
  - cbn [host_mode andb]. by destruct (unescape encodePathSegment raw).
Qed.

Definition clean_segment (raw : bytes) : Prop := raw ≠ [] ∧ raw ≠ [x2e] ∧ raw ≠ [x2e; x2e] ∧ x2f ∉ raw.

Lemma clean_raw_segments final raws : Forall clean_segment raws → raw_segments final raws.
Proof.
  intros H. split; [by eapply Forall_impl; [exact H|]; intros raw (_ & _ & _ & ?)|].
  intros _ E. apply last_Some in E as [l ->]. apply Forall_app in H as [_ [(? & _) _]%Forall_cons]. done.
Qed.

Lemma split_slash_raw raw rest : x2f ∉ raw →
  split_slash (raw ++ rest) = match split_slash rest with p :: ps => (raw ++ p) :: ps | [] => [raw] end.
Proof.
  induction raw as [|c raw IH]; intros H; cbn [app split_slash].
  - destruct (split_slash rest) eqn:E; [|done]. destruct rest as [|c rest]; [done|]. cbn in E.
    destruct (zb c =? 47); [done|]. by destruct (split_slash rest).
  - apply not_elem_of_cons in H as [Hc H]. rewrite IH by done. destruct (Z.eqb_spec (zb c) 47) as [E|_].
    + exfalso. apply Hc. symmetry. by apply zb_inj.
    + by destruct (split_slash rest).
Qed.

Lemma split_slash_raws final raws : Forall clean_segment raws →
  split_slash (join_slash raws ++ slash final) = [] :: raws ++ (if final then [([] : bytes)] else []).
Proof.
  induction raws as [|raw raws IH]; intros H; [by destruct final|]. apply Forall_cons in H as [(_ & _ & _ & Hraw) H].
  unfold join_slash. cbn [map concat app]. fold (join_slash raws). cbn [split_slash]. change (zb x2f =? 47) with true. cbn iota.
  rewrite <- app_assoc, split_slash_raw, IH by done. cbn [app]. by rewrite app_nil_r.
Qed.

Lemma clean_elements_raws (final : bool) raws stack : Forall clean_segment raws →
  clean_elements (raws ++ (if final then [([] : bytes)] else [])) stack = rev stack ++ raws.
Proof.
  revert stack. induction raws as [|raw raws IH]; intros stack H.
  - destruct final; cbn; by rewrite app_nil_r.
  - apply Forall_cons in H as [(H1 & H2 & H3 & _) H]. cbn [app clean_elements].
    rewrite !bool_decide_eq_false_2 by done. cbn [orb]. rewrite IH by done. cbn [rev]. by rewrite <- app_assoc.
Qed.

Lemma ends_in_slash_raws final raws : raw_segments final raws → ends_in_slash (join_slash raws ++ slash final) = final.
Proof.
  intros [H1 H2]. unfold ends_in_slash. destruct final; cbn [slash].
  - rewrite last_last. by apply bool_decide_eq_true_2.
  - rewrite app_nil_r. apply bool_decide_eq_false_2. destruct raws as [|raw raws _] using rev_ind; [done|].
    rewrite last_snoc in H2. apply Forall_app in H1 as [_ [H1 _]%Forall_cons].
    unfold join_slash. rewrite map_app, concat_app. cbn [map concat]. rewrite app_nil_r.
    destruct raw as [|c raw _] using rev_ind; [by destruct H2|].
    rewrite app_comm_cons, app_assoc, last_last. intros ->. apply H1. set_solver.
Qed.

Lemma cleanPath_raws final raws : raws ≠ [] → Forall clean_segment raws →
  cleanPath (join_slash raws ++ slash final) = join_slash raws ++ slash final.
Proof.
  intros Hne H. pose proof (ends_in_slash_raws final raws (clean_raw_segments _ _ H)) as He.
  destruct raws as [|raw raws]; [done|]. set (p := join_slash (raw :: raws) ++ slash final) in *.
  assert (Hc : path_Clean p = join_slash (raw :: raws)).
  { unfold path_Clean, p. rewrite split_slash_raws by done. cbn [clean_elements]. cbn [bool_decide orb].
    cbn [orb]. by rewrite clean_elements_raws. }
  assert (Hp : cleanPath p = if ends_in_slash p && negb (bool_decide (path_Clean p = [x2f])) then path_Clean p ++ [x2f] else path_Clean p)
    by reflexivity.
  rewrite Hp, He, Hc. rewrite bool_decide_eq_false_2; [destruct final; [done|by rewrite <- (app_nil_r (join_slash _))]|].
  apply Forall_cons in H as [(? & _) _]. destruct raw; [done|]. done.
Qed.

Lemma slashes_raws final raws : Forall (λ raw, x2f ∉ raw) raws →
  length (List.filter (λ c, zb c =? 47) (join_slash raws ++ slash final)) = (length raws + length (slash final))%nat.
Proof.
  induction raws as [|raw raws IH]; intros H; [by destruct final|]. apply Forall_cons in H as [Hraw H].
  unfold join_slash. cbn [map concat app]. fold (join_slash raws). cbn [List.filter]. change (zb x2f =? 47) with true. cbn iota.
  rewrite <- app_assoc, List.filter_app. cbn [length]. rewrite length_app, IH by done.
  assert (List.filter (λ c, zb c =? 47) raw = []) as ->; [|done].
  clear -Hraw. induction raw as [|c raw IH]; [done|]. apply not_elem_of_cons in Hraw as [Hc H]. cbn.
  destruct (Z.eqb_spec (zb c) 47) as [E|_]; [|by apply IH]. exfalso. apply Hc. symmetry. by apply zb_inj.
Qed.

(** ** Finding a handler for a clean path *)

Lemma find_route_clean t method u path :
  EscapedPath u = path → cleanPath path = path →
  find_route t method u =
  match matchOrRedirect t (bytes_of method) path u with
  | (_, Some (p, v)) => Redirected (if bool_decide (method = "CONNECT"%string) then URL_Path v else pattern_text p) v
  | (Some (p, matches), None) => Matched p matches
  | (None, None) => Refused (matching t path)
  end.
Proof.
  intros <- Hc. unfold find_route. rewrite Hc, (bool_decide_eq_true_2 (EscapedPath u = _)) by done. cbn [negb].
  destruct (matchOrRedirect _ _ _ _) as [n [[q v]|]] eqn:E; [by destruct (bool_decide _), n as [[]|]|].
  assert (matchMethodAndPath t (bytes_of method) (EscapedPath u) = n) as ->; [|by destruct (bool_decide _), n as [[]|]].
  unfold matchOrRedirect in E. destruct (_ && _); [|congruence].
  destruct (matchMethodAndPath _ _ (_ ++ _)) as [[]|]; [destruct (exactMatch _ _)|]; congruence.
Qed.

(** When the path with a final slash has no match, nothing is redirected. *)
Lemma find_route_raws t method u final raws :
  EscapedPath u = join_slash raws ++ slash final → raws ≠ [] → Forall clean_segment raws →
  (final = false → route_segments t (bytes_of method) (segments_of true raws) = None) →
  find_route t method u =
  match route_segments t (bytes_of method) (segments_of final raws) with
  | Some (p, matches) => Matched p matches
  | None => Refused (matching t (join_slash raws ++ slash final))
  end.
Proof.
  intros He Hne Hr Hs. rewrite (find_route_clean _ _ _ _ He) by by apply cleanPath_raws.
  pose proof (clean_raw_segments final _ Hr) as Hr'.
  unfold matchOrRedirect. rewrite (ends_in_slash_raws _ _ Hr'), !matchMethodAndPath_raws by done.
  destruct final; cbn [slash negb andb]; [rewrite andb_false_r; by destruct (route_segments _ _ _) as [[]|]|].
  rewrite app_nil_r, (matchMethodAndPath_raws _ _ true) by by apply clean_raw_segments. rewrite Hs by done.
  destruct (negb _); cbn [andb]; by destruct (route_segments _ _ _) as [[]|].
Qed.

(** The methods that a clean path allows. *)
Lemma matching_raws t final raws : Forall clean_segment raws →
  matching t (join_slash raws ++ slash final) =
  let matches m := match child_segments m (segments_of final raws) t with
                   | Some _ => true
                   | None => if final then false
                             else match child_segments m (segments_of true raws) t with Some _ => true | None => false end
                   end in
  let ms := List.filter matches (map fst (by_method t)) in
  sort_texts
    (if bool_decide (bytes_of "GET" ∈ ms) && negb (bool_decide (bytes_of "HEAD" ∈ ms)) then bytes_of "HEAD" :: ms else ms).
Proof.
  intros H. unfold matching. cbv zeta.
  assert (E : ∀ l, List.filter (λ m, match match_child m (join_slash raws ++ slash final) t with
      | Some _ => true
      | None => if ends_in_slash (join_slash raws ++ slash final) then false
                else match match_child m ((join_slash raws ++ slash final) ++ [x2f]) t with Some _ => true | None => false end
      end) l = List.filter (λ m, match child_segments m (segments_of final raws) t with
      | Some _ => true
      | None => if final then false else match child_segments m (segments_of true raws) t with Some _ => true | None => false end
      end) l).
  { intros l. apply filter_ext. intros m. rewrite (ends_in_slash_raws _ _ (clean_raw_segments _ _ H)).
    rewrite match_child_raws by by apply clean_raw_segments. destruct (child_segments _ _ _); [done|].
    destruct final; [done|]. cbn [slash]. rewrite app_nil_r.
    by rewrite (match_child_raws _ true) by by apply clean_raw_segments. }
  by rewrite E.
Qed.

(** ** Any rooted path *)

Lemma split_slash_spec s : split_slash s ≠ [] ∧ join_slash (split_slash s) = x2f :: s ∧ Forall (λ raw, x2f ∉ raw) (split_slash s).
Proof.
  induction s as [|c s (H1 & H2 & H3)]; [split_and!; [done|done|repeat constructor; apply not_elem_of_nil]|].
  cbn [split_slash]. destruct (Z.eqb_spec (zb c) 47) as [E|E].
  - assert (c = x2f) as -> by by apply zb_inj. split_and!; [done| |constructor; [apply not_elem_of_nil|done]].
    unfold join_slash in *. cbn [map concat app]. by rewrite H2.
  - destruct (split_slash s) as [|p ps]; [done|]. apply Forall_cons in H3 as [H3 H4]. split_and!; [done| |].
    + unfold join_slash in *. cbn [map concat app] in H2 |- *. injection H2 as ->. done.
    + constructor; [|done]. apply not_elem_of_cons. split; [|done]. intros <-. by apply E.
Qed.

Lemma unescape_path_segment s : unescape encodePath s = unescape encodePathSegment s.
Proof.
  remember (length s) as n eqn:Hn. revert s Hn. induction (lt_wf n) as [n _ IH]. intros s ->.
  destruct s as [|c s]; [done|]. cbn [unescape]. destruct (zb c =? 37).
  - destruct s as [|h [|l s]]; [done..|]. rewrite (IH (length s)) by (cbn; lia || done). done.
  - rewrite (IH (length s)) by (cbn; lia || done). done.
Qed.

(** What the path of a URL decodes to, when its first segment is all there is. *)
Lemma EscapedPath_one u raw name :
  rooted (bytes_of (URL_Path u)) = true → (URL_RawPath u = ""%string ∨ rooted (bytes_of (URL_RawPath u)) = true) →
  EscapedPath u = x2f :: raw → pathUnescape raw = name → bytes_of (URL_Path u) = x2f :: name.
Proof.
  intros H1 H2 He Hn. destruct (EscapedPath_spec u H1 H2) as (_ & _ & rawpath & Hs). rewrite He in Hs.
  unfold set_encoded in Hs. rewrite unescape_path_segment in Hs. unfold pathUnescape in Hn. cbn [unescape] in Hs.
  change (zb x2f =? 37) with false in Hs. cbn [host_mode andb] in Hs.
  destruct (unescape encodePathSegment raw) as [v|e]; [|done]. subst v.
  change (zb x2f =? 43) with false in Hs. cbn [mbind res_bind andb] in Hs. by injection Hs as <- _.
Qed.
End Mux.
