(* ===== verification/Dialer.v ===== *)
(** * The SSRF-safe dialer

    [src/internal/webhook/dialer.go]. The resolver and the dialer behind the
    interfaces are arguments; a dial answers from the calls made before it.
    [DialContext] returns the calls it made along with its result. Its theorems:
    what it connects to, and the blocked ranges in numbers. *)

From S2P Require Import Prelude GoErrors GoText Netip.

Definition ErrBlockedAddress : error := Sentinel "webhook.ErrBlockedAddress" "target address is blocked".

Definition ipv4 (a b c d : Z) : Z := ((a * 256 + b) * 256 + c) * 256 + d.

Definition blockedPrefixes : list Prefix :=
  [Prefix4 (ipv4 0 0 0 0) 8; Prefix4 (ipv4 100 64 0 0) 10; Prefix4 (ipv4 169 254 0 0) 16;
   Prefix4 (ipv4 192 0 0 0) 24; Prefix4 (ipv4 198 18 0 0) 15; Prefix4 (ipv4 224 0 0 0) 4;
   Prefix4 (ipv4 240 0 0 0) 4; Prefix6 (0xffff * 2 ^ 32) 96].

Definition addressAllowed (address : Addr) (allowPrivate : bool) : bool :=
  if negb (IsValid address) then false
  else
    let address := Unmap address in
    if IsUnspecified address || IsMulticast address then false
    else if allowPrivate then true
    else if negb (IsGlobalUnicast address) || IsPrivate address || IsLoopback address
            || IsLinkLocalUnicast address then false
    else negb (existsb (λ prefix, Contains prefix address) blockedPrefixes).

Section Dialer.
Context {Conn : Type}.

(** [resolver.LookupNetIP(ctx, "ip", host)] and
    [dialer.DialContext(ctx, network, address)] after some calls. *)
Variable LookupNetIP : string → res (list Addr).
Variable dial : list (string * string) → string → string → res Conn.
Variable allowPrivate : bool.

Definition trim_brackets (host : string) : string :=
  string_of (trim_bytes (λ b, (zb b =? 91) || (zb b =? 93)) (bytes_of host)).

Definition resolve (host : string) : res (list Addr) :=
  match ParseAddr (trim_brackets host) with
  | Some parsed => Ok [parsed]
  | None =>
      match LookupNetIP host with
      | Err err => Err (wrapf "resolve target" err)
      | Ok [] => Err (New "target resolved to no addresses")
      | Ok addresses => Ok addresses
      end
  end.

(** The address check, before anything is dialed. *)
Definition blocked (addresses : list Addr) : option Addr :=
  List.find (λ a, negb (addressAllowed a allowPrivate)) addresses.

Definition compatible (network : string) (a : Addr) : bool :=
  negb ((bool_decide (network = "tcp4"%string) && negb (Is4 a))
        || (bool_decide (network = "tcp6"%string) && negb (Is6 a))).

Fixpoint dial_each (network port : string) (addresses : list Addr)
    (calls : list (string * string)) (errs : list error) : list (string * string) * res Conn :=
  match addresses with
  | [] =>
      (calls, if bool_decide (length errs = 0%nat) then Err (New "target has no compatible addresses")
              else Err (wrapf "dial target" (Join errs)))
  | current :: rest =>
      let current := Unmap current in
      if negb (compatible network current) then dial_each network port rest calls errs
      else
        let address := JoinHostPort (Addr_String current) port in
        match dial calls network address with
        | Ok connection => (calls ++ [(network, address)], Ok connection)
        | Err err => dial_each network port rest (calls ++ [(network, address)]) (errs ++ [err])
        end
  end.

Definition DialContext (network address : string) : list (string * string) * res Conn :=
  match SplitHostPort address with
  | Err err => ([], Err (wrapf "split target address" err))
  | Ok (host, port) =>
      match resolve host with
      | Err err => ([], Err err)
      | Ok addresses =>
          match blocked addresses with
          | Some current => ([], Err (wrap_with ErrBlockedAddress (Addr_String current)))
          | None => dial_each network port addresses [] []
          end
      end
  end.

(** ** Lemmas *)

Lemma dial_each_calls network port addresses calls errs :
  let '(calls', r) := dial_each network port addresses calls errs in
  ∃ more, calls' = calls ++ more
    ∧ (∀ c, c ∈ more → ∃ a, a ∈ addresses ∧ c = (network, JoinHostPort (Addr_String (Unmap a)) port))
    ∧ (∀ conn, r = Ok conn → ∃ before address, calls' = before ++ [(network, address)]
                             ∧ dial before network address = Ok conn).
Proof.
  revert calls errs. induction addresses as [|a addresses IH]; intros calls errs; cbn [dial_each].
  { exists []. rewrite app_nil_r. split_and!; [done|by intros c ?%elem_of_nil|].
    intros conn. by destruct (bool_decide _). }
  cbn zeta. destruct (compatible network (Unmap a)); cbn [negb].
  - destruct (dial calls network _) as [conn|err] eqn:Ed.
    + eexists. split; [done|]. split.
      * intros c ->%list_elem_of_singleton. exists a. split; [left|done].
      * intros conn' [= <-]. by eexists calls, _.
    + specialize (IH (calls ++ [(network, JoinHostPort (Addr_String (Unmap a)) port)]) (errs ++ [err])).
      destruct (dial_each _ _ addresses _ _) as [calls' r]. destruct IH as (more & -> & Hmore & Hok).
      eexists. rewrite <- app_assoc. split; [done|]. split.
      * intros c [->|Hin]%elem_of_cons; [exists a; split; [left|done]|].
        destruct (Hmore c Hin) as (a' & Ha & ->). exists a'. split; [by right|done].
      * intros conn Hr. destruct (Hok conn Hr) as (before & address & E & Hd). exists before, address.
        by rewrite app_assoc.
  - specialize (IH calls errs). destruct (dial_each _ _ addresses _ _) as [calls' r].
    destruct IH as (more & -> & Hmore & Hok). exists more. split; [done|]. split; [|done].
    intros c Hin. destruct (Hmore c Hin) as (a' & Ha & ->). exists a'. split; [by right|done].
Qed.

Lemma blocked_None addresses :
  blocked addresses = None ↔ ∀ a, a ∈ addresses → addressAllowed a allowPrivate = true.
Proof.
  unfold blocked. split.
  - intros Hn a Hin%list_elem_of_In. apply negb_false_iff. by apply (List.find_none _ _ Hn).
  - intros Hall. destruct (List.find _ _) as [a|] eqn:E; [|done].
    apply List.find_some in E as [Hin Hb]. rewrite Hall in Hb by by apply list_elem_of_In. done.
Qed.
End Dialer.

(** ** What it connects to *)

(** The dialer connects to nothing that is blocked: when any resolved
    address is not allowed nothing is dialed and the error is
    [ErrBlockedAddress]; otherwise every call goes to a resolved, allowed
    address, and the connection returned is the one the last call opened. *)
Theorem DialContext_safe {Conn} LookupNetIP (dial : list (string * string) → string → string → res Conn)
    allowPrivate network address host port addresses :
  SplitHostPort address = Ok (host, port) → resolve LookupNetIP host = Ok addresses →
  let '(calls, r) := DialContext LookupNetIP dial allowPrivate network address in
  ((∃ a, a ∈ addresses ∧ addressAllowed a allowPrivate = false) →
     calls = [] ∧ ∃ e, r = Err e ∧ errors_is e ErrBlockedAddress = true)
  ∧ (∀ c, c ∈ calls → ∃ a, a ∈ addresses ∧ addressAllowed a allowPrivate = true
       ∧ c = (network, JoinHostPort (Addr_String (Unmap a)) port))
  ∧ (∀ conn, r = Ok conn → ∃ before target, calls = before ++ [(network, target)]
       ∧ dial before network target = Ok conn).
Proof.
  intros Hs Hr. unfold DialContext. rewrite Hs, Hr.
  destruct (blocked allowPrivate addresses) as [b|] eqn:Hb.
  - split_and!; [intros _; split; [done|]; eexists; by split|by intros c ?%elem_of_nil|done].
  - rewrite blocked_None in Hb.
    pose proof (dial_each_calls dial network port addresses [] []) as Hd.
    destruct (dial_each dial network port addresses [] []) as [calls r].
    destruct Hd as (more & -> & Hcalls & Hok). split_and!.
    + intros (a & Ha & Hf). rewrite (Hb a Ha) in Hf. done.
    + intros c Hin. destruct (Hcalls c Hin) as (a & Ha & ->). exists a. auto.
    + exact Hok.
Qed.

Lemma DialContext_safe_witness :
  let lookup (_ : string) := Ok [Addr4 (ipv4 93 184 216 34); Addr4 (ipv4 10 0 0 1)] in
  let dial (_ : list (string * string)) (_ _ : string) : res unit := Ok tt in
  (DialContext lookup dial false "tcp" "example.com:443").1 = [].
Proof.
  intros lookup dial.
  pose proof (DialContext_safe lookup dial false "tcp" "example.com:443" "example.com" "443"
    [Addr4 (ipv4 93 184 216 34); Addr4 (ipv4 10 0 0 1)] ltac:(vm_compute; reflexivity)
    ltac:(vm_compute; reflexivity)) as H.
  destruct (DialContext lookup dial false "tcp" "example.com:443") as [calls r].
  destruct H as (H & _). apply H. exists (Addr4 (ipv4 10 0 0 1)).
  split; [by right; left|vm_compute; reflexivity].
Defined.

(** ** The addresses that are allowed *)

(** The ranges of IPv4 addresses webhooks may not reach: this network,
    private, shared, loopback, link-local, IETF protocol assignments,
    benchmarking, multicast, reserved and broadcast. *)
Definition reserved4 : list (Z * Z) :=
  [(ipv4 0 0 0 0, ipv4 0 255 255 255);
   (ipv4 10 0 0 0, ipv4 10 255 255 255);
   (ipv4 100 64 0 0, ipv4 100 127 255 255);
   (ipv4 127 0 0 0, ipv4 127 255 255 255);
   (ipv4 169 254 0 0, ipv4 169 254 255 255);
   (ipv4 172 16 0 0, ipv4 172 31 255 255);
   (ipv4 192 0 0 0, ipv4 192 0 0 255);
   (ipv4 192 168 0 0, ipv4 192 168 255 255);
   (ipv4 198 18 0 0, ipv4 198 19 255 255);
   (ipv4 224 0 0 0, ipv4 255 255 255 255)].

Definition in_ranges (l : list (Z * Z)) (v : Z) : bool := existsb (λ r, (r.1 <=? v) && (v <=? r.2)) l.

Lemma v4_div i a : 0 <= i <= 3 → v4 i a = (a / 2 ^ (24 - 8 * i)) mod 256.
Proof.
  intros Hi. unfold v4. rewrite Z.shiftr_div_pow2 by lia. change 255 with (Z.ones 8).
  by rewrite Z.land_ones by lia.
Qed.

(** An address is in a prefix when it agrees with it above the host bits. *)
Lemma prefix_eqb v b k : 0 <= k → (Z.shiftr (Z.lxor v b) k =? 0) = (v / 2 ^ k =? b / 2 ^ k).
Proof.
  intros Hk. rewrite Z.shiftr_lxor, !Z.shiftr_div_pow2 by done.
  apply eq_iff_eq_true. by rewrite !Z.eqb_eq, Z.lxor_eq_0_iff.
Qed.

(** A mask on an octet selects a range: checked on all 256 values. *)
Lemma octet_mask m c lo hi :
  forallb (λ n, eqb (Z.land (Z.of_nat n) m =? c) ((lo <=? Z.of_nat n) && (Z.of_nat n <=? hi))) (seq 0 256) = true →
  ∀ x, 0 <= x < 256 → (Z.land x m =? c) = ((lo <=? x) && (x <=? hi)).
Proof.
  intros H x Hx. rewrite forallb_forall in H. specialize (H (Z.to_nat x)).
  rewrite Z2Nat.id in H by lia. apply eqb_prop, H, in_seq. lia.
Qed.

(** Decides a boolean equation between comparisons of [v] by arithmetic. *)
Ltac ranges :=
  apply eq_iff_eq_true;
  rewrite ?andb_true_iff, ?orb_true_iff, ?negb_true_iff, ?Z.leb_le, ?Z.eqb_eq, ?Z.eqb_neq;
  unfold ipv4; Z.to_euclidean_division_equations; lia.

Lemma multicast4 v : 0 <= v < 2 ^ 32 →
  IsMulticast (Addr4 v) = in_ranges [(ipv4 224 0 0 0, ipv4 239 255 255 255)] v.
Proof.
  intros Hv. unfold IsMulticast. rewrite v4_div by lia.
  rewrite (octet_mask 0xf0 0xe0 224 239) by (done || apply Z.mod_pos_bound; lia).
  cbn -[ipv4 Z.leb Z.pow]. rewrite orb_false_r. change (2 ^ (24 - 8 * 0)) with 16777216. ranges.
Qed.

Lemma private4 v : 0 <= v < 2 ^ 32 →
  IsPrivate (Addr4 v) =
  in_ranges [(ipv4 10 0 0 0, ipv4 10 255 255 255); (ipv4 172 16 0 0, ipv4 172 31 255 255);
             (ipv4 192 168 0 0, ipv4 192 168 255 255)] v.
Proof.
  intros Hv. unfold IsPrivate. rewrite !v4_div by lia.
  rewrite (octet_mask 0xf0 16 16 31) by (done || apply Z.mod_pos_bound; lia).
  cbn -[ipv4 Z.leb Z.pow]. rewrite orb_false_r.
  change (2 ^ (24 - 8 * 0)) with 16777216. change (2 ^ (24 - 8 * 1)) with 65536. ranges.
Qed.

Lemma loopback4 v : 0 <= v < 2 ^ 32 →
  IsLoopback (Addr4 v) = in_ranges [(ipv4 127 0 0 0, ipv4 127 255 255 255)] v.
Proof.
  intros Hv. unfold IsLoopback. rewrite v4_div by lia. cbn -[ipv4 Z.leb Z.pow]. rewrite orb_false_r.
  change (2 ^ (24 - 8 * 0)) with 16777216. ranges.
Qed.

Lemma linklocal4 v : 0 <= v < 2 ^ 32 →
  IsLinkLocalUnicast (Addr4 v) = in_ranges [(ipv4 169 254 0 0, ipv4 169 254 255 255)] v.
Proof.
  intros Hv. unfold IsLinkLocalUnicast. rewrite !v4_div by lia. cbn -[ipv4 Z.leb Z.pow]. rewrite orb_false_r.
  change (2 ^ (24 - 8 * 0)) with 16777216. change (2 ^ (24 - 8 * 1)) with 65536. ranges.
Qed.

Lemma blocked4 v : 0 <= v < 2 ^ 32 →
  existsb (λ prefix, Contains prefix (Addr4 v)) blockedPrefixes =
  in_ranges [(ipv4 0 0 0 0, ipv4 0 255 255 255); (ipv4 100 64 0 0, ipv4 100 127 255 255);
             (ipv4 169 254 0 0, ipv4 169 254 255 255); (ipv4 192 0 0 0, ipv4 192 0 0 255);
             (ipv4 198 18 0 0, ipv4 198 19 255 255); (ipv4 224 0 0 0, ipv4 255 255 255 255)] v.
Proof.
  intros Hv. unfold blockedPrefixes. cbn [existsb Contains]. rewrite !prefix_eqb by lia.
  cbn -[ipv4 Z.leb Z.pow Z.div Z.eqb]. rewrite !orb_false_r.
  change (2 ^ (32 - 8)) with 16777216. change (2 ^ (32 - 10)) with 4194304. change (2 ^ (32 - 16)) with 65536.
  change (2 ^ (32 - 24)) with 256. change (2 ^ (32 - 15)) with 131072. change (2 ^ (32 - 4)) with 268435456.
  ranges.
Qed.

(** [C20] The IPv4 addresses a webhook may reach are exactly those outside the
    reserved ranges; with private targets allowed, all but the unspecified
    address and multicast. *)
Theorem addressAllowed_ipv4 (v : Z) (allowPrivate : bool) : 0 <= v < 2 ^ 32 →
  addressAllowed (Addr4 v) allowPrivate =
  if allowPrivate
  then negb (in_ranges [(ipv4 0 0 0 0, ipv4 0 0 0 0); (ipv4 224 0 0 0, ipv4 239 255 255 255)] v)
  else negb (in_ranges reserved4 v).
Proof.
  intros Hv. unfold addressAllowed. cbn [IsValid negb Unmap].
  rewrite multicast4, private4, loopback4, linklocal4, blocked4 by done.
  assert (Hu : IsUnspecified (Addr4 v) = (v =? 0)).
  { unfold IsUnspecified. rewrite (bool_decide_eq_false_2 (Addr4 v = Addr6 0 "")) by done. rewrite orb_false_r.
    apply eq_iff_eq_true. rewrite bool_decide_eq_true, Z.eqb_eq. split; [by intros [= ->]|by intros ->]. }
  assert (Hg : IsGlobalUnicast (Addr4 v) =
    negb (v =? 0) && negb (v =? 2 ^ 32 - 1) && negb (IsLoopback (Addr4 v)) && negb (IsMulticast (Addr4 v))
    && negb (IsLinkLocalUnicast (Addr4 v))).
  { unfold IsGlobalUnicast. rewrite (bool_decide_eq_false_2 (Addr4 v = Addr6 0 "")) by done.
    cbn [negb]. rewrite andb_true_r.
    assert (∀ n, bool_decide (Addr4 v = Addr4 n) = (v =? n)) as ->.
    { intros n. apply eq_iff_eq_true. rewrite bool_decide_eq_true, Z.eqb_eq. split; [by intros [= ->]|by intros ->]. }
    assert (∀ n, bool_decide (Addr4 v = Addr4 n) = (v =? n)) as ->.
    { intros n. apply eq_iff_eq_true. rewrite bool_decide_eq_true, Z.eqb_eq. split; [by intros [= ->]|by intros ->]. }
    done. }
  rewrite Hu, Hg, multicast4, loopback4, linklocal4 by done.
  unfold in_ranges, reserved4, ipv4. cbn [existsb fst snd]. change (2 ^ 32) with 4294967296 in *.
  destruct allowPrivate; cbn [negb]; repeat rewrite orb_false_r;
    repeat match goal with |- context [?a <=? ?b] => destruct (Z.leb_spec a b); try lia; cbn [andb orb negb]
           | |- context [?a =? ?b] => destruct (Z.eqb_spec a b); try lia; cbn [andb orb negb] end; done.
Qed.

Lemma addressAllowed_ipv4_witness : addressAllowed (Addr4 (ipv4 169 254 169 254)) false = false.
Proof. rewrite addressAllowed_ipv4; [vm_compute; reflexivity|vm_compute; split; discriminate || reflexivity]. Defined.

(** The ranges of IPv6 addresses webhooks may not reach: unspecified and
    loopback, unique local, link-local and multicast. *)
Definition reserved6 : list (Z * Z) :=
  [(0, 1);
   (0xfc * 2 ^ 120, 0xfe * 2 ^ 120 - 1);
   (0xfe80 * 2 ^ 112, 0xfec0 * 2 ^ 112 - 1);
   (0xff * 2 ^ 120, 2 ^ 128 - 1)].

Lemma mask_high x : 0 <= x < 65536 → Z.land x 0xffc0 = (x / 64) * 64.
Proof.
  intros Hx. change 0xffc0 with (Z.shiftl (Z.ones 10) 6).
  assert (Z.land x (Z.shiftl (Z.ones 10) 6) = Z.shiftl (Z.land (Z.shiftr x 6) (Z.ones 10)) 6) as ->.
  { apply Z.bits_inj'. intros n Hn. rewrite Z.land_spec, !Z.shiftl_spec, Z.land_spec by done.
    destruct (Z.ltb_spec n 6) as [Hlt|Hge].
    - rewrite !(Z.testbit_neg_r _ (n - 6)) by lia. by rewrite andb_false_r.
    - rewrite Z.shiftr_spec by lia. do 2 f_equal. lia. }
  rewrite Z.land_ones, Z.shiftr_div_pow2, Z.shiftl_mul_pow2 by lia.
  change (2 ^ 6) with 64. change (2 ^ 10) with 1024. Z.to_euclidean_division_equations. lia.
Qed.

(** The same for IPv6: outside the mapped range, the addresses a webhook
    may reach are those outside the reserved ranges; a mapped address is
    treated as the IPv4 address it embeds. *)
Theorem addressAllowed_ipv6 (v : Z) (zone : string) : 0 <= v < 2 ^ 128 →
  (v / 2 ^ 32 ≠ 0xffff → addressAllowed (Addr6 v "") false = negb (in_ranges reserved6 v))
  ∧ (v / 2 ^ 32 = 0xffff → ∀ p, addressAllowed (Addr6 v zone) p = addressAllowed (Addr4 (v mod 2 ^ 32)) p).
Proof.
  intros Hv. split.
  - intros Hm. unfold addressAllowed. cbn [IsValid negb Unmap].
    rewrite Z.shiftr_div_pow2 by lia. rewrite (proj2 (Z.eqb_neq _ _) Hm).
    unfold IsUnspecified, IsGlobalUnicast, IsMulticast, IsPrivate, IsLoopback, IsLinkLocalUnicast.
    rewrite !Z.shiftr_div_pow2 by lia. rewrite mask_high by (Z.to_euclidean_division_equations; lia).
    rewrite (octet_mask 0xfe 0xfc 252 253) by (done || Z.to_euclidean_division_equations; lia).
    rewrite (bool_decide_eq_false_2 (Addr6 v "" = Addr4 0)), (bool_decide_eq_false_2 (Addr6 v "" = Addr4 (2 ^ 32 - 1))) by done.
    assert (bool_decide (Addr6 v "" = Addr6 0 "") = (v =? 0)) as ->.
    { apply eq_iff_eq_true. rewrite bool_decide_eq_true, Z.eqb_eq. split; [by intros [= ->]|by intros ->]. }
    assert (existsb (λ prefix, Contains prefix (Addr6 v "")) blockedPrefixes = false) as ->.
    { unfold blockedPrefixes. cbn [existsb Contains orb]. rewrite prefix_eqb by lia.
      change (0xffff * 2 ^ 32 / 2 ^ (128 - 96)) with 0xffff. change (128 - 96) with 32.
      by rewrite (proj2 (Z.eqb_neq _ _) Hm), andb_false_r. }
    unfold in_ranges, reserved6. cbn [existsb fst snd].
    change (2 ^ 120) with 1329227995784915872903807060280344576.
    change (2 ^ 112) with 5192296858534827628530496329220096.
    change (2 ^ 128) with 340282366920938463463374607431768211456 in *.
    cbn [negb orb andb]. rewrite !orb_false_r.
    apply eq_iff_eq_true. Z.to_euclidean_division_equations.
    repeat match goal with |- context [?a <=? ?b] => destruct (Z.leb_spec a b); try lia; cbn [andb orb negb]
           | |- context [?a =? ?b] => destruct (Z.eqb_spec a b); try lia; cbn [andb orb negb] end; done.
  - intros Hm p. unfold addressAllowed. cbn [IsValid negb Unmap].
    rewrite Z.shiftr_div_pow2 by lia. rewrite (proj2 (Z.eqb_eq _ _) Hm).
    change (2 ^ 32 - 1) with (Z.ones 32). by rewrite Z.land_ones by lia.
Qed.

Lemma addressAllowed_ipv6_witness :
  addressAllowed (Addr6 1 "") false = false
  ∧ addressAllowed (Addr6 (0xffff * 2 ^ 32 + ipv4 127 0 0 1) "") false = addressAllowed (Addr4 (ipv4 127 0 0 1)) false.
Proof.
  split.
  - rewrite (proj1 (addressAllowed_ipv6 1 "" ltac:(lia))); [vm_compute; reflexivity|vm_compute; discriminate].
  - rewrite (proj2 (addressAllowed_ipv6 (0xffff * 2 ^ 32 + ipv4 127 0 0 1) "" ltac:(vm_compute; split; discriminate || reflexivity)));
      vm_compute; reflexivity.
Defined.

(** A zoned unspecified address passes the check: [IsUnspecified]
    compares the zone too, and no prefix contains a zoned address. *)
Theorem zoned_unspecified_allowed (zone : string) : zone ≠ ""%string →
  addressAllowed (Addr6 0 zone) false = true.
Proof.
  intros Hz. unfold addressAllowed. cbn [IsValid negb]. change (Unmap (Addr6 0 zone)) with (Addr6 0 zone). cbn zeta.
  assert (bool_decide (Addr6 0 zone = Addr6 0 "") = false) as Hu.
  { apply bool_decide_eq_false. by intros [= ->]. }
  unfold IsUnspecified, IsGlobalUnicast. rewrite Hu, !(bool_decide_eq_false_2 (Addr6 0 zone = Addr4 _)) by done.
  unfold blockedPrefixes. cbn [existsb Contains]. rewrite (bool_decide_eq_false_2 (zone = ""%string)) by done.
  reflexivity.
Qed.

Lemma zoned_unspecified_allowed_witness :
  ParseAddr "::%lo" = Some (Addr6 0 "lo") ∧ addressAllowed (Addr6 0 "lo") false = true.
Proof. split; [vm_compute; reflexivity|apply zoned_unspecified_allowed; discriminate]. Defined.
