(* ===== verification/Dispatcher.v ===== *)
(** * Sending a webhook

    [src/internal/webhook/dispatcher.go]. The cipher behind its interface, the
    clock and the HTTP exchange (what [http.NewRequestWithContext] and
    [client.Do] answer, and what the response body reads as) are arguments.
    [Deliver] returns the request it sent, if it sent one, with its result. *)

From S2P Require Import Prelude GoErrors GoTime GoText Delivery Signature.

Definition defaultResponseLimit : Z := Z.shiftl 32 10.
Definition maximumErrorLength : Z := 2048.

Inductive CircuitSignal : Type :=
  | SignalNone
  | SignalFailure
  | SignalSuccess.

Record Request : Type := mkRequest {
  Request_DeliveryID : string;
  Request_EventID : string;
  Request_EndpointID : string;
  Request_EventType : string;
  Request_TargetURL : string;
  Request_SecretCiphertext : bytes;
  Request_Payload : bytes;
  Request_Timeout : Duration;
}.

Record Result : Type := mkResult {
  Result_Decision : Decision;
  Result_StatusCode : option Z;
  Result_ResponseBody : string;
  Result_ErrorMessage : string;
  Result_CircuitSignal : CircuitSignal;
  Result_Duration : Duration;
  Result_StartedAt : Time;
  Result_CompletedAt : Time;
}.

(** [endpoint.SecretContext]. *)
Definition SecretContext (id : string) : bytes := bytes_of ("relayforge:endpoint:" +:+ id).

(** ** HTTP *)

(** A request as it is handed to the client. *)
Record HttpRequest : Type := mkHttpRequest {
  Http_URL : string;
  Http_Header : list (string * string);
  Http_Body : bytes;
}.

(** A response: its status, the bytes its body yields, and the error that ends
    the body, if any. *)
Record HttpResponse : Type := mkHttpResponse {
  Http_StatusCode : Z;
  Http_Data : bytes;
  Http_ReadError : option error;
}.

(** [io.ReadAll(io.LimitReader(body, n))]: a reader at its limit reports the
    end before the body's own error. *)
Definition read_limited (n : Z) (r : HttpResponse) : bytes * option error :=
  if n <=? 0 then ([], None)
  else if n <=? len (Http_Data r) then (take (Z.to_nat n) (Http_Data r), None)
  else (Http_Data r, Http_ReadError r).

(** ** Texts *)

Definition replacement : bytes := [xef; xbf; xbd].

Definition validText (value : bytes) : string :=
  if Valid value then string_of value else string_of (ToValidUTF8 value replacement).

Definition errorText (err : error) : string :=
  let result := ToValidUTF8 (bytes_of (error_text err)) replacement in
  string_of (if maximumErrorLength <? len result then take (Z.to_nat maximumErrorLength) result else result).

Definition circuitSignal (status : Z) : CircuitSignal :=
  if (500 <=? status) || (status =? 408) then SignalFailure
  else if 100 <=? status then SignalSuccess
  else SignalNone.

(** [options.ResponseLimit] as [NewDispatcher] stores it. *)
Definition effective_limit (limit : Z) : Z := if limit <? 1 then defaultResponseLimit else limit.

Section Dispatcher.
(** The dispatcher's fields. *)
Variable Decrypt : bytes → bytes → res bytes.
Variable NewRequest : string → res string.             (* the URL's scheme *)
Variable Do : HttpRequest → res HttpResponse.
Variable allowHTTP : bool.
Variable responseLimit : Z.
(** The two readings of [d.now()]. *)
Variables now_start now_end : Time.

Definition failed (startedAt : Time) (decision : Decision) (signal : CircuitSignal) (err : error) : Result :=
  let completedAt := UTC now_end in
  mkResult decision None "" (errorText err) signal (Sub completedAt startedAt) startedAt completedAt.

(** The request with its headers. *)
Definition webhook_request (secret : bytes) (timestamp : Z) (input : Request) : HttpRequest :=
  mkHttpRequest (Request_TargetURL input)
    [("Content-Type", "application/json");
     ("User-Agent", "RelayForge/1.0");
     ("X-RelayForge-Delivery", Request_DeliveryID input);
     ("X-RelayForge-Event-ID", Request_EventID input);
     ("X-RelayForge-Event", Request_EventType input);
     ("X-RelayForge-Timestamp", FormatInt timestamp);
     ("X-RelayForge-Signature", Sign secret timestamp (Request_DeliveryID input) (Request_Payload input))]%string
    (Request_Payload input).

Definition Deliver (input : Request) : option HttpRequest * Result :=
  let startedAt := UTC now_start in
  match Decrypt (Request_SecretCiphertext input) (SecretContext (Request_EndpointID input)) with
  | Err err => (None, failed startedAt DecisionDiscard SignalNone (wrapf "decrypt endpoint secret" err))
  | Ok secret =>
      if Request_Timeout input <=? 0
      then (None, failed startedAt DecisionDiscard SignalNone (New "endpoint timeout must be positive"))
      else match NewRequest (Request_TargetURL input) with
      | Err err => (None, failed startedAt DecisionDiscard SignalNone (wrapf "build webhook request" err))
      | Ok scheme =>
          if negb (bool_decide (scheme = "https"%string))
             && (negb allowHTTP || negb (bool_decide (scheme = "http"%string)))
          then (None, failed startedAt DecisionDiscard SignalNone (New "webhook target must use HTTPS"))
          else
            let timestamp := Unix startedAt in
            let request := webhook_request secret timestamp input in
            match Do request with
            | Err err => (Some request, failed startedAt DecisionRetry SignalFailure (wrapf "send webhook" err))
            | Ok response =>
                let '(body, readErr) := read_limited (wrap64 (responseLimit + 1)) response in
                let body := if responseLimit <? len body then take (Z.to_nat responseLimit) body else body in
                let completedAt := UTC now_end in
                let statusCode := Http_StatusCode response in
                (Some request,
                 mkResult (Evaluate statusCode None) (Some statusCode) (validText body)
                   (match readErr with
                    | Some e => errorText (wrapf "read webhook response" e)
                    | None => ""
                    end)
                   (circuitSignal statusCode) (Sub completedAt startedAt) startedAt completedAt)
            end
      end
  end.
End Dispatcher.

(** ** Lemmas *)

Lemma Valid_replacement : Valid replacement = true.
Proof. reflexivity. Qed.

Lemma validText_valid value : ValidString (validText value) = true.
Proof.
  unfold validText, ValidString. destruct (Valid value) eqn:E; rewrite bytes_of_string_of; [done|].
  by apply ToValidUTF8_valid.
Qed.

Lemma validText_length value : strlen (validText value) <= 3 * len value.
Proof.
  unfold validText, strlen. destruct (Valid value); rewrite <- length_bytes_of, bytes_of_string_of; unfold len.
  - lia.
  - pose proof (ToValidUTF8_length value replacement ltac:(cbn; lia)) as H. cbn [length replacement] in H. lia.
Qed.

Lemma errorText_length err : strlen (errorText err) <= maximumErrorLength.
Proof.
  unfold errorText, strlen, maximumErrorLength. rewrite <- length_bytes_of, bytes_of_string_of. unfold len.
  set (l := ToValidUTF8 _ _). destruct (Z.ltb_spec 2048 (Z.of_nat (length l))); [|lia].
  rewrite length_take. lia.
Qed.

(** An error whose text starts with a printable character is not blanked. *)
Lemma errorText_first err b l :
  bytes_of (error_text err) = b :: l → (zb b <? 128) = true → IsSpace (zb b) = false →
  blank (errorText err) = false.
Proof.
  intros E Hb Hs. unfold errorText. rewrite E. unfold ToValidUTF8. cbn [decode]. rewrite Hb.
  cbn [replace_runs app]. set (r := replace_runs _ _ _).
  destruct (maximumErrorLength <? len (b :: r)).
  - change (Z.to_nat maximumErrorLength) with (S 2047). cbn [take]. by apply not_blank_first.
  - by apply not_blank_first.
Qed.

Lemma errorText_wrapf c msg err :
  (zb (Ascii.byte_of_ascii c) <? 128) = true → IsSpace (zb (Ascii.byte_of_ascii c)) = false →
  blank (errorText (wrapf (String c msg) err)) = false.
Proof. intros Hb Hs. by eapply errorText_first. Qed.

Lemma errorText_New c msg :
  (zb (Ascii.byte_of_ascii c) <? 128) = true → IsSpace (zb (Ascii.byte_of_ascii c)) = false →
  blank (errorText (New (String c msg))) = false.
Proof. intros Hb Hs. by eapply errorText_first. Qed.

Lemma read_limited_length limit r : 1 <= limit →
  let '(body, _) := read_limited (wrap64 (limit + 1)) r in
  len (if limit <? len body then take (Z.to_nat limit) body else body) <= limit.
Proof.
  intros Hl. destruct (read_limited (wrap64 (limit + 1)) r) as [body e]. clear e.
  unfold len. destruct (Z.ltb_spec limit (Z.of_nat (length body))); [rewrite length_take; lia|lia].
Qed.

(** ** Theorems *)

(** [C26] Every result the dispatcher returns is well formed: without a status
    it carries an error text and is a retry that counts against the circuit or
    a discard that does not; with one, a request was sent and the decision is
    that of the status. The recorded body is valid UTF-8 and bounded, the
    error text is bounded, and the times are the two clock readings. *)
Theorem Deliver_wellformed Decrypt NewRequest Do allowHTTP limit now_start now_end input :
  1 <= limit →
  let '(sent, r) := Deliver Decrypt NewRequest Do allowHTTP limit now_start now_end input in
  (Result_StatusCode r = None →
     blank (Result_ErrorMessage r) = false ∧ Result_ResponseBody r = ""%string
     ∧ (Result_Decision r = DecisionRetry ∧ Result_CircuitSignal r = SignalFailure ∧ sent ≠ None
        ∨ Result_Decision r = DecisionDiscard ∧ Result_CircuitSignal r = SignalNone ∧ sent = None))
  ∧ (∀ c, Result_StatusCode r = Some c →
       Result_Decision r = Evaluate c None ∧ Result_CircuitSignal r = circuitSignal c ∧ sent ≠ None)
  ∧ ValidString (Result_ResponseBody r) = true ∧ strlen (Result_ResponseBody r) <= 3 * limit
  ∧ strlen (Result_ErrorMessage r) <= maximumErrorLength
  ∧ Result_StartedAt r = UTC now_start ∧ Result_CompletedAt r = UTC now_end
  ∧ Result_Duration r = Sub (UTC now_end) (UTC now_start).
Proof.
  intros Hl. unfold Deliver.
  assert (H0 : strlen "" <= 3 * limit) by (unfold strlen; cbn; lia).
  destruct (Decrypt _ _) as [secret|err].
  2: { split_and!; try apply errorText_length; try done. intros _. split_and!; [by apply errorText_wrapf|done|by right]. }
  destruct (Request_Timeout input <=? 0).
  { split_and!; try apply errorText_length; try done. intros _. split_and!; [by apply errorText_New|done|by right]. }
  destruct (NewRequest _) as [scheme|err].
  2: { split_and!; try apply errorText_length; try done. intros _. split_and!; [by apply errorText_wrapf|done|by right]. }
  destruct (_ && _).
  { split_and!; try apply errorText_length; try done. intros _. split_and!; [by apply errorText_New|done|by right]. }
  cbn zeta. destruct (Do _) as [response|err].
  2: { split_and!; try apply errorText_length; try done. intros _. split_and!; [by apply errorText_wrapf|done|by left]. }
  pose proof (read_limited_length limit response Hl) as Hb.
  destruct (read_limited _ response) as [body readErr]. split_and!; try done; cbn.
  - by intros c [= <-].
  - apply validText_valid.
  - etrans; [apply validText_length|lia].
  - destruct readErr; [apply errorText_length|unfold strlen, maximumErrorLength; cbn; lia].
Qed.

Definition demo_request : Request :=
  mkRequest "dl" "ev" "ep" "invoice.paid" "https://example.com/hook" [x01] [x7b; x7d] Second.

Lemma Deliver_wellformed_witness :
  let r := (Deliver (λ _ _, Ok []) (λ _, Ok "https"%string) (λ _, Ok (mkHttpResponse 204 [] None)) false 16
              (mkTime 0 None) (mkTime Second None) demo_request).2 in
  Result_Decision r = DecisionSucceed.
Proof.
  pose proof (Deliver_wellformed (λ _ _, Ok []) (λ _, Ok "https"%string) (λ _, Ok (mkHttpResponse 204 [] None)) false 16
    (mkTime 0 None) (mkTime Second None) demo_request ltac:(lia)) as H.
  destruct (Deliver _ _ _ _ _ _ _ _) as [sent r] eqn:E. destruct H as (_ & H & _). cbn zeta. cbn [snd].
  destruct (H 204) as [-> _]; [|reflexivity]. apply (f_equal (λ x, Result_StatusCode x.2)) in E. cbn [snd] in E.
  rewrite <- E. vm_compute. reflexivity.
Defined.

(** The only request [Deliver] hands to the client. *)
Lemma Deliver_request Decrypt NewRequest Do allowHTTP limit now_start now_end input q r :
  Deliver Decrypt NewRequest Do allowHTTP limit now_start now_end input = (Some q, r) →
  ∃ secret scheme, Decrypt (Request_SecretCiphertext input) (SecretContext (Request_EndpointID input)) = Ok secret
    ∧ NewRequest (Request_TargetURL input) = Ok scheme
    ∧ (scheme = "https"%string ∨ allowHTTP = true ∧ scheme = "http"%string)
    ∧ 0 < Request_Timeout input
    ∧ q = webhook_request secret (Unix (UTC now_start)) input.
Proof.
  unfold Deliver. destruct (Decrypt _ _) as [secret|]; [|done].
  destruct (Z.leb_spec (Request_Timeout input) 0); [done|].
  destruct (NewRequest (Request_TargetURL input)) as [scheme|] eqn:En; [|done].
  destruct (_ && _) eqn:Es; [done|]. cbn zeta. intros H1. exists secret, scheme. split_and!; try done.
  - apply andb_false_iff in Es as [Es|Es]; zbool; [by left|by right].
  - destruct (Do _); [destruct (read_limited _ _)|]; by injection H1.
Qed.

(** A request leaves only under the protocol the configuration allows
    and signed with the endpoint's own secret, opened under the endpoint's
    context: a receiver that recomputes the signature from the timestamp, the
    delivery header and the body finds the one in the request. *)
Theorem Deliver_sends_signed Decrypt NewRequest Do allowHTTP limit now_start now_end input q r :
  Deliver Decrypt NewRequest Do allowHTTP limit now_start now_end input = (Some q, r) →
  ∃ secret scheme, Decrypt (Request_SecretCiphertext input) (SecretContext (Request_EndpointID input)) = Ok secret
    ∧ NewRequest (Http_URL q) = Ok scheme
    ∧ (scheme = "https"%string ∨ allowHTTP = true ∧ scheme = "http"%string)
    ∧ 0 < Request_Timeout input
    ∧ Http_Body q = Request_Payload input
    ∧ ∃ timestamp : Z, timestamp = wall now_start / Second
        ∧ ("X-RelayForge-Timestamp", FormatInt timestamp)%string ∈ Http_Header q
        ∧ ("X-RelayForge-Delivery", Request_DeliveryID input)%string ∈ Http_Header q
        ∧ ("X-RelayForge-Signature", Sign secret timestamp (Request_DeliveryID input) (Http_Body q))%string
            ∈ Http_Header q.
Proof.
  intros (secret & scheme & Hd & Hn & Hs & Ht & ->)%Deliver_request. exists secret, scheme.
  split_and!; try done. exists (Unix (UTC now_start)). split; [done|].
  unfold webhook_request. cbn [Http_Header Http_Body]. rewrite !elem_of_cons. tauto.
Qed.

Lemma Deliver_sends_signed_witness :
  ∃ q, (Deliver (λ _ _, Ok [x02]) (λ _, Ok "https"%string) (λ _, Err (New "refused")) false 16
              (mkTime 0 None) (mkTime Second None) demo_request).1 = Some q
  ∧ Http_Body q = [x7b; x7d].
Proof.
  destruct (Deliver (λ _ _, Ok [x02]) (λ _, Ok "https"%string) (λ _, Err (New "refused")) false 16
              (mkTime 0 None) (mkTime Second None) demo_request) as [[q|] r] eqn:E; [|discriminate E].
  exists q. split; [reflexivity|].
  destruct (Deliver_sends_signed _ _ _ _ _ _ _ _ _ _ E) as (secret & scheme & _ & _ & _ & _ & Hb & _). exact Hb.
Defined.

(** Cutting an error text at [maximumErrorLength] bytes can cut a
    character: from a valid text it can make one that is not valid UTF-8. *)
Theorem errorText_splits_rune :
  ∃ err, ValidString (error_text err) = true ∧ ValidString (errorText err) = false.
Proof.
  exists (New (string_of (repeat x61 2047 ++ [xc3; xa9]))). split; vm_compute; reflexivity.
Qed.
