(* ===== verification/HttpClient.v ===== *)
(** * http.Client and http.Transport

    What the dispatcher and the load generator use of package net/http's client:
    building a request, the address a request is connected to, connections that
    are dialed, reused and kept idle, and redirects. What a server answers on a
    connection is left open, so a round trip and an exchange are relations; the
    dials they make and the connections they speak on are their trace. *)

From S2P Require Import Prelude GoErrors GoTime GoText GoStrings GoParse Netip Url Mime Dispatcher.

(** ** Requests *)

(** [hasPort] and [removeEmptyPort]. *)
Definition hasPort (s : string) : bool :=
  match last_index_byte 58 (bytes_of s), last_index_byte 93 (bytes_of s) with
  | Some colon, Some bracket => Nat.ltb bracket colon
  | Some _, None => true
  | None, _ => false
  end.

Definition removeEmptyPort (host : string) : string := if hasPort host then TrimSuffix host ":" else host.

Definition with_host (host : string) (u : URL) : URL :=
  mkURL (URL_Scheme u) (URL_Opaque u) (URL_User u) host (URL_Path u) (URL_RawPath u) (URL_OmitHost u) (URL_ForceQuery u)
    (URL_RawQuery u) (URL_Fragment u) (URL_RawFragment u).

(** [http.NewRequestWithContext] with a valid method: the request's URL. *)
Definition NewRequest `{UX : UnicodeText} (target : string) : res URL :=
  u ← url_Parse target; Ok (with_host (removeEmptyPort (URL_Host u)) u).

(** [httpguts.ValidHeaderFieldName] and [ValidHeaderFieldValue]. *)
Definition ValidHeaderFieldName (s : string) : bool := negb (bool_decide (s = ""%string)) && forallb isTokenChar (bytes_of s).
Definition ValidHeaderFieldValue (s : string) : bool :=
  forallb (λ b, negb ((zb b <? 32) || (zb b =? 127)) || (zb b =? 9)) (bytes_of s).

(** ** The transport *)

Section Client.
Context {Conn : Type} `{UX : UnicodeText}.

(** A dial answers with a connection and the calls it made of the dialer below. *)
Definition dial_function : Type := string → string → list (string * string) * res Conn.

Record Transport : Type := mkTransport {
  Proxy : option (URL → res (option URL));
  Transport_DialContext : option dial_function;
  ForceAttemptHTTP2 : bool;
  MaxIdleConns : Z;
  MaxIdleConnsPerHost : Z;
  IdleConnTimeout : Duration;
  TLSHandshakeTimeout : Duration;
  TLS_MinVersion : option Z;
  ExpectContinueTimeout : Duration;
  MaxResponseHeaderBytes : Z;
}.

(** [idna.Lookup.ToASCII], and the dial of a transport without [DialContext]. *)
Variable ToASCII : string → res string.
Variable zero_dial : dial_function.

Definition idnaASCII (s : string) : res string := if forallb (λ b, zb b <? 128) (bytes_of s) then Ok s else ToASCII s.

(** [canonicalAddr]. *)
Definition canonicalAddr (u : URL) : string :=
  let host := match idnaASCII (Hostname u) with Ok v => v | Err _ => Hostname u end in
  let port := if bool_decide (Port u = ""%string)
              then if bool_decide (URL_Scheme u = "http"%string) then "80"
                   else if bool_decide (URL_Scheme u = "https"%string) then "443" else ""
              else Port u in
  JoinHostPort host port.

(** [connectMethodForRequest] and [connectMethod.addr]. *)
Definition connect_addr (t : Transport) (u : URL) : res string :=
  match Proxy t with
  | None => Ok (canonicalAddr u)
  | Some p => proxy ← p u; Ok (canonicalAddr (default u proxy))
  end.

Definition transport_dial (t : Transport) : dial_function := default zero_dial (Transport_DialContext t).

(** What [RoundTrip] refuses before it connects. *)
Definition refused (u : URL) (q : HttpRequest) : option error :=
  if negb (forallb (λ '(k, v), ValidHeaderFieldName k && ValidHeaderFieldValue v) (Http_Header q))
  then Some (New "net/http: invalid header field")
  else if negb (bool_decide (URL_Scheme u ∈ ["http"; "https"]%string)) then Some (New "unsupported protocol scheme")
  else if bool_decide (URL_Host u = ""%string) then Some (New "http: no Host in request URL")
  else None.

(** ** Round trips *)

Inductive event : Type :=
  | Dialed (network address : string)         (* a call of the dialer below *)
  | Spoke (conn : Conn).                      (* the request was written to it *)

(** The idle connections, by the address they were opened for. *)
Definition pool : Type := list (string * Conn).

(** A response with its Location header. *)
Definition answer : Type := res (string * HttpResponse).

Inductive round_trip (t : Transport) (u : URL) (q : HttpRequest) : pool → list event → answer → pool → Prop :=
  (** Nothing is connected. *)
  | rt_refused idle e : refused u q = Some e → round_trip t u q idle [] (Err e) idle
  | rt_proxy idle e : connect_addr t u = Err e → round_trip t u q idle [] (Err e) idle
  | rt_canceled idle e : round_trip t u q idle [] (Err e) idle
  (** Other requests take and return connections, and idle ones are closed. *)
  | rt_idle idle idle' events r idle'' :
      idle' ⊆ idle → round_trip t u q idle' events r idle'' → round_trip t u q idle events r idle''
  (** An idle connection is reused; it may break, and the request be tried
      again. *)
  | rt_reused idle addr conn r idle' :
      refused u q = None → connect_addr t u = Ok addr → (addr, conn) ∈ idle → idle' ⊆ idle →
      round_trip t u q idle [Spoke conn] r idle'
  | rt_broken idle addr conn idle' events r idle'' :
      refused u q = None → connect_addr t u = Ok addr → (addr, conn) ∈ idle → idle' ⊆ idle →
      round_trip t u q idle' events r idle'' → round_trip t u q idle (Spoke conn :: events) r idle''
  (** A connection is dialed, and used, or left idle because the request took
      another that came free. *)
  | rt_dial_failed idle addr calls e :
      refused u q = None → connect_addr t u = Ok addr → transport_dial t "tcp" addr = (calls, Err e) →
      round_trip t u q idle (map (λ c, Dialed c.1 c.2) calls) (Err e) idle
  | rt_dialed idle addr calls conn r idle' :
      refused u q = None → connect_addr t u = Ok addr → transport_dial t "tcp" addr = (calls, Ok conn) →
      idle' ⊆ (addr, conn) :: idle →
      round_trip t u q idle (map (λ c, Dialed c.1 c.2) calls ++ [Spoke conn]) r idle'
  | rt_spare idle addr calls conn events r idle' :
      refused u q = None → connect_addr t u = Ok addr → transport_dial t "tcp" addr = (calls, Ok conn) →
      round_trip t u q ((addr, conn) :: idle) events r idle' →
      round_trip t u q idle (map (λ c, Dialed c.1 c.2) calls ++ events) r idle'.

(** [http.DefaultTransport], from the proxy of the environment and its own
    dialer. *)
Definition DefaultTransport (ProxyFromEnvironment : URL → res (option URL)) (dialer : dial_function) : Transport :=
  mkTransport (Some ProxyFromEnvironment) (Some dialer) true 100 0 (90 * Second) (10 * Second) None Second 0.

(** [CloseIdleConnections]. *)
Definition CloseIdleConnections (_ : pool) : pool := [].

(** ** The client *)

Definition ErrUseLastResponse : error := Sentinel "http.ErrUseLastResponse" "net/http: use last response".

(** [CheckRedirect] is asked with the number of requests made so far. *)
Record Client : Type := mkClient {
  Client_Transport : Transport;
  CheckRedirect : option (nat → option error);
}.

Definition defaultCheckRedirect (via : nat) : option error :=
  if Nat.leb 10 via then Some (New "stopped after 10 redirects") else None.

Definition checkRedirect (c : Client) : nat → option error := default defaultCheckRedirect (CheckRedirect c).

(** [redirectBehavior] of a request whose body can be sent again. *)
Definition shouldRedirect (status : Z) : bool := bool_decide (status ∈ [301; 302; 303; 307; 308]).

(** The [*url.Error] of [client.Do] for a POST request. *)
Definition uerr (u : URL) (e : error) : error := url_Error "Post" (bytes_of (url_String u)) e.

Inductive exchange (c : Client) : nat → URL → HttpRequest → pool → list event → res HttpResponse → pool → Prop :=
  | ex_error n u q idle events e idle' :
      round_trip (Client_Transport c) u q idle events (Err e) idle' → exchange c n u q idle events (Err (uerr u e)) idle'
  | ex_answer n u q idle events location r idle' :
      round_trip (Client_Transport c) u q idle events (Ok (location, r)) idle' →
      shouldRedirect (Http_StatusCode r) = false ∨ location = ""%string →
      exchange c n u q idle events (Ok r) idle'
  | ex_bad_location n u q idle events location r idle' e :
      round_trip (Client_Transport c) u q idle events (Ok (location, r)) idle' →
      shouldRedirect (Http_StatusCode r) = true → location ≠ ""%string → url_Parse location = Err e →
      exchange c n u q idle events
        (Err (uerr u (Wrap ("failed to parse Location header " +:+ Quote location +:+ ": ") e ""))) idle'
  | ex_last n u q idle events location r idle' v :
      round_trip (Client_Transport c) u q idle events (Ok (location, r)) idle' →
      shouldRedirect (Http_StatusCode r) = true → location ≠ ""%string → url_Parse location = Ok v →
      checkRedirect c (S n) = Some ErrUseLastResponse → exchange c n u q idle events (Ok r) idle'
  | ex_refused n u q idle events location r idle' v e :
      round_trip (Client_Transport c) u q idle events (Ok (location, r)) idle' →
      shouldRedirect (Http_StatusCode r) = true → location ≠ ""%string → url_Parse location = Ok v →
      checkRedirect c (S n) = Some e → e ≠ ErrUseLastResponse → exchange c n u q idle events (Err (uerr u e)) idle'
  (** The redirect is followed, wherever it leads. *)
  | ex_follow n u q idle events location r idle' v u' q' events' r' idle'' :
      round_trip (Client_Transport c) u q idle events (Ok (location, r)) idle' →
      shouldRedirect (Http_StatusCode r) = true → location ≠ ""%string → url_Parse location = Ok v →
      checkRedirect c (S n) = None → exchange c (S n) u' q' idle' events' r' idle'' →
      exchange c n u q idle (events ++ events') r' idle''.

(** [client.Do]. *)
Definition client_Do (c : Client) : URL → HttpRequest → pool → list event → res HttpResponse → pool → Prop := exchange c 0.

(** ** Lemmas *)

(** Every connection that is idle has the property of those that are dialed for
    its address. *)
Section Traces.
Variable t : Transport.
Variable call_ok : URL → string → string → Prop.
Variable conn_ok : string → Conn → Prop.

Hypothesis dial_ok : ∀ u addr calls r, connect_addr t u = Ok addr → transport_dial t "tcp" addr = (calls, r) →
  (∀ c, c ∈ calls → call_ok u c.1 c.2) ∧ ∀ conn, r = Ok conn → conn_ok addr conn.

Definition pool_ok (idle : pool) : Prop := ∀ addr conn, (addr, conn) ∈ idle → conn_ok addr conn.

Definition event_ok (u : URL) (e : event) : Prop :=
  match e with
  | Dialed network address => call_ok u network address
  | Spoke conn => ∃ addr, connect_addr t u = Ok addr ∧ conn_ok addr conn
  end.

Lemma pool_ok_subset idle idle' : idle' ⊆ idle → pool_ok idle → pool_ok idle'.
Proof. intros Hs Hok addr conn Hin. apply Hok. by apply Hs. Qed.

Lemma pool_ok_cons addr conn idle : conn_ok addr conn → pool_ok idle → pool_ok ((addr, conn) :: idle).
Proof. intros Hc Hok addr' conn' [[= -> ->]|Hin]%elem_of_cons; [done|by apply Hok]. Qed.

Lemma calls_ok u calls : (∀ c, c ∈ calls → call_ok u c.1 c.2) → Forall (event_ok u) (map (λ c, Dialed c.1 c.2) calls).
Proof.
  intros H. apply Forall_forall. intros e He. apply list_elem_of_In, in_map_iff in He as (c & <- & Hin).
  by apply H, list_elem_of_In.
Qed.

Lemma round_trip_ok u q idle events r idle' :
  round_trip t u q idle events r idle' → pool_ok idle → Forall (event_ok u) events ∧ pool_ok idle'.
Proof.
  induction 1 as [idle e Hr|idle e Ha|idle e|idle idle' events r idle'' Hs _ IH|idle addr conn r idle' Hr Ha Hin Hs
    |idle addr conn idle' events r idle'' Hr Ha Hin Hs _ IH|idle addr calls e Hr Ha Hd|idle addr calls conn r idle' Hr Ha Hd Hs
    |idle addr calls conn events r idle' Hr Ha Hd _ IH]; intros Hok; try by split.
  - by apply IH, (pool_ok_subset idle).
  - split; [|by apply (pool_ok_subset idle)]. repeat constructor. exists addr. split; [done|by apply Hok].
  - destruct IH as [He Hp]; [by apply (pool_ok_subset idle)|]. split; [|done]. constructor; [|done].
    exists addr. split; [done|by apply Hok].
  - destruct (dial_ok _ _ _ _ Ha Hd) as [Hc _]. split; [by apply calls_ok|done].
  - destruct (dial_ok _ _ _ _ Ha Hd) as [Hc Hcn]. split.
    + apply Forall_app. split; [by apply calls_ok|]. repeat constructor. exists addr. split; [done|by apply Hcn].
    + eapply pool_ok_subset; [done|]. apply pool_ok_cons; [by apply Hcn|done].
  - destruct (dial_ok _ _ _ _ Ha Hd) as [Hc Hcn]. destruct IH as [He Hp]; [by apply pool_ok_cons; [apply Hcn|]|].
    split; [|done]. apply Forall_app. split; [by apply calls_ok|done].
Qed.
End Traces.

(** A client whose policy is to use the last response makes one round trip, and
    an answer of the server is the answer. *)
Lemma exchange_last c n u q idle events r idle' :
  (∀ via, checkRedirect c via = Some ErrUseLastResponse) → exchange c n u q idle events r idle' →
  ∃ a, round_trip (Client_Transport c) u q idle events a idle'
    ∧ (∀ response, r = Ok response → ∃ location, a = Ok (location, response)).
Proof.
  intros Hc Hx. destruct Hx as [n u q idle events e idle' H|n u q idle events location r idle' H _|n u q idle events location r idle' e H _ _ _
    |n u q idle events location r idle' v H _ _ _ _|n u q idle events location r idle' v e H _ _ _ He Hne
    |n u q idle events location r idle' v u' q' events' r' idle'' H _ _ _ He _];
    [by eexists|eexists; split; [done|]; intros ? [= <-]; by eexists|by eexists|eexists; split; [done|]; intros ? [= <-]; by eexists| |].
  - rewrite Hc in He. congruence.
  - by rewrite Hc in He.
Qed.
End Client.
