(* ===== verification/WebhookClient.v ===== *)
(** * The dispatcher and its client

    [src/internal/webhook/dispatcher.go]: [NewDispatcher] with the safe dialer of
    dialer.go under the transport, and a delivery from the decryption of the
    secret to the connections it speaks on. The resolver, the dialer of package
    net and the servers are arguments. *)

From S2P Require Import Prelude GoErrors GoTime GoText GoStrings GoParse Netip Url Mime Dialer Dispatcher HttpClient.

Section Webhook.
Context {Conn : Type} `{UX : UnicodeText}.

(** ** The types *)

Record Resolver : Type := mkResolver { LookupNetIP : string → res (list Addr) }.

(** A dial answers from the calls made before it. *)
Record ContextDialer : Type := mkContextDialer {
  dialer_DialContext : list (string * string) → string → string → res Conn;
}.

Record SafeDialer : Type := mkSafeDialer {
  SafeDialer_resolver : Resolver;
  SafeDialer_dialer : ContextDialer;
  SafeDialer_allowPrivate : bool;
}.

Definition NewSafeDialer (resolver : Resolver) (dialer : ContextDialer) (allowPrivate : bool) : SafeDialer :=
  mkSafeDialer resolver dialer allowPrivate.

Definition SafeDialer_DialContext (d : SafeDialer) : dial_function :=
  DialContext (LookupNetIP (SafeDialer_resolver d)) (dialer_DialContext (SafeDialer_dialer d)) (SafeDialer_allowPrivate d).

(** [Now] is the clock by its readings. *)
Record Options : Type := mkOptions {
  Options_AllowHTTP : bool;
  Options_AllowPrivateTargets : bool;
  Options_Resolver : option Resolver;
  Options_Dialer : option ContextDialer;
  Options_Now : option (nat → Time);
  Options_ResponseLimit : Z;
}.

Record Dispatcher : Type := mkDispatcher {
  Dispatcher_cipher : bytes → bytes → res bytes;
  Dispatcher_client : Client (Conn := Conn);
  Dispatcher_now : nat → Time;
  Dispatcher_allowHTTP : bool;
  Dispatcher_responseLimit : Z;
  Dispatcher_transport : Transport (Conn := Conn);
}.

(** [net.DefaultResolver], [net.Dialer] with its timeout and keep-alive, and
    [time.Now]. *)
Variable DefaultResolver : Resolver.
Variable net_Dialer : Duration → Duration → ContextDialer.
Variable time_Now : nat → Time.

Definition VersionTLS12 : Z := 0x0303.

Definition NewDispatcher (cipher : bytes → bytes → res bytes) (options : Options) : Dispatcher :=
  let resolver := default DefaultResolver (Options_Resolver options) in
  let dialer := default (net_Dialer (10 * Second) (30 * Second)) (Options_Dialer options) in
  let now := default time_Now (Options_Now options) in
  let responseLimit := effective_limit (Options_ResponseLimit options) in
  let safeDialer := NewSafeDialer resolver dialer (Options_AllowPrivateTargets options) in
  let transport := mkTransport None (Some (SafeDialer_DialContext safeDialer)) true 100 10 (90 * Second) (10 * Second)
                     (Some VersionTLS12) Second (Z.shiftl 64 10) in
  let client := mkClient transport (Some (λ _, Some ErrUseLastResponse)) in
  mkDispatcher cipher client now (Options_AllowHTTP options) responseLimit transport.

(** ** A delivery *)

Variable ToASCII : string → res string.
Variable zero_dial : dial_function (Conn := Conn).

(** [Deliver] with the clock's readings [k] and [k + 1]: what it returns when the
    exchange of its request, if it makes one, ends in some way. *)
Definition delivers (d : Dispatcher) (k : nat) (input : Request) (idle : pool) (events : list (event (Conn := Conn)))
    (out : option HttpRequest * Result) (idle' : pool) : Prop :=
  ∃ answer,
    out = Deliver (Dispatcher_cipher d) (λ target, u ← NewRequest target; Ok (URL_Scheme u)) (λ _, answer)
            (Dispatcher_allowHTTP d) (Dispatcher_responseLimit d) (Dispatcher_now d k) (Dispatcher_now d (S k)) input
    ∧ match out.1 with
      | None => events = [] ∧ idle' = idle
      | Some q => ∃ u, NewRequest (Http_URL q) = Ok u
                    ∧ client_Do ToASCII zero_dial (Dispatcher_client d) u q idle events answer idle'
      end.

(** [Close]. *)
Definition Close (_ : Dispatcher) (idle : pool (Conn := Conn)) : pool (Conn := Conn) := CloseIdleConnections idle.

(** The connections a dispatcher keeps, from its construction on. *)
Inductive keeps (d : Dispatcher) : pool → Prop :=
  | keeps_none : keeps d []
  | keeps_after k input idle events out idle' : keeps d idle → delivers d k input idle events out idle' → keeps d idle'
  | keeps_fewer idle idle' : keeps d idle → idle' ⊆ idle → keeps d idle'
  | keeps_closed idle : keeps d idle → keeps d (Close d idle).

(** ** Lemmas *)

(** What the safe dialer dials for an address. *)
Definition safe_target (d : SafeDialer) (addr target : string) : Prop :=
  ∃ host port addresses a, SplitHostPort addr = Ok (host, port)
    ∧ resolve (LookupNetIP (SafeDialer_resolver d)) host = Ok addresses ∧ a ∈ addresses
    ∧ addressAllowed a (SafeDialer_allowPrivate d) = true ∧ target = JoinHostPort (Addr_String (Unmap a)) port.

Definition safe_conn (d : SafeDialer) (addr : string) (conn : Conn) : Prop :=
  ∃ before target, safe_target d addr target ∧ dialer_DialContext (SafeDialer_dialer d) before "tcp" target = Ok conn.

Lemma SafeDialer_dials d network addr calls r : SafeDialer_DialContext d network addr = (calls, r) →
  (∀ c, c ∈ calls → c.1 = network ∧ safe_target d addr c.2)
  ∧ ∀ conn, r = Ok conn → ∃ before target, safe_target d addr target
                          ∧ dialer_DialContext (SafeDialer_dialer d) before network target = Ok conn.
Proof.
  unfold SafeDialer_DialContext, DialContext. destruct (SplitHostPort addr) as [[host port]|e] eqn:Es.
  2:{ intros [= <- <-]. by split; [intros c ?%elem_of_nil|]. }
  destruct (resolve _ host) as [addresses|e] eqn:Er.
  2:{ intros [= <- <-]. by split; [intros c ?%elem_of_nil|]. }
  destruct (blocked _ addresses) as [b|] eqn:Eb.
  { intros [= <- <-]. by split; [intros c ?%elem_of_nil|]. }
  rewrite blocked_None in Eb.
  pose proof (dial_each_calls (dialer_DialContext (SafeDialer_dialer d)) network port addresses [] []) as H. intros Ed. rewrite Ed in H.
  destruct H as (more & -> & Hm & Hr). cbn [app] in *.
  assert (Hcall : ∀ c, c ∈ more → c.1 = network ∧ safe_target d addr c.2).
  { intros c Hc. destruct (Hm c Hc) as (a & Ha & ->). split; [done|]. exists host, port, addresses, a. split_and!; try done. by apply Eb. }
  split; [exact Hcall|]. intros conn ->. destruct (Hr conn eq_refl) as (before & target & -> & Hd).
  exists before, target. split; [|done]. apply (Hcall (network, target)). apply elem_of_app. right. left.
Qed.

Section Delivery.
Variable cipher : bytes → bytes → res bytes.
Variable options : Options.

Definition the_dispatcher : Dispatcher := NewDispatcher cipher options.

(** The safe dialer under the dispatcher. *)
Definition its_dialer : SafeDialer :=
  NewSafeDialer (default DefaultResolver (Options_Resolver options))
    (default (net_Dialer (10 * Second) (30 * Second)) (Options_Dialer options)) (Options_AllowPrivateTargets options).

Lemma dispatcher_dials u addr calls r :
  connect_addr ToASCII (Dispatcher_transport the_dispatcher) u = Ok addr →
  transport_dial zero_dial (Dispatcher_transport the_dispatcher) "tcp" addr = (calls, r) →
  (∀ c, c ∈ calls → c.1 = "tcp"%string ∧ safe_target its_dialer (canonicalAddr ToASCII u) c.2)
  ∧ ∀ conn, r = Ok conn → safe_conn its_dialer addr conn.
Proof. intros [= <-] H. exact (SafeDialer_dials its_dialer _ _ _ _ H). Qed.

Definition kept_ok : pool → Prop := pool_ok (safe_conn its_dialer).

Definition speaks_ok (u : URL) (e : event) : Prop :=
  match e with
  | Dialed network target => network = "tcp"%string ∧ safe_target its_dialer (canonicalAddr ToASCII u) target
  | Spoke conn => safe_conn its_dialer (canonicalAddr ToASCII u) conn
  end.

Lemma round_trip_safe u q idle events r idle' :
  round_trip ToASCII zero_dial (Dispatcher_transport the_dispatcher) u q idle events r idle' → kept_ok idle →
  Forall (speaks_ok u) events ∧ kept_ok idle'.
Proof.
  intros H Hok.
  destruct (round_trip_ok ToASCII zero_dial (Dispatcher_transport the_dispatcher)
    (λ u network target, network = "tcp"%string ∧ safe_target its_dialer (canonicalAddr ToASCII u) target) (safe_conn its_dialer)
    dispatcher_dials u q idle events r idle' H Hok) as [He Hp].
  split; [|exact Hp]. eapply Forall_impl; [exact He|]. intros [network target|conn]; [done|].
  intros (addr & [= <-] & Hc). exact Hc.
Qed.

(** One round trip per delivery, and none without a request. *)
Lemma delivers_round_trip k input idle events out idle' :
  delivers the_dispatcher k input idle events out idle' →
  match out.1 with
  | None => events = [] ∧ idle' = idle
  | Some q => ∃ u a, NewRequest (Request_TargetURL input) = Ok u
      ∧ round_trip ToASCII zero_dial (Dispatcher_transport the_dispatcher) u q idle events a idle'
      ∧ ∀ c, Result_StatusCode out.2 = Some c → ∃ location r, a = Ok (location, r) ∧ c = Http_StatusCode r
  end.
Proof.
  intros (answer & Hout & H). destruct out as [[q|] r]; cbn [fst snd] in *; [|done].
  destruct H as (u & Hu & Hx). symmetry in Hout.
  destruct (Deliver_request _ _ _ _ _ _ _ _ _ _ Hout) as (secret & scheme & Hs & _ & _ & _ & Hq).
  assert (Hurl : Http_URL q = Request_TargetURL input) by by rewrite Hq.
  apply exchange_last in Hx as (a & Ha & Hr); [|done]. exists u, a. rewrite <- Hurl. split_and!; [done|done|].
  intros c Hc. revert Hout. unfold Deliver. rewrite Hs. destruct (_ <=? 0); [done|]. destruct (u0 ← NewRequest _; _) as [sch|]; [|done].
  destruct (_ && _); [done|]. destruct answer as [response|e].
  - destruct (read_limited _ response) as [body e]. intros [= _ <-]. cbn in Hc. injection Hc as <-.
    destruct (Hr response eq_refl) as [location ->]. eauto.
  - intros [= _ <-]. by cbn in Hc.
Qed.

Lemma keeps_ok idle : keeps the_dispatcher idle → kept_ok idle.
Proof.
  induction 1 as [|k input idle events out idle' _ IH Hd|idle idle' _ IH Hs|idle _ IH].
  - intros addr conn ?%elem_of_nil. done.
  - apply delivers_round_trip in Hd. destruct out.1 as [q|].
    + destruct Hd as (u & a & _ & Ha & _). by eapply round_trip_safe.
    + by destruct Hd as [_ ->].
  - by eapply pool_ok_subset.
  - intros addr conn ?%elem_of_nil. done.
Qed.
End Delivery.
End Webhook.
