(* ===== verification/Worker.v ===== *)
(** * The delivery workers

    [src/internal/worker/pool.go]: what a worker does with a claimed job, and
    its loop. A worker talks to the queue through the interface [WorkerQueue],
    which the store implements; what its environment decides in one turn of
    the loop (the transactions' environments and faults, the dispatcher's
    answer, the random sample, cancellation, the timer) is a [turn]. Workers
    only share the database, so that the turns of several workers interleave
    as their transactions do: every transaction is a [step] of the system. *)

From S2P Require Import Prelude GoErrors GoTime GoText Float64 Delivery Schema Tx Invariant TxLogic Queue.
From S2P Require Import QueueSafety QueueSpec QueueRuns Eventing StoreEvents StoreDeliveries StoreEndpoints.
From S2P Require Import Minting StoreSafety Frame System Signature Dispatcher.

(** The interface [worker.Queue]. *)
Class WorkerQueue `{Postgres} := {
  QueueClaim : TxEnv → string → Duration → M (option Job);
  QueueFinish : TxEnv → AttemptResult → M Status;
}.

#[export] Instance store_queue `{Postgres} `{Uuids} : WorkerQueue := {|
  QueueClaim := λ TE, ClaimDelivery (TE := TE);
  QueueFinish := λ TE, FinishAttempt (TE := TE);
|}.

(** The calls of the [Observer]. *)
Inductive observation : Type :=
  | ObserveClaim (result : string)
  | ObserveAttempt (decision : Decision) (duration : Duration)
  | ObserveFinishError
  | AddInFlight (delta : Z).

Record Config : Type := mkConfig {
  Config_Concurrency : Z;
  Config_PollInterval : Duration;
  Config_LeaseDuration : Duration;
  Config_FinishTimeout : Duration;
  Config_RetryPolicy : RetryPolicy;
  Config_CircuitThreshold : Z;
  Config_CircuitCooldown : Duration;
}.

Record Pool : Type := mkPool {
  Pool_config : Config;
  Pool_instanceID : string;
}.

(** [worker.New]; [instanceID] is the [uuid.NewString] it draws. *)
Definition New_pool (config : Config) (instanceID : string) : res Pool :=
  if Config_Concurrency config <? 1 then Err (New "worker concurrency must be positive")
  else if (Config_PollInterval config <=? 0) || (Config_LeaseDuration config <=? 0)
          || (Config_FinishTimeout config <=? 0)
  then Err (New "worker durations must be positive")
  else if (Config_CircuitThreshold config <? 1) || (Config_CircuitCooldown config <=? 0)
  then Err (New "circuit breaker configuration is invalid")
  else Ok (mkPool config instanceID).

(** The identifiers of the workers [Run] starts. *)
Definition worker_id (p : Pool) (current : nat) : string :=
  Pool_instanceID p +:+ "/" +:+ FormatInt (Z.of_nat current + 1).

Definition worker_ids (p : Pool) : list string :=
  map (worker_id p) (seq 0 (Z.to_nat (Config_Concurrency (Pool_config p)))).

Section Worker.
Context `{PG : Postgres} {Target : GoTarget}.

Definition request_of (job : Job) : Request :=
  mkRequest (Delivery_ID (Job_Delivery job)) (Event_ID (Job_Event job)) (Endpoint_ID (Job_Endpoint job))
    (Event_Type (Job_Event job)) (Endpoint_URL (Job_Endpoint job))
    (Endpoint_SecretCiphertext (Job_Endpoint job)) (Event_Payload (Job_Event job))
    (Endpoint_Timeout (Job_Endpoint job)).

(** The [store.AttemptResult] of [process]; [cancelled] is [ctx.Err() != nil]. *)
Definition report (p : Pool) (workerID : string) (job : Job) (result : Result)
    (sample : float64) (cancelled : bool) : AttemptResult :=
  let outcome :=
    if cancelled then CircuitNone
    else match Result_CircuitSignal result with
         | SignalFailure => CircuitFailure
         | SignalSuccess => CircuitSuccess
         | SignalNone => CircuitNone
         end in
  let failure := bool_decide (outcome = CircuitFailure) in
  mkAttemptResult
    (Delivery_ID (Job_Delivery job)) workerID (Delivery_LeaseToken (Job_Delivery job))
    (Delivery_AttemptCount (Job_Delivery job)) (Result_Decision result) (Result_StatusCode result)
    (Result_ResponseBody result) (Result_ErrorMessage result) (Result_Duration result)
    (Result_StartedAt result) (Result_CompletedAt result)
    (if bool_decide (Result_Decision result = DecisionRetry)
     then Add (Result_CompletedAt result)
            (NextDelay (Config_RetryPolicy (Pool_config p)) (Delivery_AttemptCount (Job_Delivery job)) sample)
     else zero_time)
    outcome
    (if failure then Config_CircuitThreshold (Pool_config p) else 0)
    (if failure then Config_CircuitCooldown (Pool_config p) else 0).

Record turn : Type := mkTurn {
  turn_claim_env : TxEnv;
  turn_claim_faults : list fault;
  turn_claim_cancelled : bool;        (* ctx.Err() != nil after a failed claim *)
  turn_deliver : Request → Result;    (* dispatcher.Deliver *)
  turn_sample : float64;              (* p.sample() *)
  turn_cancelled : bool;              (* ctx.Err() != nil after the delivery *)
  turn_finish_env : TxEnv;
  turn_finish_faults : list fault;
  turn_wait : bool;                   (* wait: the timer, not the cancellation *)
}.

Context `{UU : Uuids} `{WQ : !WorkerQueue}.

(** One operation of the queue on a connection of its own. *)
Definition on_queue {A} (m : M A) (fs : list fault) (s : state) : res A * state :=
  let '(r, c) := m (connect s fs) in (r, mkState (durable c) (next_uuid c)).

(** [process]: the observations, the error of [FinishAttempt] and the state. *)
Definition process (p : Pool) (workerID : string) (job : Job) (t : turn) (s : state)
    : list observation * res Status * state :=
  let result := turn_deliver t (request_of job) in
  let '(r, s') := on_queue (QueueFinish (turn_finish_env t)
                              (report p workerID job result (turn_sample t) (turn_cancelled t)))
                    (turn_finish_faults t) s in
  ([ObserveAttempt (Result_Decision result) (Result_Duration result)], r, s').

(** One turn of the loop: the new state, the observations, and whether the
    loop goes on. *)
Definition worker_turn (p : Pool) (workerID : string) (t : turn) (s : state)
    : state * list observation * bool :=
  let '(claimed, s1) := on_queue (QueueClaim (turn_claim_env t) workerID
                                    (Config_LeaseDuration (Pool_config p)))
                          (turn_claim_faults t) s in
  match claimed with
  | Err _ =>
      if turn_claim_cancelled t then (s1, [], false)
      else (s1, [ObserveClaim "error"], turn_wait t)
  | Ok None => (s1, [ObserveClaim "empty"], turn_wait t)
  | Ok (Some job) =>
      let '(observed, finished, s2) := process p workerID job t s1 in
      (s2, [ObserveClaim "claimed"; AddInFlight 1] ++ observed ++ [AddInFlight (-1)]
           ++ match finished with Err _ => [ObserveFinishError] | Ok _ => [] end, true)
  end.

(** The loop, for as long as its environment lets it run. *)
Fixpoint runWorker (p : Pool) (workerID : string) (ts : list turn) (s : state)
    : state * list observation :=
  match ts with
  | [] => (s, [])
  | t :: ts' =>
      let '(s1, observed, continue) := worker_turn p workerID t s in
      if continue then let '(s2, rest) := runWorker p workerID ts' s1 in (s2, observed ++ rest)
      else (s1, observed)
  end.
End Worker.

(** The value of the in-flight gauge after some observations. *)
Definition in_flight (os : list observation) : Z :=
  fold_left (λ n o, match o with AddInFlight d => n + d | _ => n end) os 0.

Lemma in_flight_app os1 os2 : in_flight (os1 ++ os2) = in_flight os1 + in_flight os2.
Proof.
  unfold in_flight. rewrite fold_left_app. generalize (fold_left (λ n o, match o with AddInFlight d => n + d | _ => n end) os1 0).
  assert (H : ∀ os z, fold_left (λ n o, match o with AddInFlight d => n + d | _ => n end) os z
                      = z + fold_left (λ n o, match o with AddInFlight d => n + d | _ => n end) os 0).
  { induction os as [|o os IH]; intros z; cbn [fold_left]; [lia|].
    destruct o; try (rewrite (IH z); lia). rewrite (IH (z + delta)), (IH (0 + delta)). lia. }
  intros z. apply H.
Qed.
