(* ===== verification/Progress.v ===== *)
(** * No delivery is stuck

    From every reachable state, a delivery that is not final and whose
    endpoint is enabled can be brought to a final status by one claim and one
    finished attempt, once its time has come: the queue has no dead ends. *)

From S2P Require Import Prelude GoErrors GoTime GoText Delivery Schema Tx Invariant TxLogic Queue.
From S2P Require Import QueueSafety QueueSpec QueueRuns Eventing StoreEvents StoreDeliveries StoreEndpoints.
From S2P Require Import Minting StoreSafety Frame System Demo.

Lemma NoDup_all_equal {A} (x : A) (l : list A) : NoDup l → x ∈ l → (∀ y, y ∈ l → y = x) → l = [x].
Proof.
  intros Hnd Hin Hall. destruct l as [|a [|b l]]; [by apply elem_of_nil in Hin|f_equal; apply Hall; left|].
  exfalso. apply NoDup_cons in Hnd as [Ha _]. apply Ha.
  rewrite (Hall a), (Hall b) by (repeat constructor). left.
Qed.

Section Progress.
Context `{PG : Postgres} {PL : PostgresLaws} `{UU : Uuids} {UL : UuidsLaws}.

(** An environment at time [t] in which concurrent transactions hold every
    delivery but [id]. *)
Definition solo_env (t : Z) (id : string) (d : db) : TxEnv :=
  {| now := t;
     locked_recover := dom (deliveries d) ∖ {[id]};
     locked_claim := dom (deliveries d) ∖ {[id]} |}.

Section Solo.
Context {TE : TxEnv}.

Lemma expired_rows_only (d : db) id row :
  locked_recover = dom (deliveries d) ∖ {[id]} → deliveries d !! id = Some row →
  lease_expired row = true → expired_rows d = [(id, row)].
Proof.
  intros HL Hr He. unfold expired_rows. set (l := List.filter _ _).
  assert (l = [(id, row)]) as ->; [|done]. apply NoDup_all_equal.
  - apply NoDup_ListNoDup, List.NoDup_filter, NoDup_ListNoDup.
    rewrite (scan_order_perm _ (deliveries d)). apply NoDup_map_to_list.
  - apply list_elem_of_In, filter_In. split.
    + apply list_elem_of_In. rewrite (scan_order_perm _ (deliveries d)). by apply elem_of_map_to_list.
    + cbn. rewrite He, HL, bool_decide_eq_false_2; [done|].
      intros [_ Hn]%elem_of_difference. by apply Hn, elem_of_singleton.
  - intros [k r] Hin. apply list_elem_of_In, filter_In in Hin as [Hin Hp].
    apply list_elem_of_In in Hin. rewrite (scan_order_perm _ (deliveries d)) in Hin.
    apply elem_of_map_to_list in Hin. cbn in Hp. zbool. rewrite HL in *.
    assert (k = id) as ->; [|by simplify_eq].
    destruct (decide (k = id)); [done|]. exfalso.
    match goal with H : _ ∉ _ |- _ => apply H end.
    apply elem_of_difference. split; [by eapply elem_of_dom_2|by apply not_elem_of_singleton].
Qed.

(** No other delivery is a candidate. *)
Lemma candidate_is (d : db) id k r :
  locked_claim = dom (deliveries d) ∖ {[id]} → candidate d = Some (k, r) → k = id ∧ deliveries d !! id = Some r ∧ claimable d r = true.
Proof.
  intros HL (Hk & Hc & Hn)%candidate_spec. rewrite HL in Hn. assert (k = id) as ->; [|done].
  destruct (decide (k = id)); [done|]. exfalso. apply Hn, elem_of_difference.
  split; [by eapply elem_of_dom_2|by apply not_elem_of_singleton].
Qed.

Lemma candidate_only (d : db) id row :
  locked_claim = dom (deliveries d) ∖ {[id]} → deliveries d !! id = Some row →
  claimable d row = true → candidate d = Some (id, row).
Proof.
  intros HL Hr Hc. destruct (candidate d) as [[k r]|] eqn:E.
  - apply (candidate_is d id) in E as (-> & Hk & _); [congruence|done].
  - pose proof (proj1 (candidate_None d) E id row Hr Hc) as Hin. rewrite HL in Hin.
    apply elem_of_difference in Hin as [_ Hn]. exfalso. by apply Hn, elem_of_singleton.
Qed.
End Solo.

Lemma recovered_exhausted `{TE : TxEnv} row :
  d_max_attempts row <= d_attempt_count row → d_status (recovered_row row) = StatusDead.
Proof. intros H. unfold recovered_row. cbn. destruct (Z.ltb_spec (d_attempt_count row) (d_max_attempts row)); [lia|done]. Qed.

(** The moment from which nothing the clock decides holds the row back. *)
Definition due (row : DeliveryRow) (e : EndpointRow) : Z :=
  Z.max (d_next_attempt_at row)
    (Z.max (default 0 (d_locked_until row)) (default 0 (ep_circuit_open_until e))).

(** What the claim leaves of the delivery: dead, or under a lease of ["w"]. *)
Definition settled_or_leased (d : db) (id : string) : Prop :=
  ∃ row, deliveries d !! id = Some row ∧
    (d_status row = StatusDead
     ∨ d_status row = StatusProcessing ∧ d_locked_by row = Some "w"%string
       ∧ ∃ token, d_lease_token row = Some token ∧ canonical token).

Lemma dom_recovered `{TE : TxEnv} (D W : db) :
  recovered_db D W → dom (deliveries W) = dom (deliveries D).
Proof.
  intros Hrd. apply set_eq. intros k. rewrite !elem_of_dom, (rd_deliveries _ _ Hrd k).
  case_bool_decide; [|done]. by rewrite fmap_is_Some.
Qed.

Lemma open_when_due (TE : TxEnv) (e : EndpointRow) row :
  ep_disabled_at e = None → now = due row e → endpoint_open e = true.
Proof.
  intros Hd Hn. unfold endpoint_open, due in *. rewrite Hd. cbn.
  destruct (ep_circuit_open_until e); cbn in *; [apply Z.leb_le; lia|done].
Qed.

(** A live delivery of an enabled endpoint can be claimed once it is due. *)
Lemma claimable_when_due `{TE : TxEnv} (D W : db) id row row' e :
  recovered_db D W → endpoints D !! d_endpoint_id row = Some e → ep_disabled_at e = None → now = due row e →
  deliveries W !! id = Some row' → live row' → d_next_attempt_at row' <= due row e → d_endpoint_id row' = d_endpoint_id row →
  claimable W row' = true.
Proof.
  intros Hrd He Hd Hnow Hrow' Hlive Hnext Hep. destruct (rd_same _ _ Hrd) as [HE _].
  destruct (ok_deliveries _ _ _ (rd_ok _ _ Hrd) _ _ Hrow') as (_ & (_ & Hlt & _) & _).
  unfold claimable. rewrite HE, Hep, He, (open_when_due TE e row Hd Hnow), Hnow. specialize (Hlt Hlive).
  rewrite (proj2 (Z.leb_le _ _) Hnext), (proj2 (Z.ltb_lt _ _) Hlt). by destruct Hlive as [-> | ->].
Qed.

Lemma not_processing_live row : Final (d_status row) = false → d_status row ≠ StatusProcessing → live row.
Proof. intros Hf Hp. unfold live. destruct (d_status row); auto; done. Qed.

Lemma claim_when_due s id row e :
  reachable s → deliveries (st_db s) !! id = Some row → Final (d_status row) = false →
  endpoints (st_db s) !! d_endpoint_id row = Some e → ep_disabled_at e = None →
  ∃ TE c o, runs (ClaimDelivery (TE := TE) "w" Second) (connect s []) (Ok o) c
            ∧ settled_or_leased (durable c) id.
Proof.
  intros Hr Hrow Hf He Hd. pose proof (reachable_db_ok _ Hr) as Hok.
  set (TE := solo_env (due row e) id (st_db s)). exists TE.
  destruct (ClaimDelivery_total (TE := TE) "w" Second (st_db s) (st_next s)) as (W & n' & Hrd & _ & Hrun);
    [done|by apply reachable_fresh|done|done|by apply text_in_printable|].
  pose proof (dom_recovered _ _ Hrd) as Hdom.
  assert (Hlc : locked_claim (TxEnv := TE) = dom (deliveries W) ∖ {[id]}) by (by rewrite Hdom).
  assert (Hgo : ∀ row', deliveries W !! id = Some row' → live row' →
    d_next_attempt_at row' <= due row e → d_endpoint_id row' = d_endpoint_id row →
    ∃ c o, runs (ClaimDelivery (TE := TE) "w" Second) (connect s []) (Ok o) c
            ∧ settled_or_leased (durable c) id).
  { intros row' Hrow' Hlive Hnext Hep.
    rewrite (candidate_only (TE := TE) W id row' Hlc Hrow' (claimable_when_due (TE := TE) _ W id row row' e Hrd He Hd eq_refl Hrow' Hlive Hnext Hep)) in Hrun.
    destruct Hrun as (job & ev & ep & Hrun & _). cbn zeta in Hrun. eexists _, _. split; [exact Hrun|].
    eexists. cbn. rewrite lookup_insert_eq. split; [done|]. right. split; [done|]. split; [done|].
    eexists. split; [done|]. apply NewString_canonical. }
  pose proof (rd_deliveries _ _ Hrd id) as Hid. rewrite Hrow in Hid.
  destruct (decide (d_status row = StatusProcessing)) as [Hp|Hp].
  - destruct (ok_deliveries _ _ _ Hok _ _ Hrow) as (_ & (Hc & _) & _).
    destruct (check_processing_locks _ Hc Hp) as (w & tk & a & u & _ & _ & _ & Hu & _).
    assert (Hexp : lease_expired (TE := TE) row = true).
    { unfold lease_expired. rewrite Hp, Hu. apply Z.leb_le. cbn. unfold due. rewrite Hu. cbn. lia. }
    rewrite (expired_rows_only (TE := TE) (st_db s) id row eq_refl Hrow Hexp) in Hid. cbn [map fst] in Hid.
    rewrite bool_decide_eq_true_2 in Hid by left. cbn in Hid.
    destruct (Z.ltb_spec (d_attempt_count row) (d_max_attempts row)) as [Hlt|Hge].
    + apply (Hgo _ Hid); unfold recovered_row, live; cbn; [|by destruct (Z.ltb_spec (d_attempt_count row) (d_max_attempts row)); cbn; lia|done].
      destruct (Z.ltb_spec (d_attempt_count row) (d_max_attempts row)); [by right|lia].
    + destruct (candidate W) as [[k r]|] eqn:Ec.
      * exfalso. apply (candidate_is (TE := TE) W id) in Ec as (-> & Hk & (Hlive & _)%claimable_spec); [|done].
        rewrite Hid in Hk. injection Hk as <-. apply recovered_exhausted in Hge. unfold live in Hlive.
        rewrite Hge in Hlive. by destruct Hlive.
      * eexists _, _. split; [exact Hrun|]. eexists. split; [exact Hid|]. left. by apply recovered_exhausted.
  - assert (Hnot : id ∉ map fst (expired_rows (TE := TE) (st_db s))).
    { intros ([k r] & Ek & Hin)%list_elem_of_fmap. cbn in Ek. subst k.
      apply (expired_rows_spec (TE := TE)) in Hin as (Hr' & Hexp & _). unfold lease_expired in Hexp. zbool.
      congruence. }
    rewrite bool_decide_eq_false_2 in Hid by done.
    apply (Hgo row Hid); [by apply not_processing_live|unfold due; lia|done].
Qed.

(** A success reported by the holder of a lease. *)
Definition success_report (id worker token : string) (number : Z) : AttemptResult :=
  mkAttemptResult id worker token number DecisionSucceed (Some 200) "" "" 0
    (mkTime 0 None) (mkTime 0 None) (mkTime 0 None) CircuitNone 0 0.

Lemma finish_when_leased s id row token (TE : TxEnv) :
  reachable s → deliveries (st_db s) !! id = Some row → d_status row = StatusProcessing →
  d_locked_by row = Some "w"%string → d_lease_token row = Some token → canonical token →
  ∃ c o row', runs (FinishAttempt (TE := TE) (success_report id "w" token (d_attempt_count row)))
                   (connect s []) (Ok o) c
              ∧ deliveries (durable c) !! id = Some row' ∧ d_status row' = StatusSucceeded.
Proof.
  intros Hr Hrow Hp Hw Ht Hcan. pose proof (reachable_db_ok _ Hr) as Hok.
  destruct (ok_deliveries _ _ _ Hok _ _ Hrow) as (Hid & (Hc & _ & H1) & _).
  apply check_delivery_counts in Hc. specialize (H1 Hp).
  set (r := success_report _ _ _ _).
  assert (Hv : validateAttemptResult r = Ok tt).
  { apply valid_validate_ok. split; try done; cbn; try lia; auto.
    - by eapply uuid_in_not_blank.
    - by eapply uuid_in_not_blank.
    - intros c [= <-]. split; [lia|done]. }
  pose proof (FinishAttempt_total (TE := TE) r id token (st_db s) (st_next s) Hok
    (reachable_fresh _ Hr) Hv) as Hrun. rewrite Hrow in Hrun.
  assert (Hl : holds_lease (AR_WorkerID r) token (AR_AttemptNumber r) row = true).
  { apply holds_lease_spec. by split_and!. }
  rewrite Hl in Hrun. cbn zeta in Hrun. eexists _, _, _. split; [apply Hrun|].
  - split; try done; by apply text_in_printable.
  - cbn. by rewrite lookup_insert_eq.
Qed.
End Progress.
