(* ===== verification/SystemTheorems.v ===== *)
(** * Theorems on the whole system

    What holds in every reachable state and along every execution, whatever
    the environment and the faults. *)

From S2P Require Import Prelude GoErrors GoTime GoText Delivery Schema Tx Invariant TxLogic Queue.
From S2P Require Import QueueSafety QueueSpec QueueRuns Eventing StoreEvents StoreDeliveries StoreEndpoints.
From S2P Require Import Minting StoreSafety Frame System Demo Progress.

#[local] Existing Instances sim_postgres sim_uuids sim_postgres_laws sim_uuids_laws.

(** [C1] Every reachable database satisfies the constraints of the schema and
    the laws the store keeps on top of them: keys unique, references live,
    counters consistent with statuses, every event with its delivery and every
    finished attempt recorded. *)
Theorem reachable_invariant `{PG : Postgres} {PL : PostgresLaws} `{UU : Uuids} (s : state) :
  reachable s → db_ok (st_db s).
Proof. apply reachable_db_ok. Qed.

Lemma reachable_invariant_witness : db_ok (st_db (demo demo_finished)).
Proof. apply (reachable_invariant (PL := sim_postgres_laws)), demo_reachable. Defined.

(** [C5] Committed rows only evolve. Along any execution events and attempts
    are never changed or lost, no delivery is lost or changes its event or its
    endpoint, its counters only grow and a succeeded delivery is frozen, and an
    endpoint keeps its identity and stays disabled once disabled. And each
    operation, whatever faults it meets and whether or not it returns an error,
    changes a delivery at most in the way that is its own: a claim recovers an
    expired lease (to retrying and due, or to dead when the budget is spent),
    takes a due delivery under a new lease with one more attempt, or does one
    after the other; a finished attempt moves the processing delivery whose
    lease it presents to the status of its decision and releases the lease; a
    replay makes a dead delivery pending and due with its count kept; creating,
    disabling, enqueueing and reading change no delivery. *)
Theorem committed_rows_evolve `{PG : Postgres} {PL : PostgresLaws} `{UU : Uuids} (s : state) :
  reachable s →
  (∀ s', rtc step s s' → evolves (st_db s) (st_db s'))
  ∧ ∀ (TE : TxEnv) (o : op) fs r c id row,
      runs (run_op TE o) (connect s fs) r c → deliveries (st_db s) !! id = Some row →
      ∃ row', deliveries (durable c) !! id = Some row' ∧
        match o with
        | OpClaimDelivery w l =>
            ∃ mid, (mid = row ∨ row_recovered row mid)
              ∧ (row' = mid ∨ ∃ token, row_claimed (TrimSpace w) token l mid row')
        | OpFinishAttempt res =>
            row' = row ∨ ∃ token, uuid_in (AR_DeliveryID res) = Some id
              ∧ uuid_in (AR_LeaseToken res) = Some token ∧ row_finished res token row row'
        | OpReplayDelivery did => row' = row ∨ uuid_in did = Some id ∧ row_replayed row row'
        | OpCreateEndpoint _ | OpDisableEndpoint _ | OpEnqueueEvent _ | OpGetDelivery _ => row' = row
        end.
Proof.
  intros Hr. split; [intros s' Hs; apply (steps_safe s s' Hs), reachable_db_ok, Hr|].
  intros TE o fs r c id row Hrun Hrow. destruct (run_op_change TE o fs s r c id row Hrun Hrow) as (row' & Hrow' & Hc).
  exists row'. split; [exact Hrow'|]. by destruct o.
Qed.

Lemma committed_rows_evolve_witness :
  ∃ row, demo_row demo_finished = Some row ∧ d_status row = StatusDead
  ∧ ∃ row', row_replayed (TE := at_second 60) row row'.
Proof.
  destruct (demo_row demo_finished) as [row|] eqn:E; [|exfalso; revert E; vm_compute; discriminate].
  destruct (run_op (at_second 60) (OpReplayDelivery "dl") (connect (demo demo_finished) [])) as [r c] eqn:Hrun.
  destruct (proj2 (committed_rows_evolve (PL := sim_postgres_laws) (demo demo_finished) (demo_reachable _))
    (at_second 60) (OpReplayDelivery "dl") [] r c "dl" row Hrun E) as (row' & Hrow' & [->|[_ Hrep]]).
  - exfalso. assert (H : match demo_row demo_finished, deliveries (durable
      (run_op (at_second 60) (OpReplayDelivery "dl") (connect (demo demo_finished) [])).2) !! "dl" with
      | Some a, Some b => negb (bool_decide (d_status a = d_status b)) | _, _ => false end = true) by (vm_compute; reflexivity).
    rewrite E, Hrun in H. cbn [snd] in H. rewrite Hrow' in H. by rewrite bool_decide_eq_true_2 in H.
  - exists row. split; [reflexivity|]. split; [exact (rp_was _ _ Hrep)|]. by exists row'.
Defined.

(** [C4] The attempt history of every delivery is complete and gapless: the
    recorded attempts carry exactly the numbers from 1 to the number of
    finished claims, each once, and never more than the budget. *)
Theorem attempt_history_complete `{PG : Postgres} {PL : PostgresLaws} `{UU : Uuids}
    (s : state) (id : string) (r : DeliveryRow) :
  reachable s → deliveries (st_db s) !! id = Some r →
  (∀ n, (∃ aid a, delivery_attempts (st_db s) !! aid = Some a ∧ a_delivery_id a = id
                  ∧ a_attempt_number a = n) ↔ 1 <= n <= recorded r)
  ∧ (∀ aid1 aid2 a1 a2, delivery_attempts (st_db s) !! aid1 = Some a1 →
       delivery_attempts (st_db s) !! aid2 = Some a2 → a_delivery_id a1 = id →
       a_delivery_id a2 = id → a_attempt_number a1 = a_attempt_number a2 → aid1 = aid2)
  ∧ 0 <= recorded r <= d_attempt_count r ∧ d_attempt_count r <= d_max_attempts r <= MaxInt32.
Proof.
  intros Hr Hd. pose proof (reachable_db_ok s Hr) as Hok. split_and!.
  - intros n. pose proof (ok_history _ _ _ Hok _ _ n Hd) as Hh.
    unfold has_attempt in Hh. rewrite Hh. pose proof (not_elem_of_nil (id, n)). tauto.
  - intros aid1 aid2 a1 a2 H1 H2 E1 E2 En. eapply (ok_attempt_key _ _ _ Hok); try done. congruence.
  - destruct (ok_deliveries _ _ _ Hok _ _ Hd) as (_ & (Hc & _ & Hp) & _).
    apply check_delivery_counts in Hc. unfold recorded. case_bool_decide; [|lia]. specialize (Hp H). lia.
  - destruct (ok_deliveries _ _ _ Hok _ _ Hd) as (_ & (Hc & _) & _).
    apply check_delivery_counts in Hc. unfold recorded. case_bool_decide; lia.
  - destruct (ok_deliveries _ _ _ Hok _ _ Hd) as (_ & (Hc & _) & _). apply check_delivery_counts in Hc. lia.
  - destruct (ok_deliveries _ _ _ Hok _ _ Hd) as (_ & (Hc & _) & _). apply check_delivery_counts in Hc. lia.
Qed.

Lemma attempt_history_complete_witness :
  ∃ r, demo_row demo_finished = Some r ∧ recorded r = 2
  ∧ ∃ aid a, delivery_attempts (st_db (demo demo_finished)) !! aid = Some a
             ∧ a_delivery_id a = "dl" ∧ a_attempt_number a = 2.
Proof.
  destruct (demo_row demo_finished) as [r|] eqn:E; [|exfalso; revert E; vm_compute; discriminate].
  exists r. split; [reflexivity|].
  assert (recorded r = 2) as Hr by (revert E; vm_compute; by intros [= <-]).
  split; [exact Hr|].
  apply (proj1 (attempt_history_complete (PL := sim_postgres_laws) _ "dl" r (demo_reachable _) E)).
  rewrite Hr. lia.
Defined.

(** [C15] Every event has exactly one delivery, addressed to the event's
    endpoint, which exists. *)
Theorem event_delivered_once `{PG : Postgres} {PL : PostgresLaws} `{UU : Uuids}
    (s : state) (ev : string) (e : EventRow) :
  reachable s → events (st_db s) !! ev = Some e →
  is_Some (endpoints (st_db s) !! ev_endpoint_id e)
  ∧ ∃ did r, deliveries (st_db s) !! did = Some r ∧ d_event_id r = ev
             ∧ d_endpoint_id r = ev_endpoint_id e
             ∧ ∀ did' r', deliveries (st_db s) !! did' = Some r' → d_event_id r' = ev → did' = did.
Proof.
  intros Hr He. pose proof (reachable_db_ok s Hr) as Hok. split; [by destruct (ok_events _ _ _ Hok _ _ He)|].
  destruct (ok_event_delivery _ _ _ Hok _ _ He) as (did & r & Hd & Hev); [apply not_elem_of_nil|].
  exists did, r. split_and!; try done.
  - destruct (ok_deliveries _ _ _ Hok _ _ Hd) as (_ & _ & e' & He' & Hep). congruence.
  - intros did' r' Hd' Hev'. eapply (ok_delivery_event _ _ _ Hok); try done. congruence.
Qed.

Lemma event_delivered_once_witness :
  ∃ did r, deliveries (st_db (demo demo_enqueued)) !! did = Some r ∧ d_event_id r = "ev".
Proof.
  assert (is_null (events (st_db (demo demo_enqueued)) !! "ev") = false) as Hn by (vm_compute; reflexivity).
  destruct (events (st_db (demo demo_enqueued)) !! "ev") as [e|] eqn:E; [|discriminate Hn].
  destruct (event_delivered_once (PL := sim_postgres_laws) _ "ev" e (demo_reachable _) E)
    as (_ & did & r & Hd & Hev & _). by exists did, r.
Defined.

(** [C16] An operation that returns an error changes nothing, unless the
    acknowledgement of its own commit was lost: every operation commits at
    most once, as the last thing that can fail. *)
Theorem failed_operation_changes_nothing `{PG : Postgres} `{UU : Uuids}
    (TE : TxEnv) (o : op) (s : conn) (e : error) (s' : conn) :
  (∀ err, AckLost err ∉ faults s) → runs (run_op TE o) s (Err e) s' → durable s' = durable s.
Proof. intros Hn Hr. exact (run_op_atomic TE o s _ s' Hn Hr e eq_refl). Qed.

Lemma failed_operation_changes_nothing_witness :
  is_ok demo_broken.1 = false ∧ durable demo_broken.2 = durable demo_broken_conn.
Proof.
  assert (is_ok demo_broken.1 = false) as Hn by (vm_compute; reflexivity).
  destruct demo_broken as [[a|e] s'] eqn:E; [discriminate Hn|].
  split; [reflexivity|].
  apply (failed_operation_changes_nothing (at_second 10) (OpClaimDelivery "worker" Minute) demo_broken_conn e);
    [|exact E].
  intros err. cbn. rewrite !not_elem_of_cons. split_and!; [done..|apply not_elem_of_nil].
Defined.

(** ** Attempts of one delivery *)

Section Attempts.
Context `{PG : Postgres} {PL : PostgresLaws} `{UU : Uuids}.

Lemma evolves_has_attempt (d d' : db) id n : evolves d d' → has_attempt d id n → has_attempt d' id n.
Proof.
  intros Hev (aid & a & Ha & Hid & Hn). exists aid, a. split; [|done].
  eapply lookup_weaken; [exact Ha|apply Hev].
Qed.

(** A recorded attempt has a number below that of any attempt in flight. *)
Lemma recorded_before_flight (d : db) id r n :
  db_ok d → deliveries d !! id = Some r → d_status r = StatusProcessing →
  has_attempt d id n → n < d_attempt_count r.
Proof.
  intros Hok Hr Hs Hh. apply (ok_history _ _ _ Hok _ _ _ Hr) in Hh as [Hn _].
  rewrite recorded_processing in Hn by done. lia.
Qed.

Lemma finished_records `{TE : TxEnv} d0 r st D :
  finished_from d0 r st D → ∃ did, uuid_in (AR_DeliveryID r) = Some did ∧ has_attempt D did (AR_AttemptNumber r).
Proof.
  intros [_ (did & token & row & aid & Hd & _ & _ & _ & _ & _ & Ha & _ & _) _].
  exists did. split; [done|]. exists aid, (finished_attempt did r). rewrite Ha, lookup_insert_eq. done.
Qed.

Lemma finished_held `{TE : TxEnv} d0 r st D did :
  finished_from d0 r st D → uuid_in (AR_DeliveryID r) = Some did →
  ∃ row, deliveries d0 !! did = Some row ∧ d_status row = StatusProcessing
         ∧ d_attempt_count row = AR_AttemptNumber r.
Proof.
  intros [_ (did' & token & row & aid & Hd & _ & Hr & Hl & _) _] E. rewrite E in Hd. injection Hd as <-.
  apply holds_lease_spec in Hl as (Hs & _ & _ & Hn). eauto.
Qed.

(** The row a claim leaves, and the job it returns. *)
Lemma claimed_row_job `{TE : TxEnv} d0 worker lease job D :
  claimed_from d0 worker lease job D →
  ∃ W row row', db_ok W ∧ evolves d0 W
    ∧ deliveries W !! Delivery_ID (Job_Delivery job) = Some row
    ∧ deliveries D !! Delivery_ID (Job_Delivery job) = Some row'
    ∧ live row
    ∧ d_attempt_count row' = d_attempt_count row + 1
    ∧ Delivery_AttemptCount (Job_Delivery job) = d_attempt_count row'.
Proof.
  intros [(W & id & row & token & ev & ep & Hok & Hev & Hc & _ & -> & Hj & _) _ _].
  apply candidate_spec in Hc as (Hr & Hcl & _). apply claimable_spec in Hcl as (Hl & _).
  injection Hj as <-. cbn. eexists W, row, _. rewrite lookup_insert_eq. split_and!; done.
Qed.
End Attempts.

(** An attempt is finished at most once: if two runs of [FinishAttempt]
    on one delivery both succeed, the later one has the larger attempt
    number, whatever happened in between. *)
Theorem finished_numbers_increase `{PG : Postgres} {PL : PostgresLaws} `{UU : Uuids}
    (TE1 TE2 : TxEnv) (r1 r2 : AttemptResult) fs1 fs2 s1 s2 st1 st2 c1 c2 did :
  reachable s1 →
  runs (FinishAttempt (TE := TE1) r1) (connect s1 fs1) (Ok st1) c1 →
  rtc step (mkState (durable c1) (next_uuid c1)) s2 →
  runs (FinishAttempt (TE := TE2) r2) (connect s2 fs2) (Ok st2) c2 →
  uuid_in (AR_DeliveryID r1) = Some did → uuid_in (AR_DeliveryID r2) = Some did →
  AR_AttemptNumber r1 < AR_AttemptNumber r2.
Proof.
  intros Hr1 H1 Hs H2 E1 E2. pose proof (reachable_db_ok _ Hr1) as Hok.
  apply (FinishAttempt_runs (TE := TE1)) in H1 as F1; [|exact Hok].
  destruct (safe_run _ (connect s1 fs1) _ _ (FinishAttempt_safe (TE := TE1) r1) Hok H1) as [Hok1 _].
  destruct (steps_safe _ _ Hs Hok1) as [Hok2 Hev2]. cbn in Hev2.
  apply (FinishAttempt_runs (TE := TE2)) in H2 as F2; [|exact Hok2].
  destruct (finished_records _ _ _ _ F1) as (did' & Ed & Hh). rewrite E1 in Ed. injection Ed as <-.
  destruct (finished_held _ _ _ _ did F2 E2) as (row & Hrow & Hst & <-). cbn in Hrow.
  eapply recorded_before_flight; [exact Hok2|done..|]. by eapply evolves_has_attempt.
Qed.

Lemma finished_numbers_increase_witness :
  let first := FinishAttempt (TE := at_second 12) (demo_result "uuid-0" 1 10 DecisionRetry 503) in
  let second := FinishAttempt (TE := at_second 22) (demo_result "uuid-2" 2 20 DecisionDiscard 404) in
  let s1 := demo demo_claimed in
  let c1 := (first (connect s1 [])).2 in
  let s2 := exec [(at_second 20, OpClaimDelivery "worker" Minute, [])] (mkState (durable c1) (next_uuid c1)) in
  is_ok (second (connect s2 [])).1 = true ∧ 1 < 2.
Proof.
  intros first second s1 c1 s2.
  destruct (runs_ok first (connect s1 [])) as [st1 H1]; [vm_compute; reflexivity|].
  assert (Hok2 : is_ok (second (connect s2 [])).1 = true) by (vm_compute; reflexivity).
  destruct (runs_ok _ _ Hok2) as [st2 H2]. split; [exact Hok2|].
  apply (finished_numbers_increase (PL := sim_postgres_laws) (at_second 12) (at_second 22)
    (demo_result "uuid-0" 1 10 DecisionRetry 503) (demo_result "uuid-2" 2 20 DecisionDiscard 404)
    [] [] s1 s2 st1 st2 c1 (second (connect s2 [])).2 "dl");
    [apply demo_reachable|exact H1|apply exec_steps|exact H2|vm_compute; reflexivity|vm_compute; reflexivity].
Defined.

(** Every claim of a delivery opens a new attempt: of two claims that
    return the same delivery, the later one has the larger attempt number. *)
Theorem claimed_numbers_increase `{PG : Postgres} {PL : PostgresLaws} `{UU : Uuids}
    (TE1 TE2 : TxEnv) w1 w2 l1 l2 fs1 fs2 s1 s2 job1 job2 c1 c2 :
  reachable s1 →
  runs (ClaimDelivery (TE := TE1) w1 l1) (connect s1 fs1) (Ok (Some job1)) c1 →
  rtc step (mkState (durable c1) (next_uuid c1)) s2 →
  runs (ClaimDelivery (TE := TE2) w2 l2) (connect s2 fs2) (Ok (Some job2)) c2 →
  Delivery_ID (Job_Delivery job1) = Delivery_ID (Job_Delivery job2) →
  Delivery_AttemptCount (Job_Delivery job1) < Delivery_AttemptCount (Job_Delivery job2).
Proof.
  intros Hr1 H1 Hs H2 Eid. pose proof (reachable_db_ok _ Hr1) as Hok.
  apply (ClaimDelivery_runs (TE := TE1)) in H1; [|exact Hok].
  destruct (steps_safe _ _ Hs (cf_ok _ _ _ _ _ H1)) as [Hok2 Hev2]. cbn in Hev2.
  apply (ClaimDelivery_runs (TE := TE2)) in H2; [|exact Hok2].
  apply claimed_row_job in H1 as (_ & _ & row1 & _ & _ & _ & Hd1 & _ & _ & ->).
  apply claimed_row_job in H2 as (W & row & row2 & _ & Hev & Hw & _ & _ & Hn & ->). cbn in Hev.
  assert (evolves (durable c1) W) as HeW by (by etrans).
  destruct (ev_deliveries _ _ HeW _ _ Hd1) as (row' & Hr' & Hre). rewrite Eid in Hr'.
  assert (row' = row) as -> by congruence. pose proof (re_count _ _ Hre). lia.
Qed.

Lemma claimed_numbers_increase_witness :
  let first := ClaimDelivery (TE := at_second 10) "worker" Minute in
  let second := ClaimDelivery (TE := at_second 20) "worker" Minute in
  let c1 := (first (connect (demo demo_enqueued) [])).2 in
  let s2 := exec [(at_second 12, OpFinishAttempt (demo_result "uuid-0" 1 10 DecisionRetry 503), [])]
              (mkState (durable c1) (next_uuid c1)) in
  ∃ job1 job2, runs first (connect (demo demo_enqueued) []) (Ok (Some job1)) c1
    ∧ Delivery_AttemptCount (Job_Delivery job1) < Delivery_AttemptCount (Job_Delivery job2).
Proof.
  intros first second c1 s2.
  assert (H1 : match (first (connect (demo demo_enqueued) [])).1 with
               | Ok (Some j) => bool_decide (Delivery_ID (Job_Delivery j) = "dl") | _ => false end = true)
    by (vm_compute; reflexivity).
  assert (H2 : match (second (connect s2 [])).1 with
               | Ok (Some j) => bool_decide (Delivery_ID (Job_Delivery j) = "dl") | _ => false end = true)
    by (vm_compute; reflexivity).
  destruct (first (connect (demo demo_enqueued) [])) as [[[job1|]|e1] c1'] eqn:E1; try discriminate H1.
  destruct (second (connect s2 [])) as [[[job2|]|e2] c2] eqn:E2; try discriminate H2.
  exists job1, job2. split; [subst c1; exact E1|].
  cbn [fst] in H1, H2. apply bool_decide_eq_true in H1, H2.
  eapply (claimed_numbers_increase (PL := sim_postgres_laws) (at_second 10) (at_second 20)
    "worker" "worker" Minute Minute [] [] (demo demo_enqueued) s2 job1 job2 c1 c2);
    [apply demo_reachable|exact E1|apply exec_steps|exact E2|congruence].
Defined.

(** [C2] A lease is exclusive until it expires: no operation of anyone who
    does not present it (its worker, token and attempt number) changes the
    delivery it holds, even when its connection fails. *)
Theorem lease_exclusive `{PG : Postgres} {PL : PostgresLaws} `{UU : Uuids}
    (TE : TxEnv) (o : op) fs s r c id row :
  runs (run_op TE o) (connect s fs) r c →
  deliveries (st_db s) !! id = Some row → d_status row = StatusProcessing →
  (∃ until, d_locked_until row = Some until ∧ now < until) →
  (∀ a, o = OpFinishAttempt a → uuid_in (AR_DeliveryID a) = Some id →
     ∀ token, uuid_in (AR_LeaseToken a) = Some token →
     holds_lease (AR_WorkerID a) token (AR_AttemptNumber a) row = false) →
  deliveries (durable c) !! id = Some row.
Proof.
  intros Hr Hrow Hs (until & Hu & Hlt) Hnot.
  assert (He : lease_expired row = false).
  { unfold lease_expired. rewrite Hu, bool_decide_eq_true_2 by done. cbn. apply Z.leb_gt. lia. }
  assert (Hh : held id (λ r0, r0 = row) (st_db s) (st_db s)) by (by split; exists row).
  pose proof (run_op_frames TE o id row Hs He Hnot (connect s fs) r c Hh Hr) as Hf.
  by destruct r; destruct Hf as [(row' & Hrow' & ->) _].
Qed.

Lemma lease_exclusive_witness :
  ∃ row, demo_row demo_claimed = Some row ∧
  deliveries (durable (run_op (at_second 30) (OpClaimDelivery "thief" Minute)
                         (connect (demo demo_claimed) [])).2) !! "dl" = Some row.
Proof.
  destruct (demo_row demo_claimed) as [row|] eqn:E; [|exfalso; revert E; vm_compute; discriminate].
  exists row. split; [reflexivity|].
  destruct (run_op (at_second 30) (OpClaimDelivery "thief" Minute) (connect (demo demo_claimed) []))
    as [r c] eqn:Hrun.
  apply (lease_exclusive (PL := sim_postgres_laws) (at_second 30) (OpClaimDelivery "thief" Minute)
    [] (demo demo_claimed) r c "dl" row Hrun E).
  - revert E. vm_compute. by intros [= <-].
  - exists 70000000. split; [revert E; vm_compute; by intros [= <-]|reflexivity].
  - discriminate.
Defined.

(** [C3] No delivery is stuck: from every reachable state, a delivery whose
    endpoint is not disabled can reach a final status. *)
Theorem no_delivery_stuck `{PG : Postgres} {PL : PostgresLaws} `{UU : Uuids} {UL : UuidsLaws}
    (s : state) (id : string) (row : DeliveryRow) (e : EndpointRow) :
  reachable s → deliveries (st_db s) !! id = Some row →
  endpoints (st_db s) !! d_endpoint_id row = Some e → ep_disabled_at e = None →
  ∃ s' row', rtc step s s' ∧ deliveries (st_db s') !! id = Some row' ∧ Final (d_status row') = true.
Proof.
  intros Hr Hrow He Hd. destruct (Final (d_status row)) eqn:Hf; [by exists s, row|].
  destruct (claim_when_due s id row e Hr Hrow Hf He Hd) as (TE & c & o & Hc & row1 & Hrow1 & Hcase).
  assert (Hstep1 : step s (mkState (durable c) (next_uuid c))).
  { apply (step_op TE (OpClaimDelivery "w" Second) [] s (Ok tt) c). unfold runs in *. cbn.
    rewrite eval_bind, Hc. done. }
  destruct Hcase as [Hdead|(Hp & Hw & token & Ht & Hcan)].
  { eexists _, row1. split; [by apply rtc_once|]. split; [done|]. by rewrite Hdead. }
  assert (Hr1 : reachable (mkState (durable c) (next_uuid c))) by (by eapply rtc_r).
  destruct (finish_when_leased _ id row1 token TE Hr1 Hrow1 Hp Hw Ht Hcan) as (c2 & o2 & row2 & Hfin & Hrow2 & Hs2).
  exists (mkState (durable c2) (next_uuid c2)), row2. split; [|by rewrite Hs2].
  eapply rtc_l; [exact Hstep1|]. apply rtc_once.
  eapply (step_op TE (OpFinishAttempt _) [] _ (Ok tt) c2). unfold runs in *. cbn.
  rewrite eval_bind, Hfin. done.
Qed.

Lemma no_delivery_stuck_witness :
  ∃ s' row', rtc step (demo demo_claimed) s' ∧ deliveries (st_db s') !! "dl" = Some row'
             ∧ Final (d_status row') = true.
Proof.
  destruct (demo_row demo_claimed) as [row|] eqn:E; [|exfalso; revert E; vm_compute; discriminate].
  assert (Hep : d_endpoint_id row = "ep"%string) by (revert E; vm_compute; by intros [= <-]).
  destruct (endpoints (st_db (demo demo_claimed)) !! "ep") as [e|] eqn:Ee;
    [|exfalso; revert Ee; vm_compute; discriminate].
  apply (no_delivery_stuck (PL := sim_postgres_laws) (UL := sim_uuids_laws) _ "dl" row e);
    [apply demo_reachable|exact E|by rewrite Hep|].
  revert Ee. vm_compute. by intros [= <-].
Defined.
