(* ===== verification/QueueTheorems.v ===== *)
(** * Theorems on the delivery queue

    What [ClaimDelivery] and [FinishAttempt] do, on every branch, in every
    reachable state. *)

From S2P Require Import Prelude GoErrors GoTime GoText Delivery Schema Tx Invariant TxLogic Queue.
From S2P Require Import QueueSafety QueueSpec QueueRuns Eventing StoreEvents StoreDeliveries StoreEndpoints.
From S2P Require Import Minting StoreSafety Frame System Demo.

#[local] Existing Instances sim_postgres sim_uuids sim_postgres_laws sim_uuids_laws.

Section Claim.
Context `{PG : Postgres} {PL : PostgresLaws} `{UU : Uuids} {UL : UuidsLaws} `{TE : TxEnv}.

(** The delivery [id] may be claimed in [W] and nobody holds its row. *)
Definition available (W : db) (id : string) (row : DeliveryRow) : Prop :=
  deliveries W !! id = Some row ∧ id ∉ locked_claim
  ∧ ∃ e, endpoints W !! d_endpoint_id row = Some e ∧ row_due row e.

Lemma claimable_due (W : db) (row : DeliveryRow) :
  claimable W row = true ↔ ∃ e, endpoints W !! d_endpoint_id row = Some e ∧ row_due row e.
Proof.
  unfold claimable, row_due, endpoint_open. rewrite !andb_true_iff, orb_true_iff, !bool_decide_eq_true, Z.leb_le, Z.ltb_lt.
  destruct (endpoints W !! d_endpoint_id row) as [e|]; [|split; [by intros (_ & [=])|by intros (e & [=] & _)]].
  rewrite andb_true_iff. split.
  - intros (((Hs & Hn) & Hc) & Hd & Ho). exists e. split; [done|]. split_and!; try done; [by apply is_null_None|].
    intros u Hu. rewrite Hu in Ho. by apply Z.leb_le.
  - intros (e' & [= <-] & Hs & Hn & Hc & Hd & Ho). rewrite Hd. split_and!; try done.
    destruct (ep_circuit_open_until e) as [u|]; [|done]. by apply Z.leb_le, Ho.
Qed.

Lemma available_claimable (W : db) id row :
  available W id row ↔ deliveries W !! id = Some row ∧ claimable W row = true ∧ id ∉ locked_claim.
Proof. unfold available. rewrite claimable_due. tauto. Qed.

(** What the worker receives is what the queue now holds. *)
Record job_of (job : Job) (W : db) (id : string) (row : DeliveryRow) : Prop := {
  jo_delivery : Delivery_ID (Job_Delivery job) = id ∧ Delivery_EventID (Job_Delivery job) = d_event_id row
    ∧ Delivery_EndpointID (Job_Delivery job) = d_endpoint_id row ∧ Delivery_Status (Job_Delivery job) = d_status row;
  jo_budget : Delivery_AttemptCount (Job_Delivery job) = d_attempt_count row
    ∧ Delivery_MaxAttempts (Job_Delivery job) = d_max_attempts row;
  jo_lease : Some (Delivery_LockedBy (Job_Delivery job)) = d_locked_by row
    ∧ Some (Delivery_LeaseToken (Job_Delivery job)) = d_lease_token row;
  jo_event : ∃ ev, events W !! d_event_id row = Some ev ∧ Event_ID (Job_Event job) = d_event_id row
    ∧ Event_EndpointID (Job_Event job) = ev_endpoint_id ev ∧ Event_Type (Job_Event job) = ev_event_type ev
    ∧ Event_Payload (Job_Event job) = jsonb_out (ev_payload ev)
    ∧ Event_IdempotencyKey (Job_Event job) = ev_idempotency_key ev;
  jo_endpoint : ∃ ep, endpoints W !! d_endpoint_id row = Some ep ∧ Endpoint_ID (Job_Endpoint job) = d_endpoint_id row
    ∧ Endpoint_URL (Job_Endpoint job) = ep_url ep
    ∧ Endpoint_SecretCiphertext (Job_Endpoint job) = ep_secret_ciphertext ep
    ∧ Endpoint_Timeout (Job_Endpoint job) = ep_timeout_ms ep * Millisecond;
}.
End Claim.

(** [C6] A claim on a healthy connection, for a worker whose name is not blank
    and is legal text, and a lease of a millisecond or more, first recovers
    expired leases, at most 32 and the longest expired first; then it takes the
    delivery that has been due longest (the older one of two due since the same
    moment) among those waiting with an attempt left at an enabled endpoint with
    a closed circuit that no concurrent transaction holds: the row becomes
    processing under the worker's name and a new token until the lease from now,
    with one attempt more, and the job returned is that row, its event and its
    endpoint. It returns no job only when there is no such delivery, and no
    error. *)
Theorem ClaimDelivery_spec `{PG : Postgres} {PL : PostgresLaws} `{UU : Uuids} {UL : UuidsLaws}
    `{TE : TxEnv} (workerID : string) (lease : Duration) (s : state) :
  reachable s → TrimSpace workerID ≠ ""%string → Millisecond <= lease →
  text_in (TrimSpace workerID) = true →
  ∃ W o c, recovery (st_db s) W
    ∧ runs (ClaimDelivery workerID lease) (connect s []) (Ok o) c
    ∧ match o with
      | Some job => ∃ id row row' k,
          available W id row
          ∧ (∀ id' other, available W id' other →
               d_next_attempt_at row < d_next_attempt_at other
               ∨ d_next_attempt_at row = d_next_attempt_at other ∧ d_created_at row <= d_created_at other)
          ∧ (st_next s <= k)%nat ∧ row_claimed (TrimSpace workerID) (NewString k) lease row row'
          ∧ deliveries (durable c) = <[id := row']> (deliveries W)
          ∧ endpoints (durable c) = endpoints W ∧ events (durable c) = events W
          ∧ delivery_attempts (durable c) = delivery_attempts W
          ∧ job_of job W id row'
      | None => (∀ id row, ¬ available W id row) ∧ durable c = W
      end.
Proof.
  intros Hr Hw Hl Ht.
  destruct (ClaimDelivery_total workerID lease (st_db s) (st_next s) (reachable_db_ok _ Hr)
    (reachable_fresh _ Hr) Hw Hl Ht) as (W & n' & Hrd & Hn & Hrun).
  exists W. destruct (candidate W) as [[id row]|] eqn:Ec.
  - destruct Hrun as (job & ev & ep & Hrun & Hev & Hep & Hj). eexists (Some job), _.
    split; [by apply recovered_db_recovery, Hrd; apply reachable_db_ok|]. split; [exact Hrun|].
    exists id, row, (claimed_row (TrimSpace workerID) (NewString n') (Milliseconds lease) row), n'.
    pose proof Ec as (Hrow & Hcl & Hlk)%candidate_spec. split; [by apply available_claimable|]. split.
    { intros id' row' (H1 & H2 & H3)%available_claimable. exact (candidate_oldest W id row id' row' Ec H1 H2 H3). }
    split; [done|]. split.
    { apply claimable_spec in Hcl as (Hlive & Hnx & Hlt & _). apply claimed_row_claims; try done.
      unfold Millisecond, Microsecond in *. lia. }
    split_and!; try done. injection Hj as <-. by split; cbn; eauto 10.
  - eexists None, _. split; [by apply recovered_db_recovery, Hrd; apply reachable_db_ok|]. split; [exact Hrun|]. split; [|done].
    intros id row (H1 & H2 & H3)%available_claimable. by eapply H3, candidate_None.
Qed.

Lemma ClaimDelivery_spec_witness :
  ∃ W o c, recovery (TE := at_second 10) (st_db (demo demo_enqueued)) W
    ∧ runs (ClaimDelivery (TE := at_second 10) "worker" Minute) (connect (demo demo_enqueued) []) (Ok o) c.
Proof.
  destruct (ClaimDelivery_spec (PL := sim_postgres_laws) (UL := sim_uuids_laws) (TE := at_second 10)
    "worker" Minute (demo demo_enqueued)) as (W & o & c & H1 & H2 & _);
    [apply demo_reachable|vm_compute; discriminate|discriminate|vm_compute; reflexivity|].
  by exists W, o, c.
Defined.

Lemma demo_storable token n t d c (D : db) :
  sim_uuid_in token = Some token → storable (demo_result token n t d c) "dl" token D.
Proof.
  intros Ht. split; [vm_compute; reflexivity|exact Ht|vm_compute; reflexivity..| | |].
  - cbn. unfold Second. lia.
  - discriminate.
  - discriminate.
Qed.

(** What finishing the attempt of the delivery [did] leaves: the delivery, one
    attempt more, and the circuit of the endpoint. *)
Record finished `{PG : Postgres} `{TE : TxEnv} (r : AttemptResult) (did token : string) (row : DeliveryRow) (D D' : db) : Prop := {
  fd_delivery : ∃ row', deliveries D' = <[did := row']> (deliveries D) ∧ row_finished r token row row';
  fd_attempt : ∃ aid, delivery_attempts D !! aid = None
    ∧ delivery_attempts D' = <[aid := mkAttemptRow did (AR_AttemptNumber r) (AR_StatusCode r) (AR_ResponseBody r)
        (AR_ErrorMessage r) (Z.min (AR_Duration r / Millisecond) MaxInt32)
        (ts_of_time (AR_StartedAt r)) (ts_of_time (AR_CompletedAt r))]> (delivery_attempts D);
  fd_endpoint : ∃ e e', endpoints D !! d_endpoint_id row = Some e
    ∧ endpoints D' = <[d_endpoint_id row := e']> (endpoints D) ∧ circuit_change r e e';
  fd_events : events D' = events D;
}.

Lemma durationMilliseconds_min d : 0 <= d → durationMilliseconds d = Z.min (d / Millisecond) MaxInt32.
Proof.
  intros Hd. unfold durationMilliseconds, Milliseconds. rewrite Z.quot_div_nonneg by (unfold Millisecond, Microsecond; lia).
  assert (0 <= d / Millisecond) by (apply Z.div_pos; unfold Millisecond, Microsecond; lia).
  destruct (Z.ltb_spec MaxInt32 (d / Millisecond)); [lia|].
  rewrite wrap32_id by (unfold in_int32, MinInt32, MaxInt32 in *; lia). lia.
Qed.

(** Under its lease. *)
Lemma FinishAttempt_held `{PG : Postgres} {PL : PostgresLaws} `{UU : Uuids} {UL : UuidsLaws}
    `{TE : TxEnv} (r : AttemptResult) (s : state) (did token : string) (row : DeliveryRow) :
  reachable s → validateAttemptResult r = Ok tt → storable r did token (st_db s) →
  deliveries (st_db s) !! did = Some row →
  holds_lease (AR_WorkerID r) token (AR_AttemptNumber r) row = true →
  ∃ c, runs (FinishAttempt r) (connect s []) (Ok (next_status (AR_Decision r) (d_attempt_count row) (d_max_attempts row))) c
    ∧ finished r did token row (st_db s) (durable c).
Proof.
  intros Hr Hv Hs Hrow Hl. pose proof (reachable_db_ok _ Hr) as Hok. pose proof (validate_ok_valid _ Hv) as Hval.
  pose proof (FinishAttempt_total r did token (st_db s) (st_next s) Hok (reachable_fresh _ Hr) Hv Hs) as Hrun.
  rewrite Hrow, Hl in Hrun. cbn zeta in Hrun. pose proof (finished_row_finishes r token row Hl) as Hf.
  rewrite (rf_status _ _ _ _ Hf) in Hrun. eexists. split; [exact Hrun|].
  destruct (ok_deliveries _ _ _ Hok _ _ Hrow) as (_ & _ & ev & Hev & Hep).
  destruct (ok_events _ _ _ Hok _ _ Hev) as (_ & e & He). rewrite Hep in He.
  destruct (circuit_effect_change r (d_endpoint_id row) (endpoints (st_db s)) e) as (e' & He' & Hc);
    [intros Ho; by apply (vr_circuit _ Hval)|done|].
  split; cbn; [by eexists| |by exists e, e'|done].
  exists (NewString (st_next s)). split; [by apply (reachable_fresh _ Hr)|].
  unfold finished_attempt. by rewrite durationMilliseconds_min by apply (vr_duration _ Hval).
Qed.

(** Without it. *)
Lemma FinishAttempt_stale `{PG : Postgres} {PL : PostgresLaws} `{UU : Uuids} {UL : UuidsLaws}
    `{TE : TxEnv} (r : AttemptResult) (s : state) (did token : string) :
  reachable s → validateAttemptResult r = Ok tt → storable r did token (st_db s) →
  (∀ row, deliveries (st_db s) !! did = Some row →
     d_status row ≠ StatusProcessing ∨ d_locked_by row ≠ Some (AR_WorkerID r)
     ∨ d_lease_token row ≠ Some token ∨ d_attempt_count row ≠ AR_AttemptNumber r) →
  ∃ c, runs (FinishAttempt r) (connect s []) (Err ErrLeaseLost) c ∧ durable c = st_db s.
Proof.
  intros Hr Hv Hs Hstale.
  pose proof (FinishAttempt_total r did token (st_db s) (st_next s) (reachable_db_ok _ Hr)
    (reachable_fresh _ Hr) Hv Hs) as Hrun.
  assert (Hlost : FinishAttempt r (connect s []) = (Err ErrLeaseLost, connect s [])).
  { destruct (deliveries (st_db s) !! did) as [row|]; [|exact Hrun].
    destruct (holds_lease _ _ _ row) eqn:Hl; [|exact Hrun].
    apply holds_lease_spec in Hl. destruct (Hstale row eq_refl) as [?|[?|[?|?]]]; tauto. }
  exists (connect s []). by split.
Qed.

(** [C7] Finishing an attempt on a healthy connection with a well-formed result
    the database can store (its identifiers are uuids, its texts are legal text
    of the database, its wall clock readings are in order, and the threshold and
    the failures counted so far fit in 32 bits) does not fail but for the lease.
    Under its lease it records the attempt under its number, releases the lease,
    moves the delivery to the status the decision and the budget determine, and
    updates the circuit of the endpoint, in one transaction, and returns that
    status. A result that does not present the current lease (another worker,
    token or attempt number, or a delivery no longer processing) is refused with
    [ErrLeaseLost] and changes nothing. *)
Theorem FinishAttempt_spec `{PG : Postgres} {PL : PostgresLaws} `{UU : Uuids} {UL : UuidsLaws}
    `{TE : TxEnv} (r : AttemptResult) (s : state) (did token : string) :
  reachable s → validateAttemptResult r = Ok tt → storable r did token (st_db s) →
  (∃ row c,
     deliveries (st_db s) !! did = Some row
     ∧ d_status row = StatusProcessing ∧ d_locked_by row = Some (AR_WorkerID r)
     ∧ d_lease_token row = Some token ∧ d_attempt_count row = AR_AttemptNumber r
     ∧ runs (FinishAttempt r) (connect s [])
         (Ok (next_status (AR_Decision r) (d_attempt_count row) (d_max_attempts row))) c
     ∧ finished r did token row (st_db s) (durable c))
  ∨ (∀ row, deliveries (st_db s) !! did = Some row →
       d_status row ≠ StatusProcessing ∨ d_locked_by row ≠ Some (AR_WorkerID r)
       ∨ d_lease_token row ≠ Some token ∨ d_attempt_count row ≠ AR_AttemptNumber r)
    ∧ ∃ c, runs (FinishAttempt r) (connect s []) (Err ErrLeaseLost) c ∧ durable c = st_db s.
Proof.
  intros Hr Hv Hs. destruct (deliveries (st_db s) !! did) as [row|] eqn:Hrow.
  2:{ right. split; [done|]. apply (FinishAttempt_stale r s did token); [done..|]. by rewrite Hrow. }
  destruct (holds_lease (AR_WorkerID r) token (AR_AttemptNumber r) row) eqn:Hl.
  - left. destruct (FinishAttempt_held r s did token row Hr Hv Hs Hrow Hl) as (c & H).
    apply holds_lease_spec in Hl as (H1 & H2 & H3 & H4). by exists row, c.
  - right. assert (Hst : ∀ row0, Some row = Some row0 → d_status row0 ≠ StatusProcessing ∨ d_locked_by row0 ≠ Some (AR_WorkerID r)
      ∨ d_lease_token row0 ≠ Some token ∨ d_attempt_count row0 ≠ AR_AttemptNumber r).
    { intros row0 [= <-]. unfold holds_lease in Hl. rewrite !andb_false_iff in Hl. zbool. rewrite !bool_decide_eq_false, Z.eqb_neq in Hl. tauto. }
    split; [exact Hst|]. apply (FinishAttempt_stale r s did token); [done..|]. by rewrite Hrow.
Qed.

Lemma FinishAttempt_spec_witness :
  (∃ c, runs (FinishAttempt (TE := at_second 12) (demo_result "uuid-0" 1 10 DecisionRetry 503))
          (connect (demo demo_claimed) []) (Ok StatusRetrying) c)
  ∧ ∃ c, runs (FinishAttempt (TE := at_second 30) (demo_result "uuid-0" 1 10 DecisionRetry 503))
           (connect (demo demo_reclaimed) []) (Err ErrLeaseLost) c.
Proof.
  assert (Hv : validateAttemptResult (demo_result "uuid-0" 1 10 DecisionRetry 503) = Ok tt)
    by (vm_compute; reflexivity).
  split.
  - destruct (demo_row demo_claimed) as [row|] eqn:E; [|exfalso; revert E; vm_compute; discriminate].
    destruct (FinishAttempt_spec (PL := sim_postgres_laws) (UL := sim_uuids_laws) (TE := at_second 12)
      (demo_result "uuid-0" 1 10 DecisionRetry 503) (demo demo_claimed) "dl" "uuid-0" (demo_reachable _) Hv)
      as [(row1 & c & E1 & _ & _ & _ & _ & H & _)|[Hno _]]; [by apply demo_storable| |].
    + change (demo_row demo_claimed = Some row1) in E1.
      assert (Hst : next_status DecisionRetry (d_attempt_count row1) (d_max_attempts row1) = StatusRetrying)
        by (revert E1; vm_compute; by intros [= <-]).
      exists c. cbn [AR_Decision demo_result] in H. by rewrite Hst in H.
    + exfalso. specialize (Hno row E). revert E Hno. vm_compute. intros [= <-]. clear.
      intros [H|[H|[H|H]]]; by apply H.
  - destruct (FinishAttempt_spec (PL := sim_postgres_laws) (UL := sim_uuids_laws) (TE := at_second 30)
      (demo_result "uuid-0" 1 10 DecisionRetry 503) (demo demo_reclaimed) "dl" "uuid-0" (demo_reachable _) Hv)
      as [(row1 & c & E1 & _ & _ & _ & Hc & _)|[_ (c & Hrun & _)]]; [by apply demo_storable| |].
    + exfalso. change (demo_row demo_reclaimed = Some row1) in E1. revert E1 Hc. vm_compute. intros [= <-]. discriminate.
    + exists c. exact Hrun.
Defined.

(** [validateAttemptResult] accepts exactly the well-formed results: the
    sixteen early returns amount to one conjunction. *)
Theorem validateAttemptResult_iff (r : AttemptResult) :
  validateAttemptResult r = Ok tt ↔ valid_result r.
Proof. split; [apply validate_ok_valid|apply valid_validate_ok]. Qed.

(** ** The circuit breaker *)

(** The circuit updates of finished attempts, each in its own environment. *)
Fixpoint update_circuits `{PG : Postgres} (ep : string) (results : list (TxEnv * AttemptResult)) : M unit :=
  match results with
  | [] => mret tt
  | (TE, r) :: results' => _ ← updateCircuit (TE := TE) r ep; update_circuits ep results'
  end.

(** A failure under the policy of the dispatcher. *)
Definition fails_with (threshold : Z) (cooldown : Duration) (r : AttemptResult) : Prop :=
  AR_CircuitOutcome r = CircuitFailure ∧ AR_CircuitThreshold r = threshold ∧ AR_CircuitCooldown r = cooldown.

Lemma updateCircuit_failure `{PG : Postgres} `{TE : TxEnv} r ep threshold cooldown (D W : db) n e :
  fails_with threshold cooldown r → canonical ep → endpoints W !! ep = Some e → check_endpoint e = true →
  1 <= threshold <= MaxInt32 → Millisecond <= cooldown → ep_consecutive_failures e < MaxInt32 →
  ∃ e', updateCircuit r ep (mkConn _ D W [] n) = (Ok tt, mkConn _ D (set_endpoints (<[ep := e']> (endpoints W)) W) [] n)
    ∧ circuit_failed threshold cooldown e e' ∧ check_endpoint e' = true.
Proof.
  intros (Ho & <- & <-) Hcan He Hchk Ht Hc Hf. exists (failed_circuit (AR_CircuitThreshold r) (Milliseconds (AR_CircuitCooldown r)) e).
  assert (0 <= ep_consecutive_failures e) as H0 by (unfold check_endpoint in Hchk; zbool; lia).
  assert (Hchk' : check_endpoint (failed_circuit (AR_CircuitThreshold r) (Milliseconds (AR_CircuitCooldown r)) e) = true)
    by (apply check_circuit; [done|lia]).
  split; [|split; [by apply failed_circuit_fails|done]].
  assert (Hint : ∀ z, 0 <= z <= MaxInt32 → int4 z = true).
  { intros z Hz. unfold int4, in_range, MinInt32, MaxInt32 in *. rewrite andb_true_iff, !Z.leb_le. lia. }
  unfold updateCircuit. rewrite Ho, eval_Exec. unfold circuitFailureQuery.
  rewrite (canonical_sql_uuid _ Hcan). cbn [mbind res_bind]. rewrite (Hint (AR_CircuitThreshold r)) by lia.
  cbn [sql_guard mbind res_bind]. rewrite He, (Hint (ep_consecutive_failures e + 1)) by lia. cbn [sql_guard mbind res_bind].
  unfold update_endpoint. by rewrite Hchk'.
Qed.

Lemma same_endpoint_trans e1 e2 e3 : same_endpoint e1 e2 → same_endpoint e2 e3 → same_endpoint e1 e3.
Proof. intros (?&?&?&?&?&?&?) (?&?&?&?&?&?&?). unfold same_endpoint. split_and!; congruence. Qed.

(** A row of failures, the last of them at [List.last times]. *)
Lemma update_circuits_failures `{PG : Postgres} ep threshold cooldown results (D W : db) n e :
  Forall (λ x, fails_with threshold cooldown x.2) results →
  canonical ep → endpoints W !! ep = Some e → check_endpoint e = true →
  1 <= threshold <= MaxInt32 → Millisecond <= cooldown →
  ep_consecutive_failures e + Z.of_nat (length results) <= MaxInt32 →
  ∃ W' e', update_circuits ep results (mkConn _ D W [] n) = (Ok tt, mkConn _ D W' [] n)
    ∧ endpoints W' = <[ep := e']> (endpoints W) ∧ same_endpoint e e' ∧ check_endpoint e' = true
    ∧ ep_consecutive_failures e' = ep_consecutive_failures e + Z.of_nat (length results)
    ∧ (∀ u, ep_circuit_open_until e = Some u → ∃ u', ep_circuit_open_until e' = Some u' ∧ u <= u')
    ∧ (ep_consecutive_failures e + Z.of_nat (length results) < threshold → ep_circuit_open_until e' = ep_circuit_open_until e)
    ∧ (∀ TE r, last results = Some (TE, r) → threshold <= ep_consecutive_failures e + Z.of_nat (length results) →
       ∃ u, ep_circuit_open_until e' = Some u ∧ now (TxEnv := TE) + 1000 * (cooldown / Millisecond) <= u).
Proof.
  intros Hall Hcan. revert W e. induction Hall as [|[TE r] results Hr _ IH]; intros W e He Hchk Ht Hc Hn; cbn [update_circuits length].
  { exists W, e. split; [done|]. rewrite insert_id by done. split_and!; try done; [cbn; lia|by eauto with lia]. }
  cbn [length] in Hn. rewrite Nat2Z.inj_succ in *.
  destruct (updateCircuit_failure (TE := TE) r ep threshold cooldown D W n e Hr Hcan He Hchk Ht Hc) as (e1 & Hrun & Hx & Hchk1); [lia|].
  pose proof (xf_count _ _ _ _ Hx) as Hcount.
  destruct (IH (set_endpoints (<[ep := e1]> (endpoints W)) W) e1) as (W' & e' & Hrun' & HW & Hsame & Hchk' & Hcnt & Hmono & Hbelow & Hopen);
    [cbn; by rewrite lookup_insert_eq|done|done|done|lia|].
  destruct (xf_same _ _ _ _ Hx) as [Hs1 _]. exists W', e'. split; [by rewrite eval_bind, Hrun|].
  split; [rewrite HW; cbn; by rewrite insert_insert_eq|]. split; [by eapply same_endpoint_trans|].
  split; [done|]. split; [lia|]. split; [|split].
  - intros u Hu. destruct (Z.lt_ge_cases (ep_consecutive_failures e + 1) threshold) as [Hlt|Hge].
    + apply Hmono. by rewrite (xf_below _ _ _ _ Hx Hlt).
    + destruct (xf_open _ _ _ _ Hx Hge) as (u1 & Hu1 & _ & Hle & _). destruct (Hmono u1 Hu1) as (u' & ? & ?).
      exists u'. split; [done|]. specialize (Hle u Hu). lia.
  - intros Hlt. rewrite Hbelow by lia. apply (xf_below _ _ _ _ Hx). lia.
  - intros TE' r' Hlast Hle. destruct results as [|y results].
    + cbn in Hlast. injection Hlast as <- <-. cbn [length] in Hle.
      destruct (xf_open _ _ _ _ Hx) as (u1 & Hu1 & Hge & _); [lia|]. destruct (Hmono u1 Hu1) as (u' & Hu' & ?). exists u'. split; [done|lia].
    + apply (Hopen TE' r'); [by rewrite last_cons_cons in Hlast|lia].
Qed.

(** [C29] The circuit breaker, as the attempts finished against one endpoint
    drive it on a healthy connection. A row of failures below the threshold
    leaves a closed circuit closed; from the threshold on it is open for at
    least the cooldown after the last failure, during which no delivery to the
    endpoint can be claimed, whatever else is true of it. A success after any of
    them closes it and forgets the failures: at any time a delivery to the
    endpoint (unless disabled) can be claimed when it is waiting and due. *)
Theorem circuit_breaker `{PG : Postgres} (ep : string) (threshold : Z) (cooldown : Duration)
    (failures : list (TxEnv * AttemptResult)) (TS : TxEnv) (success : AttemptResult) (D W : db) n (e : EndpointRow) :
  canonical ep → endpoints W !! ep = Some e → check_endpoint e = true →
  ep_consecutive_failures e = 0 → ep_circuit_open_until e = None →
  1 <= threshold <= MaxInt32 → Millisecond <= cooldown → Z.of_nat (length failures) <= MaxInt32 →
  Forall (λ x, fails_with threshold cooldown x.2) failures → AR_CircuitOutcome success = CircuitSuccess →
  ∃ W1 e1,
    runs (update_circuits ep failures) (mkConn _ D W [] n) (Ok tt) (mkConn _ D W1 [] n)
    ∧ endpoints W1 = <[ep := e1]> (endpoints W)
    ∧ same_endpoint e e1 ∧ ep_consecutive_failures e1 = Z.of_nat (length failures)
    ∧ (Z.of_nat (length failures) < threshold → ep_circuit_open_until e1 = None)
    ∧ (∀ TL rl TE row, last failures = Some (TL, rl) → threshold <= Z.of_nat (length failures) →
         now (TxEnv := TE) < now (TxEnv := TL) + 1000 * (cooldown / Millisecond) →
         d_endpoint_id row = ep → claimable (TE := TE) W1 row = false)
    ∧ ∃ W2 e2,
      runs (updateCircuit (TE := TS) success ep) (mkConn _ D W1 [] n) (Ok tt) (mkConn _ D W2 [] n)
      ∧ endpoints W2 = <[ep := e2]> (endpoints W) ∧ circuit_succeeded (TE := TS) e1 e2
      ∧ ∀ TE row, d_endpoint_id row = ep → ep_disabled_at e = None → live row →
          d_next_attempt_at row <= now (TxEnv := TE) → d_attempt_count row < d_max_attempts row →
          claimable (TE := TE) W2 row = true.
Proof.
  intros Hcan He Hchk Hf Ho Ht Hc Hn Hall Hs.
  destruct (update_circuits_failures ep threshold cooldown failures D W n e) as (W1 & e1 & Hrun & HW & Hsame & Hchk1 & Hcnt & _ & Hbelow & Hopen);
    [done..|lia|]. rewrite Hf in *. exists W1, e1. split; [exact Hrun|]. split; [done|]. split; [done|]. split; [lia|].
  split; [intros Hlt; rewrite <- Ho; apply Hbelow; lia|]. split.
  - intros TL rl TE row Hlast Hle Hnow Hep. apply not_true_iff_false. intros (e0 & He0 & Hdue)%(claimable_due (TE := TE)).
    rewrite HW, Hep, lookup_insert_eq in He0. injection He0 as <-. destruct (Hopen TL rl Hlast) as (u & Hu & Hge); [lia|].
    destruct Hdue as (_ & _ & _ & _ & Hcl). specialize (Hcl u Hu). lia.
  - exists (set_endpoints (<[ep := set_circuit (TE := TS) 0 None e1]> (endpoints W1)) W1), (set_circuit (TE := TS) 0 None e1). split_and!.
    + unfold runs, updateCircuit. rewrite Hs, eval_Exec. unfold circuitSuccessQuery.
      rewrite (canonical_sql_uuid _ Hcan). cbn [mbind res_bind]. rewrite HW, lookup_insert_eq. unfold update_endpoint.
      rewrite check_circuit by (done || (unfold MaxInt32; lia)). cbn. by rewrite HW.
    + cbn. by rewrite HW, insert_insert_eq.
    + apply set_circuit_succeeds.
    + intros TE row Hep Hd Hlive Hnx Hlt. apply claimable_due. eexists. cbn. rewrite Hep, lookup_insert_eq. split; [done|].
      split_and!; try done. cbn. destruct Hsame as (_ & _ & _ & _ & _ & -> & _). done.
Qed.

Definition demo_failure : AttemptResult :=
  mkAttemptResult "dl" "worker" "uuid-0" 1 DecisionRetry (Some 503) "" "" Second
    (mkTime 0 None) (mkTime 1 None) (mkTime 2 None) CircuitFailure 2 Minute.
Definition demo_success : AttemptResult :=
  mkAttemptResult "dl" "worker" "uuid-0" 1 DecisionSucceed (Some 200) "" "" Second
    (mkTime 0 None) (mkTime 1 None) (mkTime 2 None) CircuitSuccess 2 Minute.

Lemma circuit_breaker_witness :
  ∃ W1 W2 : @db sim_postgres,
    runs (update_circuits "ep" [(sim_env 10, demo_failure); (sim_env 20, demo_failure)])
      (connect (demo demo_enqueued) []) (Ok tt) (mkConn _ (st_db (demo demo_enqueued)) W1 [] (st_next (demo demo_enqueued)))
    ∧ (∀ row, d_endpoint_id row = "ep"%string → claimable (TE := sim_env 1000000) W1 row = false)
    ∧ ∀ row, d_endpoint_id row = "ep"%string → live row → d_next_attempt_at row <= 1000000 →
        d_attempt_count row < d_max_attempts row → claimable (TE := sim_env 1000000) W2 row = true.
Proof.
  destruct (endpoints (st_db (demo demo_enqueued)) !! "ep") as [e|] eqn:E; [|exfalso; revert E; vm_compute; discriminate].
  assert (He : match endpoints (st_db (demo demo_enqueued)) !! "ep" with
    | Some e => check_endpoint e && (ep_consecutive_failures e =? 0) && is_null (ep_circuit_open_until e) && is_null (ep_disabled_at e)
    | None => false end = true) by (vm_compute; reflexivity).
  rewrite E, !andb_true_iff, Z.eqb_eq in He. destruct He as [[[H1 H2] H3%is_null_None] H4%is_null_None].
  destruct (circuit_breaker (PG := sim_postgres) "ep" 2 Minute [(sim_env 10, demo_failure); (sim_env 20, demo_failure)]
    (sim_env 30) demo_success (st_db (demo demo_enqueued)) (st_db (demo demo_enqueued)) (st_next (demo demo_enqueued)) e)
    as (W1 & e1 & Hrun & _ & _ & _ & _ & Hopen & W2 & e2 & _ & _ & _ & Hclosed);
    [reflexivity|exact E|exact H1|exact H2|exact H3|by vm_compute|by vm_compute|by vm_compute|by repeat constructor|reflexivity|].
  exists W1, W2. split; [exact Hrun|]. split.
  - intros row Hep. apply (Hopen (sim_env 20) demo_failure (sim_env 1000000) row); [reflexivity|by vm_compute|by vm_compute|exact Hep].
  - intros row Hep Hlive Hnx Hlt. exact (Hclosed (sim_env 1000000) row Hep H4 Hlive Hnx Hlt).
Defined.
