(* ===== verification/WorkerTheorems.v ===== *)
(** * Theorems on the workers *)

From S2P Require Import Prelude GoErrors GoTime GoText Float64 Delivery Schema Tx Invariant TxLogic Queue.
From S2P Require Import QueueSafety QueueSpec QueueRuns QueueTheorems Eventing StoreEvents StoreDeliveries.
From S2P Require Import StoreEndpoints Minting StoreSafety Frame System Demo Signature Dispatcher Worker.

#[local] Existing Instances sim_postgres sim_uuids sim_postgres_laws sim_uuids_laws amd64_target.

Section Lemmas.
Context `{PG : Postgres} `{UU : Uuids} {Target : GoTarget}.

Lemma on_queue_step {A} (TE : TxEnv) o (m : M A) fs s r s' :
  run_op TE o = (_ ← m; mret tt) → on_queue m fs s = (r, s') → step s s'.
Proof.
  intros Ho Hq. unfold on_queue in Hq. destruct (m (connect s fs)) as [r1 c] eqn:E. injection Hq as <- <-.
  apply (step_op TE o fs s (match r1 with Ok _ => Ok tt | Err e => Err e end) c).
  unfold runs. rewrite Ho, eval_bind, E. by destruct r1.
Qed.

(** The observations of one turn. *)
Definition balanced (os : list observation) : Prop :=
  in_flight os = 0 ∧ ∀ os1 os2, os = os1 ++ os2 → 0 <= in_flight os1 <= 1.

Lemma balanced_nil : balanced [].
Proof. split; [done|]. intros os1 os2 E. symmetry in E. apply app_nil in E as [-> _]. done. Qed.

Lemma balanced_app os1 os2 : balanced os1 → balanced os2 → balanced (os1 ++ os2).
Proof.
  intros [E1 H1] [E2 H2]. split; [rewrite in_flight_app; lia|].
  intros os3 os4 E. apply app_eq_inv in E as [(k & -> & Ek)|(k & -> & Ek)].
  - apply (H1 os3 k). done.
  - rewrite in_flight_app, E1. by apply (H2 k os4).
Qed.

(** A list of observations is balanced when every prefix is in range. *)
Lemma balanced_forall os :
  in_flight os = 0 → Forall (λ n, 0 <= in_flight (take n os) <= 1) (seq 0 (S (length os))) → balanced os.
Proof.
  intros H0 Hall. split; [done|]. intros os1 os2 ->. rewrite Forall_forall in Hall.
  specialize (Hall (length os1)). rewrite take_app_length in Hall. apply Hall.
  apply elem_of_seq. rewrite length_app. lia.
Qed.

Lemma turn_step p w t s :
  let '(s', os, _) := worker_turn (WQ := store_queue) p w t s in rtc step s s' ∧ balanced os.
Proof.
  unfold worker_turn.
  destruct (on_queue (QueueClaim _ _ _) _ s) as [claimed s1] eqn:Ec.
  apply (on_queue_step (turn_claim_env t) (OpClaimDelivery w (Config_LeaseDuration (Pool_config p)))) in Ec;
    [|done].
  destruct claimed as [[job|]|e].
  - unfold process. destruct (on_queue (QueueFinish _ _) _ s1) as [r s2] eqn:Ef.
    eapply (on_queue_step (turn_finish_env t) (OpFinishAttempt _)) in Ef; [|done].
    split; [eapply rtc_l; [exact Ec|by apply rtc_once]|].
    apply balanced_forall; destruct r; cbn; try done; repeat constructor; done.
  - split; [by apply rtc_once|]. apply balanced_forall; [done|]. by repeat constructor.
  - destruct (turn_claim_cancelled t); (split; [by apply rtc_once|]); [apply balanced_nil|].
    apply balanced_forall; [done|]. by repeat constructor.
Qed.
End Lemmas.

(** [C18] However its environment behaves, a worker only takes steps of the
    system (so every invariant of the system holds around it), and the
    in-flight gauge it drives is balanced: 0 or 1 at any moment, 0 when the
    loop has stopped. *)
Theorem runWorker_steps `{PG : Postgres} `{UU : Uuids} {Target : GoTarget}
    (p : Pool) (workerID : string) (ts : list turn) (s : state) :
  let '(s', os) := runWorker (WQ := store_queue) p workerID ts s in
  rtc step s s' ∧ in_flight os = 0 ∧ ∀ os1 os2, os = os1 ++ os2 → 0 <= in_flight os1 <= 1.
Proof.
  assert (H : let '(s', os) := runWorker (WQ := store_queue) p workerID ts s in rtc step s s' ∧ balanced os).
  { revert s. induction ts as [|t ts IH]; intros s; cbn [runWorker]; [by split; [|apply balanced_nil]|].
    pose proof (turn_step p workerID t s) as Ht. destruct (worker_turn p workerID t s) as [[s1 os1] continue].
    destruct Ht as [Hs1 Hb1]. destruct continue; [|done].
    specialize (IH s1). destruct (runWorker p workerID ts s1) as [s2 os2]. destruct IH as [Hs2 Hb2].
    split; [by etrans|by apply balanced_app]. }
  destruct (runWorker p workerID ts s) as [s' os]. exact H.
Qed.

(** ** Reports *)

(** What the dispatcher guarantees of a result ([Deliver_wellformed]). *)
Record result_wf (r : Result) : Prop := {
  rw_none : Result_StatusCode r = None →
    blank (Result_ErrorMessage r) = false
    ∧ (Result_Decision r = DecisionRetry ∨ Result_Decision r = DecisionDiscard);
  rw_status : ∀ c, Result_StatusCode r = Some c → Result_Decision r = Evaluate c None;
  rw_duration : Result_Duration r = Sub (Result_CompletedAt r) (Result_StartedAt r);
}.

Lemma Evaluate_cases c :
  Evaluate c None = DecisionSucceed ∨ Evaluate c None = DecisionRetry ∨ Evaluate c None = DecisionDiscard.
Proof. unfold Evaluate. destruct (_ && _); [by left|]. destruct (_ || _); auto. Qed.

Lemma After_Add_positive t d : 0 < d → After (Add t d) t = true.
Proof. intros. rewrite After_Add. by apply Z.ltb_lt. Qed.

(** The part of a pool's configuration reports depend on. *)
Definition sound_config (c : Config) : Prop :=
  (∃ base max j, NewRetryPolicy base max j = Ok (Config_RetryPolicy c) ∧ 2 <= base ∧ max <= max_safe_delay
     ∧ j ≠ NaN ∧ flt (Fin 1 (-1)) j = false)
  ∧ 1 <= Config_CircuitThreshold c ∧ Millisecond <= Config_CircuitCooldown c.

(** A job as the queue hands it out. *)
Definition sound_job (job : Job) : Prop :=
  blank (Delivery_ID (Job_Delivery job)) = false ∧ blank (Delivery_LeaseToken (Job_Delivery job)) = false
  ∧ 1 <= Delivery_AttemptCount (Job_Delivery job) <= MaxInt32.

Lemma report_valid {Target : GoTarget} p workerID job r sample cancelled :
  sound_config (Pool_config p) → sound_job job → blank workerID = false → result_wf r → sample ≠ NaN →
  (∀ c, Result_StatusCode r = Some c → 100 <= c <= 599) →
  IsZero (Result_StartedAt r) = false → IsZero (Result_CompletedAt r) = false →
  Before (Result_CompletedAt r) (Result_StartedAt r) = false →
  valid_result (report p workerID job r sample cancelled).
Proof.
  intros [(base & max & j & Hp & Hbase & Hmax & Hj & Hhalf) [Hthr Hcool]] (Hid & Htok & Hn) Hw [Wn Ws Wd] Hs
    Hcode Z1 Z2 Hbef.
  assert (Hd : Result_Decision r = DecisionSucceed ∨ Result_Decision r = DecisionRetry ∨ Result_Decision r = DecisionDiscard).
  { destruct (Result_StatusCode r) as [c|] eqn:E; [rewrite (Ws c eq_refl); apply Evaluate_cases|].
    destruct (Wn eq_refl) as [_ [-> | ->]]; auto. }
  split; cbn; try done.
  - intros c E. split; [by apply Hcode|]. symmetry. by apply Ws.
  - intros E. destruct (Wn E) as [Hb [-> | ->]]; done.
  - rewrite Wd. by apply Sub_nonneg.
  - intros E. rewrite E, bool_decide_eq_true_2 by done. apply After_Add_positive.
    apply NewRetryPolicy_ok in Hp as (Ep & Hb & H0 & H1). rewrite Ep.
    eapply (NextDelay_range 1 (mkRetryPolicy base max j)); cbn; try lia; try done. by apply (valid_jitter j 1).
  - destruct cancelled; [by left|]. destruct (Result_CircuitSignal r); auto.
  - intros E. rewrite E, bool_decide_eq_true_2 by done. done.
Qed.

(** What a worker reports is what the queue accepts: for any job the
    queue hands out and any well-formed result with a status in the range of
    HTTP, under a sound configuration and a clock that does not step back, the
    report passes [validateAttemptResult]. *)
Theorem report_accepted {Target : GoTarget} (p : Pool) (workerID : string) (job : Job) (r : Result)
    (sample : float64) (cancelled : bool) :
  sound_config (Pool_config p) → sound_job job → blank workerID = false → result_wf r → sample ≠ NaN →
  (∀ c, Result_StatusCode r = Some c → 100 <= c <= 599) →
  IsZero (Result_StartedAt r) = false → IsZero (Result_CompletedAt r) = false →
  Before (Result_CompletedAt r) (Result_StartedAt r) = false →
  validateAttemptResult (report p workerID job r sample cancelled) = Ok tt.
Proof. intros. by apply valid_validate_ok, report_valid. Qed.

Definition demo_config : Config :=
  mkConfig 4 Second Minute (5 * Second) (mkRetryPolicy Second (5 * Minute) f_0_2) 5 (30 * Second).
Definition demo_pool : Pool := mkPool demo_config "pool".

Lemma demo_config_sound : sound_config demo_config.
Proof.
  split; [|by vm_compute]. exists Second, (5 * Minute), f_0_2. split_and!; try done.
Qed.

Definition demo_job : Job :=
  mkJob (mkDelivery "dl" "ev" "ep" StatusProcessing 1 3 zero_time "pool/1" "token" None None None "" None zero_time zero_time)
    (mkEvent "ev" "ep" "invoice.paid" [x7b; x7d] "key" zero_time) demo_endpoint.

Definition demo_outcome (code : Z) : Result :=
  mkResult (Evaluate code None) (Some code) "" "" (circuitSignal code) Second (mkTime 0 None) (mkTime Second None).

Lemma report_accepted_witness :
  validateAttemptResult (report demo_pool "pool/1" demo_job (demo_outcome 503) f_zero false) = Ok tt.
Proof.
  apply report_accepted; try done.
  - apply demo_config_sound.
  - split; [done| |reflexivity]. by intros c [= <-].
  - intros c [= <-]. lia.
Defined.

(** A delivery attempt during which the wall clock steps back cannot be
    recorded: [UTC] drops the monotonic readings, the duration the dispatcher
    reports is negative, and the queue refuses the report whatever the
    response was, a success included. *)
Theorem clock_step_back_refused {Target : GoTarget} Decrypt NewRequest Do allowHTTP limit now_start now_end
    (p : Pool) workerID job sample cancelled :
  wall now_end < wall now_start →
  let r := (Deliver Decrypt NewRequest Do allowHTTP limit now_start now_end (request_of job)).2 in
  is_ok (validateAttemptResult (report p workerID job r sample cancelled)) = false.
Proof.
  intros Hback r.
  assert (Hd : Result_Duration r < 0).
  { assert (Result_Duration r = Sub (UTC now_end) (UTC now_start)) as ->.
    { subst r. unfold Deliver. destruct (Decrypt _ _); [|done]. destruct (_ <=? 0); [done|].
      destruct (NewRequest _); [|done]. destruct (_ && _); [done|]. cbn zeta.
      destruct (Do _); [destruct (read_limited _ _)|]; done. }
    unfold Sub, UTC, readings. cbn. unfold MinInt64, MaxInt64. lia. }
  clearbody r. destruct (validateAttemptResult _) as [[]|e] eqn:E; [|done].
  apply validate_ok_valid in E. pose proof (vr_duration _ E) as H. cbn in H. lia.
Qed.

Lemma clock_step_back_refused_witness :
  is_ok (validateAttemptResult (report demo_pool "pool/1" demo_job
    (Deliver (λ _ _, Ok []) (λ _, Ok "https"%string) (λ _, Ok (mkHttpResponse 204 [] None)) false 16
       (mkTime (10 * Second) (Some 0)) (mkTime (9 * Second) (Some Second)) (request_of demo_job)).2 f_zero false)) = false.
Proof. apply clock_step_back_refused. reflexivity. Defined.

(** ** A whole turn *)

(** What a healthy exchange with the target yields. *)
Record sound_result `{Postgres} (r : Result) : Prop := {
  sr_wf : result_wf r;
  sr_status : ∀ c, Result_StatusCode r = Some c → 100 <= c <= 599;
  sr_times : IsZero (Result_StartedAt r) = false ∧ IsZero (Result_CompletedAt r) = false
    ∧ Before (Result_CompletedAt r) (Result_StartedAt r) = false;
  sr_wall : wall (Result_StartedAt r) <= wall (Result_CompletedAt r);
  sr_texts : text_in (Result_ErrorMessage r) = true ∧ text_in (Result_ResponseBody r) = true;
}.

(** What a worker asks of its configuration and its name. *)
Record sound_worker `{Postgres} (p : Pool) (workerID : string) : Prop := {
  sw_config : sound_config (Pool_config p);
  sw_threshold : Config_CircuitThreshold (Pool_config p) <= MaxInt32;
  sw_lease : Millisecond <= Config_LeaseDuration (Pool_config p);
  sw_id : TrimSpace workerID = workerID ∧ workerID ≠ ""%string ∧ text_in workerID = true;
}.

(** The row of an attempt with this result. *)
Definition recorded `{Postgres} (job : Job) (r : Result) : AttemptRow :=
  mkAttemptRow (Delivery_ID (Job_Delivery job)) (Delivery_AttemptCount (Job_Delivery job)) (Result_StatusCode r)
    (Result_ResponseBody r) (Result_ErrorMessage r) (durationMilliseconds (Result_Duration r))
    (ts_of_time (Result_StartedAt r)) (ts_of_time (Result_CompletedAt r)).

Section Turn.
Context `{PG : Postgres} {PL : PostgresLaws} `{UU : Uuids} {UL : UuidsLaws} {Target : GoTarget}.

(** Finishing a claimed row with the worker's report. *)
Lemma finish_report (TE : TxEnv) p workerID job r sample cancelled s id row token :
  reachable s → sound_worker p workerID → sound_result r → sample ≠ NaN →
  (∀ ep e, endpoints (st_db s) !! ep = Some e → ep_consecutive_failures e < MaxInt32) →
  deliveries (st_db s) !! id = Some row → canonical token →
  d_status row = StatusProcessing → d_locked_by row = Some workerID → d_lease_token row = Some token →
  Delivery_ID (Job_Delivery job) = id → Delivery_LeaseToken (Job_Delivery job) = token →
  Delivery_AttemptCount (Job_Delivery job) = d_attempt_count row →
  ∃ c row' aid, runs (FinishAttempt (TE := TE) (report p workerID job r sample cancelled)) (connect s [])
        (Ok (next_status (Result_Decision r) (d_attempt_count row) (d_max_attempts row))) c
    ∧ deliveries (durable c) !! id = Some row'
    ∧ d_status row' = next_status (Result_Decision r) (d_attempt_count row) (d_max_attempts row)
    ∧ d_locked_by row' = None ∧ d_lease_token row' = None
    ∧ delivery_attempts (st_db s) !! aid = None
    ∧ delivery_attempts (durable c) !! aid = Some (recorded job r).
Proof.
  intros Hr [Hcfg Hthr _ (Htrim & Hne & Htext)] [Hwf Hcode (Z1 & Z2 & Hbef) Hwall [He Hb]] Hs Hf Hrow Hcan
    Hst Hw Ht Eid Etok Ecnt.
  pose proof (reachable_db_ok _ Hr) as Hok.
  destruct (ok_deliveries _ _ _ Hok _ _ Hrow) as (Hidcan & (Hc & _ & H1) & _).
  apply check_delivery_counts in Hc as (Hc1 & Hc2 & _). specialize (H1 Hst).
  set (rep := report p workerID job r sample cancelled).
  assert (Hv : validateAttemptResult rep = Ok tt).
  { apply valid_validate_ok, report_valid; try done.
    - split_and!; [rewrite Eid; by eapply uuid_in_not_blank|rewrite Etok; by eapply uuid_in_not_blank|lia|lia].
    - unfold blank. rewrite Htrim. by apply bool_decide_eq_false. }
  pose proof (FinishAttempt_total (TE := TE) rep id token (st_db s) (st_next s) Hok
    (reachable_fresh _ Hr) Hv) as Hrun. rewrite Hrow in Hrun.
  assert (Hl : holds_lease (AR_WorkerID rep) token (AR_AttemptNumber rep) row = true)
    by (apply holds_lease_spec; by split_and!).
  rewrite Hl in Hrun. cbn zeta in Hrun.
  assert (Hnext : d_status (finished_row (TE := TE) rep row)
            = next_status (Result_Decision r) (d_attempt_count row) (d_max_attempts row)).
  { unfold finished_row. cbn. destruct (Result_Decision r); repeat case_bool_decide; try done; cbn;
      by destruct (_ <? _). }
  rewrite Hnext in Hrun. eexists _, (finished_row (TE := TE) rep row), (NewString (st_next s)). split; [apply Hrun|cbn [durable deliveries delivery_attempts]].
  - split; cbn; try done; [by rewrite Eid|by rewrite Etok|].
    destruct cancelled; [done|]. by destruct (Result_CircuitSignal r).
  - rewrite !lookup_insert_eq. split_and!; [done|exact Hnext|done|done|by apply (reachable_fresh _ Hr)|].
    unfold finished_attempt, recorded. cbn. by rewrite <- Eid.
Qed.
End Turn.

(** [C17] A worker's turn completes what it claims: it either finds the queue
    empty, or claims one delivery of the database, counts the attempt, sends
    the delivery, and leaves it unleased in the status that the decision and the
    budget determine, with one new attempt row, which is this delivery's, has
    its attempt number and the status code, texts, duration and times of the
    result, and no finish error observed. This is for a reachable state, a
    connection without faults, a sound configuration and worker name, a sample
    that is a number, endpoints with fewer than 2^31 - 1 consecutive failures,
    and results that are sound: well formed, a status from 100 to 599, a clock
    that did not step back, texts PostgreSQL takes. Without the last two the
    report can be refused (see [clock_step_back_refused]). *)
Theorem worker_turn_completes `{PG : Postgres} {PL : PostgresLaws} `{UU : Uuids} {UL : UuidsLaws}
    {Target : GoTarget} (p : Pool) (workerID : string) (t : turn) (s : state) :
  reachable s → sound_worker p workerID → turn_sample t ≠ NaN →
  turn_claim_faults t = [] → turn_finish_faults t = [] → (∀ q, sound_result (turn_deliver t q)) →
  (∀ ep e, endpoints (st_db s) !! ep = Some e → ep_consecutive_failures e < MaxInt32) →
  let '(s', os, _) := worker_turn (WQ := store_queue) p workerID t s in
  os = [ObserveClaim "empty"]
  ∨ ∃ job row row' aid,
      let r := turn_deliver t (request_of job) in
      os = [ObserveClaim "claimed"; AddInFlight 1; ObserveAttempt (Result_Decision r) (Result_Duration r);
            AddInFlight (-1)]
      ∧ deliveries (st_db s) !! Delivery_ID (Job_Delivery job) = Some row
      ∧ Delivery_AttemptCount (Job_Delivery job) = d_attempt_count row + 1
      ∧ deliveries (st_db s') !! Delivery_ID (Job_Delivery job) = Some row'
      ∧ d_status row' = next_status (Result_Decision r) (Delivery_AttemptCount (Job_Delivery job))
                          (Delivery_MaxAttempts (Job_Delivery job))
      ∧ d_locked_by row' = None ∧ d_lease_token row' = None
      ∧ delivery_attempts (st_db s) !! aid = None
      ∧ delivery_attempts (st_db s') !! aid
        = Some (mkAttemptRow (Delivery_ID (Job_Delivery job)) (Delivery_AttemptCount (Job_Delivery job)) (Result_StatusCode r)
                  (Result_ResponseBody r) (Result_ErrorMessage r) (durationMilliseconds (Result_Duration r))
                  (ts_of_time (Result_StartedAt r)) (ts_of_time (Result_CompletedAt r))).
Proof.
  intros Hr Hsw Hsam Hf1 Hf2 Hres Hfail. pose proof Hsw as [_ _ Hlease (Htrim & Hne & Htext)].
  set (TE := turn_claim_env t).
  destruct (ClaimDelivery_total (TE := TE) workerID (Config_LeaseDuration (Pool_config p)) (st_db s) (st_next s)
    (reachable_db_ok _ Hr) (reachable_fresh _ Hr)) as (W & n' & Hrd & _ & Hrun); try done;
    try by rewrite Htrim.
  unfold worker_turn, on_queue. rewrite Hf1. cbn [QueueClaim store_queue].
  change (ClaimDelivery workerID (Config_LeaseDuration (Pool_config p)) (connect s []))
    with (ClaimDelivery (TE := TE) workerID (Config_LeaseDuration (Pool_config p)) (mkConn PG (st_db s) (st_db s) [] (st_next s))).
  destruct (candidate W) as [[id row]|] eqn:Ec; [|rewrite Hrun; cbn; by left].
  destruct Hrun as (job & ev & ep & Hrun & _ & _ & Hj). rewrite Hrun.
  cbn [durable next_uuid]. rewrite Htrim in *.
  set (row1 := claimed_row _ _ _ _) in *. set (W1 := set_deliveries _ W) in *.
  set (s1 := mkState W1 (S n')).
  assert (Hr1 : reachable s1).
  { eapply rtc_r; [exact Hr|].
    apply (step_op TE (OpClaimDelivery workerID (Config_LeaseDuration (Pool_config p))) [] s (Ok tt)
      (mkConn _ W1 W1 [] (S n'))). unfold runs. cbn [run_op]. rewrite eval_bind.
    change (connect s []) with (mkConn PG (st_db s) (st_db s) [] (st_next s)). by rewrite Hrun. }
  injection Hj as Hj.
  destruct (finish_report (turn_finish_env t) p workerID job (turn_deliver t (request_of job)) (turn_sample t)
    (turn_cancelled t) s1 id row1 (NewString n') Hr1 Hsw (Hres _) Hsam) as (c & row' & aid & Hfin & Erow & Hst & Hu1 & Hu2 & Hfresh & Ha); try done.
  { intros ep' e He. apply (Hfail ep' e). pose proof (proj1 (rd_same _ _ Hrd)) as E. rewrite <- E. exact He. }
  { subst s1 W1. cbn. by rewrite lookup_insert_eq. }
  { apply NewString_canonical. }
  { by rewrite <- Hj. }
  { by rewrite <- Hj. }
  { by rewrite <- Hj. }
  unfold process, on_queue. rewrite Hf2. cbn [QueueFinish store_queue].
  fold s1. unfold runs in Hfin. rewrite Hfin.
  assert (Hrow0 : ∃ row0, deliveries (st_db s) !! id = Some row0 ∧ d_attempt_count row = d_attempt_count row0).
  { apply candidate_spec in Ec as (Er & _). rewrite (rd_deliveries _ _ Hrd) in Er.
    case_bool_decide; [|by exists row]. destruct (deliveries (st_db s) !! id) as [row0|]; [|done].
    exists row0. split; [done|]. by injection Er as <-. }
  destruct Hrow0 as (row0 & Hrow0 & Ecount).
  right. exists job, row0, row', aid. cbn [st_db app].
  assert (Eid : Delivery_ID (Job_Delivery job) = id) by (by rewrite <- Hj).
  assert (Ecnt : Delivery_AttemptCount (Job_Delivery job) = d_attempt_count row1) by (by rewrite <- Hj).
  assert (Emax : Delivery_MaxAttempts (Job_Delivery job) = d_max_attempts row1) by (by rewrite <- Hj).
  unfold recorded in Ha. rewrite Emax. rewrite Eid, Ecnt in *. split_and!; try done.
  - subst row1. cbn. lia.
  - eapply lookup_weaken_None; [exact Hfresh|]. apply (rd_grows _ _ Hrd).
Qed.

Definition demo_turn : turn :=
  mkTurn (at_second 10) [] false (λ _, demo_outcome 503) f_zero false (at_second 12) [] true.

Lemma demo_outcome_sound c : 100 <= c <= 599 → sound_result (demo_outcome c).
Proof.
  intros Hc. split; [|by intros c' [= <-]|by vm_compute|by vm_compute|by vm_compute].
  split; [done| |reflexivity]. by intros c' [= <-].
Qed.

Lemma demo_worker_sound : sound_worker demo_pool "pool/1".
Proof. split; [apply demo_config_sound|by vm_compute|by vm_compute|by split_and!]. Qed.

Lemma demo_failures_below :
  bool_decide (map_Forall (λ _ e, ep_consecutive_failures e < MaxInt32) (endpoints (st_db (demo demo_enqueued)))) = true.
Proof. vm_compute. reflexivity. Qed.

Lemma worker_turn_completes_witness :
  let '(s', os, _) := worker_turn (WQ := store_queue) demo_pool "pool/1" demo_turn (demo demo_enqueued) in
  os = [ObserveClaim "empty"]
  ∨ ∃ job row row' aid,
      let r := turn_deliver demo_turn (request_of job) in
      os = [ObserveClaim "claimed"; AddInFlight 1; ObserveAttempt (Result_Decision r) (Result_Duration r);
            AddInFlight (-1)]
      ∧ deliveries (st_db (demo demo_enqueued)) !! Delivery_ID (Job_Delivery job) = Some row
      ∧ Delivery_AttemptCount (Job_Delivery job) = d_attempt_count row + 1
      ∧ deliveries (st_db s') !! Delivery_ID (Job_Delivery job) = Some row'
      ∧ d_status row' = next_status (Result_Decision r) (Delivery_AttemptCount (Job_Delivery job))
                          (Delivery_MaxAttempts (Job_Delivery job))
      ∧ d_locked_by row' = None ∧ d_lease_token row' = None
      ∧ delivery_attempts (st_db (demo demo_enqueued)) !! aid = None
      ∧ delivery_attempts (st_db s') !! aid
        = Some (mkAttemptRow (Delivery_ID (Job_Delivery job)) (Delivery_AttemptCount (Job_Delivery job)) (Result_StatusCode r)
                  (Result_ResponseBody r) (Result_ErrorMessage r) (durationMilliseconds (Result_Duration r))
                  (ts_of_time (Result_StartedAt r)) (ts_of_time (Result_CompletedAt r))).
Proof.
  apply (worker_turn_completes demo_pool "pool/1" demo_turn (demo demo_enqueued));
    [apply demo_reachable|apply demo_worker_sound|done|done|done|intros q; apply demo_outcome_sound; lia|].
  intros ep e He. pose proof demo_failures_below as H. apply bool_decide_eq_true_1 in H. exact (H ep e He).
Defined.

(** On the demo the turn is not idle. *)
Example demo_turn_observed :
  (worker_turn (WQ := store_queue) demo_pool "pool/1" demo_turn (demo demo_enqueued)).1.2
  = [ObserveClaim "claimed"; AddInFlight 1; ObserveAttempt DecisionRetry Second; AddInFlight (-1)].
Proof. vm_compute. reflexivity. Qed.
