(* ===== verification/StoreTheorems.v ===== *)
(** * Theorems on enqueueing, replaying, reading and disabling

    [EnqueueEvent] on every branch and its idempotency across whole
    executions, [ReplayDelivery], [GetDelivery], disabled endpoints and the
    operational statistics. *)

From S2P Require Import Prelude GoErrors GoTime GoText Delivery Schema Tx Invariant TxLogic Queue.
From S2P Require Import QueueSafety QueueSpec QueueRuns Eventing StoreEvents StoreDeliveries StoreEndpoints.
From S2P Require Import Minting StoreSafety Frame System Demo.

#[local] Existing Instances sim_postgres sim_uuids sim_postgres_laws sim_uuids_laws.

Section Enqueue.
Context `{PG : Postgres} {PL : PostgresLaws} `{UU : Uuids} `{TE : TxEnv}.

(** The parameters as the database reads them. *)
Record decoded (p : EnqueueParams) (eid did ep ty key : string) (pl : jsonb) : Prop := {
  dc_event : sql_uuid (EP_EventID p) = Ok eid;
  dc_delivery : sql_uuid (EP_DeliveryID p) = Ok did;
  dc_endpoint : sql_uuid (EP_EndpointID p) = Ok ep;
  dc_type : sql_text (EP_Type p) = Ok ty;
  dc_payload : sql_jsonb (EP_Payload p) = Ok pl;
  dc_key : sql_text (EP_IdempotencyKey p) = Ok key;
}.

Lemma event_with_key_unique (d : db) miss orph ep key id e :
  db_ok_mod miss orph d → events d !! id = Some e → ev_endpoint_id e = ep → ev_idempotency_key e = key →
  event_with_key ep key d = Some (id, e).
Proof.
  intros Hok He <- <-. unfold event_with_key. apply map_find_unique; [|done|by rewrite !bool_decide_eq_true_2].
  intros k y Hk Hp. zbool. symmetry. by apply (ok_event_key _ _ _ Hok id k e y).
Qed.

Lemma delivery_of_event_unique (d : db) miss orph ev id r :
  db_ok_mod miss orph d → deliveries d !! id = Some r → d_event_id r = ev →
  delivery_of_event ev d = Some (id, r).
Proof.
  intros Hok He <-. unfold delivery_of_event. apply map_find_unique; [|done|by rewrite bool_decide_eq_true_2].
  intros k y Hk Hp. zbool. symmetry. by apply (ok_delivery_event _ _ _ Hok id k r y).
Qed.

Definition payload_matches (ty : string) (pl : jsonb) (e : EventRow) : bool :=
  bool_decide (ev_event_type e = ty) && bool_decide (ev_payload e = pl).

(** The outcome of [EnqueueEvent] on a healthy connection, branch by branch:
    what it returns and the database it leaves. *)
Inductive enqueue_outcome (p : EnqueueParams) (eid did ep ty key : string) (pl : jsonb) (d : db)
    : res Enqueued → db → Prop :=
  | enqueue_unknown :
      endpoints d !! ep = None → enqueue_outcome p eid did ep ty key pl d (Err endpoint_ErrNotFound) d
  | enqueue_disabled e t :
      endpoints d !! ep = Some e → ep_disabled_at e = Some t →
      enqueue_outcome p eid did ep ty key pl d (Err eventing_ErrEndpointDisabled) d
  | enqueue_conflict e id ev :
      endpoints d !! ep = Some e → ep_disabled_at e = None →
      events d !! id = Some ev → ev_endpoint_id ev = ep → ev_idempotency_key ev = key →
      payload_matches ty pl ev = false →
      enqueue_outcome p eid did ep ty key pl d (Err ErrIdempotencyConflict) d
  | enqueue_known e id ev did' row :
      endpoints d !! ep = Some e → ep_disabled_at e = None →
      events d !! id = Some ev → ev_endpoint_id ev = ep → ev_idempotency_key ev = key →
      payload_matches ty pl ev = true →
      deliveries d !! did' = Some row → d_event_id row = id →
      enqueue_outcome p eid did ep ty key pl d
        (Ok (mkEnqueued (event_of_row id ev) (delivery_of_row did' row)
               (negb (bool_decide (id = EP_EventID p))))) d
  | enqueue_new e :
      endpoints d !! ep = Some e → ep_disabled_at e = None →
      (∀ id ev, events d !! id = Some ev → ev_endpoint_id ev = ep → ev_idempotency_key ev ≠ key) →
      let ev := mkEventRow _ ep ty pl key now in
      ∀ row, row_enqueued eid ep (ep_max_attempts e) row →
      enqueue_outcome p eid did ep ty key pl d
        (Ok (mkEnqueued (event_of_row eid ev) (delivery_of_row did row)
               (negb (bool_decide (eid = EP_EventID p)))))
        (set_deliveries (<[did := row]> (deliveries d)) (set_events (<[eid := ev]> (events d)) d)).

Lemma upsertEventQuery_known p eid did ep ty key pl (D : db) id ev :
  decoded p eid did ep ty key pl → event_with_key ep key D = Some (id, ev) →
  upsertEventQuery p D = Ok (D, [(id, ev, payload_matches ty pl ev)]).
Proof.
  intros [E1 _ E3 E4 E5 E6] Hk. unfold upsertEventQuery. rewrite E1, E3, E4, E5, E6. cbn. rewrite Hk.
  apply event_with_key_spec in Hk as (He & _ & Hkey). by rewrite (rekeyed_id _ _ Hkey), (set_events_id _ _ _ He).
Qed.

Lemma upsertEventQuery_new p eid did ep ty key pl (D : db) :
  decoded p eid did ep ty key pl → event_with_key ep key D = None → events D !! eid = None →
  is_Some (endpoints D !! ep) →
  let ev := mkEventRow _ ep ty pl key now in
  upsertEventQuery p D = Ok (set_events (<[eid := ev]> (events D)) D, [(eid, ev, true)]).
Proof.
  intros [E1 _ E3 E4 E5 E6] Hk Hf [e He] ev. unfold upsertEventQuery. rewrite E1, E3, E4, E5, E6. cbn. rewrite Hk.
  unfold insert_event. cbn. rewrite Hf, He. cbn. by rewrite !bool_decide_eq_true_2.
Qed.

Lemma upsertDeliveryQuery_known did' id ep' m (D : db) d e c r :
  sql_uuid did' = Ok d → canonical id → sql_uuid ep' = Ok e → int4 m = true →
  delivery_of_event id D = Some (c, r) →
  upsertDeliveryQuery did' id ep' m D = Ok (D, [(c, r)]).
Proof.
  intros E1 Hc E2 Hm Hd. unfold upsertDeliveryQuery. rewrite E1, (canonical_sql_uuid _ Hc), E2, Hm. cbn.
  rewrite Hd. apply delivery_of_event_spec in Hd as [Hr _]. by rewrite (set_deliveries_id _ _ _ Hr).
Qed.

Lemma upsertDeliveryQuery_new did' id ep' m (D : db) d e :
  sql_uuid did' = Ok d → canonical id → sql_uuid ep' = Ok e → 1 <= m <= 100 →
  delivery_of_event id D = None → deliveries D !! d = None →
  is_Some (events D !! id) → is_Some (endpoints D !! e) →
  let row := new_delivery id e m in
  upsertDeliveryQuery did' id ep' m D = Ok (set_deliveries (<[d := row]> (deliveries D)) D, [(d, row)]).
Proof.
  intros E1 Hc E2 Hm Hd Hf [ev Hev] [e0 He0] row. unfold upsertDeliveryQuery.
  rewrite E1, (canonical_sql_uuid _ Hc), E2. cbn.
  assert (int4 m = true) as -> by (unfold int4, in_range, MinInt32, MaxInt32; rewrite andb_true_iff, !Z.leb_le; lia).
  cbn. rewrite Hd. unfold insert_delivery. cbn. rewrite Hf, Hev, He0. cbn.
  assert (check_delivery (new_delivery id e m) = true) as ->; [|done].
  unfold check_delivery, int4, in_range, MinInt32, MaxInt32. cbn. rewrite !andb_true_iff, !Z.leb_le. split_and!; lia || done.
Qed.

Lemma EnqueueEvent_total p eid did ep ty key pl (D : db) n :
  db_ok D → decoded p eid did ep ty key pl → events D !! eid = None → deliveries D !! did = None →
  ∃ r W, EnqueueEvent_store p (mkConn _ D D [] n) = (r, mkConn _ W W [] n)
         ∧ enqueue_outcome p eid did ep ty key pl D r W.
Proof.
  intros Hok Hdec Hfe Hfd. pose proof Hdec as [E1 E2 E3 _ _ _].
  unfold EnqueueEvent_store. run_eval. unfold lockEndpointQuery at 1. rewrite E3. cbn [mbind res_bind].
  destruct (endpoints D !! ep) as [e|] eqn:Hep.
  2:{ run_eval. cbn. eexists _, D. split; [done|]. by apply enqueue_unknown. }
  destruct (ep_disabled_at e) as [t|] eqn:Hdis.
  { run_eval. eexists _, D. split; [done|]. by eapply enqueue_disabled. }
  destruct (ok_endpoints _ _ _ Hok _ _ Hep) as [Hm%check_endpoint_max _].
  run_eval. destruct (event_with_key ep key D) as [[id ev]|] eqn:Hk.
  - rewrite (upsertEventQuery_known _ _ _ _ _ _ _ _ _ _ Hdec Hk).
    apply event_with_key_spec in Hk as (Hev & H1 & H2).
    destruct (payload_matches ty pl ev) eqn:Hsame; run_eval; cbn [negb]; run_eval.
    2:{ eexists _, D. split; [done|]. by eapply enqueue_conflict. }
    destruct (ok_event_delivery _ _ _ Hok _ _ Hev) as (did' & row & Hrow & Hid); [apply not_elem_of_nil|].
    rewrite (upsertDeliveryQuery_known _ _ _ _ _ _ _ did' row E2 (proj1 (ok_events _ _ _ Hok _ _ Hev)) E3);
      [| |by eapply delivery_of_event_unique].
    + run_eval. eexists _, D. split; [done|]. by eapply enqueue_known.
    + unfold int4, in_range, MinInt32, MaxInt32. rewrite andb_true_iff, !Z.leb_le. lia.
  - rewrite (upsertEventQuery_new _ _ _ _ _ _ _ _ Hdec Hk Hfe) by (by rewrite Hep). run_eval. cbn [negb]. run_eval.
    rewrite (upsertDeliveryQuery_new _ _ _ _ _ _ _ E2 (sql_uuid_canonical _ _ E1) E3 Hm); try done.
    + run_eval. eexists _, _. split; [done|]. apply (enqueue_new p eid did ep ty key pl D e); [done..| |done].
      intros id' ev' H1 H2 H3. by eapply event_with_key_None.
    + cbn. destruct (delivery_of_event eid _) as [[c r]|] eqn:Hd; [|done]. exfalso.
      apply delivery_of_event_spec in Hd as [Hr Hid]. cbn in Hr.
      destruct (ok_deliveries _ _ _ Hok _ _ Hr) as (_ & _ & ev' & Hev' & _). congruence.
    + cbn. by rewrite lookup_insert_eq.
Qed.

(** What a successful enqueue leaves, whatever the connection went through. *)
Definition enqueued_from (d0 : db) (p : EnqueueParams) (out : Enqueued) (D : db) : Prop :=
  ∃ eid did ep ty key pl id ev did' row,
    decoded p eid did ep ty key pl
    ∧ events D !! id = Some ev ∧ ev_endpoint_id ev = ep ∧ ev_idempotency_key ev = key
    ∧ payload_matches ty pl ev = true
    ∧ deliveries D !! did' = Some row ∧ d_event_id row = id
    ∧ out = mkEnqueued (event_of_row id ev) (delivery_of_row did' row) (negb (bool_decide (id = EP_EventID p)))
    ∧ (∀ x, event_with_key ep key d0 = Some x → D = d0 ∧ id = x.1).

(** The event and the delivery of the event in an open transaction. *)
Definition upserted (d0 : db) (p : EnqueueParams) (x : string * EventRow * bool) (W : db) : Prop :=
  ∃ eid ep ty key pl,
    sql_uuid (EP_EventID p) = Ok eid ∧ sql_uuid (EP_EndpointID p) = Ok ep ∧ sql_text (EP_Type p) = Ok ty
    ∧ sql_jsonb (EP_Payload p) = Ok pl ∧ sql_text (EP_IdempotencyKey p) = Ok key
    ∧ events W !! x.1.1 = Some x.1.2 ∧ ev_endpoint_id x.1.2 = ep ∧ ev_idempotency_key x.1.2 = key
    ∧ payload_matches ty pl x.1.2 = x.2 ∧ canonical x.1.1
    ∧ (event_with_key ep key d0 = Some x.1 ∧ W = d0 ∨ event_with_key ep key d0 = None).

Lemma upsertEventQuery_runs d0 p W id ev same l :
  db_ok d0 → upsertEventQuery p d0 = Ok (W, (id, ev, same) :: l) → upserted d0 p (id, ev, same) W.
Proof.
  unfold upsertEventQuery. intros Hok Hq. inv_stmt Hq.
  destruct (event_with_key x0 x3 d0) as [[old e0]|] eqn:Ekey.
  - pose proof Ekey as Ek2. apply event_with_key_spec in Ekey as (He & Hep & Hk).
    rewrite (rekeyed_id _ _ Hk), (set_events_id _ _ _ He) in Hq. injection Hq as <- <- <- <- _.
    exists x, x0, x1, x3, x2. split_and!; try done; [by apply (ok_events _ _ _ Hok _ _ He)|by left].
  - apply res_bind_Ok in Hq as (d1 & Hi & Hq). injection Hq as <- <- <- <- _.
    unfold insert_event in Hi. inv_stmt Hi. injection Hi as <-.
    exists x, x0, x1, x3, x2. split_and!; try done;
      [|by eapply sql_uuid_canonical|by right]. cbn. by rewrite lookup_insert_eq.
Qed.

Lemma upsertDeliveryQuery_runs deliveryID id endpointID m (W W' : db) did' row l :
  canonical id → upsertDeliveryQuery deliveryID id endpointID m W = Ok (W', (did', row) :: l) →
  (∃ did, sql_uuid deliveryID = Ok did)
  ∧ events W' = events W ∧ deliveries W' !! did' = Some row ∧ d_event_id row = id
  ∧ (∀ x, delivery_of_event id W = Some x → W' = W).
Proof.
  unfold upsertDeliveryQuery. intros Hcan Hq. inv_stmt Hq. rewrite (canonical_sql_uuid _ Hcan) in E0.
  injection E0 as <-. split; [eauto|]. destruct (delivery_of_event id W) as [[old r]|] eqn:Ed.
  - apply delivery_of_event_spec in Ed as [Hr Hev]. rewrite (set_deliveries_id _ _ _ Hr) in Hq.
    by injection Hq as <- <- <- _.
  - apply res_bind_Ok in Hq as (d1 & Hi & Hq). injection Hq as <- <- <- _.
    unfold insert_delivery in Hi. inv_stmt Hi. injection Hi as <-.
    cbn. by rewrite lookup_insert_eq.
Qed.

Lemma EnqueueEvent_triple p (d0 : db) : db_ok d0 →
  triple (λ D _, D = d0) (EnqueueEvent_store p) (λ out D _, enqueued_from d0 p out D) (λ _ _, True).
Proof.
  intros Hd0. unfold EnqueueEvent_store.
  apply (triple_bind _ _ _ (λ _ D W, W = d0)).
  { apply triple_wrapping, triple_BeginTx; [by intros D W|done]. }
  intros []. apply (triple_bind _ _ _ (λ locked D W, match locked with Ok _ => W = d0 | Err _ => True end)).
  { eapply triple_consequence;
      [apply (triple_try _ (λ _ W, W = d0) (λ (x : Z * option Z) _ W, W = d0) (λ _ _, True) (λ _ _, True))
      |done|by intros [x|e]].
    apply triple_QueryRow; [|done|done]. intros D W W' [m o] l -> Hq. by apply lock_endpoint_spec in Hq as [-> _]. }
  intros [[m [t|]]|err]; [by apply triple_throw| |by destruct (errors_is _ _); apply triple_throw].
  apply (triple_bind _ _ _ (λ x _ W, upserted d0 p x W)).
  { apply triple_wrapping, triple_QueryRow; [|done|done].
    intros D W W' [[id ev] same] l -> Hq. by eapply upsertEventQuery_runs. }
  intros [[id ev] same]. destruct same; cbn [negb]; [|by apply triple_throw].
  apply (triple_known (canonical id)).
  { by intros D W (eid & ep & ty & key & pl & _ & _ & _ & _ & _ & _ & _ & _ & _ & Hcan & _). }
  intros Hcan. apply (triple_bind _ _ _ (λ x _ W, enqueued_from d0 p
    (mkEnqueued (event_of_row id ev) (delivery_of_row x.1 x.2) (negb (bool_decide (id = EP_EventID p)))) W)).
  { apply triple_wrapping, triple_QueryRow; [|done|done]. intros D W W' [did' row] l Hu Hq.
    destruct Hu as (eid & ep & ty & key & pl & E1 & E2 & E3 & E4 & E5 & He & Hep & Hkey & Hsame & _ & Hk).
    cbn in He, Hep, Hkey, Hsame, Hk.
    apply upsertDeliveryQuery_runs in Hq as ((did & E6) & Hevs & Hrow & Hid & Hkn); [|done].
    exists eid, did, ep, ty, key, pl, id, ev, did', row. split_and!; try done; [by rewrite Hevs|].
    intros x Hx. destruct Hk as [[Hk ->]|Hk]; [|congruence]. rewrite Hk in Hx. injection Hx as <-.
    destruct (ok_event_delivery _ _ _ Hd0 _ _ He) as (d1 & r1 & Hr1 & Hi1); [apply not_elem_of_nil|].
    by rewrite (Hkn (d1, r1)) by (by eapply delivery_of_event_unique). }
  intros [did' row]. apply (triple_bind _ _ _ (λ _ D _, enqueued_from d0 p
    (mkEnqueued (event_of_row id ev) (delivery_of_row did' row) (negb (bool_decide (id = EP_EventID p)))) D)).
  - by apply triple_wrapping, triple_Commit.
  - intros []. by apply triple_ret.
Qed.

Lemma EnqueueEvent_runs p (s s' : conn) out :
  db_ok (durable s) → runs (EnqueueEvent_store p) s (Ok out) s' → enqueued_from (durable s) p out (durable s').
Proof. intros Hok Hr. exact (EnqueueEvent_triple p _ Hok s _ s' eq_refl Hr). Qed.
End Enqueue.

(** [C8] Enqueueing on a healthy connection, with parameters the database can
    read and identifiers it does not know, takes exactly the branch the
    endpoint and the idempotency key determine: an unknown or disabled endpoint
    and a key already used for another event are refused with their own error
    and change nothing; the same event again returns what is stored and
    changes nothing; a new key stores the event and one delivery of it to the
    endpoint, pending and due now, never attempted, under no lease and with the
    endpoint's budget, and returns both. *)
Theorem EnqueueEvent_spec `{PG : Postgres} {PL : PostgresLaws} `{UU : Uuids} `{TE : TxEnv}
    (p : EnqueueParams) (s : state) eid did ep ty key pl :
  reachable s → decoded p eid did ep ty key pl →
  events (st_db s) !! eid = None → deliveries (st_db s) !! did = None →
  ∃ r c, runs (EnqueueEvent_store p) (connect s []) r c
         ∧ enqueue_outcome p eid did ep ty key pl (st_db s) r (durable c).
Proof.
  intros Hr Hdec He Hd.
  destruct (EnqueueEvent_total p eid did ep ty key pl (st_db s) (st_next s) (reachable_db_ok _ Hr) Hdec He Hd)
    as (r & W & Hrun & Ho). by eexists r, _.
Qed.

Lemma demo_decoded id did key :
  sim_uuid_in id = Some id → sim_uuid_in did = Some did → sim_text_in key = true →
  decoded (demo_event id did key) id did "ep" "invoice.paid" key [x7b; x7d].
Proof.
  intros H1 H2 H3. split; unfold sql_uuid, sql_text; cbn; [by rewrite H1|by rewrite H2|done|done|done|by rewrite H3].
Qed.

Lemma EnqueueEvent_spec_witness :
  ∃ r c, runs (EnqueueEvent_store (TE := at_second 30) (demo_event "ev2" "dl2" "key2"))
           (connect (demo demo_claimed) []) r c
         ∧ enqueue_outcome (TE := at_second 30) (demo_event "ev2" "dl2" "key2") "ev2" "dl2" "ep" "invoice.paid"
             "key2" [x7b; x7d] (st_db (demo demo_claimed)) r (durable c).
Proof.
  apply (EnqueueEvent_spec (PL := sim_postgres_laws)); [apply demo_reachable|by apply demo_decoded| |].
  - apply is_null_None. vm_compute. reflexivity.
  - apply is_null_None. vm_compute. reflexivity.
Defined.

(** [C9] Enqueueing is idempotent across whole executions: once an event was
    accepted, any later accepted event with the same endpoint and key, after
    any operations and whatever faults either call met, is the same event with
    the same type and payload and the same delivery, changes nothing, and is
    flagged as a duplicate. *)
Theorem enqueue_idempotent `{PG : Postgres} {PL : PostgresLaws} `{UU : Uuids} (TE TE' : TxEnv)
    (p p' : EnqueueParams) (s s2 : state) fs fs' out out' c c' :
  reachable s → runs (EnqueueEvent_store (TE := TE) p) (connect s fs) (Ok out) c →
  rtc step (mkState (durable c) (next_uuid c)) s2 →
  runs (EnqueueEvent_store (TE := TE') p') (connect s2 fs') (Ok out') c' →
  EP_EndpointID p' = EP_EndpointID p → EP_IdempotencyKey p' = EP_IdempotencyKey p →
  Enqueued_Event out' = Enqueued_Event out
  ∧ Delivery_ID (Enqueued_Delivery out') = Delivery_ID (Enqueued_Delivery out)
  ∧ sql_text (EP_Type p') = sql_text (EP_Type p) ∧ sql_jsonb (EP_Payload p') = sql_jsonb (EP_Payload p)
  ∧ durable c' = st_db s2
  ∧ (EP_EventID p' ≠ Event_ID (Enqueued_Event out) → Enqueued_Duplicate out' = true).
Proof.
  intros Hr H1 Hsteps H2 Eep Ekey. pose proof (reachable_db_ok _ Hr) as Hok.
  assert (Hok1 : db_ok (durable c)).
  { eapply (step_safe s (mkState (durable c) (next_uuid c))); [|done].
    apply (step_op TE (OpEnqueueEvent p) fs s (Ok tt) c). unfold runs. cbn [run_op]. rewrite eval_bind.
    unfold runs in H1. by rewrite H1. }
  destruct (steps_safe _ _ Hsteps Hok1) as [Hok2 Hev]. cbn in Hev.
  apply (EnqueueEvent_runs (TE := TE)) in H1; [|exact Hok].
  apply (EnqueueEvent_runs (TE := TE')) in H2; [|exact Hok2].
  destruct H1 as (eid & did & ep & ty & key & pl & id & ev & dl & row & D1 & He & Hep & Hk & Hs1 & Hrow & Hid & -> & _).
  destruct H2 as (eid2 & did2 & ep2 & ty2 & key2 & pl2 & id2 & ev2 & dl2 & row2 & D2 & He2 & Hep2 & Hk2 & Hs2
    & Hrow2 & Hid2 & -> & Hknown).
  destruct D1 as [_ _ C1 C2 C3 C4], D2 as [_ _ C5 C6 C7 C8]. rewrite Eep, C1 in C5. rewrite Ekey, C4 in C8.
  injection C5 as <-. injection C8 as <-.
  pose proof (lookup_weaken _ _ _ _ He (ev_events _ _ Hev)) as He'.
  destruct (Hknown (id, ev)) as [Hsame Eid]; [by eapply event_with_key_unique|].
  cbn in Eid. subst id2. cbn [connect durable] in Hsame. rewrite Hsame in He2, Hrow2.
  assert (ev2 = ev) as -> by congruence.
  destruct (ev_deliveries _ _ Hev _ _ Hrow) as (row' & Hrow' & Hre).
  destruct (re_fixed _ _ Hre) as (Hfix & _).
  assert (dl2 = dl) as -> by (apply (ok_delivery_event _ _ _ Hok2 dl2 dl row2 row'); [done|done|congruence]).
  unfold payload_matches in Hs1, Hs2. zbool. cbn. rewrite Eid.
  split_and!; [done|done|congruence|congruence|done|].
  intros Hne. by rewrite bool_decide_eq_false_2.
Qed.

(** A second event of the demo, a claim, and the same event once more. *)
Definition demo_first : res Enqueued * conn :=
  EnqueueEvent_store (TE := at_second 30) (demo_event "ev2" "dl2" "key2") (connect (demo demo_claimed) []).
Definition demo_between : state :=
  exec [(at_second 31, OpClaimDelivery "other" Minute, [])]
    (mkState (durable demo_first.2) (next_uuid demo_first.2)).
Definition demo_second : res Enqueued * conn :=
  EnqueueEvent_store (TE := at_second 40) (demo_event "ev3" "dl3" "key2") (connect demo_between []).

Lemma enqueue_idempotent_witness :
  ∃ out out', demo_first.1 = Ok out ∧ demo_second.1 = Ok out'
    ∧ Delivery_ID (Enqueued_Delivery out') = Delivery_ID (Enqueued_Delivery out)
    ∧ Enqueued_Duplicate out' = true.
Proof.
  destruct demo_first as [[out|e] c] eqn:E1;
    [|exfalso; assert (H : is_ok demo_first.1 = true) by (vm_compute; reflexivity); by rewrite E1 in H].
  destruct demo_second as [[out'|e'] c'] eqn:E2;
    [|exfalso; assert (H : is_ok demo_second.1 = true) by (vm_compute; reflexivity); by rewrite E2 in H].
  exists out, out'. split; [done|]. split; [done|].
  destruct (enqueue_idempotent (PL := sim_postgres_laws) (at_second 30) (at_second 40)
    (demo_event "ev2" "dl2" "key2") (demo_event "ev3" "dl3" "key2") (demo demo_claimed) demo_between [] []
    out out' c c') as (Hev & Hid & _ & _ & _ & Hdup); [apply demo_reachable|exact E1| |exact E2|done|done|].
  - unfold demo_between. rewrite E1. apply exec_steps.
  - split; [exact Hid|]. apply Hdup.
    assert (H : match demo_first.1 with Ok o => negb (String.eqb "ev3" (Event_ID (Enqueued_Event o))) | _ => false end
                = true) by (vm_compute; reflexivity).
    rewrite E1 in H. apply negb_true_iff, String.eqb_neq in H. exact H.
Defined.

Section Replay.
Context `{PG : Postgres} {PL : PostgresLaws} `{TE : TxEnv}.

(** The outcome of [ReplayDelivery] on a healthy connection. *)
Inductive replay_outcome (did : string) (d : db) : res Delivery → db → Prop :=
  | replay_unknown :
      deliveries d !! did = None → replay_outcome did d (Err delivery_ErrNotFound) d
  | replay_disabled row e t :
      deliveries d !! did = Some row → endpoints d !! d_endpoint_id row = Some e →
      ep_disabled_at e = Some t → replay_outcome did d (Err delivery_ErrEndpointDisabled) d
  | replay_refused row e :
      deliveries d !! did = Some row → endpoints d !! d_endpoint_id row = Some e →
      ep_disabled_at e = None →
      d_status row ≠ StatusDead ∨ MaxInt32 < d_max_attempts row + ep_max_attempts e →
      replay_outcome did d (Err ErrNotReplayable) d
  | replay_accepted row e :
      deliveries d !! did = Some row → endpoints d !! d_endpoint_id row = Some e →
      ep_disabled_at e = None → d_status row = StatusDead →
      d_max_attempts row + ep_max_attempts e <= MaxInt32 →
      ∀ row', row_replayed row row' → d_max_attempts row' = d_max_attempts row + ep_max_attempts e →
      replay_outcome did d (Ok (delivery_of_row did row')) (set_deliveries (<[did := row']> (deliveries d)) d).

Lemma replayed_row_check m (row : DeliveryRow) :
  check_delivery row = true → d_status row = StatusDead → d_max_attempts row <= m <= MaxInt32 →
  check_delivery (replayed_row m row) = true.
Proof.
  intros Hc Hs Hm. unfold check_delivery, int4, in_range, MinInt32 in *. cbn. rewrite Hs in Hc.
  rewrite !andb_true_iff, !Z.leb_le in Hc. rewrite !andb_true_iff, !Z.leb_le.
  decompose [and] Hc. split_and!; lia || done.
Qed.

Lemma ReplayDelivery_total id did (D : db) n :
  db_ok D → sql_uuid id = Ok did →
  ∃ r W, ReplayDelivery id (mkConn _ D D [] n) = (r, mkConn _ W W [] n) ∧ replay_outcome did D r W.
Proof.
  intros Hok Eid. unfold ReplayDelivery. run_eval. unfold lockReplayQuery at 1. rewrite Eid. cbn [mbind res_bind].
  destruct (deliveries D !! did) as [row|] eqn:Hr.
  2:{ run_eval. cbn. eexists _, D. split; [done|]. by apply replay_unknown. }
  destruct (ok_deliveries _ _ _ Hok _ _ Hr) as (Hcan & (Hc & _ & _) & ev & Hev & Hep).
  destruct (ok_events _ _ _ Hok _ _ Hev) as (_ & e & He). rewrite Hep in He. rewrite He.
  destruct (ok_endpoints _ _ _ Hok _ _ He) as [Hm%check_endpoint_max _].
  pose proof (check_delivery_counts _ Hc) as (Hcnt & Hmax & _).
  run_eval. destruct (ep_disabled_at e) as [t|] eqn:Hdis; cbn [is_null negb].
  { run_eval. eexists _, D. split; [done|]. by eapply replay_disabled. }
  rewrite !wrap64_id by (unfold in_int64, MinInt64, MaxInt64, MaxInt32 in *; lia).
  destruct (bool_decide_reflect (d_status row = StatusDead)) as [Hs|Hs]; cbn [negb orb].
  2:{ run_eval. eexists _, D. split; [done|]. eapply replay_refused; eauto. }
  destruct (Z.ltb_spec (MaxInt32 - ep_max_attempts e) (d_max_attempts row)).
  { run_eval. eexists _, D. split; [done|]. eapply replay_refused; eauto. right. lia. }
  run_eval. unfold replayQuery at 1. rewrite Eid.
  assert (int4 (d_max_attempts row + ep_max_attempts e) = true) as ->
    by (unfold int4, in_range, MinInt32; rewrite andb_true_iff, !Z.leb_le; lia).
  cbn [mbind res_bind sql_guard]. rewrite Hr. unfold update_delivery.
  rewrite replayed_row_check by (done || lia). cbn [mbind res_bind sql_guard].
  run_eval. eexists _, _. split; [done|]. apply (replay_accepted did D row e); try done; lia.
Qed.
End Replay.

(** [C24] Replaying on a healthy connection: an unknown delivery, a disabled
    endpoint, a delivery that is not dead, and a budget that would leave the
    32-bit range are refused with their own error and change nothing; otherwise
    the delivery becomes pending and due now, with its count and the outcome of
    its last attempt kept and its budget raised by the endpoint's, and is
    returned. *)
Theorem ReplayDelivery_spec `{PG : Postgres} {PL : PostgresLaws} `{UU : Uuids} `{TE : TxEnv}
    (id did : string) (s : state) :
  reachable s → sql_uuid id = Ok did →
  ∃ r c, runs (ReplayDelivery id) (connect s []) r c ∧ replay_outcome did (st_db s) r (durable c).
Proof.
  intros Hr Eid.
  destruct (ReplayDelivery_total id did (st_db s) (st_next s) (reachable_db_ok _ Hr) Eid) as (r & W & Hrun & Ho).
  by eexists r, _.
Qed.

Lemma ReplayDelivery_spec_witness :
  ∃ r c, runs (ReplayDelivery (TE := at_second 60) "dl") (connect (demo demo_finished) []) r c
         ∧ replay_outcome (TE := at_second 60) "dl" (st_db (demo demo_finished)) r (durable c).
Proof. by apply (ReplayDelivery_spec (PL := sim_postgres_laws)); [apply demo_reachable|]. Defined.

(** The replay of the demo is accepted: the dead delivery is pending again. *)
Example demo_replayed :
  option_map (λ r, (d_status r, d_attempt_count r, d_max_attempts r))
    (demo_row (demo_finished ++ [(at_second 60, OpReplayDelivery "dl", [])])) = Some (StatusPending, 2, 6).
Proof. vm_compute. reflexivity. Qed.

(** ** Reading a delivery *)

Lemma sorted_le_unique (l1 l2 : list Z) :
  StronglySorted Z.le l1 → StronglySorted Z.le l2 → NoDup l1 → NoDup l2 →
  (∀ z, z ∈ l1 ↔ z ∈ l2) → l1 = l2.
Proof.
  intros S1 S2 N1 N2 H. apply (StronglySorted_unique Z.le); [done..|]. by apply NoDup_Permutation.
Qed.

Lemma seqZ_sorted m n : StronglySorted Z.le (seqZ m n).
Proof.
  destruct (Z.le_gt_cases 0 n) as [Hn|Hn]; [|rewrite seqZ_nil by lia; constructor].
  revert m. pattern n. apply natlike_ind; [by constructor| |done].
  intros k Hk IH m. rewrite seqZ_cons by lia. constructor.
  - rewrite Z.pred_succ. apply IH.
  - apply Forall_forall. intros z [Hz _]%elem_of_seqZ. lia.
Qed.

Section Read.
Context `{PG : Postgres} {PL : PostgresLaws}.

Definition attempt_rows (did : string) (d : db) : list (string * AttemptRow) :=
  merge_sort by_attempt_number
    (List.filter (λ kv, bool_decide (a_delivery_id kv.2 = did)) (scan_order _ (delivery_attempts d))).

Lemma elem_of_attempt_rows did (d : db) aid a :
  (aid, a) ∈ attempt_rows did d ↔ delivery_attempts d !! aid = Some a ∧ a_delivery_id a = did.
Proof.
  unfold attempt_rows. rewrite merge_sort_Permutation, list_elem_of_In, filter_In, <- list_elem_of_In.
  rewrite (scan_order_perm _ (delivery_attempts d)), elem_of_map_to_list. cbn. by rewrite bool_decide_eq_true.
Qed.

Lemma scan_attempts_total rows (D W : db) n :
  scan_attempts rows (mkConn _ D W [] n)
  = (Ok (map (λ x, attempt_of_row x.1 x.2) rows), mkConn _ D W [] n).
Proof.
  induction rows as [|[aid a] rows IH]; cbn [scan_attempts map]; [done|].
  run_eval. rewrite IH. by run_eval.
Qed.

#[local] Instance by_attempt_number_total : Total by_attempt_number.
Proof. intros a b. unfold by_attempt_number. lia. Qed.
#[local] Instance by_attempt_number_trans : Transitive by_attempt_number.
Proof. intros a b c. unfold by_attempt_number. lia. Qed.

Lemma NoDup_attempt_rows did (d : db) : NoDup (attempt_rows did d).*1.
Proof.
  unfold attempt_rows. rewrite merge_sort_Permutation.
  assert (Hn : NoDup (scan_order _ (delivery_attempts d)).*1)
    by (rewrite (scan_order_perm _ (delivery_attempts d)); apply NoDup_fst_map_to_list).
  by apply NoDup_keys_filter.
Qed.

Lemma attempt_numbers (d : db) did row :
  db_ok d → deliveries d !! did = Some row →
  map (λ x, a_attempt_number x.2) (attempt_rows did d) = seqZ 1 (recorded row).
Proof.
  intros Hok Hrow. apply sorted_le_unique; [|apply seqZ_sorted| |apply NoDup_seqZ|].
  - unfold attempt_rows.
    pose proof (StronglySorted_merge_sort by_attempt_number
      (List.filter (λ kv, bool_decide (a_delivery_id kv.2 = did)) (scan_order _ (delivery_attempts d)))) as Hs.
    induction Hs as [|x l Hs IH Hall]; cbn; constructor; [exact IH|]. by apply Forall_map.
  - pose proof (NoDup_attempt_rows did d) as Hn.
    apply NoDup_fmap_2_strong; [|by eapply NoDup_fmap_1].
    intros [i1 a1] [i2 a2] [H1 E1]%elem_of_attempt_rows [H2 E2]%elem_of_attempt_rows En. cbn in En.
    assert (i1 = i2) as -> by (eapply (ok_attempt_key _ _ _ Hok); try done; congruence). congruence.
  - intros z. rewrite elem_of_seqZ, list_elem_of_fmap.
    pose proof (ok_history _ _ _ Hok _ _ z Hrow) as Hh. unfold has_attempt in Hh.
    pose proof (not_elem_of_nil (did, z)). split.
    + intros ([aid a] & -> & [Ha Ed]%elem_of_attempt_rows). cbn in *.
      assert (1 <= a_attempt_number a <= recorded row ∧ (did, a_attempt_number a) ∉ []) by (apply Hh; eauto). lia.
    + intros Hz. destruct (proj2 Hh) as (aid & a & Ha & Ed & En); [split; [lia|done]|].
      exists (aid, a). split; [done|]. by apply elem_of_attempt_rows.
Qed.

Lemma GetDelivery_total id did (D : db) n row ev :
  sql_uuid id = Ok did → deliveries D !! did = Some row → events D !! d_event_id row = Some ev →
  GetDelivery id (mkConn _ D D [] n)
  = (Ok (mkDetails (delivery_of_row did row) (event_of_row (d_event_id row) ev)
           (map (λ x, attempt_of_row x.1 x.2) (attempt_rows did D))), mkConn _ D D [] n).
Proof.
  intros Eid Hrow Hev. unfold GetDelivery. run_eval. unfold deliveryQuery at 1. rewrite Eid.
  cbn [mbind res_bind]. rewrite Hrow, Hev. run_eval. unfold attemptsQuery at 1. rewrite Eid. cbn [mbind res_bind].
  run_eval. rewrite scan_attempts_total. run_eval. done.
Qed.
End Read.

(** Reading a delivery on a healthy connection returns the stored row,
    its event and its attempts in order: their numbers are exactly 1, 2, ...
    up to the number of finished claims, and reading changes nothing. *)
Theorem GetDelivery_complete `{PG : Postgres} {PL : PostgresLaws} `{UU : Uuids}
    (id did : string) (s : state) (row : DeliveryRow) :
  reachable s → sql_uuid id = Ok did → deliveries (st_db s) !! did = Some row →
  ∃ ev attempts c,
    runs (GetDelivery id) (connect s [])
      (Ok (mkDetails (delivery_of_row did row) (event_of_row (d_event_id row) ev) attempts)) c
    ∧ durable c = st_db s ∧ events (st_db s) !! d_event_id row = Some ev
    ∧ map Attempt_Number attempts = seqZ 1 (recorded row)
    ∧ (∀ x, x ∈ attempts → Attempt_DeliveryID x = did
         ∧ ∃ a, delivery_attempts (st_db s) !! Attempt_ID x = Some a ∧ x = attempt_of_row (Attempt_ID x) a).
Proof.
  intros Hr Eid Hrow. pose proof (reachable_db_ok _ Hr) as Hok.
  destruct (ok_deliveries _ _ _ Hok _ _ Hrow) as (_ & _ & ev & Hev & _).
  eexists ev, _, _. split; [by apply GetDelivery_total|]. split; [done|]. split; [done|]. split.
  - rewrite map_map. cbn. by apply attempt_numbers.
  - intros x ([aid a] & -> & [Ha Ed]%elem_of_attempt_rows)%list_elem_of_fmap. cbn. eauto.
Qed.

Lemma GetDelivery_complete_witness :
  ∃ details c, runs (GetDelivery "dl") (connect (demo demo_finished) []) (Ok details) c
    ∧ map Attempt_Number (Details_Attempts details) = [1; 2].
Proof.
  destruct (demo_row demo_finished) as [row|] eqn:E; [|exfalso; revert E; vm_compute; discriminate].
  destruct (GetDelivery_complete (PL := sim_postgres_laws) "dl" "dl" (demo demo_finished) row)
    as (ev & attempts & c & Hrun & _ & _ & Hn & _); [apply demo_reachable|done|exact E|].
  eexists _, c. split; [exact Hrun|]. cbn [Details_Attempts]. rewrite Hn.
  assert (recorded row = 2) as -> by (revert E; vm_compute; by intros [= <-]). reflexivity.
Defined.

(** ** Disabled endpoints *)

Section Disabled.
Context `{PG : Postgres} {PL : PostgresLaws} `{UU : Uuids} `{TE : TxEnv}.
Variables (d0 : db) (ep : string) (e : EndpointRow) (t : Z).
Hypotheses (Hok : db_ok d0) (He : endpoints d0 !! ep = Some e) (Hdis : ep_disabled_at e = Some t).

Lemma EnqueueEvent_disabled p s out s' :
  durable s = d0 → sql_uuid (EP_EndpointID p) = Ok ep → ¬ runs (EnqueueEvent_store p) s (Ok out) s'.
Proof.
  intros Hs Hp Hr.
  assert (Htr : triple (λ D _, D = d0) (EnqueueEvent_store p) (λ _ _ _, False) (λ _ _, True));
    [|exact (Htr s _ s' Hs Hr)].
  unfold EnqueueEvent_store. apply (triple_bind _ _ _ (λ _ _ W, W = d0)).
  { apply triple_wrapping, triple_BeginTx; [by intros D W|done]. }
  intros []. apply (triple_bind _ _ _ (λ locked _ _, match locked with Ok (_, dis) => dis = Some t | Err _ => True end)).
  { eapply triple_consequence;
      [apply (triple_try _ (λ _ W, W = d0) (λ (x : Z * option Z) _ _, x.2 = Some t) (λ _ _, True) (λ _ _, True))
      |done|by intros [[m o]|err]].
    apply triple_QueryRow; [|done|done].
    intros D W W' [m o] l -> (_ & id & e' & Ei & He' & _ & ->)%lock_endpoint_spec. cbn. congruence. }
  intros [[m [t'|]]|err]; [by apply triple_throw|apply (triple_known False); [by intros D W [=]|done]|].
  by destruct (errors_is _ _); apply triple_throw.
Qed.

Lemma ReplayDelivery_disabled id did row s out s' :
  durable s = d0 → sql_uuid id = Ok did → deliveries d0 !! did = Some row → d_endpoint_id row = ep →
  ¬ runs (ReplayDelivery id) s (Ok out) s'.
Proof.
  intros Hs Hp Hrow Hep Hr.
  assert (Htr : triple (λ D _, D = d0) (ReplayDelivery id) (λ _ _ _, False) (λ _ _, True));
    [|exact (Htr s _ s' Hs Hr)].
  unfold ReplayDelivery. apply (triple_bind _ _ _ (λ _ _ W, W = d0)).
  { apply triple_wrapping, triple_BeginTx; [by intros D W|done]. }
  intros []. apply (triple_bind _ _ _ (λ locked _ _, match locked with Ok (_, dis) => dis = Some t | Err _ => True end)).
  { eapply triple_consequence;
      [apply (triple_try _ (λ _ W, W = d0) (λ (x : Status * Z * Z * option Z) _ _, x.2 = Some t)
                (λ _ _, True) (λ _ _, True))|done|by intros [[[[st l] b] o]|err]].
    apply triple_QueryRow; [|done|done].
    intros D W W' [[[st lim] b] o] l -> (_ & did' & r & e' & Ei & Hr' & He' & _ & _ & _ & ->)%lock_replay_spec.
    cbn. congruence. }
  intros [[[[st l] b] [t'|]]|err]; [cbn; by apply triple_throw|apply (triple_known False); [by intros D W [=]|done]|].
  by destruct (errors_is _ _); apply triple_throw.
Qed.

Lemma ClaimDelivery_disabled worker lease job s s' :
  durable s = d0 → runs (ClaimDelivery worker lease) s (Ok (Some job)) s' → Endpoint_ID (Job_Endpoint job) ≠ ep.
Proof.
  intros Hs Hr Eid. apply ClaimDelivery_runs in Hr as [(W & id & row & tok & ev & e' & _ & Hev & Hc & _ & _ & Hj & _ & He') _ _];
    [|by rewrite Hs].
  rewrite Hs in Hev. apply candidate_spec in Hc as (_ & Hcl & _).
  apply claimable_spec in Hcl as (_ & _ & _ & e2 & He2 & Hopen).
  injection Hj as <-. cbn in Eid. rewrite He' in He2. injection He2 as <-. rewrite Eid in He'.
  destruct (ev_endpoints _ _ Hev _ _ He) as (e3 & He3 & Hee). apply ee_disabled with (t := t) in Hee; [|done].
  assert (e3 = e') as -> by congruence. unfold endpoint_open in Hopen. by rewrite Hee in Hopen.
Qed.
End Disabled.

(** [C23] Disabling is final and effective: in every state after an endpoint
    was disabled its record still says so, no worker is handed a delivery for
    it, no event is accepted for it and none of its deliveries is replayed,
    whatever the environments and the faults. *)
Theorem disabled_endpoint_inert `{PG : Postgres} {PL : PostgresLaws} `{UU : Uuids}
    (s s2 : state) (ep : string) (e : EndpointRow) (t : Z) :
  reachable s → endpoints (st_db s) !! ep = Some e → ep_disabled_at e = Some t → rtc step s s2 →
  (∃ e', endpoints (st_db s2) !! ep = Some e' ∧ ep_disabled_at e' = Some t)
  ∧ (∀ TE worker lease fs job c,
       runs (ClaimDelivery (TE := TE) worker lease) (connect s2 fs) (Ok (Some job)) c →
       Endpoint_ID (Job_Endpoint job) ≠ ep)
  ∧ (∀ TE p fs out c, sql_uuid (EP_EndpointID p) = Ok ep →
       ¬ runs (EnqueueEvent_store (TE := TE) p) (connect s2 fs) (Ok out) c)
  ∧ (∀ TE id did row fs out c, sql_uuid id = Ok did → deliveries (st_db s2) !! did = Some row →
       d_endpoint_id row = ep → ¬ runs (ReplayDelivery (TE := TE) id) (connect s2 fs) (Ok out) c).
Proof.
  intros Hr He Ht Hs. destruct (steps_safe _ _ Hs (reachable_db_ok _ Hr)) as [Hok2 Hev].
  destruct (ev_endpoints _ _ Hev _ _ He) as (e' & He' & Hee). apply ee_disabled with (t := t) in Hee; [|done].
  split; [eauto|]. split_and!.
  - intros TE worker lease fs job c Hrun. eapply (ClaimDelivery_disabled (TE := TE) (st_db s2) ep e' t); try eassumption; reflexivity.
  - intros TE p fs out c Hp. eapply (EnqueueEvent_disabled (TE := TE) (st_db s2) ep e' t); try eassumption; reflexivity.
  - intros TE id did row fs out c Hid Hrow Hep. eapply (ReplayDelivery_disabled (TE := TE) (st_db s2) ep e' t); try eassumption; reflexivity.
Qed.

Definition demo_disabled : state :=
  exec [(at_second 3, OpDisableEndpoint "ep", [])] (demo demo_enqueued).

Lemma demo_disabled_row : ∃ e t, endpoints (st_db demo_disabled) !! "ep" = Some e ∧ ep_disabled_at e = Some t.
Proof.
  destruct (endpoints (st_db demo_disabled) !! "ep") as [e|] eqn:E.
  - destruct (ep_disabled_at e) as [t|] eqn:Et; [eauto|]. exfalso. revert Et.
    assert (H : match endpoints (st_db demo_disabled) !! "ep" with
                | Some e => negb (is_null (ep_disabled_at e)) | None => false end = true) by (vm_compute; reflexivity).
    rewrite E in H. by destruct (ep_disabled_at e).
  - assert (H : is_null (endpoints (st_db demo_disabled) !! "ep") = false) by (vm_compute; reflexivity).
    by rewrite E in H.
Qed.

(** Claims, new events and replays after the endpoint was disabled. *)
Definition demo_after_disabling : state :=
  exec [(at_second 4, OpClaimDelivery "worker" Minute, []);
        (at_second 5, OpEnqueueEvent (demo_event "ev2" "dl2" "key2"), []);
        (at_second 6, OpDisableEndpoint "ep", [])] demo_disabled.

Lemma disabled_endpoint_inert_witness :
  ∃ t e', endpoints (st_db demo_after_disabling) !! "ep" = Some e' ∧ ep_disabled_at e' = Some t.
Proof.
  destruct demo_disabled_row as (e & t & He & Ht). exists t.
  apply (disabled_endpoint_inert (PL := sim_postgres_laws) demo_disabled demo_after_disabling "ep" e t);
    [|exact He|exact Ht|apply exec_steps].
  unfold reachable. etrans; [apply demo_reachable|apply exec_steps].
Defined.

(** ** Statistics *)

Lemma statuses_partition (l : list (string * DeliveryRow)) :
  let count s := Z.of_nat (length (List.filter (λ kv, bool_decide (d_status kv.2 = s)) l)) in
  count StatusPending + count StatusProcessing + count StatusRetrying + count StatusSucceeded + count StatusDead
  = Z.of_nat (length l).
Proof.
  cbn zeta. induction l as [|[id r] l IH]; [done|]. cbn [List.filter length].
  cbn [snd]. destruct (d_status r); repeat case_bool_decide; try done; cbn [length]; lia.
Qed.

Lemma scan_order_length `{PG : Postgres} {PL : PostgresLaws} {A} (m : gmap string A) :
  length (scan_order A m) = size m.
Proof. rewrite <- length_map_to_list. apply Permutation_length, scan_order_perm. Qed.

(** How many deliveries have the status, and how many endpoints a circuit that
    is open now. *)
Definition counted `{PG : Postgres} (d : db) (s : Status) : Z :=
  Z.of_nat (size (filter (λ kv, d_status kv.2 = s) (deliveries d))).
Definition circuits_open `{PG : Postgres} `{TE : TxEnv} (d : db) : Z :=
  Z.of_nat (size (filter (λ kv, now < default now (ep_circuit_open_until kv.2)) (endpoints d))).

Lemma filter_map_size {A} (P : string * A → Prop) `{∀ x, base.Decision (P x)} (p : string * A → bool) (m : gmap string A) l :
  l ≡ₚ map_to_list m → (∀ kv, p kv = true ↔ P kv) → length (List.filter p l) = size (filter P m).
Proof.
  intros Hl Hp. rewrite <- length_map_to_list. apply Permutation_length, NoDup_Permutation.
  - apply NoDup_ListNoDup, List.NoDup_filter, NoDup_ListNoDup. rewrite Hl. apply NoDup_map_to_list.
  - apply NoDup_map_to_list.
  - intros [k x]. rewrite list_elem_of_In, filter_In, <- list_elem_of_In, Hl, Hp, !elem_of_map_to_list, map_lookup_filter_Some. tauto.
Qed.

Lemma scan_order_count `{PG : Postgres} {PL : PostgresLaws} {A} (P : string * A → Prop) `{∀ x, base.Decision (P x)}
    (p : string * A → bool) (m : gmap string A) :
  (∀ kv, p kv = true ↔ P kv) → length (List.filter p (scan_order A m)) = size (filter P m).
Proof. apply filter_map_size, scan_order_perm. Qed.

(** What the statistics are, on any run that returns them. *)
Lemma GetOperationalStats_runs `{PG : Postgres} {PL : PostgresLaws} `{TE : TxEnv} (s s' : conn) st :
  runs GetOperationalStats s (Ok st) s' →
  durable s' = durable s
  ∧ st = mkOperationalStats (counted (durable s) StatusPending) (counted (durable s) StatusProcessing)
      (counted (durable s) StatusRetrying) (counted (durable s) StatusSucceeded) (counted (durable s) StatusDead)
      (circuits_open (durable s)).
Proof.
  intros Hr.
  assert (Htr : triple (λ D _, D = durable s) GetOperationalStats
    (λ st D _, D = durable s ∧ statsQuery (durable s) = Ok (durable s, [st])) (λ _ _, True)).
  { apply triple_wrapping. apply (triple_bind _ _ _ (λ _ D W, D = durable s ∧ W = durable s)).
    - by apply triple_BeginTx; intros D W.
    - intros []. apply triple_QueryRow; [|done|done].
      intros D W W' a l [-> ->] Hq. injection Hq as <- <- <-. by split. }
  destruct (Htr s _ _ eq_refl Hr) as [Hd Hq]. split; [exact Hd|]. injection Hq as <-.
  unfold counted, circuits_open.
  rewrite <- !(scan_order_count (λ kv : string * DeliveryRow, d_status kv.2 = _) (λ kv, bool_decide (d_status kv.2 = _)))
    by (intros [k x]; apply bool_decide_eq_true).
  rewrite <- (scan_order_count (λ kv : string * EndpointRow, now < default now (ep_circuit_open_until kv.2)) (λ kv, circuit_open kv.2));
    [done|]. intros [k x]. cbn. unfold circuit_open. destruct (ep_circuit_open_until x); cbn; [apply Z.ltb_lt|].
  split; [done|lia].
Qed.

Lemma counted_all `{PG : Postgres} {PL : PostgresLaws} (d : db) :
  counted d StatusPending + counted d StatusProcessing + counted d StatusRetrying + counted d StatusSucceeded + counted d StatusDead
  = Z.of_nat (size (deliveries d)).
Proof.
  rewrite <- scan_order_length, <- statuses_partition. unfold counted.
  repeat f_equal; symmetry; apply scan_order_count; intros [k x]; apply bool_decide_eq_true.
Qed.

(** The operational statistics account for every delivery: whenever they
    are returned, the five counts are non-negative and add up to the number of
    deliveries, no more circuits are open than endpoints exist, and nothing
    changed. *)
Theorem GetOperationalStats_partition `{PG : Postgres} {PL : PostgresLaws} `{UU : Uuids} `{TE : TxEnv}
    (s : state) fs st c :
  runs GetOperationalStats (connect s fs) (Ok st) c →
  durable c = st_db s
  ∧ Stats_Pending st + Stats_Processing st + Stats_Retrying st + Stats_Succeeded st + Stats_Dead st
    = Z.of_nat (size (deliveries (st_db s)))
  ∧ 0 <= Stats_Pending st ∧ 0 <= Stats_Processing st ∧ 0 <= Stats_Retrying st
  ∧ 0 <= Stats_Succeeded st ∧ 0 <= Stats_Dead st
  ∧ 0 <= Stats_OpenCircuits st <= Z.of_nat (size (endpoints (st_db s))).
Proof.
  intros (Hd & ->)%GetOperationalStats_runs. split; [exact Hd|]. cbn. rewrite counted_all. unfold counted, circuits_open. cbn [durable connect].
  split_and!; try lia. apply Nat2Z.inj_le, map_subseteq_size, map_filter_subseteq.
Qed.

Lemma GetOperationalStats_partition_witness :
  ∃ st c, runs (GetOperationalStats (TE := at_second 50)) (connect (demo demo_finished) []) (Ok st) c
    ∧ Stats_Pending st + Stats_Processing st + Stats_Retrying st + Stats_Succeeded st + Stats_Dead st = 1.
Proof.
  eexists _, _. assert (Hrun : runs (GetOperationalStats (TE := at_second 50)) (connect (demo demo_finished) []) _ _)
    by (unfold runs, GetOperationalStats; run_eval; reflexivity).
  split; [exact Hrun|].
  destruct (GetOperationalStats_partition (PL := sim_postgres_laws) (TE := at_second 50) _ _ _ _ Hrun)
    as (_ & Hsum & _). rewrite Hsum.
  assert (H : bool_decide (Z.of_nat (size (deliveries (st_db (demo demo_finished)))) = 1) = true)
    by (vm_compute; reflexivity).
  by apply bool_decide_eq_true in H.
Defined.
