(* ===== verification/Services.v ===== *)
(** * The event and delivery services

    [Publish] of [src/internal/eventing/service.go], and [Get] and [Replay] of
    [src/internal/delivery/management.go]: validation in front of a repository
    they know only through its interface. The repositories are classes; package
    store implements them. *)

From S2P Require Import Prelude GoErrors GoTime GoText Delivery Schema Tx Eventing StoreEvents.
From S2P Require Import StoreDeliveries Json.

(** [uuid.Parse] of github.com/google/uuid: whether it accepts a text. *)
Class UuidParser := { uuid_Parse : string → bool }.

(** Documented behaviour: [Parse] accepts what [NewString] returns and the
    canonical form PostgreSQL prints. *)
Class UuidParserLaws `{UuidParser} `{Postgres} `{Uuids} : Prop := {
  Parse_NewString : ∀ n, uuid_Parse (NewString n) = true;
  Parse_canonical : ∀ s u, uuid_in s = Some u → uuid_Parse u = true;
}.

(** ** eventing.Service *)

Definition MaximumPayloadBytes : Z := Z.shiftl 1 20.

(** [^[A-Za-z0-9][A-Za-z0-9._:-]{0,99}$]. *)
Definition alphanumeric (b : byte) : bool := between 65 90 b || between 97 122 b || between 48 57 b.
Definition type_byte (b : byte) : bool := alphanumeric b || bool_decide (b ∈ [x2e; x5f; x3a; x2d]).

Definition eventTypePattern (s : string) : bool :=
  match bytes_of s with
  | [] => false
  | b :: rest => alphanumeric b && forallb type_byte rest && (len rest <=? 99)
  end.

Definition validIdempotencyKey (value : string) : bool :=
  if bool_decide (value = ""%string) || negb (ValidString value) || (200 <? RuneCountInString value) then false
  else negb (existsb (λ current, (current <? 32) || (current =? 127)) (range_runes value)).

Record PublishInput : Type := mkPublishInput {
  PI_EndpointID : string;
  PI_Type : string;
  PI_Payload : bytes;
  PI_IdempotencyKey : string;
}.

Section EventService.
Context `{PG : Postgres} `{UU : Uuids} `{UP : UuidParser} `{RE : !EventRepository}.

(** The checks of [Publish], in order: the error, or the trimmed type and key. *)
Definition check_input (input : PublishInput) : res (string * string) :=
  if negb (uuid_Parse (PI_EndpointID input))
  then Err (wrap_with eventing_ErrInvalid "malformed endpoint id")
  else
    let eventType := TrimSpace (PI_Type input) in
    if negb (eventTypePattern eventType)
    then Err (wrap_with eventing_ErrInvalid "event type must contain 1 to 100 safe characters")
    else if (len (PI_Payload input) =? 0) || (MaximumPayloadBytes <? len (PI_Payload input))
            || negb (json_Valid (PI_Payload input))
    then Err (wrap_with eventing_ErrInvalid
                ("payload must be valid JSON up to " +:+ FormatInt MaximumPayloadBytes +:+ " bytes"))
    else
      let idempotencyKey := TrimSpace (PI_IdempotencyKey input) in
      if negb (validIdempotencyKey idempotencyKey)
      then Err (wrap_with eventing_ErrInvalid "idempotency key must contain 1 to 200 printable characters")
      else Ok (eventType, idempotencyKey).

Definition Publish (input : PublishInput) : M Enqueued :=
  match check_input input with
  | Err err => throw err
  | Ok (eventType, idempotencyKey) =>
      eventID ← new_uuid;
      deliveryID ← new_uuid;
      wrapping "enqueue event"
        (EnqueueEvent (mkEnqueueParams eventID deliveryID (PI_EndpointID input) eventType
                         (PI_Payload input) idempotencyKey))
  end.
End EventService.

(** ** delivery.Service *)

(** The interface [delivery.Repository]. *)
Class DeliveryRepository `{Postgres} := {
  repo_GetDelivery : string → M Details;
  repo_ReplayDelivery : string → M Delivery;
}.

#[export] Instance store_delivery_repository `{PG : Postgres} `{TE : TxEnv} : DeliveryRepository :=
  {| repo_GetDelivery := GetDelivery; repo_ReplayDelivery := ReplayDelivery |}.

Section DeliveryService.
Context `{PG : Postgres} `{UP : UuidParser} `{RD : !DeliveryRepository}.

Definition Get (id : string) : M Details :=
  if negb (uuid_Parse id) then throw (wrap_with delivery_ErrInvalid "malformed delivery id")
  else wrapping "get delivery" (repo_GetDelivery id).

Definition Replay (id : string) : M Delivery :=
  if negb (uuid_Parse id) then throw (wrap_with delivery_ErrInvalid "malformed delivery id")
  else wrapping "replay delivery" (repo_ReplayDelivery id).
End DeliveryService.
