(* ===== verification/ServiceTheorems.v ===== *)
(** * Theorems on the event and delivery services

    What [Publish] accepts, and the round trip from [Publish] to [Get] through
    the database. *)

From S2P Require Import Prelude GoErrors GoTime GoText Delivery Schema Tx Invariant TxLogic.
From S2P Require Import Queue QueueSafety QueueSpec Eventing StoreEvents StoreDeliveries StoreEndpoints.
From S2P Require Import Minting StoreSafety Frame System Demo StoreTheorems Json Services.

#[local] Existing Instances sim_postgres sim_uuids sim_postgres_laws sim_uuids_laws.

(** The uuid package of the witnesses accepts every non-blank text. *)
#[export] Instance sim_parser : UuidParser := {| uuid_Parse := λ s, negb (blank s) |}.

(** ** Texts *)

(** An ASCII byte of a well-formed text is one of its runes. *)
Lemma ascii_byte_rune (l : bytes) (x : byte) :
  Valid l = true → x ∈ l → zb x < 128 → zb x ∈ map chunk_rune (decode l).
Proof.
  unfold Valid. intros Hv Hx Ha. revert Hv Hx.
  apply (decode_ind (λ l cs, forallb is_rune cs = true → x ∈ l → zb x ∈ map chunk_rune cs)).
  - by intros _ ?%elem_of_nil.
  - done.
  - intros r enc l' E IH Hv [Hx|Hx]%elem_of_app; [|apply elem_of_cons; right; by apply IH].
    apply elem_of_cons; left. cbn [chunk_rune].
    destruct enc as [|b0 [|b1 [|b2 [|b3 [|b4 enc]]]]]; [done|..]; cbn [decode] in E;
      split_decode E; simplify_eq; unfold second3, second4, cont, lead2, lead3, lead4, between in *;
      repeat (apply elem_of_cons in Hx as [->|Hx]); try (by apply elem_of_nil in Hx); try done;
      exfalso; repeat case_match; zbool; lia.
Qed.

Lemma valid_key_text `{PostgresLaws} (key : string) : validIdempotencyKey key = true → text_in key = true.
Proof.
  unfold validIdempotencyKey. intros Hk. case_match eqn:E; [done|]. zbool.
  apply text_in_valid; [done|]. intros b Hb Hz.
  apply not_true_iff_false in Hk. apply Hk. apply existsb_exists. exists (zb b). split.
  - apply list_elem_of_In. unfold range_runes. apply ascii_byte_rune; [done|done|lia].
  - rewrite Hz. reflexivity.
Qed.

(** ** Publish *)

(** What the service asks of a request to publish. *)
Record valid_input `{UuidParser} (input : PublishInput) : Prop := {
  vi_endpoint : uuid_Parse (PI_EndpointID input) = true;
  vi_type : ∃ b rest, bytes_of (TrimSpace (PI_Type input)) = b :: rest ∧ alphanumeric b = true
    ∧ (∀ x, x ∈ rest → type_byte x = true) ∧ len rest <= 99;
  vi_payload : 1 <= len (PI_Payload input) <= 1048576 ∧ json_Valid (PI_Payload input) = true;
  vi_key : let key := TrimSpace (PI_IdempotencyKey input) in
    key ≠ ""%string ∧ ValidString key = true ∧ RuneCountInString key <= 200
    ∧ (∀ r, r ∈ range_runes key → 32 <= r ∧ r ≠ 127);
}.

Lemma eventTypePattern_spec s :
  eventTypePattern s = true ↔
  ∃ b rest, bytes_of s = b :: rest ∧ alphanumeric b = true ∧ (∀ x, x ∈ rest → type_byte x = true) ∧ len rest <= 99.
Proof.
  unfold eventTypePattern. destruct (bytes_of s) as [|b rest].
  { split; [done|]. by intros (? & ? & ? & _). }
  rewrite !andb_true_iff, forallb_forall, Z.leb_le. split.
  - intros [[Hb Hr] Hl]. exists b, rest. split_and!; try done. intros x Hx%list_elem_of_In. by apply Hr.
  - intros (b' & rest' & [= <- <-] & Hb & Hr & Hl). split_and!; try done.
    intros x Hx%list_elem_of_In. by apply Hr.
Qed.

Lemma validIdempotencyKey_spec key :
  validIdempotencyKey key = true ↔
  key ≠ ""%string ∧ ValidString key = true ∧ RuneCountInString key <= 200
  ∧ (∀ r, r ∈ range_runes key → 32 <= r ∧ r ≠ 127).
Proof.
  unfold validIdempotencyKey. case_match eqn:E.
  - split; [done|]. intros (H1 & H2 & H3 & _). rewrite bool_decide_eq_false_2, H2 in E by done. cbn in E. zbool. lia.
  - zbool. rewrite negb_true_iff, <- not_true_iff_false, existsb_exists. split.
    + intros Hn. split_and!; try done. intros r Hr%list_elem_of_In.
      destruct (Z.le_gt_cases 32 r), (Z.eq_dec r 127); try (by split); exfalso; apply Hn; exists r;
        (split; [done|]); rewrite orb_true_iff, Z.ltb_lt, Z.eqb_eq; lia.
    + intros (_ & _ & _ & Hr) (r & Hin%list_elem_of_In & Hb). apply Hr in Hin.
      rewrite orb_true_iff, Z.ltb_lt, Z.eqb_eq in Hb. lia.
Qed.

Lemma check_input_valid `{UuidParser} input :
  valid_input input → check_input input = Ok (TrimSpace (PI_Type input), TrimSpace (PI_IdempotencyKey input)).
Proof.
  intros [H1 H2%eventTypePattern_spec [H3 H4] H5%validIdempotencyKey_spec]. unfold check_input.
  rewrite H1, H2, H4, H5. cbn [negb]. rewrite orb_false_r.
  change MaximumPayloadBytes with 1048576.
  destruct (Z.eqb_spec (len (PI_Payload input)) 0), (Z.ltb_spec 1048576 (len (PI_Payload input))); try lia; done.
Qed.

Lemma check_input_cases `{UuidParser} input :
  valid_input input ∨ ∃ e, check_input input = Err e ∧ errors_is e eventing_ErrInvalid = true.
Proof.
  unfold check_input. destruct (uuid_Parse _) eqn:H1; cbn [negb]; [|right; by eexists].
  destruct (eventTypePattern _) eqn:H2; cbn [negb]; [|right; by eexists].
  destruct (_ || _ || _) eqn:H3; [right; by eexists|].
  destruct (validIdempotencyKey _) eqn:H4; cbn [negb]; [left|right; by eexists].
  zbool. change MaximumPayloadBytes with 1048576 in *. split; [done|by apply eventTypePattern_spec| |].
  - unfold len in *. split; [lia|done].
  - by apply validIdempotencyKey_spec.
Qed.

(** [Publish] passes a request on exactly when the endpoint identifier is
    a uuid, the trimmed type is 1 to 100 safe characters starting with a letter
    or digit, the payload is valid JSON of at most 1 MiB and the trimmed key is
    1 to 200 printable runes; it then enqueues it under two new identifiers.
    Any other request is refused with [ErrInvalid] before the repository is
    called, whatever the repository is. *)
Theorem Publish_validates `{PG : Postgres} `{UU : Uuids} `{UP : UuidParser} {RE : EventRepository}
    (input : PublishInput) (s : conn) :
  (valid_input input ∧
   let id1 := NewString (next_uuid s) in
   let id2 := NewString (S (next_uuid s)) in
   Publish input s
   = wrapping "enqueue event"
       (EnqueueEvent (mkEnqueueParams id1 id2 (PI_EndpointID input) (TrimSpace (PI_Type input))
          (PI_Payload input) (TrimSpace (PI_IdempotencyKey input))))
       (mkConn _ (durable s) (work s) (faults s) (S (S (next_uuid s)))))
  ∨ (¬ valid_input input ∧ ∃ e, runs (Publish input) s (Err e) s ∧ errors_is e eventing_ErrInvalid = true).
Proof.
  destruct (check_input_cases input) as [Hv|(e & He & Hi)].
  - left. split; [done|]. unfold Publish. by rewrite (check_input_valid _ Hv).
  - right. split.
    + intros Hv. by rewrite (check_input_valid _ Hv) in He.
    + exists e. unfold runs, Publish. by rewrite He.
Qed.

(** [C14] What [Publish] acknowledges can be read back: in the database a
    successful call leaves, whatever the connection went through, [Get] of the
    returned delivery returns that delivery and that event, the event carries
    the endpoint, the type, the key and the payload of the request as the
    database reads them, and it is stored once under its key. *)
Theorem publish_then_get `{PG : Postgres} {PL : PostgresLaws} `{UU : Uuids} `{TE : TxEnv} `{UP : UuidParser}
    {UPL : UuidParserLaws} (input : PublishInput) (s : state) fs out c :
  reachable s → runs (Publish input) (connect s fs) (Ok out) c →
  (∃ attempts c',
     runs (Get (Delivery_ID (Enqueued_Delivery out))) (connect (mkState (durable c) (next_uuid c)) [])
       (Ok (mkDetails (Enqueued_Delivery out) (Enqueued_Event out) attempts)) c')
  ∧ sql_uuid (PI_EndpointID input) = Ok (Event_EndpointID (Enqueued_Event out))
  ∧ Event_Type (Enqueued_Event out) = TrimSpace (PI_Type input)
  ∧ Event_IdempotencyKey (Enqueued_Event out) = TrimSpace (PI_IdempotencyKey input)
  ∧ (∃ pl, jsonb_in (PI_Payload input) = Some pl ∧ Event_Payload (Enqueued_Event out) = jsonb_out pl)
  ∧ (∀ id e, events (durable c) !! id = Some e → ev_endpoint_id e = Event_EndpointID (Enqueued_Event out) →
       ev_idempotency_key e = TrimSpace (PI_IdempotencyKey input) → id = Event_ID (Enqueued_Event out))
  ∧ (∀ id r, deliveries (durable c) !! id = Some r → d_event_id r = Event_ID (Enqueued_Event out) →
       id = Delivery_ID (Enqueued_Delivery out)).
Proof.
  intros Hr Hrun. unfold Publish in Hrun. destruct (check_input input) as [[ty key]|err] eqn:Ec; [|by apply runs_throw in Hrun as [? _]].
  assert (Hc : ty = TrimSpace (PI_Type input) ∧ key = TrimSpace (PI_IdempotencyKey input)).
  { destruct (check_input_cases input) as [Hv|(e & He & _)]; [|congruence].
    rewrite (check_input_valid _ Hv) in Ec. by injection Ec as <- <-. }
  destruct Hc as [-> ->].
  apply runs_bind in Hrun as [(e & _ & ?)|(id1 & s1 & H1 & Hrun)]; [done|].
  apply runs_bind in Hrun as [(e & _ & ?)|(id2 & s2 & H2 & Hrun)]; [done|].
  apply runs_new_uuid in H1 as ([= ->] & [H1 _] & _), H2 as ([= ->] & [H2 _] & _).
  apply runs_wrapping in Hrun as ([out'|e] & Hrun & [= <-]).
  assert (Hok : db_ok (durable s2)) by (rewrite H2, H1; by apply reachable_db_ok).
  destruct (safe_run _ _ _ _ (EnqueueEvent_safe _) Hok Hrun) as [Hok' _].
  apply EnqueueEvent_runs in Hrun as (eid & did & ep & ty & key & pl & id & ev & dl & row & [D1 D2 D3 D4 D5 D6]
    & He & Hep & Hk & Hs & Hrow & Hid & -> & _); [|done].
  cbn in D3, D4, D5, D6. unfold sql_text in D4, D6. unfold sql_jsonb in D5.
  destruct (text_in (TrimSpace (PI_Type input))); [injection D4 as <-|done].
  destruct (text_in (TrimSpace (PI_IdempotencyKey input))); [injection D6 as <-|done].
  destruct (jsonb_in _) as [pl'|] eqn:Epl; [injection D5 as ->|done].
  unfold payload_matches in Hs. zbool. subst id. cbn.
  split; [|split_and!; [congruence|done|done|exists (ev_payload ev); split; congruence| |]].
  2:{ intros id' e' He' H1' H2'. apply (ok_event_key _ _ _ Hok' id' (d_event_id row) e' ev); done || congruence. }
  2:{ intros id' r' Hr' Hid'. by apply (ok_delivery_event _ _ _ Hok' id' dl r' row). }
  destruct (ok_deliveries _ _ _ Hok' _ _ Hrow) as (Hcan & _).
  eexists _, _. unfold Get. rewrite (Parse_canonical _ _ Hcan). cbn [negb].
  unfold runs. rewrite eval_wrapping. unfold repo_GetDelivery, store_delivery_repository.
  unfold connect. cbn [st_db st_next]. erewrite GetDelivery_total; [reflexivity|by apply canonical_sql_uuid|done|done].
Qed.

Definition demo_input : PublishInput := mkPublishInput "ep" " invoice.paid " [x7b; x7d] "key-9".
Definition demo_published : res Enqueued * conn :=
  Publish (RE := store_event_repository (TE := at_second 30)) demo_input (connect (demo demo_claimed) []).

#[export] Instance sim_parser_laws : UuidParserLaws.
Proof.
  split.
  - intros n. pose proof (NewString_canonical n) as H. change (sim_uuid_in (NewString n) = Some (NewString n)) in H.
    unfold sim_uuid_in in H. change (negb (blank (NewString n)) = true). by destruct (blank (NewString n)).
  - intros s u H. cbn in *. unfold sim_uuid_in in H. destruct (blank s) eqn:E; [done|]. injection H as <-. by rewrite E.
Qed.

Lemma publish_then_get_witness :
  ∃ out attempts c', demo_published.1 = Ok out
    ∧ runs (Get (RD := store_delivery_repository (TE := at_second 30)) (Delivery_ID (Enqueued_Delivery out)))
        (connect (mkState (durable demo_published.2) (next_uuid demo_published.2)) [])
        (Ok (mkDetails (Enqueued_Delivery out) (Enqueued_Event out) attempts)) c'
    ∧ Event_Type (Enqueued_Event out) = "invoice.paid"%string.
Proof.
  destruct demo_published as [[out|e] c] eqn:E;
    [|exfalso; assert (H : is_ok demo_published.1 = true) by (vm_compute; reflexivity); by rewrite E in H].
  destruct (publish_then_get (PL := sim_postgres_laws) (UPL := sim_parser_laws) (TE := at_second 30)
    demo_input (demo demo_claimed) [] out c (demo_reachable _) E) as ((att & c' & Hget) & _ & Ht & _).
  exists out, att, c'. split; [done|]. split; [exact Hget|]. rewrite Ht. reflexivity.
Defined.
