(* ===== verification/EndpointService.v ===== *)
(** * The endpoint service

    [src/internal/endpoint/service.go]: validation of a new endpoint, the
    normalisation of its target, the generation and encryption of its secret,
    and the calls to the repository. *)

From S2P Require Import Prelude GoErrors GoTime GoText GoStrings Delivery Schema Tx Eventing StoreEndpoints.
From S2P Require Import GoParse Netip Url Dispatcher Services.

(** ** net.IP *)

(** [net.ParseIP]: no zone; a mapped address is its IPv4 address. *)
Definition ParseIP (s : string) : option Addr :=
  match ParseAddr s with
  | Some (Addr6 v zone) => if bool_decide (zone = ""%string) then Some (Unmap (Addr6 v zone)) else None
  | r => r
  end.

(** The methods of [net.IP] that package netip does not share. *)
Definition IP_IsUnspecified (a : Addr) : bool := bool_decide (a = Addr4 0) || bool_decide (a = Addr6 0 "").

Definition IP_IsGlobalUnicast (a : Addr) : bool :=
  negb (bool_decide (a = Addr4 (2 ^ 32 - 1))) && negb (IP_IsUnspecified a) && negb (IsLoopback a)
  && negb (IsMulticast a) && negb (IsLinkLocalUnicast a).

Definition IP_IsLinkLocalMulticast (a : Addr) : bool :=
  match a with
  | Addr4 v => (v4 0 v =? 224) && (v4 1 v =? 0) && (v4 2 v =? 0)
  | Addr6 v _ => (Z.shiftr v 120 =? 0xff) && (Z.land (Z.shiftr v 112) 0x0f =? 2)
  | AddrInvalid => false
  end.

(** ** The target *)

Record Options : Type := mkOptions {
  Options_AllowHTTP : bool;
  Options_AllowPrivateTargets : bool;
}.

Definition private_ip (ip : Addr) : bool :=
  negb (IP_IsGlobalUnicast ip) || IsPrivate ip || IsLoopback ip || IsLinkLocalUnicast ip
  || IP_IsLinkLocalMulticast ip.

Definition isPrivateHost (hostname : string) : bool :=
  if bool_decide (hostname = "localhost"%string) || HasSuffix hostname ".localhost" || HasSuffix hostname ".local"
  then true
  else match ParseIP hostname with
  | None => false
  | Some ip => private_ip ip
  end.

Section Target.
Context `{UX : UnicodeText} `{UT : UnicodeTables}.

(** The URL [normalizeTarget] prints. *)
Definition normalized (target : URL) (hostname port : string) : URL :=
  let host :=
    if negb (bool_decide (port = ""%string)) then JoinHostPort hostname port
    else if ContainsByte hostname x3a then "[" +:+ hostname +:+ "]"
    else hostname in
  let path := if bool_decide (URL_Path target = ""%string) then "/"%string else URL_Path target in
  mkURL (URL_Scheme target) (URL_Opaque target) (URL_User target) host path (URL_RawPath target)
    (URL_OmitHost target) (URL_ForceQuery target) (URL_RawQuery target) (URL_Fragment target) (URL_RawFragment target).

Definition with_scheme (scheme : string) (u : URL) : URL :=
  mkURL scheme (URL_Opaque u) (URL_User u) (URL_Host u) (URL_Path u) (URL_RawPath u) (URL_OmitHost u) (URL_ForceQuery u)
    (URL_RawQuery u) (URL_Fragment u) (URL_RawFragment u).

Definition invalid {A} (msg : string) : res A := Err (wrap_with endpoint_ErrInvalid msg).

(** The URL that is printed, or the error. *)
Definition normalize (raw : string) (options : Options) : res URL :=
  match url_Parse (TrimSpace raw) with
  | Err _ => invalid "malformed URL"
  | Ok target =>
      let target := with_scheme (ToLower (URL_Scheme target)) target in
      if negb (bool_decide (URL_Scheme target = "https"%string))
         && (negb (Options_AllowHTTP options) || negb (bool_decide (URL_Scheme target = "http"%string)))
      then invalid "URL must use HTTPS"
      else if negb (bool_decide (URL_Opaque target = ""%string)) || bool_decide (URL_Host target = ""%string)
              || negb (is_null (URL_User target)) || negb (bool_decide (URL_Fragment target = ""%string))
      then invalid "URL must be absolute and cannot contain userinfo or fragment"
      else
        let hostname := ToLower (TrimSuffix (Hostname target) ".") in
        if bool_decide (hostname = ""%string) || ContainsByte hostname x25 then invalid "URL host is invalid"
        else if negb (Options_AllowPrivateTargets options) && isPrivateHost hostname
        then invalid "private targets are not allowed"
        else Ok (normalized target hostname (Port target))
  end.

Definition normalizeTarget (raw : string) (options : Options) : res string :=
  u ← normalize raw options; Ok (url_String u).
End Target.

(** ** The service *)

(** The interface [endpoint.Repository]. *)
Class EndpointRepository `{Postgres} := {
  repo_CreateEndpoint : Endpoint → M Endpoint;
  repo_ListEndpoints : Z → M (list Endpoint);
  repo_GetEndpoint : string → M Endpoint;
  repo_DisableEndpoint : string → M Endpoint;
}.

#[export] Instance store_endpoint_repository `{PG : Postgres} `{TE : TxEnv} : EndpointRepository := {|
  repo_CreateEndpoint := CreateEndpoint;
  repo_ListEndpoints := ListEndpoints;
  repo_GetEndpoint := GetEndpoint;
  repo_DisableEndpoint := DisableEndpoint;
|}.

Record CreateInput : Type := mkCreateInput {
  CI_Name : string;
  CI_URL : string;
  CI_Timeout : Duration;
  CI_MaxAttempts : Z;
}.

Record Created : Type := mkCreated {
  Created_Endpoint : Endpoint;
  Created_Secret : string;
}.

Section EndpointService.
Context `{PG : Postgres} `{UU : Uuids} `{UP : UuidParser} `{UX : UnicodeText} `{UT : UnicodeTables}.
Context `{RE : !EndpointRepository}.

(** [cipher.Encrypt], and what [io.ReadFull(s.random, secretBytes)] reads. *)
Variable Encrypt : bytes → bytes → res bytes.
Variable random : res bytes.
Variable options : Options.

(** The checks of [Create]: the name, the target, the timeout and the number of
    attempts it uses. *)
Definition check_create (input : CreateInput) : res (string * string * Duration * Z) :=
  let name := TrimSpace (CI_Name input) in
  if bool_decide (name = ""%string) || (100 <? RuneCountInString name)
  then invalid "name must contain between 1 and 100 characters"
  else
    target ← normalizeTarget (CI_URL input) options;
    let timeout := if CI_Timeout input =? 0 then 5 * Second else CI_Timeout input in
    if (timeout <? 100 * Millisecond) || (30 * Second <? timeout)
    then invalid "timeout must be between 100ms and 30s"
    else
      let maxAttempts := if CI_MaxAttempts input =? 0 then 8 else CI_MaxAttempts input in
      match ValidateMaxAttempts maxAttempts with
      | Err err => invalid (error_text err)
      | Ok _ => Ok (name, target, timeout, maxAttempts)
      end.

Definition Create (input : CreateInput) : M Created :=
  match check_create input with
  | Err err => throw err
  | Ok (name, target, timeout, maxAttempts) =>
      id ← new_uuid;
      match random with
      | Err err => throw (wrapf "generate endpoint secret" err)
      | Ok secretBytes =>
          let secret := string_of (base64_raw_url secretBytes) in
          match Encrypt (bytes_of secret) (SecretContext id) with
          | Err err => throw (wrapf "encrypt endpoint secret" err)
          | Ok ciphertext =>
              created ← wrapping "create endpoint"
                (repo_CreateEndpoint (mkEndpoint id name target ciphertext timeout maxAttempts 0 None None
                                        zero_time zero_time));
              mret (mkCreated created secret)
          end
      end
  end.

Definition List_ (limit : Z) : M (list Endpoint) :=
  if (limit <? 1) || (100 <? limit) then throw (wrap_with endpoint_ErrInvalid "limit must be between 1 and 100")
  else wrapping "list endpoints" (repo_ListEndpoints limit).

Definition Get (id : string) : M Endpoint :=
  if negb (uuid_Parse id) then throw (wrap_with endpoint_ErrInvalid "malformed endpoint id")
  else wrapping "get endpoint" (repo_GetEndpoint id).

Definition Disable (id : string) : M Endpoint :=
  if negb (uuid_Parse id) then throw (wrap_with endpoint_ErrInvalid "malformed endpoint id")
  else wrapping "disable endpoint" (repo_DisableEndpoint id).
End EndpointService.

Example isPrivateHost_tests :
  (map isPrivateHost ["localhost"; "x.local"; "127.0.0.1"; "10.1.2.3"; "::1"; "::ffff:10.0.0.1"; "255.255.255.255"],
   map isPrivateHost ["example.com"; "8.8.8.8"; "2001:4860:4860::8888"; "100.64.0.1"; "::1%eth0"])%string
  = (repeat true 7, repeat false 5).
Proof. vm_compute. reflexivity. Qed.
