(* ===== verification/TargetTheorems.v ===== *)
(** * Theorems on targets

    The check of private targets agrees with the dialer's, and what a
    normalised target is: what [normalizeTarget] returns parses back. *)

From S2P Require Import Prelude GoErrors GoText GoStrings GoParse Netip Url UrlTheorems UrlHost Dialer EndpointService.

Lemma Unmap_idem a : Unmap (Unmap a) = Unmap a.
Proof.
  destruct a as [|v|v zone]; [done..|]. unfold Unmap at 2 3. destruct (Z.shiftr v 32 =? 0xffff) eqn:E; [done|].
  unfold Unmap. by rewrite E.
Qed.

Lemma ParseIP_unmapped host ip : ParseIP host = Some ip → Unmap ip = ip.
Proof.
  unfold ParseIP. destruct (ParseAddr host) as [[|v|v zone]|]; [by intros [= <-]..| |done].
  case_bool_decide; [|done]. intros Hp. apply (inj Some) in Hp. subst ip. apply Unmap_idem.
Qed.

Lemma global_unicast ip : IsGlobalUnicast ip = true → IP_IsGlobalUnicast ip = true.
Proof.
  unfold IsGlobalUnicast, IP_IsGlobalUnicast, IP_IsUnspecified. destruct ip; [done|..];
    intros H; rewrite !andb_true_iff in H; decompose [and] H; rewrite !andb_true_iff, negb_orb, andb_true_iff;
    split_and!; try done; by rewrite bool_decide_eq_false_2.
Qed.

Lemma linklocal_multicast ip : IsMulticast ip = false → IP_IsLinkLocalMulticast ip = false.
Proof.
  destruct ip as [|v|v zone]; [done|..]; cbn [IsMulticast IP_IsLinkLocalMulticast].
  - intros H. destruct (Z.eqb_spec (v4 0 v) 224) as [E|]; [|done]. rewrite E in H. done.
  - by intros ->.
Qed.

(** A literal address the dialer would connect to is never refused as a
    private target when the endpoint is created: the two checks, written
    against net.IP and netip.Addr, only differ on the addresses the dialer
    blocks in addition. *)
Theorem private_ip_refused_by_dialer (host : string) (ip : Addr) :
  ParseIP host = Some ip → addressAllowed ip false = true → private_ip ip = false.
Proof.
  intros Hp. pose proof (ParseIP_unmapped _ _ Hp) as Hu.
  unfold addressAllowed. rewrite Hu. destruct (IsValid ip) eqn:Hvalid; [cbn [negb]|done]. cbn zeta.
  destruct (IsUnspecified ip || IsMulticast ip) eqn:H1; [done|]. zbool.
  destruct (negb (IsGlobalUnicast ip) || _ || _ || _) eqn:H2; [done|]. intros _. zbool.
  match goal with H : IsGlobalUnicast ip = true |- _ => rename H into Hg end.
  match goal with H : IsMulticast ip = false |- _ => rename H into Hm end.
  unfold private_ip. rewrite (global_unicast _ Hg), (linklocal_multicast _ Hm).
  by repeat match goal with H : ?f ip = false |- _ => rewrite H; clear H end.
Qed.

Lemma private_ip_refused_by_dialer_witness : private_ip (Addr4 (ipv4 8 8 8 8)) = false.
Proof. apply (private_ip_refused_by_dialer "8.8.8.8"); vm_compute; reflexivity. Defined.

(** Only one trailing dot is dropped, so that a name with two is not recognised
    as a private host. *)
Lemma two_trailing_dots_pass :
  isPrivateHost (TrimSuffix "localhost." ".") = true ∧ isPrivateHost (TrimSuffix "localhost.." ".") = false.
Proof. vm_compute. done. Qed.

(** ** Hosts and ports *)

(** The host [normalizeTarget] writes is read back as the name and the port. *)
Lemma normalized_host target hostname port :
  forallb (between 48 57) (bytes_of port) = true → head (bytes_of hostname) ≠ Some x5b →
  splitHostPort (URL_Host (normalized target hostname port)) = (hostname, port).
Proof.
  intros Hp Hh. unfold normalized. cbn [URL_Host].
  destruct (bool_decide_reflect (port = ""%string)) as [->|Hne]; cbn [negb].
  - rewrite ContainsByte_colon. destruct (contains_byte 58 (bytes_of hostname)) eqn:Hc.
    + rewrite (splitHostPort_bracketed _ (bytes_of hostname)); [by rewrite string_of_bytes_of|].
      by rewrite !bytes_of_app.
    + rewrite splitHostPort_none by done. by rewrite strip_brackets_plain, string_of_bytes_of.
  - unfold JoinHostPort. destruct (contains_byte 58 (bytes_of hostname)) eqn:Hc.
    + rewrite (splitHostPort_at _ (x5b :: bytes_of hostname ++ [x5d]) (bytes_of port)); [| |done].
      * by rewrite strip_brackets_wrap, !string_of_bytes_of.
      * rewrite !bytes_of_app. cbn. by rewrite <- app_assoc.
    + rewrite (splitHostPort_at _ (bytes_of hostname) (bytes_of port)); [| |done].
      * by rewrite strip_brackets_plain, !string_of_bytes_of.
      * by rewrite !bytes_of_app.
Qed.

(** ** Normalised targets parse back *)

Section Normal.
Context `{UX : UnicodeText} `{UT : UnicodeTables} {UL : UnicodeLaws}.

Lemma ToLower_lowered s : Forall (λ c, zb c < 128 ∧ lower_ascii c = c) (bytes_of s) → ToLower s = s.
Proof.
  intros H. unfold ToLower. rewrite (proj2 (forallb_forall _ _)).
  - rewrite <- (string_of_bytes_of s) at 2. f_equal. induction H as [|c l [_ E] _ IH]; [done|]. cbn [map]. by rewrite E, IH.
  - intros c Hc%list_elem_of_In. rewrite Forall_forall in H. by apply Z.ltb_lt, H.
Qed.

(** The host of a parsed target, as its two forms. *)
Lemma parsed_host t :
  parsed_target t → http_scheme (bytes_of (URL_Scheme t)) →
  ∃ name port, validOptionalPort port = true ∧ Hostname t = string_of name ∧ Port t = string_of (drop 1 port)
    ∧ (name_host (bytes_of (URL_Host t)) name port ∨ literal_host (bytes_of (URL_Host t)) name port).
Proof.
  intros [_ (authority & Ha) _ _ _] Hs. unfold Hostname, Port.
  destruct (last_index_byte 91 authority) as [i|] eqn:E91.
  - destruct (parseHost_literal_form _ _ _ _ E91 Ha) as (lit & port & Hl & Hp). exists lit, port.
    split; [done|]. pose proof Hl as [E _].
    assert (H : splitHostPort (URL_Host t) = (string_of lit, string_of (drop 1 port))).
    { destruct (port_cases _ Hp) as [->|(ds & -> & Hd)].
      - by apply splitHostPort_bracketed.
      - rewrite (splitHostPort_at _ (x5b :: lit ++ [x5d]) ds); [by rewrite strip_brackets_wrap| |done].
        rewrite E. cbn [app]. by rewrite <- app_assoc. }
    rewrite H. split_and!; [done|done|by right].
  - destruct (parseHost_name_form _ _ _ Hs E91 Ha) as (name & port & Hn & Hp). exists name, port. split; [done|].
    pose proof Hn as [E Hname].
    assert (Hb : head name ≠ Some x5b).
    { destruct name as [|c name]; [done|]. intros [= ->]. apply Forall_cons in Hname as [[H|H] _]; discriminate H. }
    assert (H58 : contains_byte 58 name = false).
    { apply not_true_iff_false. intros (c & Hc & Hz)%contains_byte_spec. rewrite Forall_forall in Hname.
      destruct (Hname c Hc) as [H|H]; [|lia]. unfold name_byte in H. rewrite Hz in H. by rewrite andb_false_r in H. }
    assert (H : splitHostPort (URL_Host t) = (string_of name, string_of (drop 1 port))).
    { destruct (port_cases _ Hp) as [->|(ds & -> & Hd)].
      - rewrite app_nil_r in E. rewrite splitHostPort_none by (by rewrite E). by rewrite E, strip_brackets_plain.
      - rewrite (splitHostPort_at _ name ds) by done. by rewrite strip_brackets_plain. }
    rewrite H. split_and!; [done|done|by left].
Qed.

(** The host that is written parses back, and its parts are the trimmed and
    lower-cased name and the port. *)
Lemma normalized_host_parses t target :
  parsed_target t → http_scheme (bytes_of (URL_Scheme t)) →
  let hostname := ToLower (TrimSuffix (Hostname t) ".") in
  let u := normalized target hostname (Port t) in
  hostname ≠ ""%string → ContainsByte hostname x25 = false →
  parseHost (bytes_of (URL_Scheme t)) (escape (bytes_of (URL_Host u)) encodeHost) = Ok (bytes_of (URL_Host u))
  ∧ clean [x23; x2f; x3f; x40] (escape (bytes_of (URL_Host u)) encodeHost)
  ∧ URL_Host u ≠ ""%string ∧ Hostname u = hostname ∧ Port u = Port t.
Proof.
  intros Ht Hs hostname u Hne Hpc. destruct (parsed_host t Ht Hs) as (name & port & Hp & Hn & Hport & Hform).
  assert (Hpct : x25 ∉ name).
  { rewrite <- (bytes_of_string_of name), <- Hn. by apply no_percent. }
  assert (Hu : ∃ port', validOptionalPort port' = true ∧ string_of (drop 1 port') = Port t
    ∧ bytes_of (URL_Host u) = bytes_of (if ContainsByte hostname x3a then "[" +:+ hostname +:+ "]" else hostname)%string ++ port').
  { subst u. unfold normalized. cbn [URL_Host]. rewrite Hport. destruct (port_cases _ Hp) as [->|(ds & -> & Hd)].
    - exists []. by rewrite app_nil_r.
    - cbn [drop skipn]. rewrite drop_0. destruct (bool_decide_reflect (string_of ds = ""%string)) as [E|E]; cbn [negb].
      + exists []. rewrite E. by rewrite app_nil_r.
      + exists (x3a :: ds). split_and!; [done|by rewrite <- (drop_0 ds) at 2|]. unfold JoinHostPort. rewrite <- ContainsByte_colon.
        destruct (ContainsByte hostname x3a); rewrite !bytes_of_app, bytes_of_string_of; [|done]. cbn. by rewrite <- !app_assoc. }
  destruct Hu as (port' & Hp' & Hpt & Hu).
  assert (Hhead : head (bytes_of hostname) ≠ Some x5b
    ∧ parseHost (bytes_of (URL_Scheme t)) (escape (bytes_of (URL_Host u)) encodeHost) = Ok (bytes_of (URL_Host u))
    ∧ clean [x23; x2f; x3f; x40] (escape (bytes_of (URL_Host u)) encodeHost)).
  { rewrite ContainsByte_colon in Hu. destruct Hform as [[_ Hname]|[_ Hlit]].
    - assert (Hl : Forall (λ c, name_byte c = true) (bytes_of hostname)).
      { apply lower_name; rewrite Hn, bytes_of_string_of; done. }
      assert (H58 : contains_byte 58 (bytes_of hostname) = false).
      { apply not_true_iff_false. intros (c & Hc & Hz)%contains_byte_spec. rewrite Forall_forall in Hl.
        apply Hl in Hc. unfold name_byte in Hc. rewrite Hz in Hc. by rewrite andb_false_r in Hc. }
      rewrite H58 in Hu. rewrite Hu. split; [|by apply parseHost_name].
      destruct (bytes_of hostname) as [|c l]; [done|]. intros [= ->]. by apply Forall_cons in Hl as [[=] _].
    - destruct (lower_literal (Hostname t)) as (Hl & Hok & H58); [by rewrite Hn, bytes_of_string_of..|].
      fold hostname in Hl, Hok, H58. rewrite H58 in Hu. rewrite !bytes_of_app in Hu.
      assert (E : bytes_of (URL_Host u) = x5b :: bytes_of hostname ++ x5d :: port') by (rewrite Hu; cbn; by rewrite <- app_assoc).
      rewrite E. split; [|by apply parseHost_literal].
      destruct (bytes_of hostname) as [|c l]; [done|]. intros [= ->]. by apply Forall_cons in Hl as [[=] _]. }
  destruct Hhead as (Hhead & H1 & H2). split_and!; [done|done| |..].
  - intros E. apply (f_equal bytes_of) in E. rewrite Hu in E. apply (f_equal length) in E. rewrite length_app in E.
    destruct (ContainsByte hostname x3a).
    + rewrite !bytes_of_app in E. cbn in E. lia.
    + apply Hne, bytes_of_inj. destruct (bytes_of hostname); [done|]. cbn in E. lia.
  - subst u. unfold Hostname at 1. rewrite normalized_host; [done|apply splitHostPort_digits|done].
  - subst u. unfold Port at 1. rewrite normalized_host; [done|apply splitHostPort_digits|done].
Qed.

Lemma http_scheme_of s : s = "http"%string ∨ s = "https"%string → http_scheme (bytes_of s).
Proof. intros [->| ->]; [by left|by right]. Qed.

Lemma normalize_accepts raw options u : normalize raw options = Ok u →
  ∃ t, let hostname := ToLower (TrimSuffix (Hostname t) ".") in
    url_Parse (TrimSpace raw) = Ok t ∧ u = normalized t hostname (Port t)
    ∧ URL_Scheme t = ToLower (URL_Scheme t)
    ∧ (URL_Scheme t = "https"%string ∨ URL_Scheme t = "http"%string ∧ Options_AllowHTTP options = true)
    ∧ URL_Opaque t = ""%string ∧ URL_Host t ≠ ""%string ∧ URL_User t = None ∧ URL_Fragment t = ""%string
    ∧ hostname ≠ ""%string ∧ ContainsByte hostname x25 = false
    ∧ (Options_AllowPrivateTargets options = false → isPrivateHost hostname = false).
Proof.
  unfold normalize. destruct (url_Parse (TrimSpace raw)) as [t|e] eqn:Et; [|done]. intros H. exists t. cbn zeta.
  assert (Hlow : URL_Host t ≠ ""%string → URL_Scheme t = ToLower (URL_Scheme t)).
  { intros Hh. symmetry. apply ToLower_lowered. by apply pt_scheme, url_Parse_parsed with (raw := TrimSpace raw). }
  set (t' := with_scheme _ t) in H. destruct (negb _ && _) eqn:Hs; [done|].
  destruct (_ || _ || _ || _) eqn:Ho in H; [done|].
  change (Hostname t') with (Hostname t) in H. change (Port t') with (Port t) in H.
  set (hostname := ToLower (TrimSuffix (Hostname t) ".")) in *.
  destruct (_ || _) eqn:Hh in H; [done|]. destruct (_ && _) eqn:Hpriv in H; [done|]. injection H as <-.
  zbool. subst t'. cbn [with_scheme URL_Scheme URL_Opaque URL_Host URL_User URL_Fragment] in *.
  specialize (Hlow ltac:(done)). split; [done|]. split; [unfold normalized, with_scheme; cbn; by rewrite <- Hlow|].
  split_and!; try done.
  - rewrite <- Hlow in Hs. destruct Hs as [Hs|[Ha Hs]%orb_false_iff]; zbool; [by left|by right].
  - by destruct (URL_User t).
  - intros Ha. rewrite Ha in Hpriv. by destruct Hpriv.
Qed.

(** What [normalize] returns prints to a text that parses back to it, up to the
    encoding of its path. *)
Lemma normalized_parses raw options v : normalize raw options = Ok v →
  ∃ u, url_Parse (url_String v) = Ok u ∧ URL_Scheme u = URL_Scheme v ∧ URL_Host u = URL_Host v
    ∧ URL_User u = None ∧ URL_Opaque u = ""%string ∧ URL_Fragment u = ""%string
    ∧ URL_Path u = URL_Path v ∧ URL_RawQuery u = URL_RawQuery v.
Proof.
  intros H. destruct (normalize_accepts _ _ _ H) as (t & Ht & Ev & _ & Hs & Ho & Hh & Hu & Hf & Hne & Hpc & _).
  pose proof (url_Parse_parsed _ _ Ht Hh) as Hp.
  assert (Hscheme : http_scheme (bytes_of (URL_Scheme t))) by (apply http_scheme_of; tauto).
  destruct (normalized_host_parses t t Hp Hscheme Hne Hpc) as (H1 & H2 & H3 & _). rewrite <- Ev in H1, H2, H3.
  destruct Hp as [_ _ Hpath Hquery Hforce].
  destruct (EscapedPath_spec v) as (Hr & Hc & rawpath & He).
  { subst v. cbn [normalized URL_Path]. destruct Hpath as [[-> _]|[Hr _]]; [done|].
    rewrite bool_decide_eq_false_2; [done|]. intros E. by rewrite E in Hr. }
  { subst v. cbn [normalized URL_RawPath]. destruct Hpath as [[_ ->]|[_ Hr]]; [by left|done]. }
  eexists. split.
  - unfold url_String. rewrite url_bytes_target by (done || by subst v).
    eapply parse_target; [subst v; exact Hscheme|exact H2|exact Hc|subst v; exact Hquery|exact Hr| |subst v; exact H1|exact He].
    subst v. intros F. cbn. by rewrite (Hforce F).
  - cbn [URL_Scheme URL_User URL_Opaque URL_Fragment URL_Path URL_RawQuery URL_Host].
    rewrite !string_of_bytes_of. subst v. by split_and!.
Qed.

(** [C34] What [normalizeTarget] returns parses back, with package net/url's own
    parser: to an absolute URL over HTTPS (or HTTP where it is allowed) without
    user, fragment or opaque part, with the query and the path of the input (a
    slash for an empty one), whose host name is the lower-cased name of the
    target without its trailing dot, not a private one unless private targets
    are allowed, and whose port is the one given. *)
Theorem normalize_spec (raw : string) (options : Options) (s : string) :
  normalizeTarget raw options = Ok s →
  ∃ t u, let hostname := ToLower (TrimSuffix (Hostname t) ".") in
    url_Parse (TrimSpace raw) = Ok t ∧ url_Parse s = Ok u
    ∧ (URL_Scheme u = "https"%string ∨ URL_Scheme u = "http"%string ∧ Options_AllowHTTP options = true)
    ∧ URL_User u = None ∧ URL_Opaque u = ""%string ∧ URL_Fragment u = ""%string
    ∧ URL_Path u = (if bool_decide (URL_Path t = ""%string) then "/"%string else URL_Path t)
    ∧ URL_RawQuery u = URL_RawQuery t
    ∧ Hostname u = hostname ∧ Port u = Port t
    ∧ hostname ≠ ""%string ∧ ContainsByte hostname x25 = false
    ∧ (Options_AllowPrivateTargets options = false → isPrivateHost hostname = false).
Proof.
  intros H. apply res_bind_Ok in H as (v & H & [= <-]).
  destruct (normalized_parses _ _ _ H) as (u & Hu & Es & Eh & H1 & H2 & H3 & Epath & Equery).
  destruct (normalize_accepts _ _ _ H) as (t & Ht & -> & _ & Hs & _ & Hh & _ & _ & Hne & Hpc & Hpriv).
  pose proof (url_Parse_parsed _ _ Ht Hh) as Hp. exists t, u.
  assert (Hscheme : http_scheme (bytes_of (URL_Scheme t))) by (apply http_scheme_of; tauto).
  destruct (normalized_host_parses t t Hp Hscheme Hne Hpc) as (_ & _ & _ & H4 & H5).
  unfold Hostname, Port in H4, H5 |- *. rewrite Es, Epath, Equery, Eh. by split_and!.
Qed.
End Normal.
Definition ascii_tables : UnicodeTables :=
  {| unicode_ToLower := λ r, if (65 <=? r) && (r <=? 90) then r + 32 else r |}.

Definition plain_unicode : UnicodeText := {| Quote := λ s, s; unicode_ToUpper := λ r, r |}.

Lemma ascii_laws : @UnicodeLaws ascii_tables.
Proof. split; cbn; [done|]. intros r Hr. right. by rewrite (proj2 (Z.leb_gt r 90)), andb_false_r by lia. Qed.

Lemma normalize_spec_witness :
  ∃ u, url_Parse (UX := plain_unicode) "https://example.com:8443/a%2Fb?a=1" = Ok u
       ∧ Hostname u = "example.com"%string ∧ Port u = "8443"%string ∧ URL_Path u = "/a/b"%string ∧ URL_User u = None.
Proof.
  destruct (normalize_spec (UX := plain_unicode) (UT := ascii_tables) (UL := ascii_laws) " https://Example.COM.:8443/a%2Fb?a=1"
    (mkOptions false false) "https://example.com:8443/a%2Fb?a=1") as (t & u & Ht & Hu & _ & Hn & _ & _ & Hp & _ & Hh & Hport & _).
  - vm_compute. reflexivity.
  - exists u. split; [exact Hu|]. rewrite Hh, Hport, Hp. vm_compute in Ht. injection Ht as <-. split_and!; done.
Defined.
