(* ===== verification/WebhookTheorems.v ===== *)
(** * Theorems on where webhooks go

    From the target an endpoint was created with to the addresses that are
    dialed and the connections that are spoken on. *)

From S2P Require Import Prelude GoErrors GoTime GoText GoStrings GoParse Netip Url Mime Dialer Dispatcher HttpClient WebhookClient.
From S2P Require Import TargetTheorems.
From S2P Require EndpointService.

(** [C19] No webhook reaches a blocked address, through the whole stack: whatever
    the target, the resolver, the servers' answers and the connections kept from
    earlier deliveries, every call a delivery makes of the dialer below is a TCP
    dial of an address that the target's own host resolves to (or is) and that
    passes the address check, at the target's own port; every connection it
    speaks on, new or reused, was dialed so; and the status it records is the
    target's own answer, for no redirect and no proxy is followed. *)
Theorem webhook_targets_public {Conn} `{UX : UnicodeText} (DefaultResolver : Resolver)
    (net_Dialer : Duration → Duration → ContextDialer (Conn := Conn)) time_Now ToASCII zero_dial cipher options
    k input idle events out idle' :
  let d := NewDispatcher DefaultResolver net_Dialer time_Now cipher options in
  let resolver := LookupNetIP (default DefaultResolver (Options_Resolver options)) in
  let dialer := dialer_DialContext (default (net_Dialer (10 * Second) (30 * Second)) (Options_Dialer options)) in
  keeps ToASCII zero_dial d idle → delivers ToASCII zero_dial d k input idle events out idle' →
  (∀ e, e ∈ events →
     ∃ u host port addresses a, NewRequest (Request_TargetURL input) = Ok u
       ∧ SplitHostPort (canonicalAddr ToASCII u) = Ok (host, port)
       ∧ resolve resolver host = Ok addresses ∧ a ∈ addresses
       ∧ addressAllowed a (Options_AllowPrivateTargets options) = true
       ∧ let target := JoinHostPort (Addr_String (Unmap a)) port in
         match e with
         | Dialed network address => network = "tcp"%string ∧ address = target
         | Spoke conn => ∃ before, dialer before "tcp"%string target = Ok conn
         end)
  ∧ (∀ c, Result_StatusCode out.2 = Some c →
       ∃ q u location r, out.1 = Some q ∧ NewRequest (Request_TargetURL input) = Ok u
         ∧ round_trip ToASCII zero_dial (Dispatcher_transport d) u q idle events (Ok (location, r)) idle'
         ∧ c = Http_StatusCode r).
Proof.
  intros d resolver dialer Hk Hd. pose proof (keeps_ok _ _ _ _ _ _ _ _ Hk) as Hok.
  assert (Hstatus : out.1 = None → Result_StatusCode out.2 = None).
  { destruct Hd as (answer & -> & _). unfold Deliver. destruct (Dispatcher_cipher d _ _); [|done].
    destruct (_ <=? 0); [done|]. destruct (u ← NewRequest _; _); [|done]. destruct (_ && _); [done|].
    destruct answer as [response|]; [destruct (read_limited _ response)|]; done. }
  apply delivers_round_trip in Hd. destruct out as [[q|] r]; cbn [fst snd] in *.
  - destruct Hd as (u & a & Hu & Ha & Hc). split.
    + destruct (round_trip_safe _ _ _ _ _ _ _ _ _ _ _ _ _ Ha Hok) as [He _]. rewrite Forall_forall in He.
      intros e Hin. specialize (He e Hin). destruct e as [network target|conn].
      * destruct He as [-> (host & port & addresses & ip & Hs & Hr & Hi & Hal & ->)].
        exists u, host, port, addresses, ip. by split_and!.
      * destruct He as (before & target & (host & port & addresses & ip & Hs & Hr & Hi & Hal & ->) & Hd).
        exists u, host, port, addresses, ip. split_and!; [done..|]. by exists before.
    + intros c E. destruct (Hc c E) as (location & response & -> & ->). by exists q, u, location, response.
  - destruct Hd as [-> _]. split; [by intros e ?%elem_of_nil|]. intros c E. by rewrite (Hstatus eq_refl) in E.
Qed.

(** [C38] A target an endpoint was created with is never the reason a delivery is
    discarded: with the same choice of protocols, the dispatcher parses it, finds
    its scheme allowed, and, the secret opened and the timeout positive, sends
    the signed request, whatever the exchange then comes to. *)
Theorem stored_target_sent {Conn} `{UX : UnicodeText} `{UT : UnicodeTables} {UL : UnicodeLaws} (DefaultResolver : Resolver)
    (net_Dialer : Duration → Duration → ContextDialer (Conn := Conn)) time_Now ToASCII zero_dial cipher options
    raw endpoint_options k input secret idle events out idle' :
  let d := NewDispatcher DefaultResolver net_Dialer time_Now cipher options in
  EndpointService.normalizeTarget raw endpoint_options = Ok (Request_TargetURL input) →
  EndpointService.Options_AllowHTTP endpoint_options = Options_AllowHTTP options →
  cipher (Request_SecretCiphertext input) (SecretContext (Request_EndpointID input)) = Ok secret →
  0 < Request_Timeout input →
  delivers ToASCII zero_dial d k input idle events out idle' →
  out.1 = Some (webhook_request secret (Unix (UTC (Dispatcher_now d k))) input).
Proof.
  intros d Ht Hhttp Hs Htime (answer & -> & _). apply res_bind_Ok in Ht as (v & Hv & E). injection E as E.
  destruct (normalized_parses _ _ _ Hv) as (u & Hu & Escheme & _). rewrite E in Hu.
  assert (Hscheme : URL_Scheme v = "https"%string ∨ URL_Scheme v = "http"%string ∧ Options_AllowHTTP options = true).
  { destruct (normalize_accepts _ _ _ Hv) as (t & _ & -> & _ & H & _). rewrite <- Hhttp. exact H. }
  unfold Deliver. change (Dispatcher_cipher d) with cipher. rewrite Hs.
  destruct (Z.leb_spec (Request_Timeout input) 0); [lia|]. unfold NewRequest. rewrite Hu. cbn [mbind res_bind with_host URL_Scheme].
  rewrite Escheme. change (Dispatcher_allowHTTP d) with (Options_AllowHTTP options).
  assert (negb (bool_decide (URL_Scheme v = "https"%string))
          && (negb (Options_AllowHTTP options) || negb (bool_decide (URL_Scheme v = "http"%string))) = false) as ->.
  { destruct Hscheme as [->|[-> ->]]; [by rewrite bool_decide_eq_true_2|].
    by rewrite (bool_decide_eq_true_2 ("http"%string = "http"%string)), andb_false_r. }
  cbn [fst]. destruct answer as [response|e]; [|done]. by destruct (read_limited _ response).
Qed.

(** ** Witnesses *)

Section Demo.
#[local] Existing Instance plain_unicode.

(** Public and private names, and a dialer whose connections are numbers. *)
Definition demo_resolver : Resolver := mkResolver (λ host,
  if bool_decide (host = "example.com"%string) then Ok [Addr4 (ipv4 93 184 216 34)]
  else if bool_decide (host = "internal.example.com"%string) then Ok [Addr4 (ipv4 10 0 0 7)]
  else Err (New "no such host")).

Definition demo_dialer : ContextDialer (Conn := nat) := mkContextDialer (λ calls _ _, Ok (length calls)).

Definition demo_dispatcher : WebhookClient.Dispatcher (Conn := nat) :=
  NewDispatcher demo_resolver (λ _ _, demo_dialer) (λ k, mkTime (Z.of_nat k * Second) None) (λ _ _, Ok [x02])
    (WebhookClient.mkOptions false false None None None 16).

Definition no_idna : string → res string := λ s, Err (New s).
Definition no_dial : dial_function (Conn := nat) := λ _ _, ([], Err (New "no dialer")).

Definition demo_events : list (event (Conn := nat)) := [Dialed "tcp" "93.184.216.34:443"; Spoke 0%nat].

(** A redirect is the answer of the webhook. *)
Definition demo_answer : HttpResponse := mkHttpResponse 302 [] None.

Lemma demo_delivers :
  delivers no_idna no_dial demo_dispatcher 0 demo_request [] demo_events
    (Deliver (λ _ _, Ok [x02]) (λ target, u ← NewRequest target; Ok (URL_Scheme u)) (λ _, Ok demo_answer) false 16
       (mkTime 0 None) (mkTime Second None) demo_request) [].
Proof.
  exists (Ok demo_answer). split; [reflexivity|]. vm_compute (Deliver _ _ _ _ _ _ _ _). cbn [fst].
  eexists. split; [vm_compute; reflexivity|].
  eapply ex_last with (location := "http://10.0.0.7/"%string); [|reflexivity|discriminate|vm_compute; reflexivity|reflexivity].
  - eapply (rt_dialed _ _ _ _ _ [] "example.com:443" [("tcp", "93.184.216.34:443")]%string 0%nat (Ok ("http://10.0.0.7/"%string, demo_answer)));
      [vm_compute; reflexivity..|]. by apply list_subseteq_nil.
Qed.

Lemma webhook_targets_public_witness :
  ∃ a port, addressAllowed a false = true ∧ Dialed "tcp" (JoinHostPort (Addr_String (Unmap a)) port) ∈ demo_events.
Proof.
  destruct (webhook_targets_public demo_resolver (λ _ _, demo_dialer) (λ k, mkTime (Z.of_nat k * Second) None) no_idna no_dial
    (λ _ _, Ok [x02]) (WebhookClient.mkOptions false false None None None 16) 0 demo_request [] demo_events _ []
    (keeps_none _ _ _) demo_delivers) as [H _].
  destruct (H (Dialed "tcp" "93.184.216.34:443")) as (u & host & port & addresses & a & Hu & Hs & _ & _ & Ha & _ & Ht); [left|].
  exists a, port. split; [exact Ha|]. rewrite <- Ht. left.
Defined.

Lemma stored_target_sent_witness :
  ∃ q, (Deliver (λ _ _, Ok [x02]) (λ target, u ← NewRequest target; Ok (URL_Scheme u)) (λ _, Ok demo_answer) false 16
       (mkTime 0 None) (mkTime Second None) demo_request).1 = Some q ∧ Http_URL q = "https://example.com/hook"%string.
Proof.
  exists (webhook_request [x02] (Unix (UTC (mkTime 0 None))) demo_request). split; [|reflexivity].
  exact (stored_target_sent (UT := ascii_tables) (UL := ascii_laws) demo_resolver (λ _ _, demo_dialer) (λ k, mkTime (Z.of_nat k * Second) None)
    no_idna no_dial (λ _ _, Ok [x02]) (WebhookClient.mkOptions false false None None None 16) " https://Example.COM./hook"
    (EndpointService.mkOptions false false) 0 demo_request [x02] [] demo_events _ []
    ltac:(vm_compute; reflexivity) eq_refl eq_refl ltac:(vm_compute; reflexivity) demo_delivers).
Defined.
End Demo.
