(* ===== verification/EndpointTheorems.v ===== *)
(** * Theorems on the endpoint service

    The secret of a new endpoint is the one the dispatcher will decrypt. *)

From S2P Require Import Prelude GoErrors GoTime GoText GoStrings Delivery Schema Tx Invariant TxLogic.
From S2P Require Import Queue QueueSafety Eventing StoreEvents StoreDeliveries StoreEndpoints.
From S2P Require Import StoreSafety System Demo Sha256 Signature Secure GoParse Netip Url UrlTheorems UrlHost Dialer Dispatcher Services ServiceTheorems EndpointService TargetTheorems.

#[local] Existing Instances sim_postgres sim_uuids sim_postgres_laws sim_uuids_laws.

(** ** Creation *)

Lemma autocommit_runs `{PG : Postgres} {A} (f : db → res (db * list A)) (s s' : conn) (a : A) :
  runs (autocommit (QueryRow f)) s (Ok a) s' →
  ∃ l, f (durable s) = Ok (durable s', a :: l).
Proof.
  intros Hr.
  assert (H : triple (λ D _, D = durable s) (autocommit (QueryRow f))
                (λ a D _, ∃ l, f (durable s) = Ok (D, a :: l)) (λ _ _, True)).
  { unfold autocommit. apply (triple_bind _ _ _ (λ _ _ W, W = durable s)); [by apply triple_BeginTx|].
    intros []. apply (triple_bind _ _ _ (λ a _ W, ∃ l, f (durable s) = Ok (W, a :: l))).
    - apply triple_QueryRow; [|done|done]. intros D W W' x l -> Hf. by exists l.
    - intros x. apply (triple_bind _ _ _ (λ _ D _, ∃ l, f (durable s) = Ok (D, x :: l))).
      + by apply triple_Commit.
      + intros []. by apply triple_ret. }
  exact (H s _ s' eq_refl Hr).
Qed.

Lemma CreateEndpoint_runs `{PG : Postgres} {PL : PostgresLaws} `{TE : TxEnv} v (s s' : conn) e :
  canonical (Endpoint_ID v) → runs (CreateEndpoint v) s (Ok e) s' →
  ∃ row, endpoints (durable s) !! Endpoint_ID v = None
    ∧ endpoints (durable s') = <[Endpoint_ID v := row]> (endpoints (durable s))
    ∧ e = endpoint_of_row (Endpoint_ID v) row
    ∧ ep_name row = Endpoint_Name v ∧ ep_url row = Endpoint_URL v
    ∧ ep_secret_ciphertext row = Endpoint_SecretCiphertext v
    ∧ ep_timeout_ms row = Milliseconds (Endpoint_Timeout v) ∧ ep_max_attempts row = Endpoint_MaxAttempts v
    ∧ ep_disabled_at row = None ∧ ep_circuit_open_until row = None ∧ ep_consecutive_failures row = 0.
Proof.
  intros Hc Hr. unfold CreateEndpoint in Hr.
  apply runs_bind in Hr as [(err & _ & ?)|([id row] & s1 & H1 & [[= ->] ->]%runs_ret)]; [done|].
  apply runs_wrapping in H1 as ([x|err] & H1 & [= <-]).
  apply autocommit_runs in H1 as (l & Hq). unfold createEndpointQuery in Hq.
  rewrite (canonical_sql_uuid _ Hc) in Hq. inv_stmt Hq. injection Hq as Edb <- <- _.
  match goal with H : insert_endpoint _ _ _ = Ok _ |- _ => rename H into Hi end.
  subst. unfold insert_endpoint in Hi. inv_stmt Hi. injection Hi as Hi.
  unfold sql_text in *. repeat case_match; simplify_eq. eexists. split_and!; [|by rewrite <- Hi|done..]. by destruct (_ !! _).
Qed.

Lemma check_create_Ok `{UX : UnicodeText} `{UT : UnicodeTables} options input name target timeout attempts :
  check_create options input = Ok (name, target, timeout, attempts) →
  name = TrimSpace (CI_Name input) ∧ name ≠ ""%string ∧ RuneCountInString name <= 100
  ∧ normalizeTarget (CI_URL input) options = Ok target
  ∧ 100 * Millisecond <= timeout <= 30 * Second ∧ 1 <= attempts <= 100
  ∧ (CI_Timeout input ≠ 0 → timeout = CI_Timeout input) ∧ (CI_Timeout input = 0 → timeout = 5 * Second)
  ∧ (CI_MaxAttempts input ≠ 0 → attempts = CI_MaxAttempts input) ∧ (CI_MaxAttempts input = 0 → attempts = 8).
Proof.
  unfold check_create. destruct (_ || _) eqn:H1; [done|]. intros H. apply res_bind_Ok in H as (t & Ht & H).
  destruct (_ || _) eqn:H2 in H; [done|]. destruct (ValidateMaxAttempts _) eqn:H3; [|done].
  injection H as <- <- <- <-. unfold ValidateMaxAttempts in H3. destruct (_ || _) eqn:H4 in H3; [done|]. zbool.
  split_and!; try done; intros; first [by rewrite (proj2 (Z.eqb_neq _ _))|by rewrite (proj2 (Z.eqb_eq _ _))].
Qed.

(** [C13] The secret [Create] shows once is the one webhooks are signed with:
    when [Create] succeeds, whatever the connection went through, the row in
    the database is the endpoint returned, its fields are the validated ones of
    the request, its ciphertext opens under the endpoint's context to exactly
    the secret returned, and every request the dispatcher sends for this
    endpoint with this ciphertext carries a signature made with it. The fields
    are the trimmed name, the normalised target, the timeout of the request in
    whole milliseconds (5 s when it has none) and its number of attempts (8 when
    it has none), in their ranges; the endpoint is enabled, its circuit closed
    and without failures. It is assumed that the AEAD keeps its documented laws
    and that the nonce has its size. *)
Theorem created_secret_signs `{PG : Postgres} {PL : PostgresLaws} `{UU : Uuids} {UL : UuidsLaws} `{TE : TxEnv} `{UX : UnicodeText}
    `{UT : UnicodeTables} (b : Box) (nonce secretBytes : bytes) (options : Options) (input : CreateInput)
    (s c : conn) (created : Created) :
  AEADLaws (box_aead b) → length nonce = NonceSize (box_aead b) →
  runs (Create (Encrypt b (Ok nonce)) (Ok secretBytes) options input) s (Ok created) c →
  let e := Created_Endpoint created in
  let secret := bytes_of (Created_Secret created) in
  ∃ row, endpoints (durable s) !! Endpoint_ID e = None
    ∧ endpoints (durable c) = <[Endpoint_ID e := row]> (endpoints (durable s))
    ∧ e = endpoint_of_row (Endpoint_ID e) row ∧ Endpoint_Name e = TrimSpace (CI_Name input)
    ∧ normalizeTarget (CI_URL input) options = Ok (Endpoint_URL e)
    ∧ ep_timeout_ms row = (if CI_Timeout input =? 0 then 5000 else CI_Timeout input / Millisecond)
    ∧ ep_max_attempts row = (if CI_MaxAttempts input =? 0 then 8 else CI_MaxAttempts input)
    ∧ Endpoint_Name e ≠ ""%string ∧ RuneCountInString (Endpoint_Name e) <= 100
    ∧ 100 <= ep_timeout_ms row <= 30000 ∧ 1 <= ep_max_attempts row <= 100 ∧ ep_disabled_at row = None
    ∧ ep_consecutive_failures row = 0 ∧ ep_circuit_open_until row = None
    ∧ secret = base64_raw_url secretBytes
    ∧ Decrypt b (ep_secret_ciphertext row) (SecretContext (Endpoint_ID e)) = Ok secret
    ∧ ∀ NewRequest Do allowHTTP limit t0 t1 request q r,
        Request_EndpointID request = Endpoint_ID e → Request_SecretCiphertext request = ep_secret_ciphertext row →
        Deliver (Decrypt b) NewRequest Do allowHTTP limit t0 t1 request = (Some q, r) →
        ("X-RelayForge-Signature", Sign secret (Unix (UTC t0)) (Request_DeliveryID request) (Http_Body q))%string
          ∈ Http_Header q.
Proof.
  intros HL Hn Hr. unfold Create in Hr. destruct (check_create options input) as [[[[name target] timeout] attempts]|err] eqn:Ec;
    [|by apply runs_throw in Hr as [? _]].
  apply check_create_Ok in Ec as (-> & Hne & Hlen & Ht & Hto & Hat & Hto1 & Hto0 & Hat1 & Hat0).
  apply runs_bind in Hr as [(err & _ & ?)|(id & s1 & H1 & Hr)]; [done|].
  apply runs_new_uuid in H1 as ([= ->] & [H1 _] & _). cbn zeta in Hr. cbn [Encrypt] in Hr.
  apply runs_bind in Hr as [(err & _ & ?)|(e & s2 & H2 & [[= ->] ->]%runs_ret)]; [done|].
  apply runs_wrapping in H2 as ([x|err] & H2 & [= <-]).
  apply CreateEndpoint_runs in H2 as (row & Hf & Hi & -> & E1 & E2 & E3 & E4 & E5 & E6 & E7 & E8); [|apply NewString_canonical].
  cbn [Endpoint_ID Endpoint_Name Endpoint_URL Endpoint_SecretCiphertext Endpoint_Timeout Endpoint_MaxAttempts] in *.
  cbn [Created_Endpoint Created_Secret endpoint_of_row Endpoint_ID Endpoint_Name Endpoint_URL].
  assert (Hd : Decrypt b (ep_secret_ciphertext row) (SecretContext (NewString (next_uuid s)))
               = Ok (bytes_of (string_of (base64_raw_url secretBytes)))).
  { apply (Decrypt_Ok b _ _ _ HL). exists nonce. by rewrite E3. }
  exists row. rewrite H1 in Hf, Hi. rewrite E2. split_and!; try done.
  - rewrite E4. unfold Milliseconds. rewrite Z.quot_div_nonneg by (unfold Millisecond, Microsecond, Second in *; lia).
    destruct (Z.eqb_spec (CI_Timeout input) 0) as [H0|H0]; [by rewrite (Hto0 H0)|by rewrite (Hto1 H0)].
  - rewrite E5. destruct (Z.eqb_spec (CI_MaxAttempts input) 0) as [H0|H0]; [by rewrite (Hat0 H0)|by rewrite (Hat1 H0)].
  - by rewrite E1.
  - by rewrite E1.
  - rewrite E4. apply Z.quot_le_lower_bound; [done|]. unfold Millisecond, Second in *. lia.
  - rewrite E4. apply Z.quot_le_upper_bound; [done|]. unfold Millisecond, Second in *. lia.
  - lia.
  - lia.
  - by rewrite bytes_of_string_of.
  - intros NR Do ah limit t0 t1 request q r Hid Hct HD.
    apply Deliver_request in HD as (secret & scheme & Hd' & _ & _ & _ & ->).
    rewrite Hct, Hid, Hd in Hd'. injection Hd' as <-.
    unfold webhook_request. cbn [Http_Header Http_Body]. rewrite !elem_of_cons. tauto.
Qed.

Definition demo_create : res Created * conn :=
  Create (UX := plain_unicode) (UT := ascii_tables) (RE := store_endpoint_repository (TE := at_second 40))
    (Encrypt (mkBox (sim_aead [])) (Ok (repeat x00 12))) (Ok (repeat xff 32)) (mkOptions false false)
    (mkCreateInput " orders " "https://Example.COM.:8443?a=1" 0 0) (connect (demo demo_claimed) []).

Lemma created_secret_signs_witness :
  ∃ created row, demo_create.1 = Ok created
    ∧ endpoints (durable demo_create.2) !! Endpoint_ID (Created_Endpoint created) = Some row
    ∧ Decrypt (mkBox (sim_aead [])) (ep_secret_ciphertext row) (SecretContext (Endpoint_ID (Created_Endpoint created)))
      = Ok (base64_raw_url (repeat xff 32)).
Proof.
  destruct demo_create as [[created|e] c] eqn:E;
    [|exfalso; assert (H : is_ok demo_create.1 = true) by (vm_compute; reflexivity); by rewrite E in H].
  destruct (created_secret_signs (PL := sim_postgres_laws) (UL := sim_uuids_laws) (TE := at_second 40)
    (UX := plain_unicode) (UT := ascii_tables) (mkBox (sim_aead [])) (repeat x00 12) (repeat xff 32)
    _ _ _ c created (sim_aead_laws []) eq_refl E) as (row & _ & Hi & _ & _ & _ & _ & _ & _ & _ & _ & _ & _ & _ & _ & Hs & Hd & _).
  exists created, row. split; [done|]. split; [cbn [snd]; rewrite Hi; apply lookup_insert_eq|]. by rewrite Hd, Hs.
Defined.
