(* ===== verification/Bench.v ===== *)
(** * The load generator

    [src/cmd/relaybench/main.go]: the samples of a run, the report they are
    folded into, the latency summary, and the pipeline of a producer, a fixed
    number of workers and a collector as a step relation. Its theorems: the
    percentile indices stay in range and in order despite the rounding of
    [float64], the latency summary is ordered, the pipeline terminates drained and
    the report of every complete run accounts for every request. *)

From S2P Require Import Prelude GoErrors GoTime GoText Float64.

(** ** Data *)

Record sample : Type := mkSample {
  sample_duration : Duration;
  sample_status : Z;
  sample_err : string;
}.

Record latencyReport : Type := mkLatencyReport {
  MinMS : float64;
  P50MS : float64;
  P95MS : float64;
  P99MS : float64;
  MaxMS : float64;
}.

Record report : Type := mkReport {
  Report_RunID : string;
  Report_Requested : Z;
  Report_Completed : Z;
  Report_Accepted : Z;
  Report_Failed : Z;
  Report_DurationSeconds : float64;
  Report_RequestsPerSecond : float64;
  Report_Latency : latencyReport;
  Report_StatusCodes : gmap string Z;
  Report_Errors : option (gmap string Z);
}.

(** ** The latency summary *)

(** The nearest binary64 values of 0.50, 0.95 and 0.99. *)
Definition q50 : float64 := Fin 1 (-1).
Definition q95 : float64 := Fin 8556839292003942 (-53).
Definition q99 : float64 := Fin 8917127262193582 (-53).

(** [int(math.Ceil(f))]. *)
Definition ceil_int (f : float64) : Z :=
  match f with
  | Fin m e => if 0 <=? e then m * 2 ^ e else - ((- m) / 2 ^ (- e))
  | _ => MinInt64
  end.

Definition percentile_index (n : Z) (quantile : float64) : Z := ceil_int (fmul (of_int n) quantile) - 1.

(** [values[index]]; [None] is the index-out-of-range panic. *)
Definition percentile (values : list Duration) (quantile : float64) : option Duration :=
  let index := percentile_index (Z.of_nat (length values)) quantile in
  if index <? 0 then None else values !! Z.to_nat index.

(** [d.Seconds()]. *)
Definition Seconds (d : Duration) : float64 :=
  fadd (of_int (Z.quot d Second)) (fdiv (of_int (Z.rem d Second)) (of_int 1000000000)).

Definition milliseconds (value : Duration) : float64 := fdiv (of_int value) (of_int Millisecond).

Definition zero_latency : latencyReport := mkLatencyReport f_zero f_zero f_zero f_zero f_zero.

(** [sort.Slice] with [<] on integers: the sorted permutation. *)
Definition sorted_values (values : list Duration) : list Duration := merge_sort Z.le values.

Definition summarizeLatency (values : list Duration) : option latencyReport :=
  if bool_decide (values = []) then Some zero_latency
  else
    let values := sorted_values values in
    lo ← head values;
    p50 ← percentile values q50;
    p95 ← percentile values q95;
    p99 ← percentile values q99;
    hi ← last values;
    Some (mkLatencyReport (milliseconds lo) (milliseconds p50) (milliseconds p95) (milliseconds p99)
            (milliseconds hi)).

(** ** Folding the samples into the report *)

(** [m[k]++]. *)
Definition increment (k : string) (m : gmap string Z) : gmap string Z := <[k := default 0 (m !! k) + 1]> m.

Record tally : Type := mkTally {
  tally_completed : Z;
  tally_accepted : Z;
  tally_failed : Z;
  tally_latencies : list Duration;
  tally_status : gmap string Z;
  tally_errors : gmap string Z;
}.

Definition empty_tally : tally := mkTally 0 0 0 [] ∅ ∅.

(** One turn of the loop over [results]. *)
Definition absorb (t : tally) (current : sample) : tally :=
  let failed := negb (bool_decide (sample_err current = ""%string)) in
  mkTally (tally_completed t + 1)
    (if failed then tally_accepted t else tally_accepted t + 1)
    (if failed then tally_failed t + 1 else tally_failed t)
    (tally_latencies t ++ [sample_duration current])
    (if sample_status current =? 0 then tally_status t
     else increment (FormatInt (sample_status current)) (tally_status t))
    (if failed then increment (sample_err current) (tally_errors t) else tally_errors t).

(** The report after the results channel is closed; [None] is a panic. *)
Definition summarize (runID : string) (requested : Z) (results : list sample) (elapsed : Duration)
    : option report :=
  let t := fold_left absorb results empty_tally in
  let missing := requested - tally_completed t in
  let failed := if 0 <? missing then tally_failed t + missing else tally_failed t in
  let errors := if 0 <? missing then <["not started"%string := missing]> (tally_errors t) else tally_errors t in
  latency ← summarizeLatency (tally_latencies t);
  Some (mkReport runID requested (tally_completed t) (tally_accepted t) failed
    (Seconds elapsed)
    (if 0 <? elapsed then fdiv (of_int (tally_completed t)) (Seconds elapsed) else f_zero)
    latency (tally_status t)
    (if bool_decide (errors = ∅) then None else Some errors)).

(** ** The pipeline *)

(** The state of [run]: the producer's next sequence number (and whether it
    has closed [jobs]), the workers waiting on [jobs], the sequence numbers
    being published, the samples waiting for room in [results], the workers that
    have left their loop and not yet called [Done], the counter of [workers], the
    channel [results], the samples collected, and whether the loop over
    [results] is over. *)
Record pipeline : Type := mkPipeline {
  next_sequence : Z;
  jobs_closed : bool;
  waiting : nat;
  busy : list Z;
  finished : list (Z * sample);      (* published, not yet in the buffer *)
  leaving : nat;
  counter : nat;
  buffer : list sample;
  results_closed : bool;
  collected : list sample;
  drained : bool;
}.

Section Pipeline.
Variables (requests : Z) (concurrency : nat).

(** Whether the context is ever cancelled, and what [publish] of a sequence
    number may return. *)
Variable cancelled : bool.
Variable publish : Z → sample → Prop.

Definition start : pipeline := mkPipeline 1 false concurrency [] [] 0 concurrency [] false [] false.

Inductive moves : pipeline → pipeline → Prop :=
  | move_send n w b f l k r rc c d :
      (* jobs <- sequence meets a waiting worker *)
      n <= requests →
      moves (mkPipeline n false (S w) b f l k r rc c d) (mkPipeline (n + 1) false w (n :: b) f l k r rc c d)
  | move_done n w b f l k r rc c d :
      (* the producer's loop ends *)
      requests < n →
      moves (mkPipeline n false w b f l k r rc c d) (mkPipeline n true w b f l k r rc c d)
  | move_cancel n w b f l k r rc c d :
      (* ctx.Done() *)
      cancelled = true → n <= requests →
      moves (mkPipeline n false w b f l k r rc c d) (mkPipeline n true w b f l k r rc c d)
  | move_publish n j w b1 i b2 x f l k r rc c d :
      publish i x →
      moves (mkPipeline n j w (b1 ++ i :: b2) f l k r rc c d) (mkPipeline n j w (b1 ++ b2) ((i, x) :: f) l k r rc c d)
  | move_result n j w b f1 i x f2 l k r c d :
      (* results <- sample, while the buffer has room; on a closed channel it
         would panic *)
      (length r < concurrency)%nat →
      moves (mkPipeline n j w b (f1 ++ (i, x) :: f2) l k r false c d) (mkPipeline n j (S w) b (f1 ++ f2) l k (r ++ [x]) false c d)
  | move_leave n w b f l k r rc c d :
      (* range jobs ends for a worker *)
      moves (mkPipeline n true (S w) b f l k r rc c d) (mkPipeline n true w b f (S l) k r rc c d)
  | move_Done n j w b f l k r rc c d :
      (* workers.Done() *)
      moves (mkPipeline n j w b f (S l) (S k) r rc c d) (mkPipeline n j w b f l k r rc c d)
  | move_close n j w b f l r c d :
      (* workers.Wait() returns, close(results) *)
      moves (mkPipeline n j w b f l 0 r false c d) (mkPipeline n j w b f l 0 r true c d)
  | move_collect n j w b f l k x r rc c :
      moves (mkPipeline n j w b f l k (x :: r) rc c false) (mkPipeline n j w b f l k r rc (c ++ [x]) false)
  | move_end n j w b f l k c :
      (* range results ends: the channel is closed and empty *)
      moves (mkPipeline n j w b f l k [] true c false) (mkPipeline n j w b f l k [] true c true).

(** The loop over [results] is over, and the report is made of [collected]. *)
Definition ended (p : pipeline) : Prop := drained p = true.

(** ** Invariant, termination and progress of the pipeline *)

(** The workers still in their loop. *)
Definition looping (p : pipeline) : nat := waiting p + length (busy p) + length (finished p).

Record pipeline_ok (p : pipeline) : Prop := {
  po_next : 1 <= next_sequence p <= requests + 1;
  po_counter : counter p = (looping p + leaving p)%nat;
  po_workers : (counter p <= concurrency)%nat ∧ (jobs_closed p = false → looping p = concurrency);
  po_issued : Z.of_nat (length (busy p) + length (finished p) + length (buffer p) + length (collected p))
              = next_sequence p - 1;
  po_done : jobs_closed p = true → cancelled = false → next_sequence p = requests + 1;
  po_closed : results_closed p = true → counter p = 0%nat ∧ (jobs_closed p = true ∨ concurrency = 0%nat);
  po_drained : drained p = true → results_closed p = true ∧ buffer p = [];
}.

Lemma pipeline_ok_start : 0 <= requests → pipeline_ok start.
Proof. intros Hr. split; cbn; try done; lia. Qed.

Lemma pipeline_ok_moves p p' : moves p p' → pipeline_ok p → pipeline_ok p'.
Proof.
  intros [] [H1 H2 [H3 H3'] H4 H5 H6 H7]; unfold looping in *; cbn in *; rewrite ?length_app in *; cbn in *;
    split; unfold looping; cbn; rewrite ?length_app; cbn; try lia; try done; try (intros; congruence || lia); try (split; [lia|done || (intros; lia)]).
  1-2: intros Hc; destruct (H6 Hc); auto.
  1-2: split; [lia|intros Hj; specialize (H3' Hj); lia].
  - intros Hd. by destruct (H7 Hd).
  - intros Hc. destruct (H6 Hc). lia.
  - intros _. split; [done|]. destruct j; auto. right. specialize (H3' eq_refl). lia.
  - intros Hd. by destruct (H7 Hd).
Qed.

Lemma pipeline_ok_reachable p : 0 <= requests → rtc moves start p → pipeline_ok p.
Proof.
  intros Hr H. pose proof (pipeline_ok_start Hr) as H0. revert H0.
  induction H as [|p1 p2 p3 Hm _ IH]; [done|]. intros H0. by apply IH, (pipeline_ok_moves p1).
Qed.

(** Every move lowers this measure. *)
Definition work_left (p : pipeline) : Z :=
  4 * (requests + 1 - next_sequence p) + (if jobs_closed p then 0 else 1)
  + 3 * Z.of_nat (length (busy p)) + 2 * Z.of_nat (length (finished p)) + Z.of_nat (length (buffer p))
  + 2 * Z.of_nat (looping p) + Z.of_nat (leaving p)
  + (if results_closed p then 0 else 1) + (if drained p then 0 else 1).

Lemma work_left_decreases p p' : moves p p' → work_left p' < work_left p.
Proof. intros []; unfold work_left, looping; cbn; rewrite ?length_app; cbn; lia. Qed.

Lemma work_left_nonneg p : pipeline_ok p → 0 <= work_left p.
Proof. intros [H1 _ _ _ _ _ _]. unfold work_left. destruct (jobs_closed p), (results_closed p), (drained p); lia. Qed.

Lemma pipeline_terminates p : pipeline_ok p → sn moves p.
Proof.
  remember (Z.to_nat (work_left p)) as n eqn:E. revert p E.
  induction n as [n IH] using lt_wf_ind. intros p -> Hp. constructor. intros p' Hm.
  pose proof (work_left_decreases _ _ Hm). pose proof (pipeline_ok_moves _ _ Hm Hp) as Hp'.
  pose proof (work_left_nonneg _ Hp'). by apply (IH (Z.to_nat (work_left p'))); [lia|..].
Qed.

(** As long as [publish] returns, the only states without a move are the ended
    ones. *)
Lemma pipeline_progress p :
  (∀ i, ∃ x, publish i x) → (0 < concurrency)%nat → pipeline_ok p → nf moves p → ended p.
Proof.
  intros Hpub Hc [H1 H2 [H3 H3'] _ _ H6 H7] Hnf.
  assert (Hstuck : ∀ p', ¬ moves p p') by (intros p' Hm; apply Hnf; by exists p').
  destruct p as [n j w b f l k r rc c d]. unfold looping, ended in *. cbn in *. destruct d; [done|]. exfalso.
  assert (Hr : r = []). { destruct r as [|x r]; [done|]. exfalso. eapply Hstuck, move_collect. }
  subst r. destruct rc; [eapply Hstuck, move_end|].
  assert (Hf : f = []).
  { destruct f as [|[i x] f]; [done|]. exfalso. eapply Hstuck, (move_result n j w b [] i x f l k [] c). cbn. lia. }
  assert (Hb : b = []).
  { destruct b as [|i b]; [done|]. exfalso. destruct (Hpub i) as [x Hx].
    by eapply Hstuck, (move_publish n j w [] i b x f l k [] false c). }
  subst. cbn in *. destruct j.
  - destruct w as [|w]; [|eapply Hstuck, move_leave].
    destruct l as [|l]; [eapply Hstuck, move_close|eapply Hstuck, move_Done].
  - specialize (H3' eq_refl). destruct (Z.le_gt_cases n requests) as [Hn|Hn].
    + destruct w as [|w]; [lia|]. by eapply Hstuck, move_send.
    + eapply Hstuck, move_done. lia.
Qed.

(** When the loop over [results] is over, nothing else is running. *)
Lemma ended_alone p : pipeline_ok p → ended p →
  ((0 < concurrency)%nat → jobs_closed p = true) ∧ waiting p = 0%nat ∧ busy p = [] ∧ finished p = [] ∧ leaving p = 0%nat ∧ counter p = 0%nat
  ∧ results_closed p = true ∧ buffer p = [].
Proof.
  intros [_ H2 _ _ _ H6 H7] Hd. destruct (H7 Hd) as [Hcl Hb]. destruct (H6 Hcl) as [Hk Hj]. unfold looping in H2.
  assert (busy p = [] ∧ finished p = []) as [-> ->] by (split; apply nil_length_inv; lia).
  split_and!; try done; try lia. intros Hc. destruct Hj as [Hj|Hj]; [done|lia].
Qed.
End Pipeline.

(** ** Percentiles *)

(** Rounding a value of the grid [2^-53] below [2^47] crosses no multiple of
    [2^-5]. *)
Lemma round64_grid (m : Z) : 1 <= m <= 2 ^ 100 →
  ∃ m' e', round64 m (-53) = Fin m' e' ∧ e' <= -5 ∧ 1 <= m'
    ∧ (∀ c, m <= c * 2 ^ 48 → m' <= c * 2 ^ (-5 - e'))
    ∧ (∀ c, c * 2 ^ 48 <= m → c * 2 ^ (-5 - e') <= m').
Proof.
  intros Hm. pose proof (Z.log2_le_mono m (2 ^ 100)) as Hlog. rewrite Z.log2_pow2 in Hlog by lia.
  pose proof (Z.log2_nonneg m). pose proof (Z.log2_spec m ltac:(lia)) as [Hlo _].
  unfold round64. rewrite (Z.abs_eq m) by lia. set (k := Z.max _ _).
  destruct (Z.leb_spec k 0) as [Hk|Hk].
  { exists m, (-53). split_and!; try lia; [|done..].
    apply (finite_or_inf_le 47); [lia|]. unfold abs_le. change (47 - -53) with 100. lia. }
  assert (Hk2 : k = Z.log2 m - 52) by lia.
  assert (Hg : ∀ c, c * 2 ^ 48 = c * 2 ^ (-5 - (-53 + k)) * 2 ^ k).
  { intros c. rewrite <- Z.mul_assoc, <- Z.pow_add_r by lia. do 2 f_equal. lia. }
  exists (rne m k), (-53 + k). split_and!; [|lia| | |].
  - apply (finite_or_inf_le 47); [lia|]. unfold abs_le. apply Z.abs_le. split.
    + apply rne_ge; [lia|]. pose proof (pow_pos (47 - (-53 + k))). pose proof (pow_pos k). nia.
    + apply rne_le; [lia|]. rewrite <- Z.pow_add_r by lia.
      replace (47 - (-53 + k) + k) with 100 by lia. lia.
  - apply rne_ge; [lia|]. rewrite Z.mul_1_l. etrans; [|exact Hlo]. apply Z.pow_le_mono_r; lia.
  - intros c Hc. apply rne_le; [lia|]. by rewrite <- Hg.
  - intros c Hc. apply rne_ge; [lia|]. by rewrite <- Hg.
Qed.

Lemma ceil_int_le m e z : e < 0 → ceil_int (Fin m e) <= z ↔ m <= z * 2 ^ (- e).
Proof.
  intros He. unfold ceil_int. destruct (Z.leb_spec 0 e); [lia|]. pose proof (pow_pos (- e)).
  split; intros Hz.
  - pose proof (Z.div_mod (- m) (2 ^ (- e))). pose proof (Z.mod_pos_bound (- m) (2 ^ (- e))). nia.
  - assert (- z <= (- m) / 2 ^ (- e)); [|lia]. apply Z.div_le_lower_bound; lia.
Qed.

(** The index of a quantile between two multiples of [1/32]. *)
Lemma percentile_index_between (n q lo hi : Z) :
  1 <= n < 2 ^ 46 → 1 <= q → lo * 2 ^ 48 <= q <= hi * 2 ^ 48 → q < 2 ^ 53 →
  ∃ m e, fmul (of_int n) (Fin q (-53)) = Fin m e ∧ e <= -5 ∧ 1 <= m
         ∧ (lo * n) * 2 ^ (-5 - e) <= m <= (hi * n) * 2 ^ (-5 - e).
Proof.
  intros Hn Hq1 Hq Hq2. rewrite of_int_small by lia. cbn [fmul]. rewrite Z.add_0_l.
  destruct (round64_grid (n * q)) as (m & e & -> & He & Hm & Hle & Hge).
  { split; [nia|]. change (2 ^ 100) with (2 ^ 47 * 2 ^ 53). nia. }
  exists m, e. split; [done|]. split; [done|]. split; [done|].
  split; [apply Hge|apply Hle]; nia.
Qed.

Lemma pow_5 e : e <= -5 → 2 ^ (- e) = 32 * 2 ^ (-5 - e).
Proof. intros He. change 32 with (2 ^ 5). rewrite <- Z.pow_add_r by lia. f_equal. lia. Qed.

Lemma q50_index n : 1 <= n < 2 ^ 46 → ∀ z, percentile_index n q50 < z ↔ n <= 2 * z.
Proof.
  intros Hn z. unfold percentile_index, q50. rewrite of_int_small by lia. cbn [fmul].
  rewrite Z.mul_1_r. change (0 + -1) with (-1).
  assert (round64 n (-1) = Fin n (-1)) as ->.
  { unfold round64. rewrite (Z.abs_eq n) by lia.
    assert (Z.log2 n < 46) by (apply Z.log2_lt_pow2; lia).
    destruct (Z.leb_spec (Z.max (Z.log2 n + 1 - 53) (-1074 - -1)) 0); [|lia].
    apply (finite_or_inf_le 46); [lia|]. unfold abs_le. rewrite Z.abs_eq by lia. lia. }
  pose proof (ceil_int_le n (-1) z ltac:(lia)) as H. change (2 ^ (- -1)) with 2 in H. lia.
Qed.

(** The indices of the three percentiles of [n] values. *)
Lemma percentile_indices n : 1 <= n < 2 ^ 46 →
  0 <= percentile_index n q50 <= percentile_index n q95
  ∧ percentile_index n q95 <= percentile_index n q99 <= n - 1.
Proof.
  intros Hn.
  destruct (percentile_index_between n 8556839292003942 16 31) as (m & e & E & He & Hm & Hlo & Hhi); [lia..|].
  destruct (percentile_index_between n 8917127262193582 31 32) as (m' & e' & E' & He' & Hm' & Hlo' & Hhi'); [lia..|].
  pose proof (pow_5 e He) as P. pose proof (pow_5 e' He') as P'.
  pose proof (pow_pos (-5 - e)). pose proof (pow_pos (-5 - e')).
  assert (H95 : ∀ z, percentile_index n q95 < z ↔ m <= z * 2 ^ (- e)).
  { intros z. unfold percentile_index, q95. rewrite E, <- ceil_int_le by lia. lia. }
  assert (H99 : ∀ z, percentile_index n q99 < z ↔ m' <= z * 2 ^ (- e')).
  { intros z. unfold percentile_index, q99. rewrite E', <- ceil_int_le by lia. lia. }
  rewrite P in H95. rewrite P' in H99. pose proof (q50_index n Hn) as H50.
  split_and!.
  - destruct (Z.le_gt_cases 0 (percentile_index n q50)) as [|Hneg]; [done|].
    assert (percentile_index n q50 < 0) as H'%H50 by lia. lia.
  - assert (percentile_index n q95 < percentile_index n q95 + 1) as H'%H95 by lia.
    apply Z.lt_succ_r. unfold Z.succ. apply H50. nia.
  - assert (percentile_index n q99 < percentile_index n q99 + 1) as H'%H99 by lia.
    apply Z.lt_succ_r. unfold Z.succ. apply H95. nia.
  - apply Z.lt_le_pred. apply H99. nia.
Qed.

(** ** The latency summary *)

Lemma sorted_values_lookup values i j a b :
  sorted_values values !! i = Some a → sorted_values values !! j = Some b → (i <= j)%nat → a <= b.
Proof.
  unfold sorted_values. intros Ha Hb Hij.
  assert (Hs : StronglySorted Z.le (merge_sort Z.le values)) by (apply StronglySorted_merge_sort; apply _).
  destruct (decide (i = j)) as [->|Hne]; [assert (a = b) by congruence; lia|].
  revert i j Ha Hb Hij Hne. induction Hs as [|x l Hl IH Hx]; [done|]. intros [|i] [|j] Ha Hb Hij Hne; cbn in *; try lia.
  - injection Ha as <-. rewrite Forall_forall in Hx. by apply Hx, (list_elem_of_lookup_2 _ j).
  - apply (IH i j); try done; lia.
Qed.

Lemma percentile_lookup values q i :
  percentile_index (Z.of_nat (length values)) q = Z.of_nat i → percentile values q = values !! i.
Proof.
  unfold percentile. intros ->. destruct (Z.ltb_spec (Z.of_nat i) 0); [lia|]. by rewrite Nat2Z.id.
Qed.

Lemma latency_summary (values : list Duration) :
  values ≠ [] → Z.of_nat (length values) < 2 ^ 46 →
  ∃ lo p50 p95 p99 hi,
    summarizeLatency values = Some (mkLatencyReport (milliseconds lo) (milliseconds p50) (milliseconds p95)
                                      (milliseconds p99) (milliseconds hi))
    ∧ lo <= p50 ∧ p50 <= p95 ∧ p95 <= p99 ∧ p99 <= hi
    ∧ p50 ∈ values ∧ p95 ∈ values ∧ p99 ∈ values
    ∧ (∀ v, v ∈ values → lo <= v <= hi) ∧ lo ∈ values ∧ hi ∈ values.
Proof.
  intros Hne Hlen. set (n := Z.of_nat (length values)).
  assert (Hpos : 1 <= n) by (destruct values; [done|subst n; cbn; lia]).
  destruct (percentile_indices n) as [(H0 & H1) (H2 & H3)]; [subst n; lia|].
  assert (Hl : length (sorted_values values) = length values) by (apply Permutation_length, merge_sort_Permutation).
  assert (Hget : ∀ i, 0 <= i < n → ∃ v, sorted_values values !! Z.to_nat i = Some v ∧ v ∈ values).
  { intros i Hi. destruct (lookup_lt_is_Some_2 (sorted_values values) (Z.to_nat i)) as [v Hv]; [subst n; lia|].
    exists v. split; [done|]. apply list_elem_of_lookup_2 in Hv. unfold sorted_values in Hv.
    by rewrite merge_sort_Permutation in Hv. }
  assert (Hpct : ∀ q, 0 <= percentile_index n q →
    percentile (sorted_values values) q = sorted_values values !! Z.to_nat (percentile_index n q)).
  { intros q Hq. apply percentile_lookup. rewrite Hl. fold n. lia. }
  destruct (Hget 0) as (lo & Elo & Mlo); [lia|]. destruct (Hget (n - 1)) as (hi & Ehi & Mhi); [lia|].
  destruct (Hget (percentile_index n q50)) as (p50 & E50 & M50); [lia|].
  destruct (Hget (percentile_index n q95)) as (p95 & E95 & M95); [lia|].
  destruct (Hget (percentile_index n q99)) as (p99 & E99 & M99); [lia|].
  assert (Hmono : ∀ i j a b, sorted_values values !! Z.to_nat i = Some a →
    sorted_values values !! Z.to_nat j = Some b → i <= j → a <= b).
  { intros i j a b Ha Hb Hij. eapply sorted_values_lookup; [exact Ha|exact Hb|lia]. }
  exists lo, p50, p95, p99, hi. split_and!; try done; try (eapply Hmono; [eassumption..|lia]).
  - unfold summarizeLatency. rewrite bool_decide_eq_false_2 by done.
    change (Z.to_nat 0) with 0%nat in Elo. rewrite head_lookup, Elo, !Hpct by lia. rewrite E50, E95, E99, last_lookup, Hl.
    replace (pred (length values)) with (Z.to_nat (n - 1)) by (subst n; lia). by rewrite Ehi.
  - intros v Hv. rewrite <- (merge_sort_Permutation Z.le values) in Hv.
    apply list_elem_of_lookup_1 in Hv as [i Hi]. fold (sorted_values values) in Hi.
    pose proof (lookup_lt_Some _ _ _ Hi) as Hlt. rewrite <- (Nat2Z.id i) in Hi.
    split; (eapply Hmono; [eassumption..|subst n; lia]).
Qed.

(** The latency summary never indexes out of range, and its five figures
    are latencies of the run in order: the smallest, the three percentiles and
    the largest, for any number of samples up to [2^46]. *)
Theorem summarizeLatency_ordered (values : list Duration) :
  values ≠ [] → Z.of_nat (length values) < 2 ^ 46 →
  ∃ lo p50 p95 p99 hi,
    summarizeLatency values = Some (mkLatencyReport (milliseconds lo) (milliseconds p50) (milliseconds p95)
                                      (milliseconds p99) (milliseconds hi))
    ∧ lo <= p50 ∧ p50 <= p95 ∧ p95 <= p99 ∧ p99 <= hi
    ∧ p50 ∈ values ∧ p95 ∈ values ∧ p99 ∈ values
    ∧ (∀ v, v ∈ values → lo <= v <= hi).
Proof.
  intros Hne Hl. destruct (latency_summary values Hne Hl) as (lo & p50 & p95 & p99 & hi & H1 & H2 & H3 & H4 & H5 & H6 & H7 & H8 & H9 & _).
  by exists lo, p50, p95, p99, hi.
Qed.

Lemma summarizeLatency_ordered_witness :
  ∃ lo p50 p95 p99 hi,
    summarizeLatency [30; 10; 20] = Some (mkLatencyReport (milliseconds lo) (milliseconds p50) (milliseconds p95)
                                      (milliseconds p99) (milliseconds hi))
    ∧ lo <= p50 <= p95 ∧ p95 <= p99 <= hi.
Proof.
  destruct (summarizeLatency_ordered [30; 10; 20]) as (lo & p50 & p95 & p99 & hi & E & H1 & H2 & H3 & H4 & _);
    [discriminate|reflexivity|].
  exists lo, p50, p95, p99, hi. split; [exact E|]. by repeat split.
Defined.

(** ** Accounting *)

(** The sum of the counters of a map. *)
Definition total (m : gmap string Z) : Z := map_fold (λ _ n acc, n + acc) 0 m.

Lemma total_insert k n m : total (<[k := n]> m) = total m - default 0 (m !! k) + n.
Proof.
  assert (Hfresh : ∀ (m' : gmap string Z) v, m' !! k = None → total (<[k := v]> m') = v + total m').
  { intros m' v Hk. unfold total. apply map_fold_insert_L; [intros; lia|done]. }
  rewrite <- insert_delete_eq, (Hfresh _ n) by apply lookup_delete_eq.
  destruct (m !! k) as [v|] eqn:Hk; cbn.
  - rewrite <- (insert_delete_id m k v) at 2 by done. rewrite (Hfresh _ v) by apply lookup_delete_eq. lia.
  - rewrite delete_id by done. lia.
Qed.

Lemma total_increment k m : total (increment k m) = total m + 1.
Proof. unfold increment. rewrite total_insert. lia. Qed.

(** What the counters of a tally mean. *)
Record tally_ok (l : list sample) (t : tally) : Prop := {
  to_completed : tally_completed t = Z.of_nat (length l);
  to_split : tally_accepted t + tally_failed t = Z.of_nat (length l);
  to_accepted : tally_accepted t = Z.of_nat (length (List.filter (λ x, bool_decide (sample_err x = ""%string)) l));
  to_status : total (tally_status t) = Z.of_nat (length (List.filter (λ x, negb (sample_status x =? 0)) l));
  to_errors : total (tally_errors t) = tally_failed t;
  to_latencies : tally_latencies t = map sample_duration l;
}.

Lemma absorb_ok l t x : tally_ok l t → tally_ok (l ++ [x]) (absorb t x).
Proof.
  intros [H1 H2 H3 H4 H5 H6]. split; unfold absorb; cbn; rewrite ?List.filter_app, ?length_app, ?map_app; cbn [List.filter length map].
  - lia.
  - case_bool_decide; cbn; lia.
  - rewrite H3. case_bool_decide; cbn. all: lia.
  - destruct (sample_status x =? 0); cbn; rewrite ?total_increment; lia.
  - case_bool_decide; cbn; rewrite ?total_increment; lia.
  - by rewrite H6.
Qed.

Lemma tally_spec l : tally_ok l (fold_left absorb l empty_tally).
Proof.
  induction l as [|x l IH] using rev_ind; [by split|]. rewrite fold_left_app. by apply absorb_ok.
Qed.

Section Runs.
Variables (requests : Z) (concurrency : nat) (cancelled : bool) (publish : Z → sample → Prop).
Hypothesis (Hrequests : 0 <= requests).

Lemma ended_samples p :
  pipeline_ok requests concurrency cancelled p → ended p →
  Z.of_nat (length (collected p)) = next_sequence p - 1 ∧ Z.of_nat (length (collected p)) <= requests
  ∧ (cancelled = false → (0 < concurrency)%nat → Z.of_nat (length (collected p)) = requests).
Proof.
  intros Hok Hend. destruct (ended_alone _ _ _ p Hok Hend) as (Ej & _ & Eb & Ef & _ & _ & _ & Er).
  destruct Hok as [H1 _ _ H3 H4 _ _]. rewrite Eb, Ef, Er in H3. cbn in H3.
  split; [lia|]. split; [lia|]. intros Hc Hpos. specialize (H4 (Ej Hpos) Hc). lia.
Qed.
End Runs.

(** [C37] Every way a run of the load generator can unfold comes to an end, and
    ends with the loop over [results] over: whatever the publications return and
    whether or not the run is cancelled, no producer, worker, closer or collector
    is left waiting for another. And that loop is over only when everything else
    is: [jobs] is closed, every worker has left its loop and called [Done], no
    sample is lost in a channel, and [results] is closed; it is never closed
    while a worker has still to send on it, which would panic. *)
Theorem pipeline_drains (requests : Z) (concurrency : nat) (cancelled : bool)
    (publish : Z → sample → Prop) (p : pipeline) :
  0 <= requests → (0 < concurrency)%nat → (∀ k, ∃ x, publish k x) →
  rtc (moves requests concurrency cancelled publish) (start concurrency) p →
  sn (moves requests concurrency cancelled publish) p
  ∧ (nf (moves requests concurrency cancelled publish) p → drained p = true)
  ∧ (drained p = true →
       jobs_closed p = true ∧ waiting p = 0%nat ∧ busy p = [] ∧ finished p = [] ∧ leaving p = 0%nat ∧ counter p = 0%nat
       ∧ results_closed p = true ∧ buffer p = [] ∧ Z.of_nat (length (collected p)) = next_sequence p - 1)
  ∧ (results_closed p = true → waiting p = 0%nat ∧ busy p = [] ∧ finished p = []).
Proof.
  intros Hr Hc Hpub Hp. pose proof (pipeline_ok_reachable _ _ _ _ _ Hr Hp) as Hok.
  split; [by eapply pipeline_terminates|]. split; [by eapply pipeline_progress|]. split.
  - intros Hd. destruct (ended_alone _ _ _ p Hok Hd) as (Hj & H). destruct (ended_samples _ _ _ p Hok Hd) as (Hn & _).
    specialize (Hj Hc). tauto.
  - intros Hcl. destruct (po_closed _ _ _ _ Hok Hcl) as [Hk _]. pose proof (po_counter _ _ _ _ Hok) as H2. unfold looping in H2.
    split; [lia|]. split; apply nil_length_inv; lia.
Qed.

Lemma pipeline_drains_witness :
  sn (moves 3 2 false (λ _ x, sample_err x = ""%string)) (start 2).
Proof.
  apply (pipeline_drains 3 2 false (λ _ x, sample_err x = ""%string)); [lia|lia| |reflexivity].
  intros k. exists (mkSample 1 202 ""). reflexivity.
Defined.

(** The report of a run accounts for every request: once the pipeline has
    ended, the accepted and the failed (with those never started) add up to the
    requests, the status codes and the errors add up to the samples that have
    them, and an uncancelled run has completed every request. *)
Theorem report_accounts (requests : Z) (concurrency : nat) (cancelled : bool)
    (publish : Z → sample → Prop) (p : pipeline) (runID : string) (elapsed : Duration) :
  0 <= requests <= 1000000 →
  rtc (moves requests concurrency cancelled publish) (start concurrency) p → ended p →
  ∃ r, summarize runID requests (collected p) elapsed = Some r
    ∧ Report_Requested r = requests
    ∧ Report_Completed r = Z.of_nat (length (collected p))
    ∧ Report_Accepted r + Report_Failed r = requests
    ∧ Report_Accepted r
      = Z.of_nat (length (List.filter (λ x, bool_decide (sample_err x = ""%string)) (collected p)))
    ∧ total (Report_StatusCodes r)
      = Z.of_nat (length (List.filter (λ x, negb (sample_status x =? 0)) (collected p)))
    ∧ (cancelled = false → (0 < concurrency)%nat → Report_Completed r = requests
         ∧ total (default ∅ (Report_Errors r)) = Report_Failed r).
Proof.
  intros [Hr Hr2] Hp Hend. pose proof (pipeline_ok_reachable _ _ _ _ _ Hr Hp) as Hok.
  destruct (ended_samples _ _ _ p Hok Hend) as (_ & Hle & Hall).
  unfold summarize. set (t := fold_left absorb (collected p) empty_tally).
  destruct (tally_spec (collected p)) as [H1 H2 H3 H4 H5 H6]. fold t in H1, H2, H3, H4, H5, H6.
  assert (Hlat : ∃ lat, summarizeLatency (tally_latencies t) = Some lat).
  { destruct (decide (tally_latencies t = [])) as [E|E].
    - unfold summarizeLatency. rewrite bool_decide_eq_true_2 by done. eauto.
    - destruct (latency_summary (tally_latencies t)) as (lo & a & b & c & hi & -> & _); eauto.
      rewrite H6, length_map. lia. }
  destruct Hlat as [lat ->]. cbn. eexists. split; [reflexivity|]. cbn.
  split_and!; try done.
  - destruct (Z.ltb_spec 0 (requests - tally_completed t)); lia.
  - intros Hc Hpos. specialize (Hall Hc Hpos). split; [lia|].
    destruct (Z.ltb_spec 0 (requests - tally_completed t)); [lia|].
    case_bool_decide as E; cbn; [|done]. rewrite <- H5, E. reflexivity.
Qed.

Definition demo_pipeline : pipeline := mkPipeline 2 true 0 [] [] 0 0 [] true [mkSample 1000000 202 ""] true.

Lemma demo_pipeline_reached : rtc (moves 1 1 false (λ _ _, True)) (start 1) demo_pipeline.
Proof.
  eapply rtc_l; [by apply (move_send 1 1 false _ 1 0)|].
  eapply rtc_l; [by apply (move_done 1 1 false _ 2)|].
  eapply rtc_l; [by apply (move_publish 1 1 false _ 2 true 0 [] 1 [] (mkSample 1000000 202 ""))|].
  eapply rtc_l; [apply (move_result 1 1 false _ 2 true 0 [] [] 1 (mkSample 1000000 202 "") []); cbn; lia|].
  eapply rtc_l; [apply move_leave|]. eapply rtc_l; [apply move_Done|]. eapply rtc_l; [apply move_close|].
  eapply rtc_l; [apply move_collect|]. eapply rtc_l; [apply move_end|]. reflexivity.
Qed.

Lemma report_accounts_witness :
  ∃ r, summarize "run" 1 (collected demo_pipeline) Second = Some r ∧ Report_Accepted r + Report_Failed r = 1.
Proof.
  destruct (report_accounts 1 1 false (λ _ _, True) demo_pipeline "run" Second) as (r & E & _ & _ & H & _);
    [lia|apply demo_pipeline_reached|reflexivity|by exists r].
Defined.
