(* ===== verification/BuildInfo.v ===== *)
(** * Build information

    [src/internal/buildinfo/buildinfo.go]. The three package variables are
    what the linker left in them; what [debug.ReadBuildInfo] returns is an
    argument. *)

From S2P Require Import Prelude GoErrors JsonEncode.

Record Info : Type := mkInfo {
  Info_Version : string;
  Info_Commit : string;
  Info_BuiltAt : string;
  Info_GoVersion : string;
  Info_Dirty : bool;
}.

(** The members by the tags of the struct. *)
Definition Info_json (i : Info) : json :=
  JObject [("version", JString (Info_Version i)); ("commit", JString (Info_Commit i)); ("built_at", JString (Info_BuiltAt i));
           ("go_version", JString (Info_GoVersion i)); ("dirty", JBool (Info_Dirty i))]%string.

(** What is used of [debug.BuildInfo]. *)
Record BuildInfo : Type := mkBuildInfo {
  Main_Version : string;
  Settings : list (string * string);
}.

(** One turn of the loop over the settings. *)
Definition apply_setting (result : Info) (setting : string * string) : Info :=
  let '(key, v) := setting in
  if bool_decide (key = "vcs.revision"%string) then
    mkInfo (Info_Version result) (if bool_decide (Info_Commit result = "none"%string) then v else Info_Commit result)
      (Info_BuiltAt result) (Info_GoVersion result) (Info_Dirty result)
  else if bool_decide (key = "vcs.time"%string) then
    mkInfo (Info_Version result) (Info_Commit result)
      (if bool_decide (Info_BuiltAt result = "unknown"%string) then v else Info_BuiltAt result)
      (Info_GoVersion result) (Info_Dirty result)
  else if bool_decide (key = "vcs.modified"%string) then
    mkInfo (Info_Version result) (Info_Commit result) (Info_BuiltAt result) (Info_GoVersion result)
      (bool_decide (v = "true"%string))
  else result.

Definition Current (Version Commit BuiltAt runtime_Version : string) (ReadBuildInfo : option BuildInfo) : Info :=
  let result := mkInfo Version Commit BuiltAt runtime_Version false in
  match ReadBuildInfo with
  | None => result
  | Some details =>
      let result :=
        if bool_decide (Version = "dev"%string) && negb (bool_decide (Main_Version details = ""%string))
           && negb (bool_decide (Main_Version details = "(devel)"%string))
        then mkInfo (Main_Version details) Commit BuiltAt runtime_Version false else result in
      fold_left apply_setting (Settings details) result
  end.

(** A version, commit or date set by the linker is never overridden. *)
Lemma Current_keeps_linked Version Commit BuiltAt rt details :
  let i := Current Version Commit BuiltAt rt details in
  (Version ≠ "dev"%string → Info_Version i = Version)
  ∧ (Commit ≠ "none"%string → Info_Commit i = Commit)
  ∧ (BuiltAt ≠ "unknown"%string → Info_BuiltAt i = BuiltAt)
  ∧ Info_GoVersion i = rt.
Proof.
  cbn zeta. destruct details as [details|]; [|done]. unfold Current.
  set (r0 := if _ && _ then _ else _).
  assert (H0 : (Version ≠ "dev"%string → Info_Version r0 = Version) ∧ Info_Commit r0 = Commit
               ∧ Info_BuiltAt r0 = BuiltAt ∧ Info_GoVersion r0 = rt).
  { subst r0. destruct (bool_decide_reflect (Version = "dev"%string)); cbn [andb]; [|done].
    by destruct (_ && _). }
  destruct H0 as (H1 & H2 & H3 & H4). clearbody r0.
  assert (Hgen : ∀ l r, (Version ≠ "dev"%string → Info_Version r = Version) →
    (Commit ≠ "none"%string → Info_Commit r = Commit) → (BuiltAt ≠ "unknown"%string → Info_BuiltAt r = BuiltAt) →
    Info_GoVersion r = rt →
    let i := fold_left apply_setting l r in
    (Version ≠ "dev"%string → Info_Version i = Version) ∧ (Commit ≠ "none"%string → Info_Commit i = Commit)
    ∧ (BuiltAt ≠ "unknown"%string → Info_BuiltAt i = BuiltAt) ∧ Info_GoVersion i = rt).
  { induction l as [|[k v] l IH]; intros r Ha Hb Hc Hd; [done|]. cbn [fold_left]. apply IH; unfold apply_setting;
      repeat (case_bool_decide; cbn; try done); intros Hne; try (rewrite (Hb Hne) in *; congruence);
      try (rewrite (Hc Hne) in *; congruence); auto. }
  apply Hgen; auto.
Qed.
