(* ===== verification/Database.v ===== *)
(** * The database connection

    [src/internal/database/database.go]. The pool of package pgxpool is an
    argument: parsing its configuration, creating it and pinging it. What is
    closed is returned with the result. *)

From S2P Require Import Prelude GoErrors GoTime.

(** The fields of [pgxpool.Config] that [Open] sets; the rest is what the URL
    says. *)
Record PoolConfig (Parsed : Type) : Type := mkPoolConfig {
  pool_parsed : Parsed;
  MinConns : Z;
  MaxConns : Z;
  MaxConnLifetime : Duration;
  MaxConnIdleTime : Duration;
  HealthCheckPeriod : Duration;
}.
Arguments mkPoolConfig {Parsed}.
Arguments MinConns {Parsed}.
Arguments MaxConns {Parsed}.

Record Config : Type := mkConfig {
  Config_URL : string;
  Config_MinConnections : Z;
  Config_MaxConnections : Z;
}.

Section Database.
Context {Parsed PgPool : Type}.

Record DB : Type := mkDB { DB_pool : PgPool }.

Variable ParseConfig : string → res (PoolConfig Parsed).
Variable NewWithConfig : PoolConfig Parsed → res PgPool.
Variable pool_Ping : PgPool → res unit.

Definition Ping (db : DB) : res unit := pool_Ping (DB_pool db).

(** The pool that is closed. *)
Definition Close (db : DB) : PgPool := DB_pool db.

Definition Pool (db : DB) : PgPool := DB_pool db.

Definition with_sizes (cfg : Config) (c : PoolConfig Parsed) : PoolConfig Parsed :=
  mkPoolConfig (pool_parsed _ c) (Config_MinConnections cfg) (Config_MaxConnections cfg)
    (30 * Minute) (5 * Minute) (30 * Second).

(** The pools [Open] closes, and what it returns. *)
Definition Open (cfg : Config) : list PgPool * res DB :=
  match ParseConfig (Config_URL cfg) with
  | Err err => ([], Err (wrapf "parse database config" err))
  | Ok poolConfig =>
      match NewWithConfig (with_sizes cfg poolConfig) with
      | Err err => ([], Err (wrapf "create database pool" err))
      | Ok pool =>
          let db := mkDB pool in
          match Ping db with
          | Err err => ([pool], Err (wrapf "ping database" err))
          | Ok _ => ([], Ok db)
          end
      end
  end.

(** [Open] keeps no pool it does not return, and returns one that answered. *)
Lemma Open_keeps_nothing cfg closed r : Open cfg = (closed, r) →
  match r with
  | Ok db => closed = [] ∧ Ping db = Ok tt
      ∧ ∃ c, NewWithConfig c = Ok (DB_pool db) ∧ MinConns c = Config_MinConnections cfg ∧ MaxConns c = Config_MaxConnections cfg
  | Err _ => ∀ c parsed pool, ParseConfig (Config_URL cfg) = Ok parsed → c = with_sizes cfg parsed →
               NewWithConfig c = Ok pool → closed = [pool]
  end.
Proof.
  unfold Open. destruct (ParseConfig _) as [parsed|e]; [|by intros [= <- <-]].
  destruct (NewWithConfig _) as [pool|e] eqn:En; [|intros [= <- <-] c parsed' pool [= <-] -> H; congruence].
  destruct (Ping _) as [[]|e] eqn:Ep; intros [= <- <-].
  - split_and!; [done|done|]. eexists. split_and!; [exact En|done|done].
  - intros c parsed' pool' [= <-] -> H. congruence.
Qed.
End Database.
