(* ===== verification/Main.v ===== *)
(** * The process

    [src/cmd/relayforge/main.go]: the version command, and [run]: how the parts
    are built from the configuration, what is released when, and how the process
    ends. The pool of the database and what follows the construction of the parts
    ([Process.v]) are arguments; what the channels of the shutdown deliver is
    data. *)

From S2P Require Import Prelude GoErrors GoTime GoText GoParse Float64 Json JsonEncode JsonDecode JsonTheorems JsonValid.
From S2P Require Import Delivery Secure Dispatcher HttpClient BuildInfo.
From S2P Require EndpointService Worker Config WebhookClient Database.

(** What the two [select]s and [server.Shutdown] answer. *)
Inductive stop_reason : Type :=
  | SignalReceived
  | ServeReturned (err : error).

Record ending : Type := mkEnding {
  stopped_by : stop_reason;
  Shutdown_error : option error;
  (** What [errCh] yields within 100 ms of the shutdown, if anything. *)
  late_error : option error;
  (** Whether the workers ended before the shutdown timeout. *)
  workers_done : bool;
}.

Definition ErrServerClosed : error := Sentinel "http.ErrServerClosed" "http: Server closed".

(** The error of the first [select]. *)
Definition serve_error (stop : stop_reason) : option error :=
  match stop with
  | SignalReceived => None
  | ServeReturned err => if errors_is err ErrServerClosed then None else Some (wrapf "serve http" err)
  end.

(** From the first [select] to the end of [run]. *)
Definition finish (e : ending) : res unit :=
  let serveErr := serve_error (stopped_by e) in
  _ ← match Shutdown_error e with Some err => Err (wrapf "shutdown http server" err) | None => Ok tt end;
  _ ← match late_error e with
      | Some err => if errors_is err ErrServerClosed then Ok tt else Err (wrapf "stop http server" err)
      | None => Ok tt
      end;
  _ ← if workers_done e then Ok tt else Err (New "delivery workers did not stop before shutdown timeout");
  match serveErr with Some err => Err err | None => Ok tt end.

(** ** Building the parts *)

Section Main.
Context {Conn Parsed DBPool : Type} `{UX : UnicodeText}.

(** What is released, and when: at once, or by a deferred call when [run]
    returns, the last one deferred first. *)
Inductive release : Type :=
  | PoolClosed (pool : DBPool)
  | DispatcherClosed.

Record frame : Type := mkFrame {
  released : list release;
  deferred : list release;
}.

Definition scoped (A : Type) : Type := frame → frame * res A.

#[global] Instance scoped_ret : MRet scoped := λ A a f, (f, Ok a).
#[global] Instance scoped_bind : MBind scoped := λ A B k m f,
  match m f with (f', Ok a) => k a f' | (f', Err err) => (f', Err err) end.

Definition lift {A} (r : res A) : scoped A := λ f, (f, r).
Definition defer (r : release) : scoped unit := λ f, (mkFrame (released f) (r :: deferred f), Ok tt).

(** The call of a function: its releases in their order, and its result. *)
Definition call {A} (m : scoped A) : list release * res A :=
  let '(f, r) := m (mkFrame [] []) in (released f ++ deferred f, r).

Variable aes_gcm : bytes → AEAD.
Variable DefaultResolver : WebhookClient.Resolver.
Variable net_Dialer : Duration → Duration → WebhookClient.ContextDialer (Conn := Conn).
Variable time_Now : nat → Time.

(** The parts [run] builds. *)
Record Service : Type := mkService {
  Service_secretBox : Box;
  Service_endpointOptions : EndpointService.Options;
  Service_retryPolicy : RetryPolicy;
  Service_dispatcher : WebhookClient.Dispatcher (Conn := Conn);
  Service_workerPool : Worker.Pool;
}.

Definition worker_config (cfg : Config.Config) (policy : RetryPolicy) : Worker.Config :=
  Worker.mkConfig (Config.WorkerConcurrency cfg) (Config.WorkerPollInterval cfg) (Config.WorkerLeaseDuration cfg)
    (Config.WorkerFinishTimeout cfg) policy (Config.CircuitFailureThreshold cfg) (Config.CircuitCooldown cfg).

Definition dispatcher_options (cfg : Config.Config) : WebhookClient.Options (Conn := Conn) :=
  WebhookClient.mkOptions (Config.AllowHTTP cfg) (Config.AllowPrivateTargets cfg) None None None 0.

(** The constructors [run] calls once the database is open, in the order of the
    code; [open_database] below comes before them. *)
Definition build (cfg : Config.Config) (instanceID : string) : scoped Service :=
  secretBox ← lift (map_err (wrapf "initialize secret encryption") (NewBox aes_gcm (Config.MasterKey cfg)));
  retryPolicy ← lift (map_err (wrapf "initialize retry policy")
    (NewRetryPolicy (Config.RetryBaseDelay cfg) (Config.RetryMaxDelay cfg) (Config.RetryJitter cfg)));
  let dispatcher := WebhookClient.NewDispatcher DefaultResolver net_Dialer time_Now (Decrypt secretBox) (dispatcher_options cfg) in
  _ ← defer DispatcherClosed;
  workerPool ← lift (map_err (wrapf "initialize delivery workers") (Worker.New_pool (worker_config cfg retryPolicy) instanceID));
  mret (mkService secretBox (EndpointService.mkOptions (Config.AllowHTTP cfg) (Config.AllowPrivateTargets cfg))
          retryPolicy dispatcher workerPool).

(** ** [run] *)

Variable ParseConfig : string → res (Database.PoolConfig Parsed).
Variable NewWithConfig : Database.PoolConfig Parsed → res DBPool.
Variable pool_Ping : DBPool → res unit.

Definition database_config (cfg : Config.Config) : Database.Config :=
  Database.mkConfig (Config.DatabaseURL cfg) (Config.DatabaseMinConnections cfg) (Config.DatabaseMaxConnections cfg).

Definition open_database (cfg : Config.Config) : scoped Database.DB := λ f,
  let '(closed, r) := Database.Open ParseConfig NewWithConfig pool_Ping (database_config cfg) in
  (mkFrame (released f ++ map PoolClosed closed) (deferred f), r).

(** The body of [run]; [serve] is what follows the construction of the parts. *)
Definition run_body (Getenv : string → string) (instanceID : string) (serve : Service → res unit) : scoped unit :=
  cfg ← lift (map_err (wrapf "load config") (Config.Load Getenv));
  db ← open_database cfg;
  _ ← defer (PoolClosed (Database.Close db));
  svc ← build cfg instanceID;
  lift (serve svc).

Definition run (Getenv : string → string) (instanceID : string) (serve : Service → res unit) : list release * res unit :=
  call (run_body Getenv instanceID serve).
End Main.

(** ** The version command *)

Section Version.
Context `{ZO : Zone}.

(** [output] is [os.Stdout]'s [Write]. *)
Definition writeVersion (output : bytes → res unit) (i : Info) : res unit :=
  map_err (wrapf "write version") (b ← Encode (Info_json i); output b).

(** The exit status of [main] with the arguments [args]. *)
Definition main (args : list string) (output : bytes → res unit) (i : Info) (run_result : res unit) : Z :=
  let exit (r : res unit) := match r with Ok _ => 0 | Err _ => 1 end in
  match args with
  | [_; command] =>
      if bool_decide (command ∈ ["version"; "--version"]%string) then exit (writeVersion output i) else exit run_result
  | _ => exit run_result
  end.

(** The version is one valid JSON text, written at once, whatever the linker and
    the build left in it; only the write can fail. *)
Lemma writeVersion_writes output i :
  ∃ b, json_Valid b = true ∧ writeVersion output i = map_err (wrapf "write version") (output b).
Proof.
  destruct (Encode (Info_json i)) as [b|e] eqn:E; [|discriminate E]. exists b. split.
  - by apply (Encode_valid _ b E).
  - unfold writeVersion. by rewrite E.
Qed.
End Version.
