(* ===== verification/ConfigTheorems.v ===== *)
(** * Theorems on the configuration and the process

    Past opening the database nothing refuses a configuration that loads, and
    what its settings are worth; how the process ends. *)

From S2P Require Import Prelude GoErrors GoTime GoText GoStrings Float64 Delivery GoParse Sha256 Secure Dispatcher HttpClient.
From S2P Require Import Config Main.
From S2P Require EndpointService Worker WebhookClient Database.

Lemma refuse_Ok b msg u : refuse b msg = Ok u → b = false.
Proof. by destruct b. Qed.

Section Load.
Context `{UX : UnicodeText}.
Variable Getenv : string → string.

Lemma duration_Ok key fallback d : duration Getenv key fallback = Ok d → 0 < d.
Proof. unfold duration. destruct (ParseDuration _); [|done]. destruct (_ <=? 0) eqn:E; [done|]. intros [= <-]. zbool. lia. Qed.

Lemma encryptionKey_Ok name key : encryptionKey Getenv name = Ok key → len key = 32.
Proof.
  unfold encryptionKey. case_bool_decide; [done|]. destruct (StdEncoding_DecodeString _); [|done].
  destruct (len _ =? 32) eqn:E; cbn; [|done]. intros [= <-]. by zbool.
Qed.

Lemma secret_Ok name n s : secret Getenv name n = Ok s → n <= strlen s ∧ s ≠ ""%string ∧ s = TrimSpace (Getenv name).
Proof. unfold secret. case_bool_decide; [done|]. destruct (_ <? n) eqn:E; [done|]. intros [= <-]. zbool. done. Qed.

(** The conditions a loaded configuration meets. *)
Record loaded (cfg : Config) : Prop := {
  ld_durations : Forall (λ d, 0 < d) [ReadHeaderTimeout cfg; ShutdownTimeout cfg; DatabaseConnectTimeout cfg;
    WorkerPollInterval cfg; WorkerLeaseDuration cfg; WorkerFinishTimeout cfg; CircuitCooldown cfg];
  ld_key : len (MasterKey cfg) = 32;
  ld_api : 32 <= strlen (APIKey cfg) ∧ APIKey cfg = TrimSpace (Getenv "RELAYFORGE_API_KEY");
  ld_connections : ∃ lo hi, 0 <= lo <= hi ∧ 1 <= hi
    ∧ DatabaseMinConnections cfg = wrap32 lo ∧ DatabaseMaxConnections cfg = wrap32 hi;
  ld_workers : 1 <= WorkerConcurrency cfg <= 128;
  ld_lease : wrap64 (30 * Second + WorkerFinishTimeout cfg) < WorkerLeaseDuration cfg;
  ld_retry : 0 < RetryBaseDelay cfg <= RetryMaxDelay cfg;
  ld_jitter : flt (RetryJitter cfg) f_zero = false ∧ flt f_one (RetryJitter cfg) = false;
  ld_circuit : 1 <= CircuitFailureThreshold cfg <= 100;
}.

Ltac load_step H :=
  let x := fresh "v" in let E := fresh "E" in
  apply res_bind_Ok in H as (x & E & H).

Lemma Load_loaded cfg : Load Getenv = Ok cfg → loaded cfg.
Proof.
  unfold Load. intros H. repeat load_step H. injection H as <-.
  repeat match goal with
  | H : duration _ _ _ = Ok _ |- _ => apply duration_Ok in H
  | H : refuse _ _ = Ok _ |- _ => apply refuse_Ok in H
  | H : encryptionKey _ _ = Ok _ |- _ => apply encryptionKey_Ok in H
  | H : secret _ _ _ = Ok _ |- _ => apply secret_Ok in H as (? & ? & ?)
  end; zbool.
  split; cbn; try done.
  - by repeat constructor.
  - eexists _, _. split_and!; [| | |done|done]; lia.
Qed.
End Load.


(** No constructor refuses a loaded configuration. *)
Section Build.
Context {Conn DBPool : Type} `{UX : UnicodeText}.
Variables (Getenv : string → string) (aes_gcm : bytes → AEAD) (DefaultResolver : WebhookClient.Resolver).
Variables (net_Dialer : Duration → Duration → WebhookClient.ContextDialer (Conn := Conn)) (time_Now : nat → Time).

Definition built (cfg : Config) (instanceID : string) : Service (Conn := Conn) :=
  let policy := mkRetryPolicy (RetryBaseDelay cfg) (RetryMaxDelay cfg) (RetryJitter cfg) in
  let box := mkBox (aes_gcm (MasterKey cfg)) in
  mkService box (EndpointService.mkOptions (AllowHTTP cfg) (AllowPrivateTargets cfg)) policy
    (WebhookClient.NewDispatcher DefaultResolver net_Dialer time_Now (Decrypt box) (dispatcher_options cfg))
    (Worker.mkPool (worker_config cfg policy) instanceID).

Lemma build_loaded instanceID cfg (f : frame (DBPool := DBPool)) :
  loaded Getenv cfg →
  build aes_gcm DefaultResolver net_Dialer time_Now cfg instanceID f
  = (mkFrame (released f) (DispatcherClosed :: deferred f), Ok (built cfg instanceID)).
Proof.
  intros [Hd Hk _ _ Hw _ Hr [Hj1 Hj2] Hc]. rewrite !Forall_cons in Hd. unfold build, lift, NewBox, NewRetryPolicy, mbind, scoped_bind.
  rewrite Hk, Hj1, Hj2. cbn [negb Z.eqb Pos.eqb map_err orb].
  destruct (Z.leb_spec (RetryBaseDelay cfg) 0), (Z.ltb_spec (RetryMaxDelay cfg) (RetryBaseDelay cfg)); try lia.
  cbn [map_err defer]. unfold Worker.New_pool, worker_config.
  cbn [Worker.Config_Concurrency Worker.Config_PollInterval Worker.Config_LeaseDuration Worker.Config_FinishTimeout
       Worker.Config_CircuitThreshold Worker.Config_CircuitCooldown].
  repeat match goal with
  | |- context [?a <? ?b] => destruct (Z.ltb_spec a b); [lia|]
  | |- context [?a <=? ?b] => destruct (Z.leb_spec a b); [lia|]
  end. done.
Qed.
End Build.

(** [run], once the settings are read: only opening the database can stop it
    from serving. *)
Lemma run_with_Load {Conn Parsed DBPool} `{UX : UnicodeText} (aes_gcm : bytes → AEAD) DefaultResolver
    (net_Dialer : Duration → Duration → WebhookClient.ContextDialer (Conn := Conn)) time_Now
    ParseConfig (NewWithConfig : Database.PoolConfig Parsed → res DBPool) pool_Ping Getenv instanceID serve :
  run aes_gcm DefaultResolver net_Dialer time_Now ParseConfig NewWithConfig pool_Ping Getenv instanceID serve =
  match Load Getenv with
  | Err err => ([], Err (wrapf "load config" err))
  | Ok cfg =>
      match Database.Open ParseConfig NewWithConfig pool_Ping (database_config cfg) with
      | (closed, Err err) => (map PoolClosed closed, Err err)
      | (_, Ok db) => ([DispatcherClosed; PoolClosed (Database.DB_pool db)],
                       serve (built aes_gcm DefaultResolver net_Dialer time_Now cfg instanceID))
      end
  end.
Proof.
  unfold run, call, run_body, open_database, lift, mbind, scoped_bind. cbn [released deferred].
  destruct (Load Getenv) as [cfg|err] eqn:El; cbn [map_err]; [|done].
  destruct (Database.Open _ _ _ _) as [closed [db|err]] eqn:Eo; cbn [released deferred app]; [|by rewrite app_nil_r].
  apply Database.Open_keeps_nothing in Eo as (-> & _). unfold defer. cbn [released deferred map].
  by rewrite (build_loaded Getenv) by by apply Load_loaded.
Qed.


#[export] Instance ascii_text : UnicodeText := {| Quote := λ s, s; unicode_ToUpper := λ r, r |}.

(** The two variables that have no default. *)
Definition required : list (string * string) :=
  [("RELAYFORGE_MASTER_KEY", "AAECAwQFBgcICQoLDA0ODxAREhMUFRYXGBkaGxwdHh8=");
   ("RELAYFORGE_API_KEY", "0123456789abcdef0123456789abcdef")]%string.


Section Demo.


End Demo.

(** ** Settings at the edges of the integers *)

Definition load_with (k v : string) : res Config := Load (environment ((k, v) :: required)).

(** [int32(databaseMaxConnections)] is not checked: the settings above the
    largest [int32] are accepted and wrap, here to a negative pool size. *)
Lemma connections_wrap :
  match load_with "DATABASE_MAX_CONNECTIONS" "2147483648" with
  | Ok cfg => DatabaseMaxConnections cfg = -2147483648
  | Err _ => False
  end.
Proof. vm_compute. reflexivity. Qed.

(** The lease check adds 30 s to the finish timeout as [int64]s: next to the
    largest duration the sum is negative and the check accepts any lease. *)
Lemma lease_check_wraps :
  match load_with "WORKER_FINISH_TIMEOUT" "2562047h47m" with
  | Ok cfg => WorkerLeaseDuration cfg = 45 * Second ∧ WorkerLeaseDuration cfg < WorkerFinishTimeout cfg
  | Err _ => False
  end.
Proof. vm_compute. by split. Qed.

(** Neither comparison of the jitter check holds of NaN. *)
Lemma jitter_NaN_loads :
  match load_with "RETRY_JITTER" "nan" with Ok cfg => RetryJitter cfg = NaN | Err _ => False end.
Proof. vm_compute. reflexivity. Qed.

(** ** The process *)

(** Everything [run] opened is closed when it returns, whatever fails, in the
    reverse order: without a pool there is nothing to close; a pool that was
    created is closed last and once, after the dispatcher if that was built;
    and the result is that of the serving part once everything is built. *)
Theorem run_releases {Conn Parsed DBPool} `{UX : UnicodeText} (aes_gcm : bytes → AEAD) DefaultResolver
    (net_Dialer : Duration → Duration → WebhookClient.ContextDialer (Conn := Conn)) time_Now
    ParseConfig (NewWithConfig : Database.PoolConfig Parsed → res DBPool) pool_Ping Getenv instanceID serve :
  run aes_gcm DefaultResolver net_Dialer time_Now ParseConfig NewWithConfig pool_Ping Getenv instanceID serve =
  match Load Getenv with
  | Err err => ([], Err (wrapf "load config" err))
  | Ok cfg =>
      match ParseConfig (DatabaseURL cfg) with
      | Err err => ([], Err (wrapf "parse database config" err))
      | Ok parsed =>
          match NewWithConfig (Database.with_sizes (database_config cfg) parsed) with
          | Err err => ([], Err (wrapf "create database pool" err))
          | Ok pool =>
              match pool_Ping pool with
              | Err err => ([PoolClosed pool], Err (wrapf "ping database" err))
              | Ok _ => ([DispatcherClosed; PoolClosed pool],
                         serve (built aes_gcm DefaultResolver net_Dialer time_Now cfg instanceID))
              end
          end
      end
  end.
Proof.
  rewrite run_with_Load. destruct (Load Getenv) as [cfg|err]; [|done]. unfold Database.Open, Database.Ping.
  change (Database.Config_URL (database_config cfg)) with (DatabaseURL cfg).
  destruct (ParseConfig _) as [parsed|err]; [|done]. destruct (NewWithConfig _) as [pool|err]; [|done].
  cbn [Database.DB_pool]. by destruct (pool_Ping pool) as [[]|err].
Qed.

(** What [finish] needs to return without an error. *)
Lemma finish_Ok e : finish e = Ok tt ↔
  Shutdown_error e = None ∧ workers_done e = true
  ∧ (∀ err, late_error e = Some err → errors_is err ErrServerClosed = true)
  ∧ (∀ err, stopped_by e = ServeReturned err → errors_is err ErrServerClosed = true).
Proof.
  unfold finish, serve_error. split.
  - intros H. apply res_bind_Ok in H as ([] & H1 & H). apply res_bind_Ok in H as ([] & H2 & H).
    apply res_bind_Ok in H as ([] & H3 & H). split_and!.
    + by destruct (Shutdown_error e).
    + by destruct (workers_done e).
    + intros err E. rewrite E in H2. by destruct (errors_is err ErrServerClosed).
    + intros err E. rewrite E in H. by destruct (errors_is err ErrServerClosed).
  - intros (-> & -> & Hl & Hs). cbn [mbind res_bind].
    destruct (late_error e) as [late|]; [rewrite (Hl late) by done|]; cbn [mbind res_bind];
      (destruct (stopped_by e) as [|err]; [done|by rewrite (Hs err)]).
Qed.
