(* ===== verification/ReadOnly.v ===== *)
(** * Operations that only read

    [readonly m]: no run of [m], whatever faults it meets, changes the durable
    database. [tx m] is the same inside a transaction whose working copy is
    still the durable one, so that its commit changes nothing either. *)

From S2P Require Import Prelude GoErrors GoTime GoText Delivery Schema Tx TxLogic Eventing StoreEvents.
From S2P Require Import StoreDeliveries StoreEndpoints.
From S2P Require Import EndpointService.
From S2P Require Import Services.

Section ReadOnly.
Context `{PG : Postgres}.

Definition readonly {A} (m : M A) : Prop := ∀ s r s', runs m s r s' → durable s' = durable s.

Definition untouched (d0 : db) : db → db → Prop := λ D _, D = d0.
Definition unchanged (d0 : db) : db → db → Prop := λ D W, D = d0 ∧ W = d0.

Definition tx {A} (m : M A) : Prop := ∀ d0, triple (unchanged d0) m (λ _, unchanged d0) (untouched d0).

(** A query: it leaves the database it is given. *)
Definition query {A} (f : db → res (db * A)) : Prop := ∀ d d' a, f d = Ok (d', a) → d' = d.

Lemma readonly_triple {A} (m : M A) :
  (∀ d0, triple (untouched d0) m (λ _, untouched d0) (untouched d0)) → readonly m.
Proof. intros H s r s' Hr. specialize (H _ s r s' eq_refl Hr). by destruct r. Qed.

Lemma triple_readonly {A} (m : M A) d0 :
  readonly m → triple (untouched d0) m (λ _, untouched d0) (untouched d0).
Proof. intros Hm s r s' HP Hr. apply Hm in Hr. unfold holds, untouched in *. destruct r; congruence. Qed.

Lemma readonly_ret {A} (a : A) : readonly (mret a).
Proof. by intros s r s' [_ ->]%runs_ret. Qed.

Lemma readonly_throw {A} e : readonly (throw (A := A) e).
Proof. by intros s r s' [_ ->]%runs_throw. Qed.

Lemma readonly_bind {A B} (m : M A) (f : A → M B) : readonly m → (∀ a, readonly (f a)) → readonly (m ≫= f).
Proof.
  intros Hm Hf s r s' [(e & H & _)|(a & s1 & H1 & H2)]%runs_bind; [by eapply Hm|].
  apply Hm in H1. apply Hf in H2. congruence.
Qed.

Lemma readonly_try {A} (m : M A) : readonly m → readonly (try m).
Proof. intros Hm s r s' (r' & H & _)%runs_try. by eapply Hm. Qed.

Lemma readonly_wrapping {A} msg (m : M A) : readonly m → readonly (wrapping msg m).
Proof. intros Hm s r s' (r' & H & _)%runs_wrapping. by eapply Hm. Qed.

Lemma readonly_io : readonly io.
Proof. by intros s r s' ([H _] & _)%runs_io. Qed.

Lemma tx_ret {A} (a : A) : tx (mret a).
Proof. intros d0. by apply triple_ret. Qed.

Lemma tx_throw {A} e : tx (throw (A := A) e).
Proof. intros d0. apply triple_throw. by intros D W [-> _]. Qed.

Lemma tx_bind {A B} (m : M A) (f : A → M B) : tx m → (∀ a, tx (f a)) → tx (m ≫= f).
Proof. intros Hm Hf d0. eapply triple_bind; [apply Hm|]. intros a. apply Hf. Qed.

Lemma tx_wrapping {A} msg (m : M A) : tx m → tx (wrapping msg m).
Proof. intros Hm d0. apply triple_wrapping, Hm. Qed.

Lemma tx_statement {A} (f : db → res (db * A)) : query f → tx (statement f).
Proof.
  intros Hf d0. apply triple_statement; [|by intros D W [-> _]].
  intros D W W' a [-> ->] E. apply Hf in E as ->. done.
Qed.

Lemma tx_QueryRow {A} (f : db → res (db * list A)) : query f → tx (QueryRow f).
Proof.
  intros Hf. unfold QueryRow. apply tx_bind; [by apply tx_statement|].
  intros [|x l]; [apply tx_throw|apply tx_ret].
Qed.

Lemma tx_io : tx io.
Proof. intros d0. apply triple_io; [done|by intros D W [-> _]]. Qed.

(** A transaction up to its end, which may be its commit. *)
Definition reads {A} (m : M A) : Prop := ∀ d0, triple (unchanged d0) m (λ _, untouched d0) (untouched d0).

Lemma tx_reads {A} (m : M A) : tx m → reads m.
Proof. intros Hm d0. eapply triple_consequence; [apply Hm|done|by intros a D W [-> _]]. Qed.

Lemma reads_bind {A B} (m : M A) (f : A → M B) : tx m → (∀ a, reads (f a)) → reads (m ≫= f).
Proof. intros Hm Hf d0. eapply triple_bind; [apply Hm|]. intros a. apply Hf. Qed.

Lemma reads_commit {A} msg (a : A) : reads (_ ← wrapping msg Commit; mret a).
Proof.
  intros d0. apply (triple_bind _ _ _ (λ _, untouched d0)); [|intros []; by apply triple_ret].
  apply triple_wrapping, triple_Commit; unfold unchanged, untouched; by intros D W W' [-> ->].
Qed.

(** A scanned row, or the end of the transaction. *)
Lemma reads_try {A B} (m : M A) (k : res A → M B) :
  tx m → (∀ a, reads (k (Ok a))) → (∀ e, ∃ e', k (Err e) = throw e') → reads (try m ≫= k).
Proof.
  intros Hm Hok Herr d0. eapply triple_bind; [eapply triple_try; apply Hm|].
  intros [a|e]; [apply Hok|]. destruct (Herr e) as [e' ->]. by apply triple_throw.
Qed.

(** A transaction of a read. *)
Lemma readonly_begin {A} (b : M unit) (k : unit → M A) :
  b = BeginTx ∨ (∃ msg, b = wrapping msg BeginTx) → reads (k tt) → readonly (b ≫= k).
Proof.
  intros Hb Hk. apply readonly_triple. intros d0. apply (triple_bind _ _ _ (λ _, unchanged d0)).
  - assert (H : triple (untouched d0) BeginTx (λ _, unchanged d0) (untouched d0)).
    { apply triple_BeginTx; [by intros D W ->|by intros D W W' ->]. }
    destruct Hb as [->|[msg ->]]; [exact H|by apply triple_wrapping].
  - intros []. apply Hk.
Qed.

End ReadOnly.

Create HintDb ro.
#[export] Hint Resolve readonly_ret readonly_throw readonly_bind readonly_try readonly_wrapping readonly_io : ro.
#[export] Hint Resolve tx_ret tx_throw tx_bind tx_wrapping tx_statement tx_QueryRow tx_io tx_reads reads_commit : ro.

Section Reads.
Context `{PG : Postgres} `{TE : TxEnv} `{UP : UuidParser}.

Ltac solve_query := intros d d' a; unfold query; intros E; repeat (apply res_bind_Ok in E as (? & _ & E)); by injection E as <-.

Lemma listEndpointsQuery_reads limit : query (listEndpointsQuery limit).
Proof. unfold listEndpointsQuery. solve_query. Qed.

Lemma endpointQuery_reads id : query (endpointQuery id).
Proof. unfold endpointQuery. solve_query. Qed.

Lemma deliveryQuery_reads id : query (deliveryQuery id).
Proof. unfold deliveryQuery. solve_query. Qed.

Lemma attemptsQuery_reads id : query (attemptsQuery id).
Proof. unfold attemptsQuery. solve_query. Qed.

Lemma statsQuery_reads : query statsQuery.
Proof. intros d d' a E. by injection E as <-. Qed.
#[local] Hint Resolve listEndpointsQuery_reads endpointQuery_reads deliveryQuery_reads attemptsQuery_reads
  statsQuery_reads : ro.

Lemma scan_endpoints_reads rows : readonly (scan_endpoints rows).
Proof. induction rows as [|[id e] rows IH]; cbn [scan_endpoints]; auto 10 with ro. Qed.

Lemma scan_attempts_reads rows : tx (scan_attempts rows).
Proof. induction rows as [|[id e] rows IH]; cbn [scan_attempts]; auto 10 with ro. Qed.
#[local] Hint Resolve scan_endpoints_reads scan_attempts_reads : ro.

Lemma ListEndpoints_reads limit : readonly (ListEndpoints limit).
Proof.
  unfold ListEndpoints. apply readonly_bind; [|auto 10 with ro].
  apply readonly_wrapping, readonly_begin; [by left|auto with ro].
Qed.

Lemma GetEndpoint_reads id : readonly (GetEndpoint id).
Proof.
  unfold GetEndpoint. apply readonly_bind.
  - apply readonly_try, readonly_begin; [by left|auto with ro].
  - intros [[x e]|err]; [auto with ro|]. destruct (errors_is _ _); auto with ro.
Qed.

Lemma GetDelivery_reads id : readonly (GetDelivery id).
Proof.
  unfold GetDelivery. apply readonly_begin; [eauto|]. apply reads_try; [auto with ro| |].
  - intros [[did r] [eid e]]. do 3 (apply reads_bind; [auto with ro|intros ?]). apply reads_commit.
  - intros e. destruct (errors_is _ _); eauto.
Qed.

Lemma GetOperationalStats_reads : readonly GetOperationalStats.
Proof. unfold GetOperationalStats. apply readonly_wrapping, readonly_begin; [by left|auto with ro]. Qed.

(** The services over the store. *)
Lemma service_List_reads limit : readonly (EndpointService.List_ (RE := store_endpoint_repository) limit).
Proof.
  unfold List_. destruct (_ || _); [auto with ro|]. apply readonly_wrapping, ListEndpoints_reads.
Qed.

Lemma service_Get_reads id : readonly (EndpointService.Get (RE := store_endpoint_repository) id).
Proof.
  unfold EndpointService.Get. destruct (negb _); [auto with ro|]. apply readonly_wrapping, GetEndpoint_reads.
Qed.

Lemma service_GetDelivery_reads id : readonly (Services.Get (RD := store_delivery_repository) id).
Proof.
  unfold Services.Get. destruct (negb _); [auto with ro|]. apply readonly_wrapping, GetDelivery_reads.
Qed.
End Reads.
