(* ===== verification/Api.v ===== *)
(** * The HTTP API

    [src/internal/api]: the routes, authentication, the access log, the
    response writer, the request and response bodies and every handler. The services
    behind the handlers are classes (the interfaces [EndpointService],
    [EventService] and [DeliveryService]), and so is the socket. A handler is
    a computation over the database connection that maps an exchange (the
    request's [Pattern], which the multiplexers overwrite, and the response
    writer) to an exchange, and never fails. *)

From S2P Require Import Prelude GoErrors GoTime GoText GoStrings GoParse Delivery Schema Tx Eventing StoreDeliveries.
From S2P Require Import EndpointService JsonEncode JsonDecode Mime.
From S2P Require Import Url Services.

(** ** Requests and responses *)

(** What the server reads of a request: the request line (whether its protocol
    is at least HTTP/1.1, and the parsed target), [Header.Get] and the body. *)
Record HttpRequest : Type := mkHttpRequest {
  Req_Method : string;
  Req_RequestURI : string;
  Req_Proto11 : bool;
  Req_URL : URL;
  Req_Header : string → string;
  Req_Body : stream;
}.

(** What a response writer hands to the connection. *)
Inductive wire : Type :=
  | SendHeader (status : Z) (header : list (string * string))
  | SendBody (b : bytes).

Record responseWriter : Type := mkResponseWriter {
  Header : list (string * string);
  status : Z;
  written : Z;                        (* the field [bytes] *)
  wroteHeader : bool;
  sent : list wire;
}.

(** The response writer [accessLog] makes. *)
Definition new_writer : responseWriter := mkResponseWriter [] 200 0 false [].

(** [w.Header().Set]. *)
Definition Set_ (k v : string) (w : responseWriter) : responseWriter :=
  mkResponseWriter (List.filter (λ kv, negb (bool_decide (kv.1 = k))) (Header w) ++ [(k, v)])
    (status w) (written w) (wroteHeader w) (sent w).

Definition WriteHeader (code : Z) (w : responseWriter) : responseWriter :=
  if wroteHeader w then w
  else mkResponseWriter (Header w) code (written w) true (sent w ++ [SendHeader code (Header w)]).

(** The process's time zone, how many bytes of a write the connection takes, and
    the time it takes to serve a request. *)
Class HttpOutput := {
  local_zone :: Zone;
  conn_write : bytes → Z;
  served_in : HttpRequest → Duration;
}.

(** Conversion does not print bodies. *)
#[global] Opaque Encode.

Section Writer.
Context `{HO : HttpOutput}.

Definition Write (body : bytes) (w : responseWriter) : responseWriter :=
  let w := if negb (wroteHeader w) then WriteHeader 200 w else w in
  mkResponseWriter (Header w) (status w) (written w + conn_write body) (wroteHeader w) (sent w ++ [SendBody body]).

(** The encoder writes a whole value at once, or nothing. *)
Definition writeJSON (code : Z) (body : json) (w : responseWriter) : responseWriter :=
  let w := WriteHeader code (Set_ "Content-Type" "application/json" w) in
  match Encode body with
  | Ok b => Write b w
  | Err _ => w
  end.

Definition error_body (code message : string) : json :=
  JObject [("error", JObject [("code", JString code); ("message", JString message)])]%string.

Definition writeError (st : Z) (code message : string) (w : responseWriter) : responseWriter :=
  writeJSON st (error_body code message) w.
End Writer.

(** ** Views *)

Definition jtime (name : string) (t : Time) : list (string * json) := [(name, JTime Local t)].
(** Members with [omitempty]. *)
Definition jtime_opt (name : string) (t : option Time) : list (string * json) :=
  match t with Some t => [(name, JTime Local t)] | None => [] end.
Definition jint_opt (name : string) (z : option Z) : list (string * json) :=
  match z with Some z => [(name, JInt z)] | None => [] end.
Definition jstring_omitempty (name s : string) : list (string * json) :=
  if bool_decide (s = ""%string) then [] else [(name, JString s)].

Record endpointResponse : Type := mkEndpointResponse {
  ER_ID : string;
  ER_Name : string;
  ER_URL : string;
  ER_Secret : string;
  ER_TimeoutMS : Z;
  ER_MaxAttempts : Z;
  ER_ConsecutiveFailures : Z;
  ER_CircuitOpenUntil : option Time;
  ER_DisabledAt : option Time;
  ER_CreatedAt : Time;
  ER_UpdatedAt : Time;
}.

(** The members by the tags of the struct. *)
Definition endpointResponse_json (r : endpointResponse) : json :=
  JObject ([("id", JString (ER_ID r)); ("name", JString (ER_Name r)); ("url", JString (ER_URL r))]%string
    ++ jstring_omitempty "secret" (ER_Secret r)
    ++ [("timeout_ms", JInt (ER_TimeoutMS r)); ("max_attempts", JInt (ER_MaxAttempts r));
        ("consecutive_failures", JInt (ER_ConsecutiveFailures r))]%string
    ++ jtime_opt "circuit_open_until" (ER_CircuitOpenUntil r) ++ jtime_opt "disabled_at" (ER_DisabledAt r)
    ++ jtime "created_at" (ER_CreatedAt r) ++ jtime "updated_at" (ER_UpdatedAt r)).

Definition endpointView (v : Endpoint) : endpointResponse :=
  mkEndpointResponse (Endpoint_ID v) (Endpoint_Name v) (Endpoint_URL v) "" (Milliseconds (Endpoint_Timeout v))
    (Endpoint_MaxAttempts v) (Endpoint_ConsecutiveFailures v) (Endpoint_CircuitOpenUntil v)
    (Endpoint_DisabledAt v) (Endpoint_CreatedAt v) (Endpoint_UpdatedAt v).

Definition with_secret (s : string) (r : endpointResponse) : endpointResponse :=
  mkEndpointResponse (ER_ID r) (ER_Name r) (ER_URL r) s (ER_TimeoutMS r) (ER_MaxAttempts r)
    (ER_ConsecutiveFailures r) (ER_CircuitOpenUntil r) (ER_DisabledAt r) (ER_CreatedAt r) (ER_UpdatedAt r).

Record deliveryResponse : Type := mkDeliveryResponse {
  DR_ID : string;
  DR_EventID : string;
  DR_EndpointID : string;
  DR_Status : Status;
  DR_AttemptCount : Z;
  DR_MaxAttempts : Z;
  DR_NextAttemptAt : Time;
  DR_LockedUntil : option Time;
  DR_LastStatusCode : option Z;
  DR_LastError : string;
  DR_LastCompletedAt : option Time;
  DR_CreatedAt : Time;
  DR_UpdatedAt : Time;
}.

Definition deliveryView (v : Delivery) : deliveryResponse :=
  mkDeliveryResponse (Delivery_ID v) (Delivery_EventID v) (Delivery_EndpointID v) (Delivery_Status v)
    (Delivery_AttemptCount v) (Delivery_MaxAttempts v) (Delivery_NextAttemptAt v) (Delivery_LockedUntil v)
    (Delivery_LastStatusCode v) (Delivery_LastError v) (Delivery_LastCompletedAt v)
    (Delivery_CreatedAt v) (Delivery_UpdatedAt v).

Definition deliveryResponse_json (r : deliveryResponse) : json :=
  JObject ([("id", JString (DR_ID r)); ("event_id", JString (DR_EventID r)); ("endpoint_id", JString (DR_EndpointID r));
            ("status", JString (Status_string (DR_Status r))); ("attempt_count", JInt (DR_AttemptCount r));
            ("max_attempts", JInt (DR_MaxAttempts r))]%string
    ++ jtime "next_attempt_at" (DR_NextAttemptAt r) ++ jtime_opt "locked_until" (DR_LockedUntil r)
    ++ jint_opt "last_status_code" (DR_LastStatusCode r) ++ jstring_omitempty "last_error" (DR_LastError r)
    ++ jtime_opt "last_completed_at" (DR_LastCompletedAt r)
    ++ jtime "created_at" (DR_CreatedAt r) ++ jtime "updated_at" (DR_UpdatedAt r)).

Definition eventResponse_json (e : Event) : json :=
  JObject [("id", JString (Event_ID e)); ("endpoint_id", JString (Event_EndpointID e)); ("type", JString (Event_Type e));
           ("payload", JRaw (Event_Payload e)); ("idempotency_key", JString (Event_IdempotencyKey e));
           ("created_at", JTime Local (Event_CreatedAt e))]%string.

Definition attemptResponse_json (a : Attempt) : json :=
  JObject ([("id", JString (Attempt_ID a)); ("number", JInt (Attempt_Number a))]%string
    ++ jint_opt "status_code" (Attempt_StatusCode a) ++ jstring_omitempty "response_body" (Attempt_ResponseBody a)
    ++ jstring_omitempty "error" (Attempt_ErrorMessage a)
    ++ [("duration_ms", JInt (Milliseconds (Attempt_Duration a)))]%string
    ++ jtime "started_at" (Attempt_StartedAt a) ++ jtime "completed_at" (Attempt_CompletedAt a)).

Definition details_json (d : Details) : json :=
  JObject [("delivery", deliveryResponse_json (deliveryView (Details_Delivery d)));
           ("event", eventResponse_json (Details_Event d));
           ("attempts", JArray (map attemptResponse_json (Details_Attempts d)))]%string.

(** ** Decoding *)

Record createEndpointRequest : Type := mkCreateEndpointRequest {
  CER_Name : string;
  CER_URL : string;
  CER_TimeoutMS : Z;
  CER_MaxAttempts : Z;
}.

Record publishEventRequest : Type := mkPublishEventRequest {
  PER_EndpointID : string;
  PER_Type : string;
  PER_Payload : bytes;
}.

(** Stores a decoded value into one field of the target. *)
Definition into {T A} (get : T → A) (set : A → T → T) (store : bytes → A → A * mismatch) (raw : bytes) (t : T) : T * mismatch :=
  let '(v, m) := store raw (get t) in (set v t, m).

Definition createEndpointRequest_type `{UnicodeText} : struct_type createEndpointRequest :=
  mkStruct "createEndpointRequest" "api.createEndpointRequest"
    [mkField "name" (into CER_Name
       (λ v t, mkCreateEndpointRequest v (CER_URL t) (CER_TimeoutMS t) (CER_MaxAttempts t)) store_string);
     mkField "url" (into CER_URL
       (λ v t, mkCreateEndpointRequest (CER_Name t) v (CER_TimeoutMS t) (CER_MaxAttempts t)) store_string);
     mkField "timeout_ms" (into CER_TimeoutMS
       (λ v t, mkCreateEndpointRequest (CER_Name t) (CER_URL t) v (CER_MaxAttempts t)) store_int);
     mkField "max_attempts" (into CER_MaxAttempts
       (λ v t, mkCreateEndpointRequest (CER_Name t) (CER_URL t) (CER_TimeoutMS t) v) store_int)]
    (mkCreateEndpointRequest "" "" 0 0).

Definition publishEventRequest_type : struct_type publishEventRequest :=
  mkStruct "publishEventRequest" "api.publishEventRequest"
    [mkField "endpoint_id" (into PER_EndpointID (λ v t, mkPublishEventRequest v (PER_Type t) (PER_Payload t)) store_string);
     mkField "type" (into PER_Type (λ v t, mkPublishEventRequest (PER_EndpointID t) v (PER_Payload t)) store_string);
     mkField "payload" (into PER_Payload (λ v t, mkPublishEventRequest (PER_EndpointID t) (PER_Type t) v) store_raw)]
    (mkPublishEventRequest "" "" []).

Definition errUnsupportedMediaType : error :=
  Sentinel "api.errUnsupportedMediaType" "Content-Type must be application/json".

Definition decodeJSON `{UX : UnicodeText} `{UT : UnicodeTables} {T} (target : struct_type T) (r : HttpRequest)
    (maximumBytes : Z) : res T :=
  match ParseMediaType (Req_Header r "Content-Type") with
  | Err _ => Err errUnsupportedMediaType
  | Ok mediaType =>
      if negb (bool_decide (mediaType = "application/json"%string)) then Err errUnsupportedMediaType
      else
        let decoder := NewDecoder (MaxBytesReader maximumBytes (Req_Body r)) in
        let decoder := DisallowUnknownFields decoder in
        match Decode target decoder with
        | Err err => Err (wrapf "invalid JSON" err)
        | Ok (value, decoder) =>
          match Decode empty_struct decoder with
          | Err err => if errors_is err io_EOF then Ok value
                       else Err (New "request body must contain one JSON object")
          | Ok _ => Err (New "request body must contain one JSON object")
          end
      end
  end.

(** ** The services behind the handlers *)

Class ApiEndpoints `{Postgres} := {
  svc_Create : CreateInput → M Created;
  svc_List : Z → M (list Endpoint);
  svc_Get : string → M Endpoint;
  svc_Disable : string → M Endpoint;
}.

Class ApiEvents `{Postgres} := { svc_Publish : PublishInput → M Enqueued }.

Class ApiDeliveries `{Postgres} := {
  svc_GetDelivery : string → M Details;
  svc_Replay : string → M Delivery;
}.

Definition maximumEndpointBody : Z := Z.shiftl 64 10.
Definition maximumEventBody : Z := MaximumPayloadBytes + 4096.

(** ** Handlers *)

Record exchange : Type := mkExchange { Pattern : string; writer : responseWriter }.

Definition answer (f : responseWriter → responseWriter) (x : exchange) : exchange :=
  mkExchange (Pattern x) (f (writer x)).

Section Handlers.
Context `{PG : Postgres} `{HO : HttpOutput} `{UT : UnicodeTables} `{UX : UnicodeText}.
Context `{SE : !ApiEndpoints} `{SV : !ApiEvents} `{SD : !ApiDeliveries}.

(** A handler, with the values of the pattern's wildcards. *)
Definition handler : Type := HttpRequest → (string → string) → exchange → M exchange.

(** The two answers to a request that does not decode. *)
Definition writeDecodeError (err : error) : responseWriter → responseWriter :=
  if errors_is err errUnsupportedMediaType
  then writeError 415 "unsupported_media_type" (error_text err)
  else writeError 400 "invalid_request" (error_text err).

Definition writeEndpointError (err : error) : responseWriter → responseWriter :=
  if errors_is err endpoint_ErrInvalid
  then writeError 400 "invalid_request" (TrimPrefix (error_text err) (error_text endpoint_ErrInvalid +:+ ": "))
  else if errors_is err endpoint_ErrNotFound then writeError 404 "not_found" "endpoint not found"
  else writeError 500 "internal_error" "internal server error".

Definition writeEventError (err : error) : responseWriter → responseWriter :=
  if errors_is err eventing_ErrInvalid
  then writeError 400 "invalid_request"
         (TrimPrefix (TrimPrefix (error_text err) "enqueue event: ") (error_text eventing_ErrInvalid +:+ ": "))
  else if errors_is err endpoint_ErrNotFound then writeError 404 "not_found" "endpoint not found"
  else if errors_is err eventing_ErrEndpointDisabled then writeError 409 "endpoint_disabled" "endpoint is disabled"
  else if errors_is err ErrIdempotencyConflict
  then writeError 409 "idempotency_conflict" "idempotency key was already used with a different event"
  else writeError 500 "internal_error" "internal server error".

Definition writeDeliveryError (err : error) : responseWriter → responseWriter :=
  if errors_is err delivery_ErrInvalid
  then writeError 400 "invalid_request" (TrimPrefix (error_text err) (error_text delivery_ErrInvalid +:+ ": "))
  else if errors_is err delivery_ErrNotFound then writeError 404 "not_found" "delivery not found"
  else if errors_is err ErrNotReplayable
  then writeError 409 "not_replayable" "only dead deliveries can be replayed"
  else if errors_is err delivery_ErrEndpointDisabled
  then writeError 409 "endpoint_disabled" "delivery endpoint is disabled"
  else writeError 500 "internal_error" "internal server error".

Definition createEndpoint : handler := λ r _ x,
  match decodeJSON createEndpointRequest_type r maximumEndpointBody with
  | Err err => mret (answer (writeDecodeError err) x)
  | Ok request =>
      if (CER_TimeoutMS request <? 0) || (30000 <? CER_TimeoutMS request)
      then mret (answer (writeError 400 "invalid_request" "timeout_ms must be between 0 and 30000") x)
      else if (CER_MaxAttempts request <? 0) || (100 <? CER_MaxAttempts request)
      then mret (answer (writeError 400 "invalid_request" "max_attempts must be between 0 and 100") x)
      else
        created ← try (svc_Create (mkCreateInput (CER_Name request) (CER_URL request)
                                     (wrap64 (CER_TimeoutMS request * Millisecond)) (CER_MaxAttempts request)));
        match created with
        | Err err => mret (answer (writeEndpointError err) x)
        | Ok created =>
            let response := with_secret (Created_Secret created) (endpointView (Created_Endpoint created)) in
            mret (answer (λ w, writeJSON 201 (endpointResponse_json response)
                                 (Set_ "Location" ("/v1/endpoints/" +:+ Endpoint_ID (Created_Endpoint created)) w)) x)
        end
  end.

Definition listEndpoints : handler := λ r _ x,
  let raw := Query_Get "limit" (Req_URL r) in
  match (if bool_decide (raw = ""%string) then Ok 50 else Atoi raw) with
  | Err _ => mret (answer (writeError 400 "invalid_request" "limit must be an integer") x)
  | Ok limit =>
      items ← try (svc_List limit);
      match items with
      | Err err => mret (answer (writeEndpointError err) x)
      | Ok items =>
          let response := map (λ item, endpointResponse_json (endpointView item)) items in
          mret (answer (writeJSON 200 (JObject [("data", JArray response)]%string)) x)
      end
  end.

Definition getEndpoint : handler := λ r path x,
  item ← try (svc_Get (path "endpoint_id"));
  match item with
  | Err err => mret (answer (writeEndpointError err) x)
  | Ok item => mret (answer (writeJSON 200 (endpointResponse_json (endpointView item))) x)
  end.

Definition disableEndpoint : handler := λ r path x,
  item ← try (svc_Disable (path "endpoint_id"));
  match item with
  | Err err => mret (answer (writeEndpointError err) x)
  | Ok _ => mret (answer (WriteHeader 204) x)
  end.

Definition publishEvent_json (e : Enqueued) : json :=
  JObject [("event_id", JString (Event_ID (Enqueued_Event e)));
           ("delivery_id", JString (Delivery_ID (Enqueued_Delivery e)));
           ("status", JString (Status_string (Delivery_Status (Enqueued_Delivery e))));
           ("duplicate", JBool (Enqueued_Duplicate e))]%string.

Definition publishEvent : handler := λ r _ x,
  match decodeJSON publishEventRequest_type r maximumEventBody with
  | Err err => mret (answer (writeDecodeError err) x)
  | Ok request =>
      result ← try (svc_Publish (mkPublishInput (PER_EndpointID request) (PER_Type request) (PER_Payload request)
                                   (Req_Header r "Idempotency-Key")));
      match result with
      | Err err => mret (answer (writeEventError err) x)
      | Ok result =>
          mret (answer (λ w, writeJSON 202 (publishEvent_json result)
                               (Set_ "Location" ("/v1/deliveries/" +:+ Delivery_ID (Enqueued_Delivery result)) w)) x)
      end
  end.

Definition getDelivery : handler := λ r path x,
  details ← try (svc_GetDelivery (path "delivery_id"));
  match details with
  | Err err => mret (answer (writeDeliveryError err) x)
  | Ok details => mret (answer (writeJSON 200 (details_json details)) x)
  end.

Definition replayDelivery : handler := λ r path x,
  result ← try (svc_Replay (path "delivery_id"));
  match result with
  | Err err => mret (answer (writeDeliveryError err) x)
  | Ok result =>
      mret (answer (λ w, writeJSON 202 (deliveryResponse_json (deliveryView result))
                           (Set_ "Location" ("/v1/deliveries/" +:+ Delivery_ID result) w)) x)
  end.
End Handlers.
