(* ===== verification/ApiServices.v ===== *)
(** * The services behind the API

    The three services of the repository, over the store, as the interfaces the
    handlers call. *)

From S2P Require Import Prelude GoErrors GoTime GoText GoStrings GoParse Delivery Schema Tx Eventing StoreEvents.
From S2P Require Import StoreDeliveries StoreEndpoints EndpointService.
From S2P Require Import Services ReadOnly JsonEncode JsonDecode Mime Api.

(** What the API relies on: the reading operations of the services read. *)
Class ReadingServices `{PG : Postgres} {SE : ApiEndpoints} {SD : ApiDeliveries} : Prop := {
  svc_List_reads : ∀ n, readonly (svc_List n);
  svc_Get_reads : ∀ id, readonly (svc_Get id);
  svc_GetDelivery_reads : ∀ id, readonly (svc_GetDelivery id);
}.

Section Services.
Context `{PG : Postgres} `{UU : Uuids} `{UP : UuidParser} `{UX : UnicodeText} `{UT : UnicodeTables} `{TE : TxEnv}.
Variable Encrypt : bytes → bytes → res bytes.
Variable random : res bytes.
Variable options : Options.

Definition api_endpoints : ApiEndpoints := {|
  svc_Create := Create Encrypt random options;
  svc_List := List_;
  svc_Get := EndpointService.Get;
  svc_Disable := Disable;
|}.

Definition api_events : ApiEvents := {| svc_Publish := Publish |}.

Definition api_deliveries : ApiDeliveries := {|
  svc_GetDelivery := Services.Get;
  svc_Replay := Replay;
|}.

Lemma api_reads : ReadingServices (SE := api_endpoints) (SD := api_deliveries).
Proof. split; [apply service_List_reads|apply service_Get_reads|apply service_GetDelivery_reads]. Qed.
End Services.

