(* ===== verification/ApiServer.v ===== *)
(** * The API server

    [src/internal/api/server.go]: the health and version handlers,
    authentication, the routes and the access log around them, on the
    multiplexer and the answers of package net/http. *)

From S2P Require Import Prelude GoErrors GoTime GoText GoStrings GoParse Delivery Schema Tx Eventing StoreDeliveries.
From S2P Require Import Netip Url Mux EndpointService.
From S2P Require Import Services BuildInfo JsonEncode JsonDecode Mime Api.

(** ** Package net/http's own answers *)

Section Replies.
Context `{HO : HttpOutput} `{UX : UnicodeText}.

(** [w.Header().Del]. *)
Definition Del (k : string) (w : responseWriter) : responseWriter :=
  mkResponseWriter (List.filter (λ kv, negb (bool_decide (kv.1 = k))) (Header w)) (status w) (written w) (wroteHeader w) (sent w).

(** [http.Error]. *)
Definition http_Error (text : string) (code : Z) (w : responseWriter) : responseWriter :=
  Write (bytes_of text ++ [x0a])
    (WriteHeader code (Set_ "X-Content-Type-Options" "nosniff"
       (Set_ "Content-Type" "text/plain; charset=utf-8" (Del "Content-Length" w)))).

Definition htmlEscape (s : bytes) : bytes :=
  concat (map (λ c, if zb c =? 38 then bytes_of "&amp;" else if zb c =? 60 then bytes_of "&lt;"
                    else if zb c =? 62 then bytes_of "&gt;" else if zb c =? 34 then bytes_of "&#34;"
                    else if zb c =? 39 then bytes_of "&#39;" else [c]) s).

Definition hexEscapeNonASCII (s : bytes) : bytes :=
  concat (map (λ c, if 128 <=? zb c then [x25; hex_digit (zb c / 16); hex_digit (zb c mod 16)] else [c]) s).

(** What [http.Redirect] makes of a URL that begins with a slash. *)
Definition redirect_location (url : string) : bytes :=
  match url_Parse url with
  | Err _ => bytes_of url
  | Ok u =>
      if bool_decide (URL_Scheme u = ""%string) && bool_decide (URL_Host u = ""%string) then
        let '(path, query) := match cut_bytes x3f (bytes_of url) with Some (p, q) => (p, x3f :: q) | None => (bytes_of url, []) end in
        let cleaned := path_Clean path in
        cleaned ++ when (ends_in_slash path && negb (ends_in_slash cleaned)) [x2f] ++ query
      else bytes_of url
  end.

Definition StatusTemporaryRedirect : Z := 307.

(** [http.RedirectHandler(url, 307)]. *)
Definition Redirect (url method : string) (w : responseWriter) : responseWriter :=
  let location := redirect_location url in
  let hadCT := existsb (λ kv, bool_decide (kv.1 = "Content-Type"%string)) (Header w) in
  let w := Set_ "Location" (string_of (hexEscapeNonASCII location)) w in
  let w := if negb hadCT && bool_decide (method ∈ ["GET"; "HEAD"]%string) then Set_ "Content-Type" "text/html; charset=utf-8" w else w in
  let w := WriteHeader StatusTemporaryRedirect w in
  if negb hadCT && bool_decide (method = "GET"%string)
  then Write (bytes_of "<a href=" ++ [x22] ++ htmlEscape location ++ [x22] ++ bytes_of ">Temporary Redirect</a>." ++ [x0a; x0a]) w
  else w.

(** What code that only holds a response writer can do with it: change the
    headers, [WriteHeader] and [Write]. *)
Inductive writes : responseWriter → responseWriter → Prop :=
  | writes_refl w : writes w w
  | writes_headers h w w' :
      writes (mkResponseWriter h (status w) (written w) (wroteHeader w) (sent w)) w' → writes w w'
  | writes_header code w w' : writes (WriteHeader code w) w' → writes w w'
  | writes_body b w w' : writes (Write b w) w' → writes w w'.

(** What a multiplexer decides: the pattern it selects with the values of its
    wildcards, or an answer of its own with the pattern it leaves in the
    request. *)
Inductive selection : Type :=
  | Serve (pattern : string) (values : string → string)
  | Reply (pattern : string) (reply : responseWriter → responseWriter).

Definition findHandler (patterns : list string) (r : HttpRequest) : selection :=
  match find_route (tree patterns) (Req_Method r) (Req_URL r) with
  | Matched p matches => Serve (pattern_text p) (PathValue p matches)
  | Redirected p location => Reply p (Redirect (url_String location) (Req_Method r))
  | Refused [] => Reply "" (http_Error "404 page not found" 404)
  | Refused allowed =>
      Reply "" (λ w, http_Error "Method Not Allowed" 405 (Set_ "Allow" (String.concat ", " (map string_of allowed)) w))
  end.
End Replies.

(** One call of [ObserveHTTPRequest]. *)
Record http_observation : Type := mkHttpObservation {
  observed_method : string;
  observed_route : string;
  observed_status : Z;
  observed_duration : Duration;
}.

(** What [accessLog] does besides serving: the call of the observer, if there
    is one, and the attributes of the line it logs. *)
Record access : Type := mkAccess {
  access_observed : option http_observation;
  access_method : string;
  access_path : string;
  access_status : Z;
  access_bytes : Z;
  access_duration : Duration;
}.

(** The route the observer is given. *)
Definition access_route (a : access) : string :=
  match access_observed a with Some o => observed_route o | None => "" end.

Section Server.
Context `{PG : Postgres} `{HO : HttpOutput} `{UT : UnicodeTables} `{UX : UnicodeText}.
Context `{SE : !ApiEndpoints} `{SV : !ApiEvents} `{SD : !ApiDeliveries}.

(** The fields of [Server]: [readiness] is the call, on the database's
    connection; [metrics] the handler of the metrics, if there is one; and
    whether there is an observer. *)
Record Server : Type := mkServer {
  Server_readiness : M unit;
  Server_apiKey : string;
  Server_metrics : option handler;
  Server_httpObserver : bool;
  Server_buildInfo : Info;
  Server_startedAt : Time;
}.

(** [Dependencies] without the services, and [New]; the build's information and
    the clock are arguments. *)
Record Dependencies : Type := mkDependencies {
  Readiness : M unit;
  APIKey : string;
  Metrics : option handler;
  HTTPObserver : bool;
}.

Definition New_server (dependencies : Dependencies) (current : Info) (now : Time) : Server :=
  mkServer (Readiness dependencies) (APIKey dependencies) (Metrics dependencies) (HTTPObserver dependencies) current (UTC now).

Variable s : Server.

Definition version : handler := λ _ _ x,
  mret (answer (writeJSON 200 (Info_json (Server_buildInfo s))) x).

(** [encoding/json] writes the members of a map in the order of their keys. *)
Definition live : handler := λ _ _ x,
  mret (answer (writeJSON 200
    (JObject [("started_at", JTime UTC_location (Server_startedAt s)); ("status", JString "ok")]%string)) x).

Definition ready : handler := λ _ _ x,
  checked ← try (Server_readiness s);
  match checked with
  | Err _ => mret (answer (writeJSON 503 (JObject [("status", JString "not_ready")]%string)) x)
  | Ok _ => mret (answer (writeJSON 200 (JObject [("status", JString "ready")]%string)) x)
  end.

(** The test of [authenticate]. *)
Definition authorized (r : HttpRequest) : bool :=
  let '(scheme, token, found) := Cut (Req_Header r "Authorization") x20 in
  found && bool_decide (scheme = "Bearer"%string) && bool_decide (bytes_of token = bytes_of (Server_apiKey s)).

Definition authenticate (next : handler) : handler := λ r path x,
  if negb (authorized r)
  then mret (answer (λ w, writeError 401 "unauthorized" "valid bearer token is required"
                            (Set_ "WWW-Authenticate" "Bearer" w)) x)
  else next r path x.

(** A multiplexer: it stores the pattern in the request and serves it. *)
Definition ServeHTTP (routes : list (string * handler)) : handler := λ r path x,
  if bool_decide (Req_RequestURI r = "*"%string)
  then mret (answer (λ w, WriteHeader 400 (if Req_Proto11 r then Set_ "Connection" "close" w else w)) x)
  else match findHandler (map fst routes) r with
  | Serve p values =>
      match list_find (λ route, route.1 = p) routes with
      | Some (_, route) => route.2 r values (mkExchange p (writer x))
      | None => mret (mkExchange p (writer x))
      end
  | Reply p reply => mret (mkExchange p (reply (writer x)))
  end.

Definition private : list (string * handler) :=
  [("POST /v1/endpoints", createEndpoint);
   ("GET /v1/endpoints", listEndpoints);
   ("GET /v1/endpoints/{endpoint_id}", getEndpoint);
   ("DELETE /v1/endpoints/{endpoint_id}", disableEndpoint);
   ("POST /v1/events", publishEvent);
   ("GET /v1/deliveries/{delivery_id}", getDelivery);
   ("POST /v1/deliveries/{delivery_id}/replay", replayDelivery)]%string.

Definition mux : list (string * handler) :=
  [("GET /health/live", live); ("GET /health/ready", ready); ("GET /version", version)]%string
  ++ match Server_metrics s with Some metrics => [("GET /metrics"%string, metrics)] | None => [] end
  ++ [("/v1/"%string, authenticate (ServeHTTP private))].

(** [accessLog] around a handler: the response, what is observed and what is
    logged. The method is the request's, as it was sent. *)
Definition accessLog (next : handler) (r : HttpRequest) : M (responseWriter * access) :=
  x ← next r (λ _, ""%string) (mkExchange "" new_writer);
  let route := if bool_decide (Pattern x = ""%string) then "unmatched"%string else Pattern x in
  let duration := served_in r in
  let observed := if Server_httpObserver s then Some (mkHttpObservation (Req_Method r) route (status (writer x)) duration) else None in
  mret (writer x, mkAccess observed (Req_Method r) (URL_Path (Req_URL r)) (status (writer x)) (written (writer x)) duration).

Definition Handler (r : HttpRequest) : M (responseWriter * access) := accessLog (ServeHTTP mux) r.
End Server.
