(* ===== verification/Routes.v ===== *)
(** * The routes of the API

    The reference the two multiplexers of the server are compared with: a
    resource for each path, with the methods it offers. *)

From S2P Require Import Prelude GoErrors GoTime GoText GoStrings GoParse Delivery Schema Tx Eventing StoreDeliveries.
From S2P Require Import Netip Url UrlTheorems Mux MuxTheorems EndpointService.
From S2P Require Import Services BuildInfo JsonEncode JsonDecode Mime Api ApiServer.

Section Routes.
Context `{PG : Postgres} `{HO : HttpOutput} `{UT : UnicodeTables} `{UX : UnicodeText}.
Context `{SE : !ApiEndpoints} `{SV : !ApiEvents} `{SD : !ApiDeliveries}.

(** ** The reference *)

(** What a path under [/v1/] is, by its decoded segments. *)
Inductive resource : Type :=
  | Endpoints
  | OneEndpoint (id : bytes)
  | Events
  | OneDelivery (id : bytes)
  | Replay (id : bytes)
  | NoResource.

Definition resource_of (parts : list bytes) : resource :=
  match parts with
  | [kind] =>
      if bool_decide (kind = bytes_of "endpoints") then Endpoints
      else if bool_decide (kind = bytes_of "events") then Events else NoResource
  | [kind; id] =>
      if bool_decide (kind = bytes_of "endpoints") then OneEndpoint id
      else if bool_decide (kind = bytes_of "deliveries") then OneDelivery id else NoResource
  | [kind; id; verb] =>
      if bool_decide (kind = bytes_of "deliveries") && bool_decide (verb = bytes_of "replay") then Replay id else NoResource
  | _ => NoResource
  end.

(** The methods a resource offers, sorted, each with its pattern and handler. *)
Definition offers : Type := list (string * (string * handler)).

Definition offered (x : resource) : offers :=
  match x with
  | Endpoints => [("GET", ("GET /v1/endpoints", listEndpoints)); ("POST", ("POST /v1/endpoints", createEndpoint))]
  | OneEndpoint _ => [("DELETE", ("DELETE /v1/endpoints/{endpoint_id}", disableEndpoint));
                      ("GET", ("GET /v1/endpoints/{endpoint_id}", getEndpoint))]
  | Events => [("POST", ("POST /v1/events", publishEvent))]
  | OneDelivery _ => [("GET", ("GET /v1/deliveries/{delivery_id}", getDelivery))]
  | Replay _ => [("POST", ("POST /v1/deliveries/{delivery_id}/replay", replayDelivery))]
  | NoResource => []
  end%string.

Definition find_offer (method : string) (o : offers) : option (string * (string * handler)) :=
  List.find (λ entry, bool_decide (method = entry.1)) o.

(** The identifier in the path. *)
Definition identifier (x : resource) : string :=
  match x with OneEndpoint id | OneDelivery id | Replay id => string_of id | _ => "" end.

(** The methods of the Allow header: with GET comes HEAD. *)
Definition allowed (o : offers) : list string :=
  flat_map (λ '(m, _), if bool_decide (m = "GET"%string) then ["GET"; "HEAD"]%string else [m]) o.

(** Serves the method among those offered, HEAD as GET; else 405, or 404 where
    nothing is offered. *)
Definition respond (o : offers) (id : string) : handler := λ r _ x,
  let method := if bool_decide (Req_Method r = "HEAD"%string) then "GET"%string else Req_Method r in
  match find_offer method o with
  | Some (_, (pattern, h)) => h r (λ _, id) (mkExchange pattern (writer x))
  | None =>
      mret (mkExchange "" (match o with
        | [] => http_Error "404 page not found" 404 (writer x)
        | _ => http_Error "Method Not Allowed" 405 (Set_ "Allow" (String.concat ", " (allowed o)) (writer x))
        end))
  end.

(** A path under [/v1/]; a final slash is part of no resource. *)
Definition reference_private (parts : list bytes) (final : bool) : handler :=
  let x := if final then NoResource else resource_of parts in respond (offered x) (identifier x).

(** The paths outside of [/v1/]. *)
Definition public (s : Server) (parts : list bytes) : offers :=
  match parts with
  | [name] =>
      if bool_decide (name = bytes_of "version") then [("GET", ("GET /version", version s))]
      else match Server_metrics s with
           | Some metrics => if bool_decide (name = bytes_of "metrics") then [("GET", ("GET /metrics", metrics))] else []
           | None => []
           end
  | [health; name] =>
      if bool_decide (health = bytes_of "health") then
        if bool_decide (name = bytes_of "live") then [("GET", ("GET /health/live", live s))]
        else if bool_decide (name = bytes_of "ready") then [("GET", ("GET /health/ready", ready s))] else []
      else []
  | _ => []
  end%string.

(** Where [/v1] is redirected to. *)
Definition with_slash (u : URL) : string :=
  url_String (local_URL (string_of (cleanPath (bytes_of (URL_Path u)) ++ [x2f])) (URL_RawQuery u)).

Definition reference (s : Server) (parts : list bytes) (final : bool) : handler := λ r path x,
  match parts with
  | v1 :: rest =>
      if bool_decide (v1 = bytes_of "v1") then
        if bool_decide (rest = []) && negb final
        then mret (mkExchange "/v1/" (Redirect (with_slash (Req_URL r)) (Req_Method r) (writer x)))
        else authenticate s (reference_private rest final) r path (mkExchange "/v1/" (writer x))
      else respond (if final then [] else public s parts) "" r path x
  | [] => respond [] "" r path x
  end.

(** ** The trees *)

Definition leaf (s : string) : node := Node (Some (parsePattern s)) [] None None.
Definition inner (children : list (string * node)) (e : option node) : node :=
  Node None (map (λ '(k, n), (bytes_of k, n)) children) e None.

Definition private_POST : node :=
  inner [("v1", inner [("endpoints", leaf "POST /v1/endpoints"); ("events", leaf "POST /v1/events");
    ("deliveries", inner [] (Some (inner [("replay", leaf "POST /v1/deliveries/{delivery_id}/replay")] None)))] None)]%string None.
Definition private_GET : node :=
  inner [("v1", inner [("endpoints", Node (Some (parsePattern "GET /v1/endpoints")) [] (Some (leaf "GET /v1/endpoints/{endpoint_id}")) None);
    ("deliveries", inner [] (Some (leaf "GET /v1/deliveries/{delivery_id}")))] None)]%string None.
Definition private_DELETE : node :=
  inner [("v1", inner [("endpoints", inner [] (Some (leaf "DELETE /v1/endpoints/{endpoint_id}")))] None)]%string None.

Definition public_GET (metrics : bool) : node :=
  inner ([("health", inner [("live", leaf "GET /health/live"); ("ready", leaf "GET /health/ready")] None);
    ("version", leaf "GET /version")]%string ++ (if metrics then [("metrics", leaf "GET /metrics")]%string else [])) None.
Definition public_any : node :=
  inner [("v1", Node None [] None (Some (parsePattern "/v1/")))]%string None.

Lemma private_tree : tree (map fst private) =
  mkMethods (map (λ '(k, n), (bytes_of k, n)) [("POST", private_POST); ("GET", private_GET); ("DELETE", private_DELETE)]%string) empty_node.
Proof. vm_compute. reflexivity. Qed.


Lemma mux_tree s : tree (map fst (mux s)) =
  mkMethods [(bytes_of "GET", public_GET (match Server_metrics s with Some _ => true | None => false end))] public_any.
Proof. unfold mux. destruct (Server_metrics s); vm_compute; reflexivity. Qed.

Lemma find_child_cons k key n cs : find_child key ((k, n) :: cs) = if bool_decide (key = k) then Some n else find_child key cs.
Proof. unfold find_child. cbn [List.find fst]. repeat case_bool_decide; try done; by subst. Qed.

Lemma find_child_nil key : find_child key [] = None.
Proof. done. Qed.
Lemma bytes_of_decide a b : bool_decide (bytes_of a = bytes_of b) = bool_decide (a = b).
Proof. apply bool_decide_ext. split; [apply bytes_of_inj|by intros ->]. Qed.


(** A segment that is neither empty nor a slash, as those of clean paths. *)
Definition segment_ok (part : bytes) : Prop := part ≠ [] ∧ part ≠ [x2f].

Lemma match_cons pat cs e seg rest matches : segment_ok seg →
  match_segments (Node pat cs e None) (seg :: rest) matches =
  or_else (c ← find_child seg cs; match_segments c rest matches) (c ← e; match_segments c rest (matches ++ [seg])).
Proof.
  intros [H1 H2]. cbn [match_segments]. rewrite !bool_decide_eq_false_2 by done.
  destruct (c ← find_child seg cs; _); [done|]. cbn [or_else]. by destruct (c ← e; _).
Qed.

Lemma match_nil pat cs e m matches : match_segments (Node pat cs e m) [] matches = option_map (λ p, (p, matches)) pat.
Proof. done. Qed.

Lemma match_empty segs matches : match_segments empty_node segs matches = None.
Proof. destruct segs; [done|]. cbn. by destruct (bool_decide _), (bool_decide _). Qed.

Lemma match_slash pat cs e rest matches :
  match_segments (Node pat cs e None) ([x2f] :: rest) matches = c ← find_child [x2f] cs; match_segments c rest matches.
Proof.
  cbn [match_segments]. rewrite (bool_decide_eq_true_2 ([x2f] = [x2f])), (bool_decide_eq_false_2 ([x2f] = [])) by done.
  by destruct (c ← find_child _ _; _).
Qed.

Lemma match_multi seg rest p matches : match_segments (Node None [] None (Some p)) (seg :: rest) matches = Some (p, matches).
Proof. cbn. by destruct (bool_decide _), (bool_decide _). Qed.

Lemma slash_not k : bool_decide ([x2f] = bytes_of k) = bool_decide (k = "/"%string).
Proof. change [x2f] with (bytes_of "/"). rewrite bytes_of_decide. by apply bool_decide_ext. Qed.

Ltac route :=
  repeat first
    [ rewrite match_cons by done | rewrite match_slash | rewrite match_multi | rewrite find_child_cons | rewrite find_child_nil
    | rewrite bytes_of_decide | rewrite slash_not
    | rewrite match_nil
    | progress cbn [mbind option_bind or_else app option_map fst snd fmap option_fmap]
    | match goal with |- context [bool_decide (?a = ?b :> string)] =>
        let r := eval vm_compute in (bool_decide (a = b)) in
        match r with true => idtac | false => idtac end; change (bool_decide (a = b)) with r
      end
    | match goal with |- context [bool_decide (?a = bytes_of ?k)] => is_var a; destruct (bool_decide_reflect (a = bytes_of k)) as [->|?]
      | |- context [bool_decide (?a = ?k)] => is_var a; destruct (bool_decide_reflect (a = k)) as [->|?] end ].

Definition matched (vals : list bytes) (entry : string * (string * handler)) : pattern * list bytes :=
  (parsePattern entry.2.1, vals).

Definition id_values (x : resource) : list bytes :=
  match x with OneEndpoint id | OneDelivery id | Replay id => [id] | _ => [] end.

Lemma private_child key parts (final : bool) : Forall segment_ok parts →
  child_segments (bytes_of key) (bytes_of "v1" :: parts ++ (if final then [[x2f]] else [])) (tree (map fst private))
  = if final then None else matched (id_values (resource_of parts)) <$> find_offer key (offered (resource_of parts)).
Proof.
  intros Hp. assert (Hv1 : segment_ok (bytes_of "v1")) by done. rewrite private_tree. unfold child_segments. cbn [map by_method].
  rewrite !find_child_cons, !bytes_of_decide, find_child_nil.
  destruct parts as [|a [|b [|c [|d l]]]]; rewrite ?Forall_cons in Hp; destruct_and?.
  all: unfold private_POST, private_GET, private_DELETE, inner, leaf; cbn [map]; destruct final; route; try done.
  all: unfold resource_of, matched, find_offer, id_values, offered; route; cbn [List.find orb andb]; route; try done.
Qed.

Lemma public_child s key parts (final : bool) : Forall segment_ok parts →
  child_segments (bytes_of key) (parts ++ (if final then [[x2f]] else [])) (tree (map fst (mux s)))
  = if final then None else matched [] <$> find_offer key (public s parts).
Proof.
  intros Hp. rewrite mux_tree. unfold child_segments. cbn [by_method].
  rewrite !find_child_cons, !bytes_of_decide, find_child_nil.
  destruct parts as [|a [|b [|c l]]]; rewrite ?Forall_cons in Hp; destruct_and?.
  all: unfold public_GET, inner, leaf; cbn [map]; destruct (Server_metrics s) as [m|] eqn:Em, final;
    cbn [app map]; route; try done.
  all: unfold public, matched, find_offer; rewrite ?Em; route; cbn [List.find orb andb]; route; try done.
Qed.

Lemma public_any_match s parts (final : bool) : Forall segment_ok parts →
  match_segments (any_method (tree (map fst (mux s)))) (parts ++ (if final then [[x2f]] else [])) []
  = match parts with
    | v1 :: rest => if bool_decide (v1 = bytes_of "v1") && negb (bool_decide (rest = []) && negb final)
                    then Some (parsePattern "/v1/", []) else None
    | [] => None
    end.
Proof.
  intros Hp. rewrite mux_tree. unfold public_any, inner. cbn [any_method map].
  destruct parts as [|a [|b l]], final; rewrite ?Forall_cons in Hp; destruct_and?; route; done.
Qed.

(** ** The reference is what the multiplexers do *)

Lemma no_HEAD x : find_offer "HEAD" (offered x) = None.
Proof. by destruct x. Qed.

Lemma public_no_HEAD s parts : find_offer "HEAD" (public s parts) = None.
Proof.
  unfold public. destruct parts as [|a [|b [|]]]; [done|..|done]; repeat case_bool_decide; try done.
  all: destruct (Server_metrics s); try done; by case_bool_decide.
Qed.

Lemma bytes_of_HEAD method : bool_decide (bytes_of method = bytes_of "HEAD") = bool_decide (method = "HEAD"%string).
Proof. apply bytes_of_decide. Qed.

(** The path of a request, from its raw segments to the decoded ones. *)
Record clean_path (u : URL) (raws : list bytes) (final : bool) : Prop := {
  cp_path : EscapedPath u = join_slash raws ++ (if final then [x2f] else []);
  cp_nonempty : raws ≠ [];
  cp_clean : Forall clean_segment raws;
  cp_slash : [x2f] ∉ map pathUnescape raws;
}.

Lemma clean_path_ok u raws final : clean_path u raws final → Forall segment_ok (map pathUnescape raws).
Proof.
  intros [_ _ H Hs]. apply Forall_forall. intros part Hp. split; [|intros ->; by apply Hs].
  apply list_elem_of_In, in_map_iff in Hp as (raw & <- & Hin%list_elem_of_In). rewrite Forall_forall in H.
  by apply unescape_nonempty, (H raw Hin).
Qed.

(** The methods of the trees that a resource offers. *)
Definition allow_list (keys : list bytes) (o : offers) : list bytes :=
  let ms := List.filter (λ m, match find_offer (string_of m) o with Some _ => true | None => false end) keys in
  sort_texts
    (if bool_decide (bytes_of "GET" ∈ ms) && negb (bool_decide (bytes_of "HEAD" ∈ ms)) then bytes_of "HEAD" :: ms else ms).

(** A multiplexer whose trees hold one resource for the path serves what the
    resource offers. *)
Lemma findHandler_offers patterns r raws final vals (o : offers) :
  clean_path (Req_URL r) raws final →
  (∀ key final', child_segments (bytes_of key) (segments_of final' raws) (tree patterns)
     = if final' then None else matched vals <$> find_offer key o) →
  (∀ final', match_segments (any_method (tree patterns)) (segments_of final' raws) [] = None) →
  find_offer "HEAD" o = None →
  findHandler patterns r =
  let o := if final then [] else o in
  match find_offer (if bool_decide (Req_Method r = "HEAD"%string) then "GET" else Req_Method r) o with
  | Some (_, (pattern, h)) => Serve pattern (PathValue (parsePattern pattern) vals)
  | None =>
      match allow_list (map fst (by_method (tree patterns))) o with
      | [] => Reply "" (http_Error "404 page not found" 404)
      | allowed => Reply "" (λ w, http_Error "Method Not Allowed" 405 (Set_ "Allow" (String.concat ", " (map string_of allowed)) w))
      end
  end.
Proof.
  intros Hc Hchild Hany Hhead. pose proof (clean_path_ok _ _ _ Hc) as Hp. destruct Hc as [H1 H2 H3 _].
  assert (Hroute : ∀ final', route_segments (tree patterns) (bytes_of (Req_Method r)) (segments_of final' raws) =
    if final' then None else
    matched vals <$> find_offer (if bool_decide (Req_Method r = "HEAD"%string) then "GET" else Req_Method r) o).
  { intros final'. unfold route_segments. rewrite !Hchild, Hany, bytes_of_HEAD.
    destruct (bool_decide_reflect (Req_Method r = "HEAD"%string)) as [->|_].
    - rewrite Hhead. cbn. destruct final'; [done|]. by destruct (find_offer "GET" o).
    - destruct final'; [done|]. by destruct (matched vals <$> _). }
  unfold findHandler. rewrite (find_route_raws _ _ _ final raws), Hroute by (done || intros _; by rewrite Hroute).
  cbv zeta. assert (Hm : matching (tree patterns) (join_slash raws ++ slash final) =
                         allow_list (map fst (by_method (tree patterns))) (if final then [] else o)).
  { rewrite matching_raws by done. unfold allow_list. cbv zeta.
    match goal with |- context [List.filter ?f (map fst (by_method (tree patterns)))] =>
      rewrite (filter_ext f (λ m, match find_offer (string_of m) (if final then [] else o) with Some _ => true | None => false end))
    end; [done|].
    intros m. rewrite <- (bytes_of_string_of m), !Hchild, string_of_bytes_of. destruct final; [done|]. by destruct (find_offer (string_of m) o). }
  rewrite Hm. destruct final; [by destruct (allow_list _ [])|].
  match goal with |- context [matched vals <$> ?e] => destruct e as [[m [p h]]|] end.
  { unfold matched. cbn [fmap option_fmap option_map fst snd]. by rewrite parsePattern_text. }
  by destruct (allow_list _ o).
Qed.

Lemma allow_nothing keys : allow_list keys [] = [].
Proof.
  unfold allow_list. cbn zeta.
  assert (List.filter (λ m, match find_offer (string_of m) [] with Some _ => true | None => false end) keys = []) as ->; [|done].
  by induction keys.
Qed.

Lemma serve_offers routes r raws final vals id (o : offers) path x :
  Req_RequestURI r ≠ "*"%string → clean_path (Req_URL r) raws final →
  (∀ key final', child_segments (bytes_of key) (segments_of final' raws) (tree (map fst routes))
     = if final' then None else matched vals <$> find_offer key o) →
  (∀ final', match_segments (any_method (tree (map fst routes))) (segments_of final' raws) [] = None) →
  find_offer "HEAD" o = None →
  allow_list (map fst (by_method (tree (map fst routes)))) o = map bytes_of (allowed o) →
  Forall (λ '(_, (pattern, h)), ∃ i h', list_find (λ route : string * handler, route.1 = pattern) routes = Some (i, (pattern, h'))
            ∧ ∀ y, h' r (PathValue (parsePattern pattern) vals) y = h r (λ _, id) y) o →
  ServeHTTP routes r path x = respond (if final then [] else o) id r path x.
Proof.
  intros Huri Hc Hchild Hany Hhead Hallow Ho. unfold ServeHTTP. rewrite bool_decide_eq_false_2 by done.
  rewrite (findHandler_offers _ _ _ _ _ _ Hc Hchild Hany Hhead). unfold respond. cbv zeta.
  destruct final; cbv iota.
  { by rewrite allow_nothing. }
  rewrite Hallow. generalize (if bool_decide (Req_Method r = "HEAD"%string) then "GET"%string else Req_Method r). intros method.
  destruct (find_offer method o) as [[m [pattern h]]|] eqn:E.
  - apply List.find_some in E as [Hin%list_elem_of_In _]. rewrite Forall_forall in Ho.
    destruct (Ho _ Hin) as (i & h' & Hf & Hh). rewrite Hf. apply Hh.
  - destruct o as [|e o']; [done|].
    assert (map string_of (map bytes_of (allowed (e :: o'))) = allowed (e :: o')) as Hs.
    { generalize (allowed (e :: o')). intros l. induction l as [|m l IH]; [done|]. cbn [map]. by rewrite string_of_bytes_of, IH. }
    destruct (map bytes_of (allowed (e :: o'))) eqn:El; [|by rewrite Hs].
    exfalso. apply map_eq_nil in El. cbn in El. destruct e as [k v]. by destruct (bool_decide _).
Qed.

(** Under [/v1/] the inner multiplexer serves the resource of the path. *)
Lemma private_reference r raw raws final path x :
  Req_RequestURI r ≠ "*"%string → clean_path (Req_URL r) (raw :: raws) final → pathUnescape raw = bytes_of "v1" →
  ServeHTTP private r path x = reference_private (map pathUnescape raws) final r path x.
Proof.
  intros Huri Hc Hraw. pose proof (clean_path_ok _ _ _ Hc) as [_ Hp]%Forall_cons. unfold reference_private.
  set (parts := map pathUnescape raws) in *.
  rewrite (serve_offers private r (raw :: raws) final (id_values (resource_of parts)) (identifier (resource_of parts)) (offered (resource_of parts))); try done.
  - destruct final; reflexivity.
  - intros key final'. unfold segments_of. cbn [map app]. rewrite Hraw. by apply private_child.
  - intros final'. rewrite private_tree. cbn [any_method]. unfold segments_of. cbn [map app]. apply match_empty.
  - apply no_HEAD.
  - rewrite private_tree. by destruct (resource_of parts); vm_compute.
  - destruct (resource_of parts); repeat constructor; (eexists _, _; split; [reflexivity|reflexivity]).
Qed.

(** ** The outer multiplexer *)

Lemma public_v1 s rest : public s (bytes_of "v1" :: rest) = [].
Proof. destruct rest as [|b [|]]; [|done..]. cbn -[bytes_of]. rewrite !bytes_of_decide. by destruct (Server_metrics s). Qed.

Lemma mux_route s method raw raws final : pathUnescape raw = bytes_of "v1" → Forall segment_ok (map pathUnescape (raw :: raws)) →
  route_segments (tree (map fst (mux s))) method (segments_of final (raw :: raws))
  = if bool_decide (raws = []) && negb final then None else Some (parsePattern "/v1/", []).
Proof.
  intros Hraw Hp.
  assert (Hchild : ∀ m, child_segments m (segments_of final (raw :: raws)) (tree (map fst (mux s))) = None).
  { intros m. rewrite <- (bytes_of_string_of m). unfold segments_of. rewrite (public_child s _ _ final Hp).
    cbn [map]. rewrite Hraw, public_v1. by destruct final. }
  unfold route_segments. rewrite !Hchild. unfold segments_of. rewrite (public_any_match s _ final Hp).
  cbn [map]. rewrite Hraw, (bool_decide_eq_true_2 (bytes_of "v1" = _)) by done. cbn [andb].
  assert (bool_decide (map pathUnescape raws = []) = bool_decide (raws = [])) as -> by by destruct raws.
  destruct (bool_decide (method = _)); by destruct (_ && _).
Qed.

(** What [/v1] and the paths under it select. *)
Lemma mux_v1 s r raw raws final :
  Req_Method r ≠ "CONNECT"%string → clean_path (Req_URL r) (raw :: raws) final → pathUnescape raw = bytes_of "v1" →
  findHandler (map fst (mux s)) r =
  if bool_decide (raws = []) && negb final
  then Reply "/v1/" (Redirect (with_slash (Req_URL r)) (Req_Method r))
  else Serve "/v1/" (PathValue (parsePattern "/v1/") []).
Proof.
  intros Hm Hc Hraw. pose proof (clean_path_ok _ _ _ Hc) as Hp. destruct Hc as [H1 H2 H3 _].
  pose proof (mux_route s (bytes_of (Req_Method r)) raw raws final Hraw Hp) as Hn.
  pose proof (mux_route s (bytes_of (Req_Method r)) raw raws true Hraw Hp) as Hn2.
  pose proof (clean_raw_segments final _ H3) as Hr. pose proof (clean_raw_segments true _ H3) as Hr2.
  assert (He : ∀ vals, exactMatch (Some (parsePattern "/v1/", vals)) (join_slash (raw :: raws) ++ slash true) = bool_decide (raws = [])).
  { intros vals. unfold exactMatch. rewrite (ends_in_slash_raws _ _ Hr2), slashes_raws by apply Hr2.
    destruct raws; cbn; [done|]. by rewrite Nat.add_1_r. }
  assert (He0 : ∀ vals, final = false → exactMatch (Some (parsePattern "/v1/", vals)) (join_slash (raw :: raws) ++ slash final) = false).
  { intros vals ->. unfold exactMatch. by rewrite (ends_in_slash_raws _ _ Hr). }
  unfold findHandler. rewrite (find_route_clean _ _ _ _ H1) by by apply cleanPath_raws.
  unfold matchOrRedirect. fold (slash final). rewrite (ends_in_slash_raws _ _ Hr), matchMethodAndPath_raws, Hn by done.
  destruct final; cbn [negb]; [by rewrite !andb_false_r|]. rewrite !andb_true_r.
  replace ((join_slash (raw :: raws) ++ slash false) ++ [x2f]) with (join_slash (raw :: raws) ++ slash true) by by rewrite <- app_assoc.
  rewrite (matchMethodAndPath_raws _ _ true), Hn2, andb_false_r, He by done.
  destruct (bool_decide_reflect (raws = [])) as [->|_].
  - cbn [exactMatch negb]. by rewrite bool_decide_eq_false_2.
  - rewrite He0 by done. done.
Qed.

(** Outside of [/v1/] at most one method is offered, by a route of the server
    without wildcards. *)
Lemma public_shape s parts : public s parts = [] ∨ ∃ p h, public s parts = [("GET"%string, (p, h))]
  ∧ ∃ i, list_find (λ route : string * handler, route.1 = p) (mux s) = Some (i, (p, h))
         ∧ PathValue (parsePattern p) [] = λ _, ""%string.
Proof.
  unfold public. destruct parts as [|a [|b [|]]]; try by left.
  - case_bool_decide; [right; eexists _, _; split; [done|]; exists 2%nat; by split|].
    destruct (Server_metrics s) as [m|] eqn:E; [|by left]. case_bool_decide; [|by left].
    right. eexists _, _. split; [done|]. exists 3%nat. unfold mux. rewrite E. by split.
  - case_bool_decide; [|by left]. case_bool_decide; [right; eexists _, _; split; [done|]; exists 0%nat; by split|].
    case_bool_decide; [|by left]. right. eexists _, _. split; [done|]. exists 1%nat. by split.
Qed.

Lemma mux_public s r raw raws final path x :
  Req_RequestURI r ≠ "*"%string → clean_path (Req_URL r) (raw :: raws) final → pathUnescape raw ≠ bytes_of "v1" →
  ServeHTTP (mux s) r path x = respond (if final then [] else public s (map pathUnescape (raw :: raws))) "" r path x.
Proof.
  intros Huri Hc Hraw. pose proof (clean_path_ok _ _ _ Hc) as Hp.
  apply (serve_offers (mux s) r (raw :: raws) final [] "" _ path x Huri Hc).
  - intros key final'. unfold segments_of. by apply public_child.
  - intros final'. unfold segments_of. rewrite (public_any_match s _ final' Hp). cbn [map].
    by rewrite (bool_decide_eq_false_2 (_ = bytes_of "v1")).
  - apply public_no_HEAD.
  - destruct (public_shape s (map pathUnescape (raw :: raws))) as [->|(p & h & -> & _)]; [by rewrite allow_nothing|].
    by rewrite mux_tree.
  - destruct (public_shape s (map pathUnescape (raw :: raws))) as [->|(p & h & -> & i & Hf & Hh)]; constructor; [|constructor].
    exists i, h. split; [done|]. intros y. by rewrite Hh.
Qed.

(** ** What is left in the request *)

(** The path of a request's URL is empty or begins with a slash; only a CONNECT
    request has one that no slash leads. *)
Definition request_URL (u : URL) : Prop :=
  (URL_Path u = ""%string ∧ URL_RawPath u = ""%string)
  ∨ (rooted (bytes_of (URL_Path u)) = true ∧ (URL_RawPath u = ""%string ∨ rooted (bytes_of (URL_RawPath u)) = true)).

Lemma matchPath_empty path matches : matchPath empty_node path matches = None.
Proof.
  destruct (decide (path = [])) as [->|Hne]; [done|]. unfold empty_node. rewrite matchPath_step by done.
  destruct (firstSegment path) as [seg rest]. by destruct (bool_decide (seg = [])), (bool_decide (seg = [x2f])).
Qed.

Lemma connect_private path : matchMethodAndPath (tree (map fst private)) (bytes_of "CONNECT") path = None.
Proof. rewrite private_tree. exact (matchPath_empty path []). Qed.

Lemma connect_mux s path : matchMethodAndPath (tree (map fst (mux s))) (bytes_of "CONNECT") path = matchPath public_any path [].
Proof. rewrite mux_tree. exact eq_refl. Qed.

Lemma registered_route routes q : registered (map fst routes) q → pattern_text q ∈ map (@fst string handler) routes.
Proof. intros (p & Hp & ->). by rewrite parsePattern_text. Qed.

(** The method and the patterns of what is selected. *)
Definition selects (method : string) (patterns : list string) (s : selection) : Prop :=
  match s with
  | Serve p _ => p ∈ patterns ∧ admits (parsePattern p) (bytes_of method)
  | Reply p _ => p = ""%string ∨ p ∈ patterns
  end.

Lemma findHandler_selects patterns r : Req_Method r ≠ "CONNECT"%string → selects (Req_Method r) patterns (findHandler patterns r).
Proof.
  intros Hm. pose proof (find_route_registered patterns (Req_Method r) (Req_URL r)) as H. unfold findHandler.
  destruct (find_route _ _ _) as [p ms|p v|allowed].
  - destruct H as [(t & Ht & ->) Ha]. cbn [selects]. by rewrite parsePattern_text.
  - destruct (H Hm) as [->|(q & (t & Ht & ->) & ->)]; cbn [selects]; [by left|right]. by rewrite parsePattern_text.
  - destruct allowed; by left.
Qed.

(** [CONNECT]: the inner multiplexer knows no such method, the outer one only
    redirects [/v1]. *)
Lemma connect_private_selects r : Req_Method r = "CONNECT"%string →
  selects (Req_Method r) (map fst private) (findHandler (map fst private) r).
Proof.
  intros Hm. unfold findHandler, find_route. rewrite Hm, bool_decide_eq_true_2 by done.
  unfold matchOrRedirect. rewrite !connect_private. destruct (_ && _); destruct (matching _ _); by left.
Qed.

Lemma match_any_slash s raws : Forall (λ raw, x2f ∉ raw) raws →
  matchMethodAndPath (tree (map fst (mux s))) (bytes_of "CONNECT") (join_slash raws ++ [x2f]) =
  match raws with
  | raw :: _ => if bool_decide (pathUnescape raw = bytes_of "v1") then Some (parsePattern "/v1/", []) else None
  | [] => None
  end.
Proof.
  intros H. rewrite connect_mux. change [x2f] with (slash true). rewrite matchPath_raws by by split.
  unfold segments_of, public_any, inner. cbn [map]. destruct raws as [|raw raws]; [done|]. cbn [map app match_segments].
  rewrite find_child_cons, find_child_nil. cbn [mbind option_bind].
  destruct (bool_decide_reflect (pathUnescape raw = bytes_of "v1")) as [->|Hn].
  - rewrite bool_decide_eq_false_2 by done. cbn [mbind option_bind].
    destruct raws as [|raw2 raws]; cbn [map app]; by rewrite match_multi.
  - by destruct (bool_decide (_ = [])), (bool_decide (_ = [x2f])).
Qed.

Lemma connect_mux_selects s r : Req_Method r = "CONNECT"%string → request_URL (Req_URL r) →
  selects (Req_Method r) (map fst (mux s)) (findHandler (map fst (mux s)) r).
Proof.
  intros Hm Hu. pose proof (find_route_registered (map fst (mux s)) (Req_Method r) (Req_URL r)) as Hmatch.
  revert Hmatch. unfold findHandler, find_route. rewrite Hm, bool_decide_eq_true_2 by done.
  destruct (matchOrRedirect _ _ _ _) as [n [[q v]|]] eqn:E.
  - intros _. cbn [selects]. right. unfold matchOrRedirect in E.
    destruct Hu as [[H1 H2]|[H1 H2]].
    { assert (EscapedPath (Req_URL r) = []) as He by (unfold EscapedPath; by rewrite H1, H2).
      rewrite He, !connect_mux in E. done. }
    destruct (EscapedPath_spec _ H1 H2) as (Hr & _). pose proof (rooted_split _ Hr) as [p He].
    destruct (split_slash_spec p) as (Hne & Hjoin & Hseg). rewrite He in E.
    destruct (_ && _) in E; [|done]. rewrite <- Hjoin, (match_any_slash _ _ Hseg) in E.
    destruct (split_slash p) as [|raw raws]; [done|]. case_bool_decide as Hraw; [|done].
    destruct (exactMatch _ _) eqn:Ex; [|done]. injection E as _ _ <-.
    assert (Hr2 : raw_segments true (raw :: raws)) by by split.
    unfold exactMatch in Ex. change [x2f] with (slash true) in Ex. rewrite (ends_in_slash_raws _ _ Hr2), slashes_raws in Ex by done.
    destruct raws as [|raw2 raws]; [|cbn in Ex; by rewrite Nat.add_1_r in Ex].
    cbn in Hjoin. rewrite app_nil_r in Hjoin. injection Hjoin as <-.
    cbn [local_URL URL_Path]. rewrite (EscapedPath_one _ _ _ H1 H2 He Hraw). unfold mux.
    rewrite map_app, elem_of_app. right. rewrite map_app, elem_of_app. right. left.
  - destruct (matchMethodAndPath _ _ _) as [[p ms]|].
    + intros [(t & Ht & ->) Ha]. cbn [selects]. by rewrite parsePattern_text.
    + intros _. destruct (matching _ _); by left.
Qed.
End Routes.
