(* ===== verification/ApiDemo.v ===== *)
(** * A concrete HTTP environment

    For the witnesses: a UTC clock and a connection that takes every byte. *)

From S2P Require Import Prelude GoErrors GoTime GoText GoStrings GoParse Delivery Schema Tx Eventing StoreDeliveries.
From S2P Require Import EndpointService.
From S2P Require Import Queue System Secure Demo TargetTheorems EndpointTheorems ServiceTheorems.
From S2P Require Import Services BuildInfo Json JsonEncode JsonDecode Mime Url Mux Api ApiServices ApiServer.

#[export] Instance simple_output : HttpOutput := {| local_zone := {| zone_offset := λ _, 0 |}; conn_write := len; served_in := λ _, Millisecond |}.

(** The one endpoint and the one event the demo's requests carry. *)
Definition demo_body (path : string) : bytes :=
  single_quoted
    (if bool_decide (path = "/v1/endpoints"%string) then "{'name': 'orders', 'url': 'https://Example.COM.:8443?a=1'}"
     else if bool_decide (path = "/v1/events"%string)
     then "{'endpoint_id': 'ep', 'type': 'invoice.paid', 'payload': {}}" else "").

Definition demo_URL (path : string) : URL :=
  match url_Parse (UX := plain_unicode) path with Ok u => u | Err _ => local_URL path "" end.

Definition demo_request (method path auth : string) : HttpRequest :=
  mkHttpRequest method path true (demo_URL path)
    (λ k, if bool_decide (k = "Authorization"%string) then auth
          else if bool_decide (k = "Content-Type"%string) then "application/json"%string
          else if bool_decide (k = "Idempotency-Key"%string) then "key-77"%string else ""%string)
    (mkStream (demo_body path) io_EOF).

(** Its readiness check is a round trip to the database. *)
Definition demo_server `{Postgres} : Server :=
  New_server (mkDependencies io "secret-key" None true) (mkInfo "dev" "none" "unknown" "go1.26" false) zero_time.

#[export] Existing Instance plain_unicode.

#[local] Existing Instances sim_postgres sim_uuids.
#[export] Existing Instance ascii_tables.

(** The services over the store of the demo, at second [t]. *)
Definition demo_endpoints (t : Z) : ApiEndpoints :=
  api_endpoints (UX := plain_unicode) (UT := ascii_tables) (TE := at_second t)
    (Encrypt (mkBox (sim_aead [])) (Ok (repeat x00 12))) (Ok (repeat xff 32)) (mkOptions false false).
Definition demo_events (t : Z) : ApiEvents := api_events (TE := at_second t).
Definition demo_deliveries (t : Z) : ApiDeliveries := api_deliveries (TE := at_second t).

(** A request to the demo's server, on a healthy connection. *)
Definition demo_handle (xs : list (TxEnv * op * list fault)) (r : HttpRequest) : res (responseWriter * access) * conn :=
  Handler (SE := demo_endpoints 40) (SV := demo_events 40) (SD := demo_deliveries 40) demo_server r (connect (demo xs) []).

Example demo_answers :
  map (λ '(m, p, a), match (demo_handle demo_claimed (demo_request m p a)).1 with
                     | Ok (w, a) => (access_route a, access_status a) | Err _ => ("", 0) end)
    [("GET", "/health/live", ""); ("GET", "/v1/deliveries/dl", ""); ("GET", "/v1/deliveries/dl", "Bearer secret-key");
     ("GET", "/v1/deliveries/none", "Bearer secret-key"); ("POST", "/v1/events", "Bearer secret-key");
     ("POST", "/v1/deliveries/dl/replay", "Bearer secret-key"); ("DELETE", "/v1/endpoints/ep", "Bearer secret-key");
     ("POST", "/v1/endpoints", "Bearer secret-key"); ("PUT", "/v1/endpoints", "Bearer secret-key"); ("GET", "/metrics", "");
     ("GET", "/v1", ""); ("GET", "/v1/../health/live", ""); ("GET", "/v1/endpoints?limit=5", "Bearer secret-key"); ("OPTIONS", "*", "")]
  = [("GET /health/live", 200); ("/v1/", 401); ("GET /v1/deliveries/{delivery_id}", 200);
     ("GET /v1/deliveries/{delivery_id}", 404); ("POST /v1/events", 202);
     ("POST /v1/deliveries/{delivery_id}/replay", 409); ("DELETE /v1/endpoints/{endpoint_id}", 204);
     ("POST /v1/endpoints", 201); ("unmatched", 405); ("unmatched", 404); ("/v1/", 307); ("GET /health/live", 307);
     ("GET /v1/endpoints", 200); ("unmatched", 400)]%string.
Proof. vm_compute. reflexivity. Qed.
