(* ===== verification/ApiTheorems.v ===== *)
(** * Theorems on the HTTP API

    One header is sent per response and it is the one the access log reports;
    nothing under [/v1/] is served without the key; a GET changes nothing; what
    each outcome of the services becomes on the wire. *)

From S2P Require Import Prelude GoErrors GoTime GoText GoStrings GoParse Delivery Schema Tx Invariant TxLogic.
From S2P Require Import Eventing StoreEvents StoreDeliveries StoreEndpoints.
From S2P Require Import Netip Url UrlTheorems Mux MuxTheorems EndpointService.
From S2P Require Import Services ReadOnly BuildInfo JsonEncode JsonDecode Mime Api ApiServices ApiServer Routes Queue System Demo TargetTheorems EndpointTheorems ServiceTheorems ApiDemo.

#[local] Existing Instances sim_postgres sim_uuids sim_postgres_laws sim_uuids_laws.

(** ** The response writer *)

Section Writer.
Context `{HO : HttpOutput}.

Definition wire_bytes (l : list wire) : Z :=
  fold_right (λ e n, match e with SendBody b => conn_write b + n | SendHeader _ _ => n end) 0 l.

Definition is_body (e : wire) : Prop := match e with SendBody _ => True | SendHeader _ _ => False end.

(** The writer's fields agree with what went to the connection: nothing yet, or
    one header, the one in [status], followed by the body. *)
Definition writer_ok (w : responseWriter) : Prop :=
  match sent w with
  | [] => wroteHeader w = false ∧ status w = 200 ∧ written w = 0
  | SendHeader c _ :: l => wroteHeader w = true ∧ status w = c ∧ Forall is_body l ∧ written w = wire_bytes l
  | SendBody _ :: _ => False
  end.

Lemma wire_bytes_app l1 l2 : wire_bytes (l1 ++ l2) = wire_bytes l1 + wire_bytes l2.
Proof. induction l1 as [|[c h|b] l1 IH]; cbn; [done|exact IH|]. fold (wire_bytes (l1 ++ l2)). fold (wire_bytes l1). lia. Qed.

Lemma writer_ok_new : writer_ok new_writer.
Proof. done. Qed.

Lemma writer_ok_header code w : writer_ok w → writer_ok (WriteHeader code w).
Proof.
  unfold writer_ok, WriteHeader. destruct w as [h st n [|] s]; cbn; [done|].
  destruct s as [|[c h'|b] s]; cbn; [intros (_ & _ & ->); split_and!; done|by intros [? _]|done].
Qed.

Lemma writer_ok_body b w : writer_ok w → writer_ok (Write b w).
Proof.
  intros Hw. unfold Write. set (w' := if negb (wroteHeader w) then _ else w).
  assert (Hw' : writer_ok w' ∧ wroteHeader w' = true).
  { subst w'. destruct (wroteHeader w) eqn:E; cbn [negb]; [done|]. split; [by apply writer_ok_header|].
    unfold WriteHeader. by rewrite E. }
  clearbody w'. destruct Hw' as [Hw' Ht]. unfold writer_ok in *. destruct w' as [h st n wr s]. cbn in *. subst wr.
  destruct s as [|[c h'|b'] s]; cbn; [by destruct Hw'| |done].
  destruct Hw' as (_ & -> & Hf & ->). split_and!; [done|done|by apply Forall_app; split; [|constructor]|].
  rewrite wire_bytes_app. cbn. lia.
Qed.

Lemma writes_ok w w' : writes w w' → writer_ok w → writer_ok w'.
Proof.
  induction 1 as [w|h w w' _ IH|code w w' _ IH|b w w' _ IH]; intros Hw; [done|..]; apply IH;
    [exact Hw|by apply writer_ok_header|by apply writer_ok_body].
Qed.

Lemma writes_trans w1 w2 w3 : writes w1 w2 → writes w2 w3 → writes w1 w3.
Proof. intros H1 H2. induction H1; [done|by eapply writes_headers, IHwrites|by eapply writes_header, IHwrites|by eapply writes_body, IHwrites]. Qed.

Lemma writes_Set k v w : writes w (Set_ k v w).
Proof. eapply writes_headers, writes_refl. Qed.

Lemma writes_WriteHeader code w : writes w (WriteHeader code w).
Proof. eapply writes_header, writes_refl. Qed.

Lemma writes_writeJSON code body w : writes w (writeJSON code body w).
Proof.
  unfold writeJSON. eapply writes_trans; [apply writes_Set|]. eapply writes_trans; [apply writes_WriteHeader|].
  destruct (Encode body); [eapply writes_body|]; apply writes_refl.
Qed.

Lemma writes_writeError st code message w : writes w (writeError st code message w).
Proof. apply writes_writeJSON. Qed.
End Writer.

#[export] Hint Resolve writes_refl writes_writeJSON writes_writeError writes_WriteHeader writes_Set : relay.

Section Replies.
Context `{HO : HttpOutput} `{UX : UnicodeText}.

Lemma writes_Write b w : writes w (Write b w).
Proof. eapply writes_body, writes_refl. Qed.

Lemma writes_http_Error text code w : writes w (http_Error text code w).
Proof.
  unfold http_Error. eapply writes_trans; [|apply writes_Write]. eapply writes_trans; [|apply writes_WriteHeader].
  do 2 (eapply writes_trans; [|apply writes_Set]). eapply writes_headers, writes_refl.
Qed.

Lemma writes_Redirect url method w : writes w (Redirect url method w).
Proof.
  unfold Redirect. cbv zeta. set (b := negb (existsb _ _)). clearbody b.
  assert (H : ∀ c : bool, writes w (WriteHeader StatusTemporaryRedirect
    (if c then Set_ "Content-Type" "text/html; charset=utf-8"
                 (Set_ "Location" (string_of (hexEscapeNonASCII (redirect_location url))) w)
     else Set_ "Location" (string_of (hexEscapeNonASCII (redirect_location url))) w))).
  { intros c. eapply writes_trans; [|apply writes_WriteHeader]. destruct c; [eapply writes_trans; [|apply writes_Set]|]; apply writes_Set. }
  destruct (_ && bool_decide (method = _)); [eapply writes_trans; [|apply writes_Write]|]; apply H.
Qed.

(** The multiplexers' own answers only write. *)
Lemma findHandler_writes ps r p reply w : findHandler ps r = Reply p reply → writes w (reply w).
Proof.
  unfold findHandler. destruct (find_route _ _ _) as [q ms|q v|allowed]; [done|..].
  - intros [= _ <-]. apply writes_Redirect.
  - destruct allowed; intros [= _ <-]; [apply writes_http_Error|].
    eapply writes_trans; [apply writes_Set|apply writes_http_Error].
Qed.
End Replies.

Lemma writes_Set_writeJSON `{HttpOutput} k v code body w : writes w (writeJSON code body (Set_ k v w)).
Proof. eapply writes_trans; auto with relay. Qed.
#[export] Hint Resolve writes_Set_writeJSON : relay.

Section Api.
Context `{PG : Postgres} `{HO : HttpOutput} `{UT : UnicodeTables} `{UX : UnicodeText}.
Context `{SE : !ApiEndpoints} `{SV : !ApiEvents} `{SD : !ApiDeliveries}.

(** A handler always returns, having only written to its writer. *)
Definition handler_ok (h : handler) : Prop := ∀ r path x c res c',
  runs (h r path x) c res c' → ∃ x', res = Ok x' ∧ Pattern x' = Pattern x ∧ writes (writer x) (writer x').

Lemma runs_answer f x c res c' : runs (mret (answer f x)) c res c' → res = Ok (answer f x) ∧ c' = c.
Proof. apply runs_ret. Qed.

(** The shape of the handlers: a call of a service, and an answer for each
    outcome. *)
Lemma runs_try_bind {A B} (m : M A) (k : res A → M B) c res c' :
  runs (try m ≫= k) c res c' → ∃ r c1, runs m c r c1 ∧ runs (k r) c1 res c'.
Proof.
  intros [(e & He & _)|(r & c1 & H1 & H2)]%runs_bind.
  - apply runs_try in He as (r' & _ & ?). done.
  - apply runs_try in H1 as (r' & H1 & [= ->]). eauto.
Qed.

Lemma handler_ok_answer f x c res c' :
  (∀ w, writes w (f w)) → runs (mret (answer f x)) c res c' →
  ∃ x', res = Ok x' ∧ Pattern x' = Pattern x ∧ writes (writer x) (writer x').
Proof. intros Hf [-> _]%runs_answer. eexists. split_and!; [done|done|apply Hf]. Qed.

Lemma writes_decode_error err w : writes w (writeDecodeError err w).
Proof. unfold writeDecodeError. destruct (errors_is _ _); auto with relay. Qed.

Lemma writes_endpoint_error err w : writes w (writeEndpointError err w).
Proof. unfold writeEndpointError. repeat destruct (errors_is _ _); auto with relay. Qed.

Lemma writes_event_error err w : writes w (writeEventError err w).
Proof. unfold writeEventError. repeat destruct (errors_is _ _); auto with relay. Qed.

Lemma writes_delivery_error err w : writes w (writeDeliveryError err w).
Proof. unfold writeDeliveryError. repeat destruct (errors_is _ _); auto with relay. Qed.

(** By the answer's head: the hints would compare one answer with another. *)
Ltac solve_writes :=
  match goal with
  | |- writes _ (writeDecodeError _ _) => apply writes_decode_error
  | |- writes _ (writeEndpointError _ _) => apply writes_endpoint_error
  | |- writes _ (writeEventError _ _) => apply writes_event_error
  | |- writes _ (writeDeliveryError _ _) => apply writes_delivery_error
  | |- _ => solve [auto with relay]
  end.

Ltac solve_handler :=
  intros r path x c res c' Hrun; cbv zeta in Hrun;
  repeat match type of Hrun with
  | runs (try _ ≫= _) _ _ _ => apply runs_try_bind in Hrun as (? & ? & _ & Hrun)
  | runs (mret (answer _ _)) _ _ _ => eapply handler_ok_answer; [|exact Hrun]; intros ?; cbv beta; solve_writes
  | runs (match ?e with _ => _ end) _ _ _ => destruct e
  | runs (if ?b then _ else _) _ _ _ => destruct b
  end.

Lemma createEndpoint_ok : handler_ok createEndpoint.
Proof. unfold createEndpoint. solve_handler. Qed.

Lemma listEndpoints_ok : handler_ok listEndpoints.
Proof. unfold listEndpoints. solve_handler. Qed.

Lemma getEndpoint_ok : handler_ok getEndpoint.
Proof. unfold getEndpoint. solve_handler. Qed.

Lemma disableEndpoint_ok : handler_ok disableEndpoint.
Proof. unfold disableEndpoint. solve_handler. Qed.

Lemma publishEvent_ok : handler_ok publishEvent.
Proof. unfold publishEvent. solve_handler. Qed.

Lemma getDelivery_ok : handler_ok getDelivery.
Proof. unfold getDelivery. solve_handler. Qed.

Lemma replayDelivery_ok : handler_ok replayDelivery.
Proof. unfold replayDelivery. solve_handler. Qed.

(** ** The server *)

Section Server.
Variable s : Server.
Hypothesis metrics_ok : ∀ m, Server_metrics s = Some m → handler_ok m.

Lemma live_ok : handler_ok (live s).
Proof. unfold live. solve_handler. Qed.

Lemma ready_ok : handler_ok (ready s).
Proof. unfold ready. solve_handler. Qed.

Lemma version_ok : handler_ok (version s).
Proof. unfold version. solve_handler. Qed.

Lemma private_ok : Forall (λ route, handler_ok route.2) private.
Proof.
  repeat constructor; cbn [snd]; [apply createEndpoint_ok|apply listEndpoints_ok|apply getEndpoint_ok
    |apply disableEndpoint_ok|apply publishEvent_ok|apply getDelivery_ok|apply replayDelivery_ok].
Qed.

(** A multiplexer over good handlers writes, and leaves one of its patterns or
    none, unless a handler below it leaves another. *)
Definition request_ok (r : HttpRequest) : Prop := Req_Method r = "CONNECT"%string → request_URL (Req_URL r).

Definition serves (patterns : list string) (h : handler) : Prop := ∀ r path x c res c',
  request_ok r → runs (h r path x) c res c' →
  ∃ x', res = Ok x' ∧ writes (writer x) (writer x')
    ∧ (Pattern x' = Pattern x ∨ Pattern x' = ""%string ∨ Pattern x' ∈ patterns).

Lemma handler_ok_serves ps h : handler_ok h → serves ps h.
Proof. intros Hh r path x c res c' _ (x' & -> & Hp & Hw)%Hh. exists x'. eauto. Qed.

Lemma serves_ServeHTTP ps routes :
  (∀ r, Req_Method r = "CONNECT"%string → request_URL (Req_URL r) →
     selects (Req_Method r) (map fst routes) (findHandler (map fst routes) r)) →
  Forall (λ route, serves ps route.2) routes → serves (map fst routes ++ ps) (ServeHTTP routes).
Proof.
  intros Hconnect Hall r path x c res c' Hr. unfold ServeHTTP. case_bool_decide.
  { intros [-> _]%runs_answer. eexists. split_and!; [done| |by left]. cbn [answer writer].
    destruct (Req_Proto11 r); [eapply writes_trans; [apply writes_Set|]|]; apply writes_WriteHeader. }
  assert (Hsel : selects (Req_Method r) (map fst routes) (findHandler (map fst routes) r)).
  { destruct (decide (Req_Method r = "CONNECT"%string)); [by apply Hconnect, Hr|by apply findHandler_selects]. }
  destruct (findHandler _ r) as [p values|p reply] eqn:Ef.
  - destruct (list_find _ routes) as [[i route]|] eqn:E.
    + intros Hrun. apply list_find_Some in E as (Hi & Hp & _). rewrite Forall_lookup in Hall.
      destruct (Hall _ _ Hi _ _ _ _ _ _ Hr Hrun) as (x' & -> & Hw & Hx). exists x'. split_and!; [done|exact Hw|].
      right. cbn [Pattern] in Hx. rewrite elem_of_app. destruct Hx as [->|[->|Hx]]; [|by left|by auto].
      right. left. by apply Hsel.
    + intros [-> _]%runs_ret. eexists. split_and!; [done|apply writes_refl|]. cbn [Pattern].
      right; right. apply elem_of_app. left. by apply Hsel.
  - intros [-> _]%runs_ret. eexists. split_and!; [done|by eapply findHandler_writes|]. cbn [Pattern].
    right. rewrite elem_of_app. by destruct Hsel; [left|right; left].
Qed.

Lemma authenticate_serves ps h : serves ps h → serves ps (authenticate s h).
Proof.
  intros Hh r path x c res c' Hr. unfold authenticate. destruct (authorized s r); cbn [negb]; [by apply Hh|].
  intros [-> _]%runs_answer. eexists. split_and!; [done|apply writes_Set_writeJSON|by left].
Qed.

Definition patterns : list string := map fst (mux s) ++ map fst (private).

Lemma mux_serves : serves patterns (ServeHTTP (mux s)).
Proof.
  apply serves_ServeHTTP; [apply connect_mux_selects|]. unfold mux. rewrite !Forall_app. split_and!.
  - repeat constructor; cbn [snd]; apply handler_ok_serves; [apply live_ok|apply ready_ok|apply version_ok].
  - destruct (Server_metrics s) as [m|]; constructor; [|constructor]. by apply handler_ok_serves, metrics_ok.
  - constructor; [|constructor]. cbn [snd]. apply authenticate_serves.
    rewrite <- (app_nil_r (map fst private)). apply serves_ServeHTTP; [by intros; apply connect_private_selects|].
    eapply Forall_impl; [apply private_ok|]. intros route. apply handler_ok_serves.
Qed.
End Server.
End Api.

(** [C32] Every request is answered and the access log tells the truth: whatever
    the services and the connection do, the handler returns, at most one header
    went out, before any of the body, and the status (200 if the connection was
    to send its default) and the bytes written are the ones logged, with the
    method, the path and the duration. The observer, if there is one, is called
    once, with that method as the client sent it, that status and duration, and
    a route that is one of the registered patterns or "unmatched", so that the
    routes of the metrics are bounded (the methods are not). It is assumed of
    the metrics handler that it returns, leaves the pattern and only writes, and
    of a CONNECT request that its target has the form net/http parses. *)
Theorem access_log_truthful `{PG : Postgres} `{HO : HttpOutput} `{UT : UnicodeTables} `{UX : UnicodeText}
    {SE : ApiEndpoints} {SV : ApiEvents} {SD : ApiDeliveries}
    (s : Server) (r : HttpRequest) (c c' : conn) out :
  (∀ m, Server_metrics s = Some m → handler_ok m) → request_ok r → runs (Handler s r) c out c' →
  ∃ w a, out = Ok (w, a)
    ∧ (sent w = [] ∧ access_status a = 200 ∧ access_bytes a = 0
       ∨ ∃ header body, sent w = SendHeader (access_status a) header :: body ∧ Forall is_body body
                        ∧ access_bytes a = wire_bytes body)
    ∧ access_method a = Req_Method r ∧ access_path a = URL_Path (Req_URL r) ∧ access_duration a = served_in r
    ∧ ∃ route, route ∈ "unmatched"%string :: patterns s
        ∧ access_observed a = if Server_httpObserver s
                              then Some (mkHttpObservation (Req_Method r) route (access_status a) (served_in r)) else None.
Proof.
  intros Hm Hr Hrun. unfold Handler, accessLog in Hrun.
  apply runs_bind in Hrun as [(e & H & _)|(x & c1 & H & [-> _]%runs_ret)];
    destruct (mux_serves s Hm _ _ _ _ _ _ Hr H) as (x' & Hx & Hw & Hp); [done|]. injection Hx as <-.
  eexists _, _. split; [done|]. apply writes_ok in Hw; [|apply writer_ok_new].
  cbn [access_status access_bytes access_method access_path access_duration access_observed].
  split_and!; [|done..|].
  - unfold writer_ok in Hw. destruct (sent (writer x)) as [|[code h|b] l]; [left|right|done].
    + by destruct Hw as (_ & -> & ->).
    + destruct Hw as (_ & -> & Hf & ->). by exists h, l.
  - eexists. split; [|reflexivity]. cbn [Pattern] in Hp. case_bool_decide as E; [by left|right]. destruct Hp as [?|[?|?]]; done.
Qed.

Lemma access_log_truthful_witness :
  ∃ w a, (demo_handle demo_claimed (demo_request "GET" "/v1/deliveries/dl" "")).1 = Ok (w, a)
    ∧ access_path a = "/v1/deliveries/dl"%string
    ∧ (sent w = [] ∧ access_status a = 200 ∧ access_bytes a = 0
       ∨ ∃ header body, sent w = SendHeader (access_status a) header :: body ∧ Forall is_body body
                        ∧ access_bytes a = wire_bytes body).
Proof.
  destruct (demo_handle demo_claimed (demo_request "GET" "/v1/deliveries/dl" "")) as [out c'] eqn:E.
  destruct (access_log_truthful (SE := demo_endpoints 40) (SV := demo_events 40) (SD := demo_deliveries 40)
    demo_server (demo_request "GET" "/v1/deliveries/dl" "") (connect (demo demo_claimed) []) c' out) as (w & a & H1 & H2 & _ & H3 & _);
    [by intros m [=]|by intros [=]|exact E|]. exists w, a. split; [exact H1|]. split; [exact H3|exact H2].
Defined.

(** ** Authentication *)

(** The header that is accepted is exactly the scheme and the key. *)
Lemma authorized_iff `{PG : Postgres} (s : Server) (r : HttpRequest) :
  authorized s r = true ↔ Req_Header r "Authorization" = ("Bearer " +:+ Server_apiKey s)%string.
Proof.
  unfold authorized, Cut. destruct (cut_bytes _ _) as [[a b]|] eqn:E.
  - apply cut_bytes_spec in E as [E Ha]. rewrite bytes_of_string_of. split.
    + intros H. zbool. apply bytes_of_inj. rewrite E, bytes_of_app.
      match goal with H : string_of a = _ |- _ => apply (f_equal bytes_of) in H; rewrite bytes_of_string_of in H; rewrite H end.
      by match goal with H : b = _ |- _ => rewrite H end.
    + intros H. rewrite H, bytes_of_app in E. change (bytes_of "Bearer ") with (bytes_of "Bearer" ++ [x20]) in E.
      assert (Hc : cut_bytes x20 ((bytes_of "Bearer" ++ [x20]) ++ bytes_of (Server_apiKey s))
                   = Some (bytes_of "Bearer", bytes_of (Server_apiKey s))) by done.
      rewrite E in Hc. rewrite (proj2 (cut_bytes_spec _ _ a b) (conj eq_refl Ha)) in Hc. injection Hc as -> ->.
      by rewrite !bool_decide_eq_true_2.
  - split; [done|]. intros H. rewrite H, bytes_of_app in E. done.
Qed.

(** What the multiplexer serves from its table. *)
Lemma mux_served `{PG : Postgres} `{HO : HttpOutput} `{UT : UnicodeTables} `{UX : UnicodeText}
    {SE : ApiEndpoints} {SV : ApiEvents} {SD : ApiDeliveries} (s : Server) p i route :
  list_find (λ route : string * handler, route.1 = p) (mux s) = Some (i, route) →
  route.1 = p ∧ (route ∈ [("GET /health/live", live s); ("GET /health/ready", ready s); ("GET /version", version s)]%string
    ∨ (∃ m, Server_metrics s = Some m ∧ route = ("GET /metrics"%string, m))
    ∨ route = ("/v1/"%string, authenticate s (ServeHTTP private))).
Proof.
  intros (Hi & Hp & _)%list_find_Some. split; [done|]. apply list_elem_of_lookup_2 in Hi. unfold mux in Hi.
  rewrite !elem_of_app, list_elem_of_singleton in Hi. destruct Hi as [?|[Hi|?]]; [by left| |by right; right].
  right; left. destruct (Server_metrics s) as [m|]; [|by apply elem_of_nil in Hi]. apply list_elem_of_singleton in Hi. by exists m.
Qed.

Section Unauthorized.
Context `{PG : Postgres} `{HO : HttpOutput} `{UT : UnicodeTables} `{UX : UnicodeText}.
Context {SE : ApiEndpoints} {SV : ApiEvents} {SD : ApiDeliveries}.
Variables (s : Server) (r : HttpRequest).
Hypothesis Hno : authorized s r = false.

Lemma authenticate_refuses next path x :
  authenticate s next r path x
  = mret (answer (λ w, writeError 401 "unauthorized" "valid bearer token is required" (Set_ "WWW-Authenticate" "Bearer" w)) x).
Proof. unfold authenticate. by rewrite Hno. Qed.

(** Where the connection can be reached. *)
Lemma unauthorized_connection path x c :
  let c' := (ServeHTTP (mux s) r path x c).2 in
  c' = c
  ∨ (∃ v, findHandler (map fst (mux s)) r = Serve "GET /health/ready" v) ∧ c' = (Server_readiness s c).2
  ∨ ∃ m v, Server_metrics s = Some m ∧ findHandler (map fst (mux s)) r = Serve "GET /metrics" v
           ∧ c' = (m r v (mkExchange "GET /metrics" (writer x)) c).2.
Proof.
  cbv zeta. unfold ServeHTTP. case_bool_decide; [by left|].
  destruct (findHandler _ r) as [p values|p reply] eqn:Ef; [|by left].
  destruct (list_find _ (mux s)) as [[i route]|] eqn:E; [|by left].
  apply mux_served in E as [Hp Hroute]. rewrite !elem_of_cons, elem_of_nil in Hroute.
  destruct Hroute as [[->|[->|[->|[]]]]|[(m & Hm & ->)| ->]]; cbn [fst snd] in Hp |- *; subst p.
  - by left.
  - right; left. split; [by eexists|]. unfold ready, try, mbind, M_bind. destruct (Server_readiness s c) as [[]]; reflexivity.
  - by left.
  - right; right. by exists m, values.
  - left. by rewrite authenticate_refuses.
Qed.

(** Under [/v1/]. *)
Lemma unauthorized_v1 values path x c :
  Req_RequestURI r ≠ "*"%string → findHandler (map fst (mux s)) r = Serve "/v1/" values →
  ServeHTTP (mux s) r path x c
  = (Ok (answer (λ w, writeError 401 "unauthorized" "valid bearer token is required" (Set_ "WWW-Authenticate" "Bearer" w))
           (mkExchange "/v1/" (writer x))), c).
Proof.
  intros Huri Ef. unfold ServeHTTP at 1. rewrite bool_decide_eq_false_2, Ef by done.
  assert (∃ i, list_find (λ route, route.1 = "/v1/"%string) (mux s) = Some (i, ("/v1/"%string, authenticate s (ServeHTTP private))))
    as [i ->] by (unfold mux; destruct (Server_metrics s); eexists; reflexivity).
  cbn [snd]. by rewrite authenticate_refuses.
Qed.

(** Other services, the same outcome. *)
Lemma unauthorized_services {SE' : ApiEndpoints} {SV' : ApiEvents} {SD' : ApiDeliveries} path x c :
  ServeHTTP (mux (SE := SE') (SV := SV') (SD := SD') s) r path x c
  = ServeHTTP (mux (SE := SE) (SV := SV) (SD := SD) s) r path x c.
Proof.
  unfold ServeHTTP. case_bool_decide; [done|].
  assert (map fst (mux (SE := SE') (SV := SV') (SD := SD') s) = map fst (mux (SE := SE) (SV := SV) (SD := SD) s)) as ->
    by (unfold mux; by destruct (Server_metrics s)).
  destruct (findHandler _ r) as [p values|p reply] eqn:Ef; [|done]. unfold mux.
  destruct (Server_metrics s) as [m|]; cbn [app list_find fst]; repeat case_decide; cbn; by rewrite ?authenticate_refuses.
Qed.
End Unauthorized.

(** [C21] Nothing under [/v1/] happens without the key. For a request whose
    Authorization header is not exactly "Bearer " and the key: no service is
    called, whatever its path (with any other services the outcome is the same
    one); the connection is left as it was, except by the two public resources
    that use the database, the readiness check on GET /health/ready, which is
    called and nothing else, and the metrics handler on GET /metrics; and when
    its path is clean and under [/v1/], whatever it names, the connection is
    left as it was and the answer is 401 with a WWW-Authenticate challenge. *)
Theorem private_requires_key `{PG : Postgres} `{HO : HttpOutput} `{UT : UnicodeTables} `{UX : UnicodeText}
    {SE : ApiEndpoints} {SV : ApiEvents} {SD : ApiDeliveries} (s : Server) (r : HttpRequest) (c : conn) :
  Req_Header r "Authorization" ≠ ("Bearer " +:+ Server_apiKey s)%string →
  (∀ (SE' : ApiEndpoints) (SV' : ApiEvents) (SD' : ApiDeliveries),
      Handler (SE := SE') (SV := SV') (SD := SD') s r c
      = Handler (SE := SE) (SV := SV) (SD := SD) s r c)
  ∧ (let c' := (Handler s r c).2 in
     c' = c
     ∨ (∃ v, findHandler (map fst (mux s)) r = Serve "GET /health/ready" v) ∧ c' = (Server_readiness s c).2
     ∨ ∃ m v, Server_metrics s = Some m ∧ findHandler (map fst (mux s)) r = Serve "GET /metrics" v
              ∧ c' = (m r v (mkExchange "GET /metrics" new_writer) c).2)
  ∧ ∀ raw raws final,
      Req_RequestURI r ≠ "*"%string → Req_Method r ≠ "CONNECT"%string →
      clean_path (Req_URL r) (raw :: raws) final → pathUnescape raw = bytes_of "v1" → raws ≠ [] ∨ final = true →
      ∃ w a header body, Handler s r c = (Ok (w, a), c) ∧ access_status a = 401
        ∧ sent w = SendHeader 401 header :: body ∧ ("WWW-Authenticate", "Bearer")%string ∈ header.
Proof.
  intros Hauth. assert (Hno : authorized s r = false) by (apply not_true_iff_false; by rewrite authorized_iff).
  split_and!.
  - intros SE' SV' SD'. unfold Handler, accessLog, mbind, M_bind. by rewrite (unauthorized_services (SE := SE) (SV := SV) (SD := SD) s r Hno).
  - pose proof (unauthorized_connection s r Hno (λ _, ""%string) (mkExchange "" new_writer) c) as H. cbv zeta in H |- *.
    assert ((Handler s r c).2 = (ServeHTTP (mux s) r (λ _, ""%string) (mkExchange "" new_writer) c).2) as ->; [|exact H].
    unfold Handler, accessLog, mbind, M_bind. by destruct (ServeHTTP _ _ _ _ c) as [[]].
  - intros raw raws final Huri Hm Hc Hraw Hne.
    assert (Ef : findHandler (map fst (mux s)) r = Serve "/v1/" (PathValue (parsePattern "/v1/") [])).
    { rewrite (mux_v1 s r raw raws final Hm Hc Hraw).
      destruct Hne as [Hne| ->]; [by rewrite bool_decide_eq_false_2|by rewrite andb_false_r]. }
    unfold Handler, accessLog, mbind, M_bind.
    rewrite (unauthorized_v1 s r Hno _ _ _ _ Huri Ef). eexists _, _.
    assert (Hw : ∃ header body, sent (writeError 401 "unauthorized" "valid bearer token is required" (Set_ "WWW-Authenticate" "Bearer" new_writer))
                   = SendHeader 401 header :: body ∧ ("WWW-Authenticate", "Bearer")%string ∈ header).
    { unfold writeError, writeJSON. destruct (Encode _) as [b|e]; (eexists _, _; split; [reflexivity|]); vm_compute; left. }
    destruct Hw as (header & body & Hw & Hin). exists header, body. split_and!; [reflexivity| |exact Hw|exact Hin].
    cbn [access_status answer writer]. unfold writeError, writeJSON. by destruct (Encode _).
Qed.

Lemma private_requires_key_witness :
  ∃ w a, demo_handle demo_claimed (demo_request "POST" "/v1/events" "Bearer wrong") = (Ok (w, a), connect (demo demo_claimed) [])
    ∧ access_status a = 401.
Proof.
  destruct (private_requires_key (SE := demo_endpoints 40) (SV := demo_events 40) (SD := demo_deliveries 40)
    demo_server (demo_request "POST" "/v1/events" "Bearer wrong") (connect (demo demo_claimed) []))
    as (_ & _ & H); [discriminate|].
  destruct (H (bytes_of "v1") [bytes_of "events"] false) as (w & a & h & b & Hrun & Hs & _); [done|done| |done|by left|].
  - split; [done|done|decide_in|decide_in].
  - exists w, a. split; [exact Hrun|exact Hs].
Defined.

(** [C22] The routes: for a clean path, cut into segments and decoded, with a
    final slash or without, the two multiplexers do what the table of resources
    says: the handler of the resource and the method, with the identifier of the
    path and the pattern left in the request, HEAD served as GET; 405 with the
    methods of the resource in Allow; 404 where there is no resource; a redirect
    from [/v1]; and the key is asked for before anything under [/v1/]. *)
Theorem routes_spec `{PG : Postgres} `{HO : HttpOutput} `{UT : UnicodeTables} `{UX : UnicodeText}
    {SE : ApiEndpoints} {SV : ApiEvents} {SD : ApiDeliveries}
    (s : Server) (r : HttpRequest) raws final path x :
  Req_RequestURI r ≠ "*"%string → Req_Method r ≠ "CONNECT"%string → clean_path (Req_URL r) raws final →
  ServeHTTP (mux s) r path x = reference s (map pathUnescape raws) final r path x.
Proof.
  intros Huri Hm Hc. destruct raws as [|raw raws]; [by destruct Hc|]. unfold reference. cbn [map].
  destruct (bool_decide_reflect (pathUnescape raw = bytes_of "v1")) as [Hraw|Hraw]; [|by apply mux_public].
  assert (bool_decide (map pathUnescape raws = []) = bool_decide (raws = [])) as -> by by destruct raws.
  unfold ServeHTTP at 1. rewrite bool_decide_eq_false_2, (mux_v1 s r raw raws final) by done.
  destruct (_ && _); [done|].
  assert (∃ i, list_find (λ route, route.1 = "/v1/"%string) (mux s) = Some (i, ("/v1/"%string, authenticate s (ServeHTTP private))))
    as [i ->] by (unfold mux; destruct (Server_metrics s); eexists; reflexivity).
  cbn [snd]. unfold authenticate. destruct (negb _); [done|]. by rewrite (private_reference r raw raws final).
Qed.

Lemma routes_spec_witness :
  let r := demo_request "HEAD" "/v1/endpoints/a%2Fb" "Bearer secret-key" in
  ServeHTTP (mux (SE := demo_endpoints 40) (SV := demo_events 40) (SD := demo_deliveries 40) demo_server) r
    (λ _, ""%string) (mkExchange "" new_writer)
  = getEndpoint (SE := demo_endpoints 40) r (λ _, "a/b"%string) (mkExchange "GET /v1/endpoints/{endpoint_id}" new_writer).
Proof.
  intros r.
  rewrite (routes_spec (SE := demo_endpoints 40) (SV := demo_events 40) (SD := demo_deliveries 40) demo_server r
    [bytes_of "v1"; bytes_of "endpoints"; bytes_of "a%2Fb"] false (λ _, ""%string) (mkExchange "" new_writer)); [reflexivity|done|done|].
  split; [done|done|decide_in|decide_in].
Defined.

(** ** Safe methods *)

Section Reading.
Context `{PG : Postgres} `{HO : HttpOutput} `{UT : UnicodeTables} `{UX : UnicodeText}.
Context {SE : ApiEndpoints} {SV : ApiEvents} {SD : ApiDeliveries} {RS : ReadingServices}.

(** A handler that only reads when it is reached by a safe method. *)
Definition reads_on (method pattern : string) (h : handler) : Prop :=
  admits (parsePattern pattern) (bytes_of method) → ∀ r path x, Req_Method r = method → readonly (h r path x).

Lemma reads_on_ServeHTTP routes r path x :
  Req_Method r ≠ "CONNECT"%string →
  Forall (λ route, reads_on (Req_Method r) route.1 route.2) routes → readonly (ServeHTTP routes r path x).
Proof.
  intros Hm Hall. unfold ServeHTTP. case_bool_decide; [apply readonly_ret|].
  pose proof (findHandler_selects (map fst routes) r Hm) as Hlaw.
  destruct (findHandler _ r) as [p values|p reply]; [|apply readonly_ret].
  destruct (list_find _ routes) as [[i route]|] eqn:E; [|apply readonly_ret].
  apply list_find_Some in E as (Hi & Hp & _). rewrite Forall_lookup in Hall. subst p.
  by apply (Hall _ _ Hi); [apply Hlaw|].
Qed.

Lemma reads_on_never method pattern h : ¬ admits (parsePattern pattern) (bytes_of method) → reads_on method pattern h.
Proof. intros H1 H2. by destruct H1. Qed.

Lemma reads_on_answer method pattern (f : HttpRequest → responseWriter → responseWriter) :
  reads_on method pattern (λ r _ x, mret (answer (f r) x)).
Proof. intros _ r path x _. apply readonly_ret. Qed.

Ltac solve_reads :=
  intros _ ? ? ? _; cbv beta zeta;
  repeat first
    [ apply readonly_ret
    | apply readonly_bind; [apply readonly_try; first [apply svc_List_reads | apply svc_Get_reads | apply svc_GetDelivery_reads]|intros ?]
    | match goal with |- readonly (match ?e with _ => _ end) => destruct e end ].

Lemma private_reads method :
  method ∈ ["GET"; "HEAD"]%string → Forall (λ route, reads_on method route.1 route.2) private.
Proof.
  intros Hm. assert (Hpost : ∀ p m, m ∈ ["POST"; "DELETE"]%string → pattern_method (parsePattern p) = bytes_of m →
                       ¬ admits (parsePattern p) (bytes_of method)).
  { intros p m Hp E. unfold admits. rewrite E. rewrite !elem_of_cons, elem_of_nil in Hm, Hp.
    destruct Hp as [->|[->|[]]], Hm as [->|[->|[]]]; vm_compute; intuition congruence. }
  repeat apply Forall_cons_2; [..|apply Forall_nil_2]; cbn [fst snd].
  1, 5, 7: apply reads_on_never, (Hpost _ "POST"%string); [left|reflexivity].
  3: apply reads_on_never, (Hpost _ "DELETE"%string); [right; left|reflexivity].
  - unfold listEndpoints. solve_reads.
  - unfold getEndpoint. solve_reads.
  - unfold getDelivery. solve_reads.
Qed.

(** [C33] GET and HEAD requests are safe: whatever they ask for, with or
    without the key and whatever the connection goes through, they leave the
    database as it is, if the readiness check (a ping) and the metrics handler
    do. *)
Theorem get_changes_nothing (s : Server) (r : HttpRequest) (c c' : conn) out :
  Req_Method r ∈ ["GET"; "HEAD"]%string → readonly (Server_readiness s) →
  (∀ m, Server_metrics s = Some m → ∀ r path x, readonly (m r path x)) →
  runs (Handler s r) c out c' → durable c' = durable c.
Proof.
  intros Hm Hping Hmetrics. revert c out c'. change (readonly (Handler s r)). unfold Handler, accessLog.
  apply readonly_bind; [|intros x; apply readonly_ret].
  assert (Hne : Req_Method r ≠ "CONNECT"%string) by (intros E; rewrite E, !elem_of_cons, elem_of_nil in Hm; naive_solver).
  apply reads_on_ServeHTTP; [done|]. unfold mux. rewrite !Forall_app. split_and!.
  - repeat apply Forall_cons_2; [..|apply Forall_nil_2]; cbn [fst snd].
    + apply reads_on_answer.
    + intros _ r' path x _. unfold ready. apply readonly_bind; [by apply readonly_try|]. intros []; apply readonly_ret.
    + apply reads_on_answer.
  - destruct (Server_metrics s) as [m|]; [|done]. repeat constructor. intros _ r' path x _. by apply Hmetrics.
  - repeat constructor. intros _ r' path x Hr'. cbn [snd]. unfold authenticate.
    destruct (negb _); [apply readonly_ret|]. apply reads_on_ServeHTTP; rewrite Hr'; [done|by apply private_reads].
Qed.
End Reading.

Lemma get_changes_nothing_witness :
  durable (demo_handle demo_claimed (demo_request "GET" "/v1/deliveries/dl" "Bearer secret-key")).2
  = st_db (demo demo_claimed).
Proof.
  destruct (demo_handle demo_claimed (demo_request "GET" "/v1/deliveries/dl" "Bearer secret-key")) as [out c'] eqn:E.
  apply (get_changes_nothing (SE := demo_endpoints 40) (SV := demo_events 40) (SD := demo_deliveries 40)
    (RS := api_reads (TE := at_second 40) (UX := plain_unicode) (UT := ascii_tables) _ _ _)
    demo_server (demo_request "GET" "/v1/deliveries/dl" "Bearer secret-key") (connect (demo demo_claimed) []) c' out);
    [left|apply readonly_io|by intros m [=]|exact E].
Defined.

(** ** The status of an answer *)

Lemma status_writeJSON `{HttpOutput} code body w : wroteHeader w = false → status (writeJSON code body w) = code.
Proof.
  intros Hw. unfold writeJSON, WriteHeader. destruct w as [h st n wr se]. cbn in *. subst wr. cbn.
  by destruct (Encode body).
Qed.

Lemma status_writeError `{HttpOutput} code c m w : wroteHeader w = false → status (writeError code c m w) = code.
Proof. apply status_writeJSON. Qed.

(** The header and the body of an answer that encodes. *)
Lemma sent_writeJSON `{HttpOutput} code body b w :
  wroteHeader w = false → Encode body = Ok b →
  ∃ h, sent (writeJSON code body w) = sent w ++ [SendHeader code h; SendBody b]
       ∧ ∀ kv, kv ∈ Header w → kv.1 ≠ "Content-Type"%string → kv ∈ h.
Proof.
  intros Hw E. unfold writeJSON, WriteHeader. destruct w as [h st n wr se]. cbn in *. subst wr. cbn. rewrite E. cbn.
  eexists. split; [by rewrite <- app_assoc|]. intros kv Hin Hne. apply elem_of_app. left.
  apply list_elem_of_In, filter_In. split; [by apply list_elem_of_In|]. by rewrite bool_decide_eq_false_2.
Qed.
