(* ===== verification/ApiDecode.v ===== *)
(** * What the API decodes

    The streaming decoder, its limit on the body and its check for a second
    value, against one definition: a request is decoded exactly when it has the
    media type, and its whole body is within the limit, valid JSON and
    unmarshals without an error. *)

From S2P Require Import Prelude GoErrors GoTime GoText GoStrings Float64 GoParse Delivery Schema Tx TxLogic.
From S2P Require Import Queue System Demo Eventing StoreDeliveries EndpointService TargetTheorems EndpointTheorems Services.
From S2P Require Import Json JsonEncode JsonDecode Mime JsonTheorems Api ApiServices ApiServer ApiDemo ApiTheorems.

Definition is_json `{UnicodeTables} (r : HttpRequest) : bool :=
  match ParseMediaType (Req_Header r "Content-Type") with
  | Ok m => bool_decide (m = "application/json"%string)
  | Err _ => false
  end.

Lemma is_json_spec `{UnicodeTables} r :
  is_json r = true ↔ ParseMediaType (Req_Header r "Content-Type") = Ok "application/json"%string.
Proof.
  unfold is_json. destruct (ParseMediaType _) as [m|e]; [|done]. rewrite bool_decide_eq_true. split; [by intros ->|by intros [= ->]].
Qed.

Lemma decodeJSON_body `{UX : UnicodeText} `{UT : UnicodeTables} {T} (target : struct_type T) (r : HttpRequest)
    (maximumBytes : Z) (q : T) :
  0 <= maximumBytes → stream_end (Req_Body r) = io_EOF ∨ errors_is (stream_end (Req_Body r)) io_EOF = false →
  decodeJSON target r maximumBytes = Ok q
  ↔ ParseMediaType (Req_Header r "Content-Type") = Ok "application/json"%string
    ∧ len (stream_data (Req_Body r)) <= maximumBytes
    ∧ stream_end (Req_Body r) = io_EOF
    ∧ json_Valid (stream_data (Req_Body r)) = true
    ∧ unmarshal target true (stream_data (Req_Body r)) = (q, None).
Proof.
  intros Hm Hend.
  assert (Hdec : decodeJSON target r maximumBytes = Ok q ↔
    ParseMediaType (Req_Header r "Content-Type") = Ok "application/json"%string ∧
    ∃ rest err, Decode target (DisallowUnknownFields (NewDecoder (MaxBytesReader maximumBytes (Req_Body r)))) = Ok (q, rest) ∧ Decode empty_struct rest = Err err
      ∧ errors_is err io_EOF = true).
  { unfold decodeJSON. destruct (ParseMediaType _) as [m|e]; [|split; [done|by intros [? _]]].
    destruct (bool_decide_reflect (m = "application/json"%string)) as [->|Hne]; cbn [negb];
      [|split; [done|intros [[= ?] _]; congruence]].
    destruct (Decode target _) as [[v rest]|e]; [|split; [done|by intros [_ (? & ? & ? & _)]]].
    destruct (Decode empty_struct rest) as [[u rest']|e] eqn:Ee.
    - split; [done|]. intros [_ (rest0 & err & [= -> ->] & H & _)]. by rewrite Ee in H.
    - destruct (errors_is e io_EOF) eqn:Ei.
      + split; [intros [= ->]; split; [done|]; by exists rest, e|]. by intros [_ (? & ? & [= -> ->] & _)].
      + split; [done|]. intros [_ (rest0 & err & [= -> ->] & H & Hi)]. rewrite Ee in H. injection H as ->. by rewrite Ei in Hi. }
  rewrite Hdec. unfold DisallowUnknownFields, NewDecoder, MaxBytesReader. cbn [decoder_input]. destruct (Z.ltb_spec maximumBytes (len (stream_data (Req_Body r)))).
  - rewrite decode_one by (by right). cbn [stream_end]. split; [by intros (_ & ? & _)|]. intros (_ & ? & _). lia.
  - rewrite decode_one by done. split; intros (? & ?); (split; [done|]); tauto.
Qed.

(** ** Errors *)

(** What a decoder fails with: the stream's own error, the end of the stream,
    or an error made on the spot. *)
Definition made (err : error) : Prop := err = io_EOF ∨ err = ErrUnexpectedEOF ∨ ∃ msg, err = New msg.

Lemma read_value_errors buf ending s data err : read_value buf ending s data = Err err → err = ending ∨ made err.
Proof.
  unfold made. revert s. induction data as [|c data IH]; intros s; cbn [read_value].
  - destruct (is_EOF _); [|intros [= <-]; by left]. destruct (scan_eof s); [done|]. intros [= <-]. right.
    destruct (forallb _ _); tauto.
  - destruct (value_ends s c); [done|]. destruct (scan_byte s c) as [s1|]; [|intros [= <-]; right; right; right; by eexists].
    destruct (scan_endTop s1); [done|]. destruct (read_value _ _ s1 data) as [[]|e] eqn:E; [done|]. cbn. intros [= ->]. by eapply IH.
Qed.

Lemma store_members_errors `{UX : UnicodeText} {T} (St : struct_type T) strict ms t err t' :
  fold_left (store_member St strict) ms (t, None) = (t', Some err) → made err.
Proof.
  assert (H : ∀ ms a, (∀ e, a.2 = Some e → made e) → ∀ e, (fold_left (store_member St strict) ms a).2 = Some e → made e).
  { intros l. induction l as [|m l IH]; intros a Ha; [exact Ha|]. cbn [fold_left]. apply IH. destruct a as [u saved].
    cbn [snd] in Ha. unfold store_member. destruct (unquote m.1) as [k|]; [|exact Ha].
    destruct (find_field St k) as [f|]; [destruct (field_store f m.2 u) as [u' [mm|]]; [|exact Ha]|destruct strict; [|exact Ha]];
      cbn [snd]; (destruct saved as [e0|]; [intros e [= <-]; by apply Ha|]); intros e [= <-]; right; right; by eexists. }
  intros E. by eapply (H ms (t, None)); [|rewrite E].
Qed.

Lemma Decode_errors `{UX : UnicodeText} {T} (St : struct_type T) d err :
  Decode St d = Err err → err = stream_end (decoder_input d) ∨ made err.
Proof.
  unfold Decode. destruct (read_value _ _ _ _) as [[v rest]|e] eqn:E; cbn [mbind res_bind].
  2:{ intros [= <-]. by eapply read_value_errors. }
  destruct (unmarshal St _ v) as [t [e|]] eqn:Eu; [|done]. intros [= <-]. right. unfold unmarshal in Eu.
  destruct (bool_decide _); [by eapply store_members_errors|]. destruct (bool_decide _); [done|]. injection Eu as _ <-.
  right; right. by eexists.
Qed.

(** A refused body is answered 415 for its media type and 400 otherwise. *)
Lemma decode_refused `{UX : UnicodeText} `{UT : UnicodeTables} `{HO : HttpOutput} {T} (target : struct_type T) r limit err :
  errors_is (stream_end (Req_Body r)) errUnsupportedMediaType = false →
  decodeJSON target r limit = Err err →
  status (writeDecodeError err new_writer) = if is_json r then 400 else 415.
Proof.
  intros Hend. unfold decodeJSON, is_json, writeDecodeError. destruct (ParseMediaType _) as [m|e].
  2:{ intros [= <-]. apply status_writeError. done. }
  destruct (bool_decide (m = _)); cbn [negb]; [|intros [= <-]; by apply status_writeError].
  destruct (Decode target _) as [[v rest]|e] eqn:Ed.
  - destruct (Decode empty_struct rest) as [u|e]; [intros [= <-]; by apply status_writeError|].
    destruct (errors_is e io_EOF); [done|]. intros [= <-]. by apply status_writeError.
  - intros [= <-]. rewrite errors_is_wrapf.
    assert (errors_is e errUnsupportedMediaType = false) as ->; [|by apply status_writeError].
    apply Decode_errors in Ed as [->|[->|[->|[msg ->]]]]; [|done..]. cbn [decoder_input DisallowUnknownFields NewDecoder]. unfold MaxBytesReader. by destruct (_ <? _).
Qed.

(** Reading a body yields [io.EOF] or an error of the connection. *)
Definition ends_well (s : stream) : Prop :=
  (stream_end s = io_EOF ∨ errors_is (stream_end s) io_EOF = false)
  ∧ errors_is (stream_end s) errUnsupportedMediaType = false.

(** [C11] Which requests to publish an event have a body the API takes: those
    with the media type application/json whose whole body is at most 1 MiB and
    4 KiB long, one valid JSON text up to its last byte, and unmarshals without
    a type error or an unknown field; the decoded request is what unmarshalling
    the body gives. Every other one is answered 415 for its media type or 400,
    without a call of the service or the database. *)
Theorem request_bodies `{PG : Postgres} `{HO : HttpOutput} `{UT : UnicodeTables} `{UX : UnicodeText} {SV : ApiEvents}
    (r : HttpRequest) path pattern (c : conn) :
  ends_well (Req_Body r) →
  let body := stream_data (Req_Body r) in
  let decoded q := is_json r = true ∧ len body <= 1052672 ∧ stream_end (Req_Body r) = io_EOF ∧ json_Valid body = true
                   ∧ unmarshal publishEventRequest_type true body = (q, None) in
  (∀ q, decodeJSON publishEventRequest_type r maximumEventBody = Ok q ↔ decoded q)
  ∧ ((∀ q, ¬ decoded q) → ∃ x, runs (publishEvent r path (mkExchange pattern new_writer)) c (Ok x) c
                               ∧ status (writer x) = if is_json r then 400 else 415).
Proof.
  intros [He Hm] body decoded.
  assert (Hiff : ∀ q, decodeJSON publishEventRequest_type r maximumEventBody = Ok q ↔ decoded q).
  { intros q. rewrite decodeJSON_body by done. unfold decoded. by rewrite <- is_json_spec. }
  split; [exact Hiff|]. intros Hno. unfold publishEvent.
  destruct (decodeJSON publishEventRequest_type r maximumEventBody) as [q|err] eqn:Ed; [exfalso; by apply (Hno q), Hiff|].
  eexists. split; [reflexivity|]. cbn [writer answer]. by eapply decode_refused.
Qed.

#[local] Existing Instances sim_postgres sim_uuids.

(** A second value after the first. *)
Definition two_values : HttpRequest :=
  mkHttpRequest "POST" "/v1/events" true (demo_URL "/v1/events") (Req_Header (demo_request "POST" "/v1/events" ""))
    (mkStream (demo_body "/v1/events" ++ [x31]) io_EOF).

Lemma request_bodies_witness :
  (∃ q, decodeJSON publishEventRequest_type (demo_request "POST" "/v1/events" "") maximumEventBody = Ok q)
  ∧ ∃ x, runs (publishEvent (SV := demo_events 40) two_values (λ _, ""%string) (mkExchange "" new_writer))
           (connect (demo demo_claimed) []) (Ok x) (connect (demo demo_claimed) [])
         ∧ status (writer x) = 400.
Proof.
  split.
  - destruct (request_bodies (SV := demo_events 40) (demo_request "POST" "/v1/events" "") (λ _, ""%string) ""
      (connect (demo demo_claimed) [])) as [H _]; [split; [by left|reflexivity]|].
    eexists. apply H. split_and!; [vm_compute; reflexivity|vm_compute; discriminate|reflexivity|vm_compute; reflexivity|].
    vm_compute. reflexivity.
  - destruct (request_bodies (SV := demo_events 40) two_values (λ _, ""%string) ""
      (connect (demo demo_claimed) [])) as [_ H]; [split; [by left|reflexivity]|].
    assert (Hv : json_Valid (stream_data (Req_Body two_values)) = false) by (vm_compute; reflexivity).
    destruct H as (x & Hx & Hs); [intros q (_ & _ & _ & Hj & _); rewrite Hv in Hj; discriminate Hj|].
    exists x. split; [exact Hx|]. rewrite Hs. vm_compute. reflexivity.
Defined.
