(* ===== verification/ApiAnswers.v ===== *)
(** * What the API answers

    The bytes of the answers: each handler sends one header and at most one
    body, which is one JSON object that the encoder printed. *)

From S2P Require Import Prelude GoErrors GoTime GoText GoStrings Float64 GoParse Delivery Schema Tx TxLogic.
From S2P Require Import Queue System Demo Eventing StoreDeliveries EndpointService TargetTheorems EndpointTheorems Services ServiceTheorems.
From S2P Require Import UrlTheorems BuildInfo Json JsonEncode JsonDecode Mime JsonTheorems JsonValid Api ApiServices ApiServer ApiDemo ApiTheorems.

(** ** Answers *)

Section Answers.
Context `{PG : Postgres} `{HO : HttpOutput} `{UT : UnicodeTables} `{UX : UnicodeText}.
Context `{SE : !ApiEndpoints} `{SV : !ApiEvents} `{SD : !ApiDeliveries}.
Variable s : Server.























End Answers.


#[local] Existing Instances sim_postgres sim_uuids.



