(* ===== verification/ApiStore.v ===== *)
(** * The API over the services and the store

    The services of the repository as the API's interfaces, and what a request
    becomes end to end: the status of every publication, and an endpoint that is
    created and read back. *)

From S2P Require Import Prelude GoErrors GoTime GoText GoStrings GoParse Delivery Schema Tx Invariant TxLogic.
From S2P Require Import Queue QueueSafety QueueSpec Eventing StoreEvents StoreDeliveries StoreEndpoints StoreSafety.
From S2P Require Import System Demo StoreTheorems Sha256 Secure Dispatcher EndpointService TargetTheorems EndpointTheorems.
From S2P Require Import Services ServiceTheorems ReadOnly BuildInfo JsonEncode JsonDecode Mime Api ApiServices ApiServer ApiDemo ApiTheorems.

#[local] Existing Instances sim_postgres sim_uuids sim_postgres_laws sim_uuids_laws.

(** ** Publication *)

Section Publication.
Context `{PG : Postgres} {PL : PostgresLaws} `{UU : Uuids} {UL : UuidsLaws} `{TE : TxEnv} `{UP : UuidParser}.
Context `{HO : HttpOutput} `{UT : UnicodeTables} `{UX : UnicodeText}.

Lemma enqueue_bad_uuid p (D : db) n :
  uuid_in (EP_EndpointID p) = None →
  EnqueueEvent_store p (mkConn _ D D [] n)
  = (Err (wrapf "lock endpoint" (invalid_input "uuid")), mkConn _ D D [] n).
Proof.
  intros H. unfold EnqueueEvent_store. run_eval. unfold lockEndpointQuery, sql_uuid. rewrite H. cbn [mbind res_bind].
  run_eval. cbn. done.
Qed.

Lemma enqueue_bad_payload p ep (D : db) n :
  uuid_in (EP_EndpointID p) = Some ep → jsonb_in (EP_Payload p) = None →
  (∃ eid, sql_uuid (EP_EventID p) = Ok eid) → text_in (EP_Type p) = true →
  ∃ e c, EnqueueEvent_store p (mkConn _ D D [] n) = (Err e, c) ∧ durable c = D
    ∧ (e = endpoint_ErrNotFound ∨ e = eventing_ErrEndpointDisabled ∨ e = wrapf "upsert event" (invalid_input "json")).
Proof.
  intros H1 H2 [eid H3] H4. unfold EnqueueEvent_store. run_eval. unfold lockEndpointQuery, sql_uuid at 1. rewrite H1.
  cbn [mbind res_bind]. destruct (endpoints D !! ep) as [e|] eqn:He; run_eval.
  2:{ cbn. eexists _, _. split; [done|]. split; [done|by left]. }
  destruct (ep_disabled_at e) as [t|]; run_eval.
  { eexists _, _. split; [done|]. split; [done|by right; left]. }
  assert (Hq : upsertEventQuery p D = Err (invalid_input "json")).
  { unfold upsertEventQuery. rewrite H3. unfold sql_uuid, sql_text, sql_jsonb. rewrite H1, H2, H4. done. }
  rewrite Hq. run_eval. eexists _, _. split; [done|]. split; [done|by right; right].
Qed.
End Publication.

Section Publish.
Context `{PG : Postgres} {PL : PostgresLaws} `{UU : Uuids} {UL : UuidsLaws} `{TE : TxEnv} `{UP : UuidParser}.
Context `{HO : HttpOutput} `{UT : UnicodeTables} `{UX : UnicodeText}.

Lemma eventType_text s : eventTypePattern s = true → text_in s = true.
Proof.
  intros (b & rest & E & Hb & Hr & _)%eventTypePattern_spec. apply text_in_printable. rewrite E.
  assert (Hp : ∀ x, type_byte x = true → between 32 126 x = true) by (intros []; vm_compute; done).
  apply forallb_forall. intros x [<-|Hx]; apply Hp; [unfold type_byte; by rewrite Hb|by apply Hr, list_elem_of_In].
Qed.

(** The status of a publication that was validated. *)
Definition publish_status (out : res Enqueued) : Z :=
  match out with
  | Ok _ => 202
  | Err e =>
      if errors_is e eventing_ErrInvalid then 400
      else if errors_is e endpoint_ErrNotFound then 404
      else if errors_is e eventing_ErrEndpointDisabled || errors_is e ErrIdempotencyConflict then 409
      else 500
  end.

Definition event_input (r : HttpRequest) (q : publishEventRequest) : PublishInput :=
  mkPublishInput (PER_EndpointID q) (PER_Type q) (PER_Payload q) (Req_Header r "Idempotency-Key").

(** The handler is the service's outcome and its answer. *)
Lemma publishEvent_runs {SV : ApiEvents} r path p q c out c' :
  decodeJSON publishEventRequest_type r maximumEventBody = Ok q →
  runs (svc_Publish (event_input r q)) c out c' →
  ∃ x, runs (publishEvent r path (mkExchange p new_writer)) c (Ok x) c' ∧ status (writer x) = publish_status out.
Proof.
  intros Hd Hp. unfold publishEvent. rewrite Hd. unfold runs. rewrite eval_bind, eval_try.
  unfold runs, event_input in Hp. rewrite Hp. destruct out as [e|err].
  - eexists. split; [reflexivity|]. by apply status_writeJSON.
  - eexists. split; [reflexivity|]. cbn [writer answer publish_status]. unfold writeEventError.
    destruct (errors_is err eventing_ErrInvalid), (errors_is err endpoint_ErrNotFound),
      (errors_is err eventing_ErrEndpointDisabled), (errors_is err ErrIdempotencyConflict);
      cbn [orb]; by apply status_writeError.
Qed.

Lemma publish_status_wrapped out msg : publish_status (map_err (wrapf msg) out) = publish_status out.
Proof. by destruct out. Qed.

(** The parameters [Publish] hands to the store. *)
Definition event_params (input : PublishInput) (n : nat) : EnqueueParams :=
  mkEnqueueParams (NewString n) (NewString (S n)) (PI_EndpointID input) (TrimSpace (PI_Type input))
    (PI_Payload input) (TrimSpace (PI_IdempotencyKey input)).

Lemma Publish_eval (RE : EventRepository) input (c : conn) :
  valid_input input →
  Publish input c = wrapping "enqueue event" (EnqueueEvent (event_params input (next_uuid c)))
                      (mkConn _ (durable c) (work c) (faults c) (S (S (next_uuid c)))).
Proof. intros Hv. unfold Publish. by rewrite (check_input_valid _ Hv). Qed.

Lemma valid_decoded input n ep pl :
  valid_input input → uuid_in (PI_EndpointID input) = Some ep → jsonb_in (PI_Payload input) = Some pl →
  decoded (event_params input n) (NewString n) (NewString (S n)) ep (TrimSpace (PI_Type input))
    (TrimSpace (PI_IdempotencyKey input)) pl.
Proof.
  intros Hv Hep Hpl. destruct Hv as [_ Ht%eventTypePattern_spec _ Hk%validIdempotencyKey_spec].
  split; cbn; try (apply canonical_sql_uuid, NewString_canonical); unfold sql_uuid, sql_text, sql_jsonb.
  - by rewrite Hep.
  - by rewrite eventType_text.
  - by rewrite Hpl.
  - by rewrite valid_key_text.
Qed.

Lemma publishEvent_refused r path p q c err :
  decodeJSON publishEventRequest_type r maximumEventBody = Ok q →
  check_input (event_input r q) = Err err → errors_is err eventing_ErrInvalid = true →
  ∃ x, runs (publishEvent (SV := api_events) r path (mkExchange p new_writer)) c (Ok x) c ∧ status (writer x) = 400
       ∧ ¬ valid_input (event_input r q).
Proof.
  intros Hd Hc Hi. destruct (publishEvent_runs (SV := api_events) r path p q c (Err err) c Hd) as (x & Hx & Hs).
  { unfold svc_Publish, api_events, runs, Publish. by rewrite Hc. }
  exists x. split; [exact Hx|]. split; [rewrite Hs; unfold publish_status; by rewrite Hi|].
  intros Hv. by rewrite (check_input_valid _ Hv) in Hc.
Qed.

(** A validated request is the enqueue, and its answer. *)
Lemma publishEvent_enqueues r path p q (s : state) out c :
  let n := st_next s in
  decodeJSON publishEventRequest_type r maximumEventBody = Ok q → valid_input (event_input r q) →
  EnqueueEvent_store (event_params (event_input r q) n) (mkConn _ (st_db s) (st_db s) [] (S (S n))) = (out, c) →
  ∃ x, runs (publishEvent (SV := api_events) r path (mkExchange p new_writer)) (connect s []) (Ok x) c
       ∧ status (writer x) = publish_status out.
Proof.
  intros n Hd Hv Hrun.
  destruct (publishEvent_runs (SV := api_events) r path p q (connect s []) (map_err (wrapf "enqueue event") out) c Hd)
    as (x & Hx & Hs).
  - unfold svc_Publish, api_events, runs. rewrite Publish_eval by done. rewrite eval_wrapping.
    unfold EnqueueEvent, store_event_repository. cbn [connect durable work faults next_uuid]. fold n. by rewrite Hrun.
  - exists x. split; [exact Hx|]. by rewrite Hs, publish_status_wrapped.
Qed.
End Publish.

(** [C10] What a decoded request to publish is answered, end to end on a healthy
    connection. An input the service refuses is 400 and changes nothing. One it
    accepts whose endpoint identifier PostgreSQL does not read as a uuid is a
    500, and one whose payload it does not read is never accepted; neither
    changes anything. Every other request is answered after the outcome of the
    enqueue, branch by branch: 404 for an unknown endpoint, 409 for a disabled
    one or a key used for another event, 202 for the stored event. *)
Theorem publish_event_answers `{PG : Postgres} {PL : PostgresLaws} `{UU : Uuids} {UL : UuidsLaws} `{TE : TxEnv}
    `{UP : UuidParser} `{HO : HttpOutput} `{UT : UnicodeTables} `{UX : UnicodeText}
    (s : state) (r : HttpRequest) path pattern (q : publishEventRequest) :
  let SV := api_events in
  let n := st_next s in
  reachable s → decodeJSON publishEventRequest_type r maximumEventBody = Ok q →
  events (st_db s) !! NewString n = None → deliveries (st_db s) !! NewString (S n) = None →
  ∃ x c, runs (publishEvent r path (mkExchange pattern new_writer)) (connect s []) (Ok x) c
    ∧ let input := event_input r q in
      (¬ valid_input input ∧ status (writer x) = 400 ∧ durable c = st_db s
       ∨ valid_input input ∧ uuid_in (PER_EndpointID q) = None ∧ status (writer x) = 500 ∧ durable c = st_db s
       ∨ valid_input input ∧ jsonb_in (PER_Payload q) = None ∧ status (writer x) ∈ [404; 409; 500]
         ∧ durable c = st_db s
       ∨ valid_input input ∧ ∃ ep pl out, uuid_in (PER_EndpointID q) = Some ep ∧ jsonb_in (PER_Payload q) = Some pl
         ∧ enqueue_outcome (event_params input n) (NewString n) (NewString (S n)) ep (TrimSpace (PER_Type q))
             (TrimSpace (Req_Header r "Idempotency-Key")) pl (st_db s) out (durable c)
         ∧ status (writer x) = publish_status out).
Proof.
  intros SV n Hr Hd He Hdl. pose proof (reachable_db_ok _ Hr) as Hok. set (input := event_input r q).
  destruct (check_input_cases input) as [Hv|(err & Hc & Hi)].
  2:{ destruct (publishEvent_refused r path pattern q (connect s []) err Hd Hc Hi) as (x & Hx & Hs & Hnv).
      exists x, (connect s []). split; [exact Hx|]. by left. }
  pose proof (λ out c, publishEvent_enqueues r path pattern q s out c Hd Hv) as Hgo. fold n input in Hgo.
  destruct (uuid_in (PER_EndpointID q)) as [ep|] eqn:Hep.
  2:{ destruct (Hgo _ _ (enqueue_bad_uuid (event_params input n) (st_db s) (S (S n)) Hep)) as (x & Hx & Hs).
      eexists x, _. split; [exact Hx|]. right; left. by rewrite Hs. }
  destruct (jsonb_in (PER_Payload q)) as [pl|] eqn:Hpl.
  2:{ destruct (enqueue_bad_payload (event_params input n) ep (st_db s) (S (S n)) Hep Hpl) as (e & c & Hrun & Hdur & Hcase).
      - eexists. apply canonical_sql_uuid, NewString_canonical.
      - apply eventType_text, eventTypePattern_spec, Hv.
      - destruct (Hgo _ _ Hrun) as (x & Hx & Hs). exists x, c. split; [exact Hx|]. right; right; left.
        split_and!; [done|done| |done]. rewrite Hs, !elem_of_cons.
        destruct Hcase as [->|[->| ->]]; cbn; tauto. }
  pose proof (valid_decoded input n ep pl Hv Hep Hpl) as Hdec.
  destruct (EnqueueEvent_total (event_params input n) _ _ _ _ _ _ (st_db s) (S (S n)) Hok Hdec He Hdl) as (out & W & Hrun & Ho).
  destruct (Hgo _ _ Hrun) as (x & Hx & Hs). eexists x, _. split; [exact Hx|]. right; right; right.
  split; [done|]. by exists ep, pl, out.
Qed.

Definition demo_publication : res exchange * conn :=
  publishEvent (SV := api_events (TE := at_second 40)) (demo_request "POST" "/v1/events" "") (λ _, ""%string)
    (mkExchange "" new_writer) (connect (demo demo_claimed) []).

Lemma publish_event_answers_witness :
  ∃ x c e pl, runs (publishEvent (SV := api_events (TE := at_second 40)) (demo_request "POST" "/v1/events" "") (λ _, ""%string)
                 (mkExchange "" new_writer)) (connect (demo demo_claimed) []) (Ok x) c
    ∧ status (writer x) = 202
    ∧ enqueue_outcome (TE := at_second 40)
        (event_params (event_input (demo_request "POST" "/v1/events" "") (mkPublishEventRequest "ep" "invoice.paid" [x7b; x7d]))
           (st_next (demo demo_claimed)))
        (NewString (st_next (demo demo_claimed))) (NewString (S (st_next (demo demo_claimed)))) "ep"
        (TrimSpace "invoice.paid") (TrimSpace "key-77") pl (st_db (demo demo_claimed)) (Ok e) (durable c).
Proof.
  destruct (publish_event_answers (PL := sim_postgres_laws) (UL := sim_uuids_laws) (TE := at_second 40) (demo demo_claimed)
    (demo_request "POST" "/v1/events" "") (λ _, ""%string) "" (mkPublishEventRequest "ep" "invoice.paid" [x7b; x7d]))
    as (x & c & Hx & Hcase);
    [apply demo_reachable|vm_compute; reflexivity|apply is_null_None; vm_compute; reflexivity
    |apply is_null_None; vm_compute; reflexivity|].
  assert (H : match demo_publication.1 with Ok x => status (writer x) =? 202 | Err _ => false end = true) by (vm_compute; reflexivity).
  assert (Hs : status (writer x) = 202) by (unfold demo_publication in H; unfold runs in Hx; rewrite Hx in H; by apply Z.eqb_eq).
  destruct Hcase as [(_ & H1 & _)|[(_ & _ & H1 & _)|[(_ & _ & H1 & _)|(_ & ep & pl & out & Hep & _ & Ho & H1)]]].
  - exfalso. clear -Hs H1. by rewrite H1 in Hs.
  - exfalso. clear -Hs H1. by rewrite H1 in Hs.
  - exfalso. clear -Hs H1. rewrite Hs, !elem_of_cons, elem_of_nil in H1. by destruct H1 as [?|[?|[?|[]]]].
  - injection Hep as <-. rewrite Hs in H1. destruct out as [e|e].
    + exists x, c, e, pl. split; [exact Hx|]. split; [exact Hs|exact Ho].
    + exfalso. clear -H1. unfold publish_status in H1. by repeat destruct (errors_is e _).
Defined.

(** ** Endpoints *)

Section Endpoints.
Context `{PG : Postgres} {PL : PostgresLaws} `{UU : Uuids} {UL : UuidsLaws} `{TE : TxEnv} `{UP : UuidParser}.
Context {UPL : UuidParserLaws} `{UT : UnicodeTables}.
Context `{HO : HttpOutput} `{UX : UnicodeText}.
Variables (Encrypt : bytes → bytes → res bytes) (random : res bytes) (options : Options).

#[local] Instance section_endpoints : ApiEndpoints := api_endpoints Encrypt random options.

Lemma GetEndpoint_total id row (D : db) n :
  canonical id → endpoints D !! id = Some row →
  GetEndpoint id (mkConn _ D D [] n) = (Ok (endpoint_of_row id row), mkConn _ D D [] n).
Proof.
  intros Hc Hrow. unfold GetEndpoint. run_eval. unfold endpointQuery. rewrite (canonical_sql_uuid _ Hc).
  cbn [mbind res_bind]. rewrite Hrow. run_eval. done.
Qed.

(** What a successful creation leaves in the database. *)
Lemma Create_stored input (c c' : conn) created :
  runs (Create Encrypt random options input) c (Ok created) c' →
  ∃ n row, Created_Endpoint created = endpoint_of_row (NewString n) row
           ∧ endpoints (durable c') !! NewString n = Some row.
Proof.
  intros Hr. unfold Create in Hr. destruct (check_create options input) as [[[[name target] timeout] attempts]|err];
    [|by apply runs_throw in Hr as [? _]].
  apply runs_bind in Hr as [(err & _ & ?)|(id & s1 & H1 & Hr)]; [done|].
  apply runs_new_uuid in H1 as ([= ->] & _ & _). destruct random as [secretBytes|err]; [|by apply runs_throw in Hr as [? _]].
  cbn zeta in Hr. destruct (Encrypt _ _) as [ciphertext|err]; [|by apply runs_throw in Hr as [? _]].
  apply runs_bind in Hr as [(err & _ & ?)|(e & s2 & H2 & [[= ->] ->]%runs_ret)]; [done|].
  apply runs_wrapping in H2 as ([x|err] & H2 & [= <-]).
  apply CreateEndpoint_runs in H2 as (row & _ & Hi & -> & _); [|apply NewString_canonical].
  exists (next_uuid c), row. split; [done|]. rewrite Hi. apply lookup_insert_eq.
Qed.

(** The member names of an object. *)
Definition members (j : json) : list string := match j with JObject l => map fst l | _ => [] end.

Lemma view_members v : "secret"%string ∉ members (endpointResponse_json (endpointView v)).
Proof.
  destruct v as [? ? ? ? ? ? ? [t|] [t'|] ? ?];
    (apply (bool_decide_unpack _), Is_true_true; vm_compute; reflexivity).
Qed.

(** The endpoint in an answer 201, and how it is read afterwards. *)
Definition answered_created (c' : conn) (x : exchange) : Prop :=
  ∃ e secret,
    writer x = writeJSON 201 (endpointResponse_json (with_secret secret (endpointView e)))
                 (Set_ "Location" ("/v1/endpoints/" +:+ Endpoint_ID e) new_writer)
    ∧ ∀ r path p, path "endpoint_id" = Endpoint_ID e → ∃ c2,
        runs (getEndpoint r path (mkExchange p new_writer)) (connect (mkState (durable c') (next_uuid c')) [])
          (Ok (mkExchange p (writeJSON 200 (endpointResponse_json (endpointView e)) new_writer))) c2
        ∧ durable c2 = durable c'
        ∧ "secret"%string ∉ members (endpointResponse_json (endpointView e)).

Lemma createEndpoint_answered r path p (c c' : conn) x :
  runs (createEndpoint r path (mkExchange p new_writer)) c (Ok x) c' → status (writer x) = 201 →
  answered_created c' x.
Proof.
  unfold createEndpoint. destruct (decodeJSON _ r _) as [q|err].
  2:{ intros [[= ->] ->]%runs_answer. cbn [writer answer]. unfold writeDecodeError.
      by destruct (errors_is _ _); rewrite status_writeError. }
  destruct (_ || _).
  { intros [[= ->] ->]%runs_answer. cbn [writer answer]. by rewrite status_writeError. }
  destruct (_ || _).
  { intros [[= ->] ->]%runs_answer. cbn [writer answer]. by rewrite status_writeError. }
  intros ([created|err] & c1 & Hc & Hrun)%runs_try_bind.
  2:{ apply runs_answer in Hrun as [[= ->] ->]. cbn [writer answer]. unfold writeEndpointError.
      by repeat destruct (errors_is _ _); rewrite status_writeError. }
  cbv zeta in Hrun. apply runs_answer in Hrun as [[= ->] ->]. intros _.
  apply Create_stored in Hc as (n & row & He & Hrow).
  exists (Created_Endpoint created), (Created_Secret created). split; [done|].
  intros r' path' p' Hpath. eexists. split; [|split; [|apply view_members]].
  - unfold getEndpoint, runs. rewrite eval_bind, eval_try. rewrite Hpath, He.
    unfold svc_Get, section_endpoints, api_endpoints, EndpointService.Get. cbn [endpoint_of_row Endpoint_ID].
    rewrite Parse_NewString. cbn [negb]. rewrite eval_wrapping. unfold repo_GetEndpoint, store_endpoint_repository, connect.
    cbn [st_db st_next]. rewrite (GetEndpoint_total _ row _ _ (NewString_canonical n) Hrow). reflexivity.
  - reflexivity.
Qed.
End Endpoints.

(** An endpoint answered 201 can be read: whatever the connection went
    through, a GET of the Location the answer gives returns the same view of the
    endpoint, and the secret, a member of the first answer only, is in no later
    one. *)
Theorem created_then_read `{PG : Postgres} {PL : PostgresLaws} `{UU : Uuids} {UL : UuidsLaws} `{TE : TxEnv}
    `{UP : UuidParser} {UPL : UuidParserLaws} `{UT : UnicodeTables}
    `{HO : HttpOutput} `{UX : UnicodeText}
    (Encrypt : bytes → bytes → res bytes) (random : res bytes) (options : Options)
    (r : HttpRequest) path pattern (c c' : conn) (x : exchange) :
  let SE := api_endpoints Encrypt random options in
  runs (createEndpoint r path (mkExchange pattern new_writer)) c (Ok x) c' → status (writer x) = 201 →
  ∃ e secret,
    writer x = writeJSON 201 (endpointResponse_json (with_secret secret (endpointView e)))
                 (Set_ "Location" ("/v1/endpoints/" +:+ Endpoint_ID e) new_writer)
    ∧ ∀ r' path' pattern', path' "endpoint_id" = Endpoint_ID e → ∃ c2,
        runs (getEndpoint r' path' (mkExchange pattern' new_writer)) (connect (mkState (durable c') (next_uuid c')) [])
          (Ok (mkExchange pattern' (writeJSON 200 (endpointResponse_json (endpointView e)) new_writer))) c2
        ∧ durable c2 = durable c'
        ∧ "secret"%string ∉ members (endpointResponse_json (endpointView e)).
Proof. intros SE. apply createEndpoint_answered. Qed.

Definition demo_creation : res exchange * conn :=
  createEndpoint (SE := demo_endpoints 40) (demo_request "POST" "/v1/endpoints" "") (λ _, ""%string)
    (mkExchange "" new_writer) (connect (demo demo_claimed) []).

Lemma created_then_read_witness :
  ∃ x e c2, demo_creation.1 = Ok x ∧ status (writer x) = 201
    ∧ runs (getEndpoint (SE := demo_endpoints 40) (demo_request "GET" "" "") (λ _, Endpoint_ID e) (mkExchange "" new_writer))
        (connect (mkState (durable demo_creation.2) (next_uuid demo_creation.2)) [])
        (Ok (mkExchange "" (writeJSON 200 (endpointResponse_json (endpointView e)) new_writer))) c2.
Proof.
  destruct demo_creation as [out c'] eqn:E.
  assert (H : match demo_creation.1 with Ok x => status (writer x) =? 201 | Err _ => false end = true) by (vm_compute; reflexivity).
  rewrite E in H. cbn [fst snd] in *. destruct out as [x|err]; [|discriminate H]. apply Z.eqb_eq in H.
  destruct (created_then_read (PL := sim_postgres_laws) (UL := sim_uuids_laws) (UPL := sim_parser_laws)
    (UX := plain_unicode) (UT := ascii_tables) (TE := at_second 40)
    _ _ _ (demo_request "POST" "/v1/endpoints" "") (λ _, ""%string) "" _ c' x E H) as (e & secret & _ & Hget).
  destruct (Hget (demo_request "GET" "" "") (λ _, Endpoint_ID e) ""%string eq_refl) as (c2 & Hrun & _).
  exists x, e, c2. split; [reflexivity|]. split; [exact H|exact Hrun].
Defined.
