(* ===== verification/Metrics.v ===== *)
(** * Metrics

    [src/internal/observability/metrics.go]. The counters, histograms and
    gauges are objects of the Prometheus client: [NewMetrics] is what they are
    made and registered with, an observer is the list of calls it makes on them,
    and [Collect] the list of constant metrics it sends, in the order in which Go
    ranges over its two maps, which the language leaves open. Its theorems: what
    the collectors receive, and that a scrape never fails. *)

From S2P Require Import Prelude GoErrors GoTime GoText Float64 Delivery Schema Tx TxLogic Queue StoreEndpoints.
From S2P Require Import System Demo Signature StoreTheorems Bench ReadOnly.
From S2P Require Worker WorkerTheorems.

(** ** The collectors *)

(** [prometheus.Opts]. *)
Record Opts : Type := mkOpts {
  Namespace : string;
  Subsystem : string;
  Opts_Name : string;
  Help : string;
}.

Inductive collector : Type :=
  | CounterVec (o : Opts) (labels : list string)
  | HistogramVec (o : Opts) (buckets : list float64) (labels : list string)
  | Counter (o : Opts)
  | Gauge (o : Opts).

(** [prometheus.NewDesc] without constant labels. *)
Record Desc : Type := mkDesc {
  fqName : string;
  desc_help : string;
  variableLabels : list string;
}.

Record Metrics : Type := mkMetrics {
  httpRequests : collector;
  httpDuration : collector;
  workerClaims : collector;
  deliveryAttempts : collector;
  deliveryDuration : collector;
  deliveryFinishErrors : collector;
  deliveryInFlight : collector;
  deliveries_desc : Desc;
  openCircuits : Desc;
  statsScrapeSuccess : Desc;
  databaseConnections : Desc;
}.

Definition thousandths (n : Z) : float64 := fdiv (of_int n) (of_int 1000).

(** [DefBuckets] are the package's default buckets. *)
Definition NewMetrics (DefBuckets : list float64) : Metrics :=
  mkMetrics
    (CounterVec (mkOpts "relayforge" "http" "requests_total" "Total HTTP requests.") ["method"; "route"; "status"])
    (HistogramVec (mkOpts "relayforge" "http" "request_duration_seconds" "HTTP request duration in seconds.")
       DefBuckets ["method"; "route"])
    (CounterVec (mkOpts "relayforge" "worker" "claims_total" "Delivery claim attempts by result.") ["result"])
    (CounterVec (mkOpts "relayforge" "delivery" "attempts_total" "Webhook delivery attempts by decision.") ["decision"])
    (HistogramVec (mkOpts "relayforge" "delivery" "attempt_duration_seconds" "Webhook delivery attempt duration in seconds.")
       (map thousandths [10; 25; 50; 100; 250; 500; 1000; 2500; 5000; 10000; 30000]) ["decision"])
    (Counter (mkOpts "relayforge" "delivery" "finish_errors_total" "Failed delivery result persistence operations."))
    (Gauge (mkOpts "relayforge" "delivery" "in_flight" "Deliveries currently processed by this instance."))
    (mkDesc "relayforge_deliveries" "Current durable deliveries by status." ["status"])
    (mkDesc "relayforge_open_circuits" "Endpoints with an open circuit." [])
    (mkDesc "relayforge_operational_stats_scrape_success" "Whether durable operational stats were collected successfully." [])
    (mkDesc "relayforge_database_connections" "PostgreSQL pool connections by state." ["state"]).

(** What is registered besides the package's own collectors: these, and
    [Metrics] itself with the descriptors of [Describe]. *)
Definition registered_collectors (m : Metrics) : list collector :=
  [httpRequests m; httpDuration m; workerClaims m; deliveryAttempts m; deliveryDuration m; deliveryFinishErrors m; deliveryInFlight m].

(** ** The observers *)

(** The members of [Metrics] the observers act on. *)
Inductive member : Type :=
  | The_httpRequests
  | The_httpDuration
  | The_workerClaims
  | The_deliveryAttempts
  | The_deliveryDuration
  | The_deliveryFinishErrors
  | The_deliveryInFlight.

#[export] Instance member_eq_dec : EqDecision member.
Proof. solve_decision. Defined.

Definition member_of (m : Metrics) (x : member) : collector :=
  match x with
  | The_httpRequests => httpRequests m
  | The_httpDuration => httpDuration m
  | The_workerClaims => workerClaims m
  | The_deliveryAttempts => deliveryAttempts m
  | The_deliveryDuration => deliveryDuration m
  | The_deliveryFinishErrors => deliveryFinishErrors m
  | The_deliveryInFlight => deliveryInFlight m
  end.

(** The calls they make, with the label values. *)
Inductive client_call : Type :=
  | Inc (vec : member) (labels : list string)
  | Observe (vec : member) (labels : list string) (v : float64)
  | Add (gauge : member) (delta : Z).

Definition ObserveHTTPRequest (method route : string) (status : Z) (duration : Duration) : list client_call :=
  [Inc The_httpRequests [method; route; FormatInt status]; Observe The_httpDuration [method; route] (Seconds duration)].

Definition ObserveClaim (result : string) : list client_call := [Inc The_workerClaims [result]].

Definition ObserveAttempt (decision : Decision) (duration : Duration) : list client_call :=
  let label := Decision_string decision in
  [Inc The_deliveryAttempts [label]; Observe The_deliveryDuration [label] (Seconds duration)].

Definition ObserveFinishError : list client_call := [Inc The_deliveryFinishErrors []].

Definition AddInFlight (delta : Z) : list client_call := [Add The_deliveryInFlight delta].

(** [Metrics] as the workers' [Observer]. *)
Definition observe (o : Worker.observation) : list client_call :=
  match o with
  | Worker.ObserveClaim result => ObserveClaim result
  | Worker.ObserveAttempt decision duration => ObserveAttempt decision duration
  | Worker.ObserveFinishError => ObserveFinishError
  | Worker.AddInFlight delta => AddInFlight delta
  end.

(** A constant gauge: its descriptor, its value and its labels. *)
Record metric : Type := mkMetric {
  metric_desc : Desc;
  metric_value : float64;
  metric_labels : list string;
}.

(** The order of a [range] over a map with the given entries. *)
Class MapOrder := {
  range : ∀ {A}, list A → list A;
  range_perm : ∀ A (l : list A), range l ≡ₚ l;
}.

(** [StatsProvider]. *)
Class StatsProvider `{Postgres} := { stats : M OperationalStats }.
#[export] Instance store_stats `{PG : Postgres} `{TE : TxEnv} : StatsProvider := {| stats := GetOperationalStats |}.

(** What [pool.Stat()] reports. *)
Record PoolStat : Type := mkPoolStat { AcquiredConns : Z; IdleConns : Z; TotalConns : Z; MaxConns : Z }.

Section Collect.
Context `{PG : Postgres} `{MO : MapOrder} {SP : StatsProvider}.
Variable m : Metrics.

Definition delivery_metrics (s : OperationalStats) : list metric :=
  map (λ '(status, count), mkMetric (deliveries_desc m) (of_int count) [status])
    (range [("pending", Stats_Pending s); ("processing", Stats_Processing s); ("retrying", Stats_Retrying s);
            ("succeeded", Stats_Succeeded s); ("dead", Stats_Dead s)]%string).

Definition pool_metrics (p : PoolStat) : list metric :=
  map (λ '(state, count), mkMetric (databaseConnections m) (of_int count) [state])
    (range [("acquired", AcquiredConns p); ("idle", IdleConns p); ("total", TotalConns p); ("max", MaxConns p)]%string).

Definition scrape_success (v : Z) : metric :=
  mkMetric (statsScrapeSuccess m) (of_int v) [].

Definition Collect (pool : PoolStat) : M (list metric) :=
  stats ← try stats;
  let durable_stats :=
    match stats with
    | Err _ => [scrape_success 0]
    | Ok stats => [scrape_success 1] ++ delivery_metrics stats
                  ++ [mkMetric (openCircuits m) (of_int (Stats_OpenCircuits stats)) []]
    end in
  mret (durable_stats ++ pool_metrics pool).

Definition Describe : list Desc := [deliveries_desc m; openCircuits m; statsScrapeSuccess m; databaseConnections m].
End Collect.

(** ** What the collectors receive *)

#[local] Existing Instances sim_postgres sim_uuids sim_postgres_laws sim_uuids_laws.

Section Gauges.
Variable m : Metrics.

(** The gauges of the five statuses, in the order of the struct. *)
Definition status_gauges (counts : list Z) : list metric :=
  zip_with (λ status count, mkMetric (deliveries_desc m) (of_int count) [status])
    ["pending"; "processing"; "retrying"; "succeeded"; "dead"]%string counts.

Definition pool_gauges (p : PoolStat) : list metric :=
  zip_with (λ state count, mkMetric (databaseConnections m) (of_int count) [state])
    ["acquired"; "idle"; "total"; "max"]%string [AcquiredConns p; IdleConns p; TotalConns p; MaxConns p].
End Gauges.

(** A constant metric of one of the descriptors described, with a value for each
    of its labels: what [MustNewConstMetric] and the registry ask for. *)
Definition described (m : Metrics) (x : metric) : Prop :=
  metric_desc x ∈ Describe m ∧ length (metric_labels x) = length (variableLabels (metric_desc x))
  ∧ Forall (λ s, ValidString s = true) (metric_labels x).

Lemma described_gauges `{MO : MapOrder} DefBuckets counts p circuits v :
  let m := NewMetrics DefBuckets in
  Forall (described m) (scrape_success m v :: mkMetric (openCircuits m) circuits [] :: status_gauges m counts ++ pool_gauges m p).
Proof.
  intros m. rewrite !Forall_cons, Forall_app. split_and!.
  - split_and!; [set_solver|done..].
  - split_and!; [set_solver|done..].
  - unfold status_gauges. apply Forall_forall. intros x Hx. apply elem_of_lookup_zip_with in Hx as (i & s & c & -> & Hs & _).
    split_and!; [set_solver|done|]. constructor; [|done]. apply list_elem_of_lookup_2 in Hs.
    rewrite !elem_of_cons, elem_of_nil in Hs. by repeat destruct Hs as [->|Hs].
  - unfold pool_gauges. repeat constructor; set_solver.
Qed.

(** [C36] A scrape always succeeds and changes nothing: whatever the connection
    goes through, it sends, once each and in some order, the four gauges of the
    pool under their state, and either the report that the statistics could not
    be read, without any of them, or the report that they could with one gauge
    per status, each with the number of deliveries the database has in that
    status, and one with the number of endpoints whose circuit is open now; the
    five add up to the number of deliveries. Every metric sent has one of the
    four descriptors described, and a valid value for each of its labels. *)
Theorem Collect_reports `{PG : Postgres} {PL : PostgresLaws} `{TE : TxEnv} `{MO : MapOrder}
    (DefBuckets : list float64) (pool : PoolStat) (c c' : conn) out :
  let m := NewMetrics DefBuckets in
  let d := durable c in
  let gauge desc labels n := mkMetric desc (of_int n) labels in
  let of_status s name := gauge (deliveries_desc m) [name] (Z.of_nat (size (filter (λ kv, d_status kv.2 = s) (deliveries d)))) in
  let of_pool name n := gauge (databaseConnections m) [name] n in
  let connections := [of_pool "acquired" (AcquiredConns pool); of_pool "idle" (IdleConns pool);
                      of_pool "total" (TotalConns pool); of_pool "max" (MaxConns pool)]%string in
  runs (Collect m pool) c out c' →
  durable c' = d
  ∧ ∃ l, out = Ok l ∧ Forall (described m) l
    ∧ (l ≡ₚ gauge (statsScrapeSuccess m) [] 0 :: connections
       ∨ l ≡ₚ gauge (statsScrapeSuccess m) [] 1
           :: gauge (openCircuits m) []
                (Z.of_nat (size (filter (λ kv, now < default now (ep_circuit_open_until kv.2)) (endpoints d))))
           :: [of_status StatusPending "pending"; of_status StatusProcessing "processing"; of_status StatusRetrying "retrying";
               of_status StatusSucceeded "succeeded"; of_status StatusDead "dead"]%string ++ connections)
    ∧ fold_right Z.add 0 (map (λ s, Z.of_nat (size (filter (λ kv, d_status kv.2 = s) (deliveries d))))
        [StatusPending; StatusProcessing; StatusRetrying; StatusSucceeded; StatusDead]) = Z.of_nat (size (deliveries d)).
Proof.
  intros m d gauge of_status of_pool connections Hrun. unfold Collect in Hrun.
  apply runs_bind in Hrun as [(e & H & _)|(r & c1 & H & [-> ->]%runs_ret)]; apply runs_try in H as (r' & H & Hr); [done|].
  injection Hr as ->. split; [by eapply GetOperationalStats_reads|].
  assert (Hpool : pool_metrics m pool ≡ₚ pool_gauges m pool).
  { unfold pool_metrics. rewrite range_perm. reflexivity. }
  assert (Hsum := counted_all d). unfold counted in Hsum.
  eexists. split; [done|]. destruct r' as [st|e].
  2:{ split; [|split; [left; by rewrite Hpool|cbn; lia]]. cbn [app]. rewrite Hpool.
      pose proof (described_gauges DefBuckets [] pool f_zero 0) as Hd. rewrite !Forall_cons, Forall_app in Hd. apply Forall_cons. tauto. }
  apply GetOperationalStats_runs in H as (_ & ->).
  set (counts := map (counted d) [StatusPending; StatusProcessing; StatusRetrying; StatusSucceeded; StatusDead]).
  set (st := mkOperationalStats _ _ _ _ _ _).
  assert (Hst : delivery_metrics m st ≡ₚ status_gauges m counts).
  { unfold delivery_metrics. rewrite range_perm. reflexivity. }
  assert (Hl : ([scrape_success m 1] ++ delivery_metrics m st ++ [mkMetric (openCircuits m) (of_int (Stats_OpenCircuits st)) []])
               ++ pool_metrics m pool
               ≡ₚ scrape_success m 1 :: mkMetric (openCircuits m) (of_int (Stats_OpenCircuits st)) []
                  :: status_gauges m counts ++ pool_gauges m pool).
  { rewrite Hst, Hpool. cbn [app]. apply perm_skip. rewrite <- app_assoc. cbn [app]. symmetry. apply Permutation_middle. }
  split; [rewrite Hl; apply described_gauges|]. split; [|cbn; lia]. right. by rewrite Hl.
Qed.

#[export] Instance source_order : MapOrder.
Proof. refine {| range := λ _ l, l |}. reflexivity. Defined.

Lemma Collect_reports_witness :
  let m := NewMetrics [] in
  ∃ l, (Collect (SP := store_stats (TE := at_second 50)) m (mkPoolStat 1 2 3 10) (connect (demo demo_finished) [])).1 = Ok l
    ∧ length l = 11%nat ∧ mkMetric (deliveries_desc m) (of_int 1) ["dead"%string] ∈ l.
Proof.
  intros m. destruct (Collect (SP := store_stats (TE := at_second 50)) m (mkPoolStat 1 2 3 10) (connect (demo demo_finished) []))
    as [out c'] eqn:E.
  destruct (Collect_reports (PL := sim_postgres_laws) (TE := at_second 50) [] (mkPoolStat 1 2 3 10) _ c' out E)
    as (_ & l & Hl & _ & Hcase & _).
  exists l. split; [exact Hl|].
  assert (Hlen : match (Collect (SP := store_stats (TE := at_second 50)) m (mkPoolStat 1 2 3 10) (connect (demo demo_finished) [])).1 with
    | Ok l => (length l =? 11)%nat | Err _ => false end = true) by (vm_compute; reflexivity).
  rewrite E in Hlen. cbn [fst] in Hlen. rewrite Hl in Hlen. apply Nat.eqb_eq in Hlen. split; [exact Hlen|].
  destruct Hcase as [H|H]; [apply Permutation_length in H; cbn in H; lia|]. rewrite H.
  assert (Hd : Z.of_nat (size (filter (λ kv, d_status kv.2 = StatusDead) (deliveries (st_db (demo demo_finished))))) = 1)
    by (apply Z.eqb_eq; vm_compute; reflexivity).
  cbn [durable connect app]. rewrite Hd. do 6 right. left.
Defined.

(** ** The collectors *)

(** The name a collector is registered under, and its labels. *)
Definition BuildFQName (o : Opts) : string := Namespace o +:+ "_" +:+ Subsystem o +:+ "_" +:+ Opts_Name o.

Definition collector_opts (c : collector) : Opts :=
  match c with CounterVec o _ | HistogramVec o _ _ | Counter o | Gauge o => o end.

Definition collector_labels (c : collector) : list string :=
  match c with CounterVec _ labels | HistogramVec _ _ labels => labels | Counter _ | Gauge _ => [] end.

(** A call that suits the collector: as many valid values as it has labels. *)
Definition call_suits (m : Metrics) (call : client_call) : Prop :=
  let suits c labels := length labels = length (collector_labels c) ∧ Forall (λ s, ValidString s = true) labels in
  match call with
  | Inc vec labels => match member_of m vec with CounterVec _ _ | Counter _ => suits (member_of m vec) labels | _ => False end
  | Observe vec labels _ => match member_of m vec with HistogramVec _ _ _ => suits (member_of m vec) labels | _ => False end
  | Add gauge _ => match member_of m gauge with Gauge _ => True | _ => False end
  end.

Lemma FormatInt_valid z : ValidString (FormatInt z) = true.
Proof.
  unfold ValidString, Valid. pose proof (FormatInt_decimal z) as H. rewrite forallb_forall in H.
  induction (bytes_of (FormatInt z)) as [|b l IH]; [done|]. cbn [decode].
  assert (Hb : (zb b <? 128) = true).
  { specialize (H b (or_introl eq_refl)). apply orb_true_iff in H as [H|H]; [unfold between in H|]; zbool; lia. }
  rewrite Hb. cbn. apply IH. intros x Hx. apply H. by right.
Qed.

(** No observer makes a call its collector refuses, whatever a worker or the API
    observes, as long as the labels are valid texts; and no two
    metrics are registered under one name. *)
Theorem observers_suit (DefBuckets : list float64) :
  let m := NewMetrics DefBuckets in
  (∀ o, match o with
        | Worker.ObserveClaim result => ValidString result = true
        | Worker.ObserveAttempt decision _ => ValidString (Decision_string decision) = true
        | _ => True
        end → Forall (call_suits m) (observe o))
  ∧ (∀ method route status duration, ValidString method = true → ValidString route = true →
       Forall (call_suits m) (ObserveHTTPRequest method route status duration))
  ∧ NoDup (map (λ c, BuildFQName (collector_opts c)) (registered_collectors m) ++ map fqName (Describe m)).
Proof.
  intros m. split_and!.
  - intros [result|decision duration| |delta] Ho; unfold observe, ObserveClaim, ObserveAttempt, ObserveFinishError, AddInFlight.
    + rewrite Forall_cons, Forall_nil. cbn -[ValidString]. by rewrite Forall_cons, Forall_nil.
    + rewrite !Forall_cons, Forall_nil. cbn -[ValidString Decision_string]. rewrite !Forall_cons, !Forall_nil. by split_and!.
    + rewrite Forall_cons, Forall_nil. done.
    + rewrite Forall_cons, Forall_nil. done.
  - intros method route status duration Hm Hr. unfold ObserveHTTPRequest. rewrite !Forall_cons, Forall_nil. cbn -[FormatInt].
    rewrite !Forall_cons, Forall_nil. pose proof (FormatInt_valid status). by split_and!.
  - apply (bool_decide_unpack _). vm_compute. exact I.
Qed.

(** ** The gauge of deliveries in flight *)

(** The value of a gauge after the calls of an observer. *)
Definition gauge (name : member) (calls : list client_call) : Z :=
  fold_right Z.add 0 (map (λ call, match call with Add g d => if bool_decide (g = name) then d else 0 | _ => 0 end) calls).

Lemma gauge_app name l1 l2 : gauge name (l1 ++ l2) = gauge name l1 + gauge name l2.
Proof. unfold gauge. rewrite map_app. induction (map _ l1) as [|z l IH]; cbn; [done|]. rewrite IH. lia. Qed.

(** The gauge follows the workers' in-flight count. *)
Lemma gauge_in_flight os : gauge The_deliveryInFlight (concat (map observe os)) = Worker.in_flight os.
Proof.
  induction os as [|o os IH] using rev_ind; [done|].
  rewrite map_app, concat_app, gauge_app, Worker.in_flight_app, IH. f_equal.
  destruct o; try done. unfold Worker.in_flight, gauge. cbn [map observe AddInFlight concat app fold_right fold_left].
  rewrite bool_decide_eq_true_2 by done. lia.
Qed.
