(* ===== verification/BenchClient.v ===== *)
(** * The load generator's configuration and requests

    [parseConfig], [publish] and [main] of [src/cmd/relaybench/main.go]. The HTTP
    exchange and the standard output are arguments. *)

From S2P Require Import Prelude GoErrors GoTime GoText GoStrings GoParse GoFlag Url Delivery Dispatcher EndpointService JsonEncode JsonIndent.
From S2P Require Import Services Bench.
From S2P Require HttpClient.

Record config : Type := mkBenchConfig {
  BaseURL : string;
  BenchAPIKey : string;
  EndpointID : string;
  EventType : string;
  Requests : Z;
  Concurrency : Z;
  RequestTimeout : Duration;
}.

(** [strings.TrimRight(s, "/")]. *)
Definition TrimRight_slash (s : string) : string :=
  string_of (rev (drop_while (λ b, bool_decide (b = x2f)) (rev (bytes_of s)))).

Section ParseConfig.
Context `{UX : UnicodeText} `{UP : UuidParser}.

Definition set_BaseURL (v : string) (c : config) : config :=
  mkBenchConfig v (BenchAPIKey c) (EndpointID c) (EventType c) (Requests c) (Concurrency c) (RequestTimeout c).
Definition set_APIKey (v : string) (c : config) : config :=
  mkBenchConfig (BaseURL c) v (EndpointID c) (EventType c) (Requests c) (Concurrency c) (RequestTimeout c).
Definition set_EndpointID (v : string) (c : config) : config :=
  mkBenchConfig (BaseURL c) (BenchAPIKey c) v (EventType c) (Requests c) (Concurrency c) (RequestTimeout c).
Definition set_EventType (v : string) (c : config) : config :=
  mkBenchConfig (BaseURL c) (BenchAPIKey c) (EndpointID c) v (Requests c) (Concurrency c) (RequestTimeout c).
Definition set_Requests (v : Z) (c : config) : config :=
  mkBenchConfig (BaseURL c) (BenchAPIKey c) (EndpointID c) (EventType c) v (Concurrency c) (RequestTimeout c).
Definition set_Concurrency (v : Z) (c : config) : config :=
  mkBenchConfig (BaseURL c) (BenchAPIKey c) (EndpointID c) (EventType c) (Requests c) v (RequestTimeout c).
Definition set_RequestTimeout (v : Duration) (c : config) : config :=
  mkBenchConfig (BaseURL c) (BenchAPIKey c) (EndpointID c) (EventType c) (Requests c) (Concurrency c) v.

(** The flags, over the fields of [result]. *)
Definition flags : list (Flag config) :=
  [StringVar "base-url" set_BaseURL; StringVar "api-key" set_APIKey; StringVar "endpoint-id" set_EndpointID;
   StringVar "event-type" set_EventType; IntVar "requests" set_Requests; IntVar "concurrency" set_Concurrency;
   DurationVar "request-timeout" set_RequestTimeout].

Variable args : list string.
Variable getenv : string → string.

(** [eventTypePattern] is the expression the event service has. *)
Definition parseConfig : res config :=
  let defaults := mkBenchConfig "http://localhost:8080" (getenv "RELAYFORGE_API_KEY") "" "relaybench.event" 1000 20
                    (10 * Second) in
  '(result, positional) ← Parse flags args defaults;
  if negb (bool_decide (positional = [])) then Err (New "unexpected positional arguments")
  else match url_Parse (TrimSpace (BaseURL result)) with
  | Err _ => Err (New "base-url must be an absolute HTTP URL")
  | Ok parsedURL =>
      if (negb (bool_decide (URL_Scheme parsedURL = "http"%string))
          && negb (bool_decide (URL_Scheme parsedURL = "https"%string)))
         || bool_decide (URL_Host parsedURL = ""%string)
      then Err (New "base-url must be an absolute HTTP URL")
      else if negb (bool_decide (URL_RawQuery parsedURL = ""%string))
              || negb (bool_decide (URL_Fragment parsedURL = ""%string))
      then Err (New "base-url cannot contain a query or fragment")
      else
        let apiKey := TrimSpace (BenchAPIKey result) in
        let eventType := TrimSpace (EventType result) in
        if bool_decide (apiKey = ""%string) then Err (New "api-key or RELAYFORGE_API_KEY is required")
        else if negb (uuid_Parse (EndpointID result)) then Err (New "endpoint-id must be a UUID")
        else if negb (eventTypePattern eventType) then Err (New "event-type must contain 1 to 100 safe characters")
        else if (Requests result <? 1) || (1000000 <? Requests result)
        then Err (New "requests must be between 1 and 1000000")
        else if (Concurrency result <? 1) || (1000 <? Concurrency result)
        then Err (New "concurrency must be between 1 and 1000")
        else if RequestTimeout result <=? 0 then Err (New "request-timeout must be positive")
        else
          Ok (mkBenchConfig (TrimRight_slash (url_String parsedURL)) apiKey (EndpointID result) eventType
                (Requests result)
                (if Requests result <? Concurrency result then Requests result else Concurrency result)
                (RequestTimeout result))
  end.
End ParseConfig.

(** ** One publication *)

Definition idempotency_key (runID : string) (sequence : Z) : string := runID +:+ ":" +:+ FormatInt sequence.

(** The body; the encoder sorts the keys of a map. *)
Definition event_json (cfg : config) (runID : string) (sequence : Z) : json :=
  JObject [("endpoint_id", JString (EndpointID cfg));
           ("payload", JObject [("run_id", JString runID); ("sequence", JInt sequence)]);
           ("type", JString (EventType cfg))]%string.

Section Publish.
Context `{ZO : Zone}.
(** [http.NewRequestWithContext] and [client.Do] with its duration, and
    [http.StatusText]. *)
Variable NewRequest : string → res unit.
Variable Do : HttpRequest → res HttpResponse * Duration.
Variable StatusText : Z → string.

Definition bench_request (cfg : config) (runID : string) (sequence : Z) (body : bytes) : HttpRequest :=
  mkHttpRequest (BaseURL cfg +:+ "/v1/events")
    [("Authorization", "Bearer " +:+ BenchAPIKey cfg);
     ("Content-Type", "application/json");
     ("Idempotency-Key", idempotency_key runID sequence)]%string body.

Definition publish (cfg : config) (runID : string) (sequence : Z) : sample :=
  match Marshal (event_json cfg runID sequence) with
  | Err err => mkSample 0 0 (error_text err)
  | Ok body =>
      match NewRequest (BaseURL cfg +:+ "/v1/events") with
      | Err err => mkSample 0 0 (error_text err)
      | Ok _ =>
          let '(answer, duration) := Do (bench_request cfg runID sequence body) in
          match answer with
          | Err err => mkSample duration 0 (error_text err)
          | Ok response =>
              let '(responseBody, readErr) := read_limited 4096 response in
              match readErr with
              | Some err => mkSample duration (Http_StatusCode response) (error_text err)
              | None =>
                  if negb (Http_StatusCode response =? 202) then
                    let message := TrimSpace (string_of responseBody) in
                    let message := if bool_decide (message = ""%string) then StatusText (Http_StatusCode response)
                                   else message in
                    mkSample duration (Http_StatusCode response)
                      ("http " +:+ FormatInt (Http_StatusCode response) +:+ ": " +:+ message)
                  else mkSample duration (Http_StatusCode response) ""
              end
          end
      end
  end.
End Publish.

(** ** The client *)

Section Client.
Context {Conn : Type} `{UX : UnicodeText}.
Variables (ProxyFromEnvironment : URL → res (option URL)) (default_dialer : HttpClient.dial_function (Conn := Conn)).

(** The transport and the client of [run]: those of the package, with more idle
    connections, and no redirect followed. *)
Definition bench_transport (cfg : config) : HttpClient.Transport (Conn := Conn) :=
  let t := HttpClient.DefaultTransport ProxyFromEnvironment default_dialer in
  HttpClient.mkTransport (HttpClient.Proxy t) (HttpClient.Transport_DialContext t) (HttpClient.ForceAttemptHTTP2 t)
    (Concurrency cfg * 2) (Concurrency cfg) (HttpClient.IdleConnTimeout t) (HttpClient.TLSHandshakeTimeout t)
    (HttpClient.TLS_MinVersion t) (HttpClient.ExpectContinueTimeout t) (HttpClient.MaxResponseHeaderBytes t).

Definition bench_client (cfg : config) : HttpClient.Client (Conn := Conn) :=
  HttpClient.mkClient (bench_transport cfg) (Some (λ _, Some HttpClient.ErrUseLastResponse)).

(** A sample's status is the API's own answer: one round trip, no redirect. *)
Lemma bench_client_answers ToASCII zero_dial cfg u q idle events response idle' :
  HttpClient.client_Do ToASCII zero_dial (bench_client cfg) u q idle events (Ok response) idle' →
  ∃ location, HttpClient.round_trip ToASCII zero_dial (bench_transport cfg) u q idle events (Ok (location, response)) idle'.
Proof.
  intros H. apply HttpClient.exchange_last in H as (a & Ha & Hr); [|done]. destruct (Hr _ eq_refl) as [location ->]. by exists location.
Qed.
End Client.

(** ** The report as text *)

(** A map's keys in the order of their bytes, as the encoder visits them. *)
Definition key_le (a b : string * Z) : Prop := String.le a.1 b.1.

#[global] Instance key_le_dec : RelDecision key_le.
Proof. intros a b. unfold key_le. apply _. Defined.

Definition counters_json (m : gmap string Z) : json :=
  JObject (map (λ kn, (kn.1, JInt kn.2)) (merge_sort key_le (map_to_list m))).

Definition latency_json (l : latencyReport) : json :=
  JObject [("min_ms", JFloat (MinMS l)); ("p50_ms", JFloat (P50MS l)); ("p95_ms", JFloat (P95MS l));
           ("p99_ms", JFloat (P99MS l)); ("max_ms", JFloat (MaxMS l))]%string.

(** The tags of the struct; an empty map of errors is left out. *)
Definition report_members (r : report) : list (string * json) :=
  [("run_id", JString (Report_RunID r)); ("requested", JInt (Report_Requested r)); ("completed", JInt (Report_Completed r));
   ("accepted", JInt (Report_Accepted r)); ("failed", JInt (Report_Failed r));
   ("duration_seconds", JFloat (Report_DurationSeconds r)); ("requests_per_second", JFloat (Report_RequestsPerSecond r));
   ("latency", latency_json (Report_Latency r)); ("status_codes", counters_json (Report_StatusCodes r))]%string
  ++ match Report_Errors r with
     | Some errors => if bool_decide (errors = ∅) then [] else [("errors"%string, counters_json errors)]
     | None => []
     end.

Section Main.
Context `{ZO : Zone}.
Variable output : bytes → res unit.   (* [os.Stdout]'s [Write] *)

(** [encoder.Encode] with the indentation of two spaces. *)
Definition write_report (r : report) : res unit := b ← EncodeIndent (bytes_of "  ") (JObject (report_members r)); output b.

(** The exit status of [main]: 2 for a bad configuration, 1 when the report
    cannot be written, the run was cancelled or a request failed. *)
Definition exit_status (parsed : res config) (run : config → report * option error) : Z :=
  match parsed with
  | Err _ => 2
  | Ok cfg =>
      let '(result, runErr) := run cfg in
      match write_report result, runErr with
      | Err _, _ | Ok _, Some _ => 1
      | Ok _, None => if 0 <? Report_Failed result then 1 else 0
      end
  end.
End Main.
