(* ===== verification/BenchBody.v ===== *)
(** * The load generator's bodies

    The body [publish] marshals, in bytes, is a JSON text that the API's decoder
    reads back: the endpoint, the event type and, as a raw message, the payload
    with the run's name and the sequence number. *)

From S2P Require Import Prelude GoErrors GoTime GoText GoStrings Float64 GoParse Delivery EndpointService.
From S2P Require Import Json JsonEncode JsonDecode JsonTheorems BenchClient.
From S2P Require Api.

Section Body.
Context `{ZO : Zone} `{UX : UnicodeText}.

Definition payload_text (runID : string) (n : Z) : bytes :=
  x7b :: (quote_json (bytes_of "run_id") ++ x3a :: quote_json (bytes_of runID) ++ x2c :: quote_json (bytes_of "sequence")
          ++ x3a :: bytes_of (FormatInt n)) ++ [x7d].

Definition event_text (cfg : config) (runID : string) (n : Z) : bytes :=
  x7b :: quote_json (bytes_of "endpoint_id") ++ x3a :: quote_json (bytes_of (EndpointID cfg))
  ++ x2c :: quote_json (bytes_of "payload") ++ x3a :: payload_text runID n
  ++ x2c :: quote_json (bytes_of "type") ++ x3a :: quote_json (bytes_of (EventType cfg)) ++ [x7d].

(** Concatenations to the right. *)
Ltac flatten := repeat (progress (rewrite <- ?app_assoc; cbn [app])).

Lemma Marshal_event cfg runID n : Marshal (event_json cfg runID n) = Ok (event_text cfg runID n).
Proof.
  unfold event_json, event_text, payload_text. cbn [Marshal mbind res_bind commas app].
  by flatten.
Qed.

Lemma Marshal_payload runID n :
  Marshal (JObject [("run_id", JString runID); ("sequence", JInt n)])%string = Ok (payload_text runID n).
Proof. unfold payload_text. cbn [Marshal mbind res_bind commas app]. by flatten. Qed.

(** A member's key and colon, then its value. *)
Lemma scan_key f st k w :
  key_state f = true →
  scan_bytes (mkScanner f (parseObjectKey :: st) false) (quote_json k ++ x3a :: w)
  = scan_bytes (mkScanner stateBeginValue (parseObjectValue :: st) false) w.
Proof. intros Hf. rewrite scan_bytes_app, scan_quote by (by destruct f). reflexivity. Qed.

Lemma scan_string st s w :
  scan_bytes (mkScanner stateBeginValue st false) (quote_json s ++ w) = scan_bytes (mkScanner stateEndValue st false) w.
Proof. by rewrite scan_bytes_app, scan_quote. Qed.

Lemma scan_number st n w :
  0 < n → scan_bytes (mkScanner stateBeginValue st false) (bytes_of (FormatInt n) ++ w)
          = scan_bytes (mkScanner state1 st false) w.
Proof.
  intros (d & ds & -> & Hd & Hds)%FormatInt_positive. cbn [app scan_bytes]. rewrite (digit19_step _ _ Hd). cbn [mbind option_bind].
  by rewrite scan_bytes_app, (flat_run_scan _ _ _ (run_digits ds st Hds)).
Qed.

(** The payload in any object that is not nested too deep. *)
Lemma scan_payload runID n st w :
  0 < n → Z.of_nat (length st) < maxNestingDepth →
  scan_bytes (mkScanner stateBeginValue st false) (payload_text runID n ++ w)
  = scan_bytes (match st with [] => mkScanner stateEndTop [] true | _ => mkScanner stateEndValue st false end) w.
Proof.
  intros Hn Hst. unfold payload_text. flatten. cbn [scan_bytes].
  assert (E : scan_byte (mkScanner stateBeginValue st false) x7b
    = Some (mkScanner stateBeginStringOrEmpty (parseObjectKey :: st) false)).
  { change (scan_byte _ x7b) with (pushParseState stateBeginStringOrEmpty parseObjectKey (mkScanner stateBeginValue st false)).
    unfold pushParseState. cbn [scan_stack]. by rewrite (proj2 (Z.ltb_lt _ _) Hst). }
  rewrite E. cbn [mbind option_bind]. rewrite scan_key, scan_string by done. cbn [scan_bytes].
  change (scan_byte _ x2c) with (Some (mkScanner stateBeginString (parseObjectKey :: st) false)). cbn [mbind option_bind].
  rewrite scan_key, scan_number by done. cbn [scan_bytes]. by destruct st.
Qed.

Lemma event_valid cfg runID n : 0 < n → json_Valid (event_text cfg runID n) = true.
Proof.
  intros Hn. unfold json_Valid, event_text. cbn [scan_bytes]. change (scan_byte _ x7b) with (Some (mkScanner stateBeginStringOrEmpty [parseObjectKey] false)).
  cbn [mbind option_bind]. rewrite scan_key by done. rewrite scan_string. cbn [scan_bytes].
  change (scan_byte _ x2c) with (Some (mkScanner stateBeginString [parseObjectKey] false)). cbn [mbind option_bind].
  rewrite scan_key by done. rewrite scan_payload by done. cbn [scan_bytes].
  change (scan_byte _ x2c) with (Some (mkScanner stateBeginString [parseObjectKey] false)). cbn [mbind option_bind].
  rewrite scan_key by done. by rewrite scan_string.
Qed.

Lemma payload_valid runID n : 0 < n → json_Valid (payload_text runID n) = true.
Proof.
  intros Hn. unfold json_Valid. rewrite <- (app_nil_r (payload_text _ _)). by rewrite scan_payload by done.
Qed.

(** ** Lengths *)

Lemma escape_length c : good_chunk c → (length (escape_chunk c) <= 6 * length (chunk_bytes c))%nat.
Proof.
  intros Hc. destruct c as [r enc|b]; [|cbn; lia]. cbn [escape_chunk chunk_bytes].
  assert (1 <= length enc)%nat by (destruct enc; [done|cbn; lia]).
  destruct (_ || _); [rewrite length_app; cbn; lia|]. destruct enc as [|b [|b1 enc]]; [done| |lia].
  apply Nat.leb_le. destruct b; reflexivity.
Qed.

Lemma quote_length s : len (quote_json s) <= 6 * len s + 2.
Proof.
  unfold quote_json, len. cbn [app length]. rewrite length_app. cbn [length].
  assert (length (concat (map escape_chunk (decode s))) <= 6 * length s)%nat; [|lia].
  rewrite <- (encode_decode s) at 2. unfold encode.
  induction (decode_good s) as [|c cs Hc _ IH]; [cbn; lia|]. cbn [map concat]. rewrite !length_app.
  pose proof (escape_length _ Hc). lia.
Qed.

Lemma payload_length runID n : len (bytes_of (FormatInt n)) <= 7 → len (payload_text runID n) <= 6 * len (bytes_of runID) + 200.
Proof.
  intros Hn. pose proof (quote_length (bytes_of runID)) as Hq. unfold payload_text, len in *. cbn [length].
  rewrite !length_app. cbn [length]. rewrite !length_app. cbn [length]. rewrite !length_app. cbn [length].
  assert (Z.of_nat (length (quote_json (bytes_of "run_id"))) = 8) by (vm_compute; reflexivity).
  assert (Z.of_nat (length (quote_json (bytes_of "sequence"))) = 10) by (vm_compute; reflexivity). lia.
Qed.

(** ** Decoding *)

Lemma members_payload key runID n rest :
  0 < n →
  members_from (mkScanner stateBeginValue [parseObjectValue] false) key [] (payload_text runID n ++ x2c :: rest)
  = (key, payload_text runID n) :: members_from (mkScanner stateBeginString [parseObjectKey] false) [] [] rest.
Proof.
  intros Hn. assert (Ht : trim_json (payload_text runID n) = payload_text runID n) by (by apply trim_json_ends).
  destruct (FormatInt_positive n Hn) as (d & ds & E & Hd & Hds).
  rewrite <- Ht at 2. rewrite <- (members_next stateEndValue _ _ rest) by auto. unfold payload_text. rewrite E. flatten.
  rewrite (members_nested _ (mkScanner stateBeginStringOrEmpty [parseObjectKey; parseObjectValue] false)) by done.
  rewrite members_string by done.
  rewrite (members_nested _ (mkScanner stateBeginValue [parseObjectValue; parseObjectValue] false)) by done.
  rewrite members_string by done.
  rewrite (members_nested _ (mkScanner stateBeginString [parseObjectKey; parseObjectValue] false)) by done.
  rewrite members_string by done.
  rewrite (members_nested _ (mkScanner stateBeginValue [parseObjectValue; parseObjectValue] false)) by done.
  rewrite (members_nested _ (mkScanner state1 [parseObjectValue; parseObjectValue] false)); [|by apply digit19_step|done].
  rewrite members_digits by done.
  rewrite (members_nested _ (mkScanner stateEndValue [parseObjectValue] false)) by done.
  by flatten.
Qed.

Lemma members_event cfg runID n :
  0 < n →
  object_members (event_text cfg runID n)
  = [(quote_json (bytes_of "endpoint_id"), quote_json (bytes_of (EndpointID cfg)));
     (quote_json (bytes_of "payload"), payload_text runID n);
     (quote_json (bytes_of "type"), quote_json (bytes_of (EventType cfg)))].
Proof.
  intros Hn. unfold object_members, event_text.
  change (scan_byte start x7b) with (Some (mkScanner stateBeginStringOrEmpty [parseObjectKey] false)).
  cbv beta iota. rewrite members_key, members_string, members_next by auto. cbn [app]. rewrite trim_json_quote. f_equal.
  rewrite members_key, members_payload by done. f_equal.
  rewrite members_key, members_string, members_last by done. cbn [app]. by rewrite trim_json_quote.
Qed.

Lemma fold_step {A B} (f : A → B → A) m ms a a' out :
  f a m = a' → fold_left f ms a' = out → fold_left f (m :: ms) a = out.
Proof. by intros <-. Qed.

Lemma find_exact {T} (St : struct_type T) (l1 l2 : list (field T)) f :
  struct_fields St = l1 ++ f :: l2 → forallb (λ g, negb (bool_decide (field_name g = field_name f))) l1 = true →
  find_field St (bytes_of (field_name f)) = Some f.
Proof.
  intros E Hl. unfold find_field. rewrite E. clear E.
  replace (List.find _ (l1 ++ f :: l2)) with (Some f); [done|]. induction l1 as [|g l1 IH]; cbn [app List.find].
  - by rewrite bool_decide_eq_true_2.
  - cbn [forallb] in Hl. apply andb_true_iff in Hl as [Hg Hl]. zbool. rewrite bool_decide_eq_false_2; [by apply IH|].
    by intros H%bytes_of_inj.
Qed.

(** One member, stored by the field of its name. *)
Lemma store_named {T} (St : struct_type T) strict l1 l2 name store t saved v t' :
  struct_fields St = l1 ++ mkField name store :: l2 →
  forallb (λ g, negb (bool_decide (field_name g = name))) l1 = true → ValidString name = true →
  store v t = (t', None) → store_member St strict (t, saved) (quote_json (bytes_of name), v) = (t', saved).
Proof.
  intros E Hl Hn Hs. unfold store_member. cbn [fst snd]. rewrite unquote_quote, (coerce_valid _ Hn).
  pose proof (find_exact St l1 l2 (mkField name store) E Hl) as Hf. cbn [field_name] in Hf. rewrite Hf. cbn [field_store]. by rewrite Hs.
Qed.

Lemma store_quoted s old : ValidString s = true → store_string (quote_json (bytes_of s)) old = (s, None).
Proof.
  intros Hs. unfold store_string. change (kind_of (quote_json (bytes_of s))) with "string"%string.
  rewrite bool_decide_eq_true_2 by done. by rewrite unquote_quote, (coerce_valid _ Hs), string_of_bytes_of.
Qed.

Lemma store_event ep ty payload :
  ValidString ep = true → ValidString ty = true →
  fold_left (store_member Api.publishEventRequest_type true)
    [(quote_json (bytes_of "endpoint_id"), quote_json (bytes_of ep)); (quote_json (bytes_of "payload"), payload);
     (quote_json (bytes_of "type"), quote_json (bytes_of ty))]
    (struct_zero Api.publishEventRequest_type, None)
  = (Api.mkPublishEventRequest ep ty payload, None).
Proof.
  intros Hep Hty. set (St := Api.publishEventRequest_type).
  eapply fold_step; [eapply (store_named St true []); [reflexivity|reflexivity|reflexivity|]|].
  { unfold Api.into. rewrite (store_quoted _ _ Hep). reflexivity. }
  eapply fold_step; [eapply (store_named St true (take 2 (struct_fields St))); [reflexivity|reflexivity|reflexivity|reflexivity]|].
  eapply fold_step; [eapply (store_named St true (take 1 (struct_fields St))); [reflexivity|reflexivity|reflexivity|]|reflexivity].
  unfold Api.into. rewrite (store_quoted _ _ Hty). reflexivity.
Qed.

Lemma unmarshal_event cfg runID n :
  0 < n → ValidString (EndpointID cfg) = true → ValidString (EventType cfg) = true →
  unmarshal Api.publishEventRequest_type true (event_text cfg runID n)
  = (Api.mkPublishEventRequest (EndpointID cfg) (EventType cfg) (payload_text runID n), None).
Proof.
  intros Hn Hep Hty. assert (Ht : trim_json (event_text cfg runID n) = event_text cfg runID n).
  { unfold event_text. replace (quote_json (bytes_of "endpoint_id") ++ _) with ((quote_json (bytes_of "endpoint_id") ++
      x3a :: quote_json (bytes_of (EndpointID cfg)) ++ x2c :: quote_json (bytes_of "payload") ++ x3a :: payload_text runID n
      ++ x2c :: quote_json (bytes_of "type") ++ x3a :: quote_json (bytes_of (EventType cfg))) ++ [x7d]) by (by flatten).
    by apply trim_json_ends. }
  unfold unmarshal. rewrite Ht, members_event by done. change (kind_of (event_text cfg runID n)) with "object"%string.
  by apply store_event.
Qed.
End Body.
