(* ===== verification/BenchClientTheorems.v ===== *)
(** * Theorems on the load generator's requests

    What the load generator sends is what the event service accepts, and its
    configuration keeps the pipeline within its bounds. *)

From S2P Require Import Prelude GoErrors GoTime GoText GoStrings Float64 Delivery Schema Signature Dispatcher EndpointService.
From S2P Require Import Url TargetTheorems Json.
From S2P Require Import Services ServiceTheorems GoParse GoFlag FormatFloat JsonTheorems JsonValid Bench JsonEncode JsonIndent JsonDecode Mime BenchClient BenchBody.
From S2P Require Api ApiDecode.

(** ** Plain texts *)

(** Visible ASCII characters, without the space. *)
Definition plain (b : bytes) : bool := forallb (between 33 126) b.

Lemma decode_plain b : plain b = true → decode b = map (λ x, Rune (zb x) [x]) b.
Proof.
  unfold plain. induction b as [|x b IH]; [done|]. cbn [forallb decode map]. intros [Hx Hb]%andb_true_iff.
  unfold between in Hx. zbool. destruct (Z.ltb_spec (zb x) 128); [|lia]. by rewrite IH.
Qed.

Lemma drop_while_none {A} (p : A → bool) l : forallb (λ x, negb (p x)) l = true → drop_while p l = l.
Proof. destruct l as [|x l]; [done|]. cbn. intros [Hx _]%andb_true_iff. by destruct (p x). Qed.

Lemma forallb_map {A B} (f : A → B) (p : B → bool) l : forallb p (map f l) = forallb (λ x, p (f x)) l.
Proof. induction l as [|x l IH]; [done|]. cbn. by rewrite IH. Qed.

Lemma forallb_rev {A} (p : A → bool) l : forallb p (rev l) = forallb p l.
Proof.
  induction l as [|x l IH]; [done|]. cbn. rewrite forallb_app, IH. cbn. rewrite andb_true_r. apply andb_comm.
Qed.

Lemma TrimSpace_plain s : plain (bytes_of s) = true → TrimSpace s = s.
Proof.
  intros Hp. unfold TrimSpace. rewrite (decode_plain _ Hp). unfold trim_chunks.
  assert (Hn : forallb (λ c, negb (space_chunk c)) (map (λ x, Rune (zb x) [x]) (bytes_of s)) = true).
  { rewrite forallb_map. apply forallb_forall. intros x Hx. unfold plain in Hp. rewrite forallb_forall in Hp.
    apply Hp in Hx. unfold between in Hx. zbool. unfold space_chunk. cbn [is_rune chunk_rune andb]. unfold IsSpace.
    rewrite negb_true_iff, !orb_false_iff, !andb_false_iff, !Z.leb_gt, !Z.eqb_neq. lia. }
  rewrite (drop_while_none _ _ Hn), drop_while_none by (by rewrite forallb_rev). rewrite rev_involutive.
  unfold encode. rewrite map_map. cbn [chunk_bytes].
  replace (concat (map (λ x, [x]) (bytes_of s))) with (bytes_of s); [apply string_of_bytes_of|].
  clear. induction (bytes_of s) as [|x l IH]; cbn; congruence.
Qed.

Lemma plain_valid s : plain (bytes_of s) = true → ValidString s = true.
Proof.
  intros Hp. unfold ValidString, Valid. rewrite (decode_plain _ Hp), forallb_map. by apply forallb_forall.
Qed.

Lemma plain_runes s : plain (bytes_of s) = true →
  RuneCountInString s = strlen s ∧ ∀ r, r ∈ range_runes s → 33 <= r <= 126.
Proof.
  intros Hp. unfold RuneCountInString, range_runes, strlen. rewrite (decode_plain _ Hp), length_map, length_bytes_of.
  split; [done|]. rewrite map_map. intros r (x & -> & Hx)%list_elem_of_fmap.
  unfold plain in Hp. rewrite forallb_forall in Hp. apply list_elem_of_In, Hp in Hx. unfold between in Hx. zbool. cbn. lia.
Qed.

Lemma FormatInt_plain z : plain (bytes_of (FormatInt z)) = true.
Proof.
  pose proof (FormatInt_decimal z) as H. unfold plain. rewrite forallb_forall in *. intros x Hx. apply H in Hx.
  revert Hx. destruct x; vm_compute; done.
Qed.

Lemma eventType_plain s : eventTypePattern s = true → plain (bytes_of s) = true.
Proof.
  intros (b & rest & E & Hb & Hr & _)%eventTypePattern_spec. unfold plain. rewrite E.
  assert (Hp : ∀ x, type_byte x = true → between 33 126 x = true) by (intros []; vm_compute; done).
  apply forallb_forall. intros x [<-|Hx]; apply Hp; [unfold type_byte; by rewrite Hb|by apply Hr, list_elem_of_In].
Qed.

(** The length of a decimal number. *)
Lemma pretty_N_go_length k x s :
  (x < 10 ^ N.of_nat k)%N → (String.length (pretty_N_go x s) <= k + String.length s)%nat.
Proof.
  revert x s. induction k as [|k IH]; intros x s Hx.
  - assert (x = 0%N) as -> by (cbn in Hx; lia). rewrite pretty_N_go_0. cbn. lia.
  - destruct (decide (x = 0%N)) as [->|Hne]; [rewrite pretty_N_go_0; lia|]. rewrite pretty_N_go_step by lia.
    etrans; [apply IH|cbn; lia]. apply N.Div0.div_lt_upper_bound.
    by rewrite <- N.pow_succ_r', <- Nat2N.inj_succ.
Qed.

Lemma FormatInt_length n : 0 < n <= 1000000 → strlen (FormatInt n) <= 7.
Proof.
  intros Hn. destruct n as [|p|p]; try lia.
  change (FormatInt (Z.pos p)) with (pretty_N_go (N.pos p) ""). unfold strlen.
  pose proof (pretty_N_go_length 7 (N.pos p) "" ltac:(cbn; lia)) as H. cbn [String.length] in H. lia.
Qed.

(** ** The configuration *)

Section Parsed.
Context `{UX : UnicodeText} `{UP : UuidParser}.

Record bench_parsed (cfg : config) : Prop := {
  bp_key : BenchAPIKey cfg ≠ ""%string;
  bp_endpoint : uuid_Parse (EndpointID cfg) = true;
  bp_type : eventTypePattern (EventType cfg) = true;
  bp_requests : 1 <= Requests cfg <= 1000000;
  bp_concurrency : 1 <= Concurrency cfg <= 1000 ∧ Concurrency cfg <= Requests cfg;
  bp_timeout : 0 < RequestTimeout cfg;
}.

Lemma parseConfig_parsed args getenv cfg : parseConfig args getenv = Ok cfg → bench_parsed cfg.
Proof.
  unfold parseConfig. intros ([result positional] & _ & H)%res_bind_Ok. destruct (negb _); [done|].
  destruct (url_Parse _) as [u|]; [|done]. destruct (_ || _) in H; [done|]. destruct (_ || _) in H; [done|].
  cbv zeta in H. destruct (bool_decide_reflect (TrimSpace (BenchAPIKey result) = ""%string)); [done|].
  destruct (uuid_Parse _) eqn:E1 in H; [|done]. destruct (eventTypePattern _) eqn:E2 in H; [|done]. cbn [negb] in H.
  destruct (_ || _) eqn:E3 in H; [done|]. destruct (_ || _) eqn:E4 in H; [done|].
  destruct (RequestTimeout result <=? 0) eqn:E5; [done|]. injection H as <-. zbool.
  split; cbn; try done; try lia. destruct (Z.ltb_spec (Requests result) (Concurrency result)); lia.
Qed.

(** A key of a run is one the service accepts as it is. *)
Lemma idempotency_key_valid runID n :
  plain (bytes_of runID) = true → strlen runID <= 100 → 1 <= n <= 1000000 →
  let key := idempotency_key runID n in TrimSpace key = key ∧ validIdempotencyKey key = true.
Proof.
  intros Hp Hl Hn key.
  assert (Hkey : plain (bytes_of key) = true).
  { subst key. unfold idempotency_key, plain. rewrite !bytes_of_app, !forallb_app. unfold plain in Hp. rewrite Hp.
    pose proof (FormatInt_plain n) as Hf. unfold plain in Hf. by rewrite Hf. }
  split; [by apply TrimSpace_plain|]. apply validIdempotencyKey_spec. destruct (plain_runes _ Hkey) as [Hc Hr].
  split_and!; [|by apply plain_valid| |].
  - subst key. unfold idempotency_key. intros H. apply (f_equal bytes_of) in H. rewrite !bytes_of_app in H.
    apply app_eq_nil in H as [_ H]. discriminate H.
  - rewrite Hc. subst key. unfold idempotency_key, strlen in *. rewrite <- length_bytes_of, !bytes_of_app, !length_app, !length_bytes_of.
    pose proof (FormatInt_length n ltac:(lia)) as Hf. unfold strlen in Hf. cbn [String.length]. lia.
  - intros r Hr'. apply Hr in Hr'. lia.
Qed.
End Parsed.

(** ** Command lines *)

(** The command line that spells a configuration. *)
Definition spell_config (cfg : config) : list string :=
  [spell "base-url" (BaseURL cfg); spell "api-key" (BenchAPIKey cfg); spell "endpoint-id" (EndpointID cfg);
   spell "event-type" (EventType cfg); spell "requests" (FormatInt (Requests cfg));
   spell "concurrency" (FormatInt (Concurrency cfg)); spell "request-timeout" (FormatInt (RequestTimeout cfg) +:+ "ns")]%string.

Lemma digit_bounds c : is_digit c = true → 48 <= zb c <= 57.
Proof. unfold is_digit, between. intros H. zbool. lia. Qed.

Lemma strip_sign_digit d ds : digit19 d = true → strip_sign (d :: ds) = (false, d :: ds).
Proof. intros Hd. destruct d; first [discriminate Hd|reflexivity]. Qed.

Lemma ParseInt_FormatInt `{UX : UnicodeText} n : 0 < n < 2 ^ 63 → ParseInt (FormatInt n) 0 = Ok n.
Proof.
  intros Hn. unfold ParseInt, parse_int, parse_uint. destruct (FormatInt_positive n ltac:(lia)) as (d & ds & E & Hd & _).
  rewrite E, strip_sign_digit by done. rewrite bool_decide_eq_false_2 by done. cbn [Z.eqb base_prefix].
  assert (bool_decide (d = x30) = false) as -> by (apply bool_decide_eq_false; intros ->; discriminate Hd).
  cbn [negb]. rewrite <- E, <- (app_nil_r (bytes_of (FormatInt n))).
  rewrite (read_digits (λ v s, uint_digits true 10 v false s) (2 ^ 63)); [|..|lia].
  - cbn [uint_digits mbind res_bind andb negb map_err]. destruct (Z.leb_spec (2 ^ 63) n); [lia|done].
  - intros v c s Hc Hv Hb. pose proof (digit_bounds c Hc). cbn [uint_digits].
    assert (bool_decide (c = x5f) = false) as -> by (apply bool_decide_eq_false; intros ->; discriminate Hc).
    cbn [andb]. unfold digit_value. rewrite Hc. destruct (Z.leb_spec 10 (zb c - 48)); [lia|].
    destruct (Z.ltb_spec (2 ^ 64 - 1) (v * 10 + (zb c - 48))); [lia|done].
Qed.

Lemma ParseDuration_nanoseconds d : 0 < d < 2 ^ 63 → ParseDuration (FormatInt d +:+ "ns") = Ok d.
Proof.
  intros Hd. unfold ParseDuration. rewrite bytes_of_app. destruct (FormatInt_positive d ltac:(lia)) as (c & ds & E & Hc & _).
  rewrite E. cbn [app]. rewrite strip_sign_digit by done.
  rewrite !bool_decide_eq_false_2; [|done|by intros [= -> _]].
  cbn [length duration_items]. unfold duration_item.
  assert (is_digit c = true) as -> by (destruct c; first [discriminate Hc|reflexivity]). rewrite orb_true_r. cbn [negb].
  change (c :: ds ++ bytes_of "ns") with ((c :: ds) ++ bytes_of "ns"). rewrite <- E.
  rewrite (read_digits leading_int (2 ^ 63)); [|..|lia].
  - assert (leading_int d (bytes_of "ns") = Some (d, bytes_of "ns")) as -> by done. cbv beta iota zeta.
    assert (Nat.eqb (length (bytes_of "ns")) (length (bytes_of (FormatInt d) ++ bytes_of "ns")) = false) as ->.
    { rewrite E. apply Nat.eqb_neq. cbn [app length]. rewrite length_app. lia. }
    change (bytes_of "ns") with [x6e; x73]. cbn [negb andb].
    change (span (λ b, negb (bool_decide (b = x2e) || is_digit b)) [x6e; x73]) with ([x6e; x73], @nil byte).
    change (unitMap [x6e; x73]) with (Some 1). change (0 <? 0) with false. cbv beta iota zeta.
    change (bool_decide (x6e = x2e)) with false. cbv beta iota zeta.
    change (span (λ b, negb (bool_decide (b = x2e) || is_digit b)) [x6e; x73]) with ([x6e; x73], @nil byte).
    cbv beta iota zeta. rewrite (bool_decide_eq_false_2 ([x6e; x73] = [])) by done. change (unitMap [x6e; x73]) with (Some 1). cbv beta iota zeta. change (0 <? 0) with false. cbv iota.
    rewrite Z.div_1_r, Z.mul_1_r, Z.add_0_l, Z.mod_small by lia.
    assert ((2 ^ 63 <? d) = false) as -> by lia. cbn [orb mbind res_bind].
    destruct (length (ds ++ [x6e; x73])); cbn [duration_items mbind res_bind]; by assert ((2 ^ 63 - 1 <? d) = false) as -> by lia.
  - intros v b s Hb Hv Hle. pose proof (digit_bounds b Hb). cbn [leading_int]. rewrite Hb.
    assert ((2 ^ 63 / 10 <? v) = false) as -> by (apply Z.ltb_ge, Z.div_le_lower_bound; lia).
    by assert ((2 ^ 63 <? v * 10 + (zb b - 48)) = false) as -> by lia.
Qed.

(** The flags read back what a configuration spells, whatever they held. *)
Lemma flags_read_back `{UX : UnicodeText} cfg c :
  0 < Requests cfg < 2 ^ 63 → 0 < Concurrency cfg < 2 ^ 63 → 0 < RequestTimeout cfg < 2 ^ 63 →
  Parse flags (spell_config cfg) c = Ok (cfg, []).
Proof.
  intros H1 H2 H3. apply Parse_grammar.
  exists [("base-url", BaseURL cfg); ("api-key", BenchAPIKey cfg); ("endpoint-id", EndpointID cfg); ("event-type", EventType cfg);
          ("requests", FormatInt (Requests cfg)); ("concurrency", FormatInt (Concurrency cfg));
          ("request-timeout", FormatInt (RequestTimeout cfg) +:+ "ns")]%string. split.
  - unfold spell_config. repeat (eapply cl_inline; [by apply classify_spell|]). constructor.
  - do 4 (erewrite assign_cons; [|reflexivity|reflexivity]).
    erewrite assign_cons; [|reflexivity|cbn; by rewrite ParseInt_FormatInt].
    erewrite assign_cons; [|reflexivity|cbn; by rewrite ParseInt_FormatInt].
    erewrite assign_cons; [|reflexivity|cbn [Flag_Set DurationVar]; by rewrite ParseDuration_nanoseconds].
    by destruct cfg.
Qed.

(** ** Requests *)

(** The request as the server reads it: the headers that were set, and the body. *)
Definition received (sent : HttpRequest) (r : Api.HttpRequest) : Prop :=
  (∀ k v, (k, v) ∈ Http_Header sent → Api.Req_Header r k = v) ∧ Api.Req_Body r = mkStream (Http_Body sent) io_EOF.

Lemma application_json `{UnicodeTables} : ParseMediaType "application/json" = Ok "application/json"%string.
Proof. vm_compute. reflexivity. Qed.

Lemma bench_decoded `{ZO : Zone} `{UX : UnicodeText} `{UT : UnicodeTables} cfg runID n r :
  0 < n → ValidString (EndpointID cfg) = true → ValidString (EventType cfg) = true →
  received (bench_request cfg runID n (event_text cfg runID n)) r → len (event_text cfg runID n) <= Api.maximumEventBody →
  Api.decodeJSON Api.publishEventRequest_type r Api.maximumEventBody
  = Ok (Api.mkPublishEventRequest (EndpointID cfg) (EventType cfg) (payload_text runID n)).
Proof.
  intros Hn He Ht [Hh Hb] Hl. cbn [bench_request Http_Header Http_Body] in Hh, Hb.
  apply ApiDecode.decodeJSON_body; [by vm_compute|by rewrite Hb; left|]. rewrite Hb. cbn [stream_data stream_end]. split_and!; try done.
  - rewrite (Hh "Content-Type" "application/json")%string by (rewrite !elem_of_cons; tauto). apply application_json.
  - by apply event_valid.
  - by apply unmarshal_event.
Qed.

Lemma len_bytes_of s : len (bytes_of s) = strlen s.
Proof. unfold len, strlen. by rewrite length_bytes_of. Qed.

Lemma payload_input cfg runID n `{UP : UuidParser} :
  uuid_Parse (EndpointID cfg) = true → eventTypePattern (EventType cfg) = true → plain (bytes_of runID) = true →
  strlen runID <= 100 → 1 <= n <= 1000000 →
  valid_input (mkPublishInput (EndpointID cfg) (EventType cfg) (payload_text runID n) (idempotency_key runID n)).
Proof.
  intros He Ht Hp Hl Hn. destruct (idempotency_key_valid runID n Hp Hl Hn) as [Hk1 Hk2].
  split; cbn [PI_EndpointID PI_Type PI_Payload PI_IdempotencyKey]; [done| | |].
  - rewrite TrimSpace_plain by (by apply eventType_plain). by apply eventTypePattern_spec.
  - split; [|apply payload_valid; lia]. pose proof (FormatInt_length n ltac:(lia)) as Hf.
    rewrite <- (len_bytes_of (FormatInt n)) in Hf. pose proof (payload_length runID n Hf) as Hpl.
    rewrite len_bytes_of in Hpl. split; [unfold payload_text, len; cbn [length]; lia|lia].
  - rewrite Hk1. by apply validIdempotencyKey_spec.
Qed.

(** [C39] The load generator and the API agree, byte for byte: for every sequence
    number of a run with an accepted configuration, the body [json.Marshal]
    makes is decoded by the API into the configured endpoint, event type and the
    payload that was marshalled, and these pass the validation of [Publish] with
    the idempotency key of the header (for an endpoint identifier in UTF-8 and
    a body within the API's limit). No two requests of a run share a key, the
    bearer token is sent, and an exchange answered 202 is a sample without
    error. *)
Theorem bench_requests_accepted `{ZO : Zone} `{UX : UnicodeText} `{UT : UnicodeTables} `{UP : UuidParser}
    (args : list string) (getenv : string → string) (cfg : config) (runID : string) (n : Z)
    (r : Api.HttpRequest) :
  parseConfig args getenv = Ok cfg → plain (bytes_of runID) = true → strlen runID <= 100 → 1 <= n <= Requests cfg →
  ValidString (EndpointID cfg) = true → len (event_text cfg runID n) <= Api.maximumEventBody →
  let request := bench_request cfg runID n (event_text cfg runID n) in
  received request r →
  Marshal (event_json cfg runID n) = Ok (Http_Body request)
  ∧ (∃ q, Api.decodeJSON Api.publishEventRequest_type r Api.maximumEventBody = Ok q
     ∧ Api.PER_EndpointID q = EndpointID cfg ∧ Api.PER_Type q = EventType cfg
     ∧ Marshal (JObject [("run_id", JString runID); ("sequence", JInt n)])%string = Ok (Api.PER_Payload q)
     ∧ valid_input (mkPublishInput (Api.PER_EndpointID q) (Api.PER_Type q) (Api.PER_Payload q)
                      (Api.Req_Header r "Idempotency-Key")))
  ∧ 1 <= Concurrency cfg <= Requests cfg
  ∧ (∀ m, idempotency_key runID m = idempotency_key runID n → m = n)
  ∧ ("Authorization", "Bearer " +:+ BenchAPIKey cfg)%string ∈ Http_Header request
  ∧ ∀ NewRequest Do StatusText data d,
      NewRequest (Http_URL request) = Ok tt → Do request = (Ok (mkHttpResponse 202 data None), d) →
      publish NewRequest Do StatusText cfg runID n = mkSample d 202 "".
Proof.
  intros Hc%parseConfig_parsed Hp Hl Hn Hu Hlen request Hrec. destruct Hc as [_ He Ht Hr [[H1 _] H2] _].
  destruct (idempotency_key_valid runID n Hp Hl ltac:(lia)) as [Hk1 Hk2].
  pose proof (plain_valid _ (eventType_plain _ Ht)) as Hty. pose proof (Marshal_event cfg runID n) as Hm.
  split; [exact Hm|]. split; [|split_and!; try done].
  - exists (Api.mkPublishEventRequest (EndpointID cfg) (EventType cfg) (payload_text runID n)).
    split; [by apply bench_decoded; [lia|..]|]. split_and!; [done|done|apply Marshal_payload|].
    destruct Hrec as [Hh _]. rewrite (Hh "Idempotency-Key" (idempotency_key runID n))%string by (subst request; cbn [bench_request Http_Header]; rewrite !elem_of_cons; tauto).
    cbn [Api.PER_EndpointID Api.PER_Type Api.PER_Payload]. apply payload_input; try done; lia.
  - intros m Hm'. unfold idempotency_key in Hm'. apply (f_equal bytes_of) in Hm'. rewrite !bytes_of_app in Hm'.
    apply app_inv_head, app_inv_head, bytes_of_inj, FormatInt_inj in Hm'. done.
  - subst request. cbn [bench_request Http_Header]. rewrite !elem_of_cons. tauto.
  - intros NewRequest Do StatusText data d Hq Hd. unfold publish. rewrite Hm.
    change (BaseURL cfg +:+ "/v1/events") with (Http_URL request). rewrite Hq. fold request. rewrite Hd.
    unfold read_limited. cbn [Z.leb Http_Data Http_ReadError]. by destruct (4096 <=? len data).
Qed.

(** The check of the base URL's query misses a lone question mark, which the
    printer keeps: the path of the requests becomes their query. *)
Lemma base_url_question_mark :
  match parseConfig (UX := plain_unicode) (UP := sim_parser)
          ["-base-url"; "http://localhost:8080?"; "-endpoint-id=ep"]%string
          (λ _, "key"%string) with
  | Ok cfg =>
      match url_Parse (UX := plain_unicode) (BaseURL cfg +:+ "/v1/events") with
      | Ok u => URL_Path u = ""%string ∧ URL_RawQuery u = "/v1/events"%string
      | Err _ => False
      end
  | Err _ => False
  end.
Proof. vm_compute. by split. Qed.

Definition demo_args : list string := ["--endpoint-id"; "ep"; "-requests=10"]%string.

Definition demo_received (sent : HttpRequest) : Api.HttpRequest :=
  Api.mkHttpRequest "POST" "/v1/events" true (Mux.local_URL "/v1/events" "")
    (λ k, default ""%string (snd <$> List.find (λ kv, bool_decide (kv.1 = k)) (Http_Header sent)))
    (mkStream (Http_Body sent) io_EOF).

Lemma bench_requests_accepted_witness :
  ∃ cfg q, parseConfig (UX := plain_unicode) (UP := sim_parser) demo_args (λ _, "key"%string) = Ok cfg
    ∧ Api.decodeJSON (UX := plain_unicode) (UT := ascii_tables)
        Api.publishEventRequest_type (demo_received (bench_request cfg "run-1" 7 (event_text cfg "run-1" 7)))
        Api.maximumEventBody = Ok q
    ∧ Api.PER_Payload q = single_quoted "{'run_id':'run-1','sequence':7}".
Proof.
  destruct (parseConfig (UX := plain_unicode) (UP := sim_parser) demo_args (λ _, "key"%string)) as [cfg|e] eqn:E;
    [|vm_compute in E; discriminate E].
  assert (Hn : Requests cfg = 10) by (vm_compute in E; injection E as <-; reflexivity).
  assert (Hv : ValidString (EndpointID cfg) = true) by (vm_compute in E; injection E as <-; reflexivity).
  assert (Hl : len (event_text cfg "run-1" 7) = 88) by (vm_compute in E; injection E as <-; vm_compute; reflexivity).
  destruct (bench_requests_accepted (ZO := {| zone_offset := λ _, 0 |}) (UX := plain_unicode)
    (UT := ascii_tables) (UP := sim_parser) demo_args (λ _, "key"%string) cfg
    "run-1" 7 (demo_received (bench_request cfg "run-1" 7 (event_text cfg "run-1" 7))) E eq_refl)
    as (_ & (q & Hq & _ & _ & Hp & _) & _);
    [vm_compute; discriminate|rewrite Hn; lia|exact Hv|rewrite Hl; vm_compute; discriminate| |].
  - split; [|reflexivity]. cbn [bench_request Http_Header]. intros k v. rewrite !elem_of_cons, elem_of_nil.
    intros [[= -> ->]|[[= -> ->]|[[= -> ->]|[]]]]; reflexivity.
  - exists cfg, q. split; [reflexivity|]. split; [exact Hq|].
    assert (Hm : Marshal (ZO := {| zone_offset := λ _, 0 |}) (JObject [("run_id", JString "run-1"); ("sequence", JInt 7)])%string
      = Ok (single_quoted "{'run_id':'run-1','sequence':7}")) by (vm_compute; reflexivity).
    rewrite Hm in Hp. injection Hp as <-. reflexivity.
Defined.

(** ** The report *)

(** A figure JSON has a form for. *)
Definition finite (f : float64) : Prop := match f with Fin _ _ => True | _ => False end.

Definition figures (r : report) : list float64 :=
  [Report_DurationSeconds r; Report_RequestsPerSecond r; MinMS (Report_Latency r); P50MS (Report_Latency r);
   P95MS (Report_Latency r); P99MS (Report_Latency r); MaxMS (Report_Latency r)].

Lemma milliseconds_finite d : 0 <= d < 2 ^ 63 → finite (milliseconds d) ∧ representable (milliseconds d) = true.
Proof.
  intros Hd. split; [|apply fdiv_representable]. unfold milliseconds. rewrite (of_int_small Millisecond) by done.
  destruct (of_int_abs_le d 63) as (m & e & -> & Hle & Hm); [lia..|].
  destruct (fdiv_abs_le 63 0 m e Millisecond 0) as (m' & e' & -> & _); [lia|done|done|by split|done].
Qed.

(** A nanosecond and more is not zero in seconds. *)
Lemma nanoseconds_seconds n : 0 <= n < Second →
  ∃ m e, fdiv (Fin n 0) (Fin Second 0) = Fin m e ∧ abs_le 34 m e ∧ 0 <= m ∧ (0 < n → ge_pow (-30) m e).
Proof.
  intros Hn. assert (HS : Second = 1000000000) by done.
  destruct (fdiv_abs_le 30 0 n 0 Second 0) as (m & e & H & Hle & Hm); [lia|lia|unfold abs_le; rewrite Z.abs_eq by lia; change (2 ^ (30 - 0)) with 1073741824; lia|by split|].
  exists m, e. split; [done|]. split; [unfold abs_le in *; etransitivity; [exact Hle|]; destruct (Z_lt_le_dec (30 - 0 + 1) e); [rewrite Z.pow_neg_r by lia; apply Z.pow_nonneg; lia|apply Z.pow_le_mono_r; lia]|].
  split; [done|]. intros Hpos. revert H. cbn [fdiv]. replace (Second =? 0) with false by done. replace (n =? 0) with false by lia.
  unfold fdiv_fin. rewrite (Z.abs_eq n), (Z.abs_eq Second), !Z.sgn_pos by lia. set (s := Z.max 0 _).
  assert (Hs : 30 <= s).
  { assert (Z.log2 n <= 29) by (apply Z.lt_succ_r, Z.log2_lt_pow2; [lia|]; change (2 ^ Z.succ 29) with 1073741824; lia). change (Z.log2 Second) with 29 in s. lia. }
  set (q := 2 * _ + _). intros H.
  assert (Hq : 2 ^ (s - 30) <= n * 2 ^ s / Second).
  { apply Z.div_le_lower_bound; [lia|]. replace s with (30 + (s - 30)) at 2 by lia. rewrite Z.pow_add_r by lia.
    change (2 ^ 30) with 1073741824. pose proof (pow_pos (s - 30) ltac:(lia)). nia. }
  assert (Hq' : 2 ^ (s - 29) <= q).
  { replace (s - 29) with (1 + (s - 30)) by lia. rewrite Z.pow_add_r by lia. change (2 ^ 1) with 2. unfold q. destruct (_ =? 0); lia. }
  assert (Hup : q <= 2 ^ (s + 31)).
  { assert (n * 2 ^ s / Second <= 2 ^ s) by (apply Z.div_le_upper_bound; [lia|]; pose proof (pow_pos s ltac:(lia)); nia).
    rewrite Z.pow_add_r by lia. change (2 ^ 31) with 2147483648. pose proof (pow_pos s ltac:(lia)). unfold q. destruct (_ =? 0); lia. }
  pose proof (pow_pos (s - 29) ltac:(lia)).
  replace (1 * 1 * q) with q in H by lia. apply (round64_ge (-30) 30 q (0 - 0 - s - 1) m e); [lia|lia| | |done].
  - unfold abs_le. rewrite Z.abs_eq by lia. by replace (30 - (0 - 0 - s - 1)) with (s + 31) by lia.
  - split; [lia|]. by replace (-30 - (0 - 0 - s - 1)) with (s - 29) by lia.
Qed.

Lemma Seconds_spec d : 0 <= d < 2 ^ 63 →
  ∃ m e, Seconds d = Fin m e ∧ 0 <= m ∧ (0 < d → ge_pow (-30) m e).
Proof.
  intros Hd. assert (HS : Second = 1000000000) by done. unfold Seconds. rewrite Z.quot_div_nonneg, Z.rem_mod_nonneg by lia.
  pose proof (Z.div_mod d Second ltac:(lia)) as Hdm. pose proof (Z.mod_pos_bound d Second ltac:(lia)) as Hr.
  assert (Hq : 0 <= d / Second <= 2 ^ 34).
  { split; [apply Z.div_pos; lia|]. apply Z.div_le_upper_bound; [lia|]. change (Second * 2 ^ 34) with 17179869184000000000. lia. }
  rewrite (of_int_small (d / Second)), (of_int_small (d mod Second)), (of_int_small 1000000000) by lia.
  change 1000000000 with Second. destruct (nanoseconds_seconds _ Hr) as (m2 & e2 & -> & Hle2 & Hm2 & Hge2).
  destruct (fadd_abs_le 34 (d / Second) 0 m2 e2) as (m & e & -> & _ & Hm & Hge); [lia|unfold abs_le; rewrite Z.abs_eq by lia; apply Hq|done|lia|done|].
  exists m, e. split; [done|]. split; [done|]. intros Hpos. apply Hge; [lia|].
  destruct (Z.eq_dec (d / Second) 0) as [E|E]; [right; apply Hge2; lia|left]. split; [lia|]. change (2 ^ (-30 - 0)) with 0. lia.
Qed.

Lemma Seconds_finite d : 0 <= d < 2 ^ 63 → finite (Seconds d) ∧ representable (Seconds d) = true.
Proof. intros Hd. destruct (Seconds_spec d Hd) as (m & e & E & _). split; [by rewrite E|apply fadd_representable]. Qed.

Lemma rate_finite n d : 0 <= n <= 1000000 → 0 < d < 2 ^ 63 →
  finite (fdiv (of_int n) (Seconds d)) ∧ representable (fdiv (of_int n) (Seconds d)) = true.
Proof.
  intros Hn Hd. split; [|apply fdiv_representable]. destruct (Seconds_spec d) as (m & e & -> & Hm & Hge); [lia|].
  rewrite of_int_small by lia. destruct (fdiv_abs_le 20 (-30) n 0 m e) as (m' & e' & -> & _); [lia|lia| |apply Hge; lia|done].
  unfold abs_le. rewrite Z.abs_eq by lia. change (2 ^ (20 - 0)) with 1048576. lia.
Qed.

(** Values that always have a text. *)
Fixpoint plain_json (j : json) : Prop :=
  match j with
  | JString _ | JInt _ | JBool _ => True
  | JFloat f => finite f
  | JTime _ _ | JRaw _ => False
  | JArray l => fold_right and True (map plain_json l)
  | JObject l => fold_right and True (map (λ kv, plain_json kv.2) l)
  end.

Lemma all_and {A} (P : A → Prop) l : fold_right and True (map P l) ↔ Forall P l.
Proof. induction l as [|x l IH]; cbn; [by rewrite Forall_nil|by rewrite Forall_cons, IH]. Qed.

Lemma plain_marshals `{ZO : Zone} j : plain_json j → ∃ b, Marshal j = Ok b.
Proof.
  induction j as [s|z|x|f|l t|b|l Hl|l Hl] using json_induction; cbn [plain_json Marshal]; try done; eauto.
  - destruct f; [|done..]. intros _. cbn. destruct (m =? 0); [eauto|]. destruct (shortest _ _). eauto.
  - rewrite all_and. intros Hp. enough (∃ bs, (fix go l := match l with [] => Ok [] | x :: l' => b ← Marshal x; bs ← go l'; Ok (b :: bs) end) l = Ok bs) as [bs ->] by eauto.
    induction l as [|x l IH]; [eauto|]. apply Forall_cons in Hl as [Hx Hl], Hp as [Px Hp]. destruct (Hx Px) as [b ->]. destruct (IH Hl Hp) as [bs E].
    cbn [mbind res_bind]. rewrite E. cbn. eauto.
  - rewrite all_and. intros Hp.
    enough (∃ bs, (fix go l := match l with [] => Ok [] | (k, x) :: l' => b ← Marshal x; bs ← go l'; Ok ((quote_json (bytes_of k) ++ [x3a] ++ b) :: bs) end) l = Ok bs)
      as [bs ->] by eauto.
    induction l as [|[k x] l IH]; [eauto|]. apply Forall_cons in Hl as [Hx Hl], Hp as [Px Hp]. destruct (Hx Px) as [b Eb]. cbn [snd] in Eb. rewrite Eb.
    destruct (IH Hl Hp) as [bs E]. cbn [mbind res_bind]. rewrite E. cbn. eauto.
Qed.

Lemma counters_plain m : plain_json (counters_json m) ∧ depth (counters_json m) = 1.
Proof.
  unfold counters_json. cbn [plain_json depth]. rewrite all_and. generalize (merge_sort key_le (map_to_list m)). intros l. split.
  - apply Forall_forall. by intros kv (x & -> & _)%list_elem_of_fmap.
  - induction l as [|[k n] l IH]; [done|]. cbn [map fold_right fst snd depth] in *. lia.
Qed.

Lemma report_plain r : Forall finite (figures r) → plain_json (JObject (report_members r)) ∧ depth (JObject (report_members r)) <= 3.
Proof.
  unfold figures. rewrite !Forall_cons. intros (H1 & H2 & H3 & H4 & H5 & H6 & H7 & _).
  destruct (counters_plain (Report_StatusCodes r)) as [P1 D1]. unfold report_members.
  destruct (Report_Errors r) as [errors|]; [destruct (counters_plain errors) as [P2 D2]; destruct (bool_decide _)|];
    cbn [app plain_json depth map fold_right fst snd latency_json]; rewrite ?D1, ?D2; (split; [by split_and!|]); lia.
Qed.

Lemma figures_good requests l elapsed runID r :
  0 <= requests → Z.of_nat (length l) <= 1000000 → 0 <= elapsed < 2 ^ 63 → Forall (λ x, 0 <= sample_duration x < 2 ^ 63) l →
  summarize runID requests l elapsed = Some r → Forall (λ f, finite f ∧ representable f = true) (figures r).
Proof.
  intros Hr Hl He Hd. unfold summarize. destruct (tally_spec l) as [H1 _ _ _ _ H6]. set (t := fold_left absorb l empty_tally) in *.
  destruct (summarizeLatency (tally_latencies t)) as [latency|] eqn:El; [|done]. cbn [mbind option_bind]. intros [= <-].
  unfold figures. cbn [Report_DurationSeconds Report_RequestsPerSecond Report_Latency].
  assert (Hlat : Forall (λ f, finite f ∧ representable f = true) [MinMS latency; P50MS latency; P95MS latency; P99MS latency; MaxMS latency]).
  { destruct (decide (tally_latencies t = [])) as [E|E].
    { unfold summarizeLatency in El. rewrite bool_decide_eq_true_2 in El by done. injection El as <-. by repeat constructor. }
    destruct (latency_summary _ E) as (lo & p50 & p95 & p99 & hi & El' & _ & _ & _ & _ & M1 & M2 & M3 & _ & M4 & M5);
      [rewrite H6, length_map; lia|]. rewrite El in El'. injection El' as ->. cbn [MinMS P50MS P95MS P99MS MaxMS].
    assert (Hm : ∀ d, d ∈ tally_latencies t → finite (milliseconds d) ∧ representable (milliseconds d) = true).
    { intros d Hin. apply milliseconds_finite. rewrite H6 in Hin. apply list_elem_of_fmap in Hin as (x & -> & Hx).
      rewrite Forall_forall in Hd. by apply Hd. }
    repeat constructor; by apply Hm. }
  constructor; [by apply Seconds_finite|]. constructor; [|exact Hlat].
  destruct (Z.ltb_spec 0 elapsed); [apply rate_finite; lia|done].
Qed.

(** [C40] What the load generator prints when its pipeline has ended is one
    valid JSON text that accounts for every request: it is the encoding of the
    report, indented, and differs from the compact one in white space outside
    strings alone; the accepted and the failed add up to the requests; and each of
    its figures is printed as a decimal that parses to the very same
    floating-point number (durations and the elapsed time not negative). Only
    the write can fail. *)
Theorem report_written `{ZO : Zone} `{UX : UnicodeText} (requests : Z) (concurrency : nat) (cancelled : bool)
    (publish : Z → sample → Prop) (p : pipeline) (runID : string) (elapsed : Duration) :
  0 <= requests <= 1000000 → rtc (moves requests concurrency cancelled publish) (Bench.start concurrency) p → ended p →
  0 <= elapsed < 2 ^ 63 → Forall (λ x, 0 <= sample_duration x < 2 ^ 63) (collected p) →
  ∃ r text out, summarize runID requests (collected p) elapsed = Some r
    ∧ Report_Accepted r + Report_Failed r = requests
    ∧ Marshal (JObject (report_members r)) = Ok text
    ∧ (∀ output, write_report output r = output out)
    ∧ json_Valid out = true
    ∧ squeeze JsonDecode.start out = squeeze JsonDecode.start (text ++ [x0a])
    ∧ ∀ f, f ∈ figures r → ∃ b g, FormatFloat f = Ok b ∧ ParseFloat (string_of b) = Ok g ∧ same_value g f.
Proof.
  intros Hr Hp Hend He Hd.
  destruct (report_accounts requests concurrency cancelled publish p runID elapsed Hr Hp Hend) as (r & Es & _ & _ & Hsum & _).
  pose proof (pipeline_ok_reachable _ _ _ _ _ (proj1 Hr) Hp) as Hok. destruct (ended_samples _ _ _ p Hok Hend) as (_ & Hlen & _).
  pose proof (figures_good requests (collected p) elapsed runID r (proj1 Hr) ltac:(lia) He Hd Es) as Hf.
  destruct (report_plain r) as [Hplain Hdepth]; [by eapply Forall_impl; [exact Hf|intros f [? _]]|].
  destruct (plain_marshals _ Hplain) as [text Ht].
  destruct (EncodeIndent_object (bytes_of "  ") eq_refl _ text Ht) as (out & Ho & Hv & Hs); [unfold maxNestingDepth; lia|].
  exists r, text, out. split_and!; try done.
  - intros output. unfold write_report. by rewrite Ho.
  - intros f Hin. rewrite Forall_forall in Hf. destruct (Hf f Hin) as [Hfin Hrep]. destruct f as [m e|s|]; [|done..].
    destruct (FormatFloat_reads m e Hrep) as (b & g & H1 & H2 & H3). by exists b, g.
Qed.

Lemma report_written_witness :
  ∃ r out, summarize "run" 1 (collected demo_pipeline) 1500000000 = Some r ∧ json_Valid out = true
    ∧ ∀ output, write_report (ZO := {| zone_offset := λ _, 0 |}) output r = output out.
Proof.
  destruct (report_written (ZO := {| zone_offset := λ _, 0 |}) (UX := plain_unicode) 1 1 false (λ _ _, True) demo_pipeline "run" 1500000000)
    as (r & text & out & Hr & _ & _ & Hw & Hv & _);
    [lia|apply demo_pipeline_reached|reflexivity|lia|repeat constructor; cbn; lia|by exists r, out].
Defined.

(** The text of a report, with single quotes. *)
Example report_text :
  match summarize "run" 3 [mkSample 1500000 202 ""; mkSample 2000000 500 "http 500: down"] (2 * Second) with
  | Some r =>
      write_report (ZO := {| zone_offset := λ _, 0 |})
        (λ b, Err (New (to_single b))) r
      = Err (New (string_of (concat (map (λ l, bytes_of l ++ [x0a])
          ["{"; "  'run_id': 'run',"; "  'requested': 3,"; "  'completed': 2,"; "  'accepted': 1,"; "  'failed': 2,";
           "  'duration_seconds': 2,"; "  'requests_per_second': 1,"; "  'latency': {"; "    'min_ms': 1.5,"; "    'p50_ms': 1.5,";
           "    'p95_ms': 2,"; "    'p99_ms': 2,"; "    'max_ms': 2"; "  },"; "  'status_codes': {"; "    '202': 1,"; "    '500': 1"; "  },";
           "  'errors': {"; "    'http 500: down': 1,"; "    'not started': 1"; "  }"; "}"]%string))))
  | None => False
  end.
Proof. vm_compute. reflexivity. Qed.
